(* ===== verification/_CoqProject ===== *)
-Q . S2P
Prelude.v
CInt.v
Double.v
Scan.v
Utils.v
Meter.v
Kernel.v
SimKernel.v
Poll.v
Buffer.v
Socket.v
SocketLat.v
SocketUdp.v
Endpoint.v
EndpointSpec.v
IOMode.v
EndpointProofs.v
EndpointProps.v
BwApp.v
SocketBwClient.v
SocketBwServer.v
ServerProofs.v
ServerProps.v
Keeps.v
ServerTypes.v
ServerLive.v
Edge.v
EdgeServer.v
EdgeLive.v
EdgeTotal.v
EdgeSim.v
Pacing.v
System.v
SystemServer.v
SystemProps.v
SystemRuns.v
ClosedLoop.v
ClosedLoopProps.v
HotelProps.v
GrpcServer.v
Threads.v
GrpcThreads.v
TputThreads.v
CpuStat.v
CpuStatProps.v
CommandLine.v
CommandLineProps.v
LatClient.v
LatClientProps.v
RpcBw.v
RpcBwProps.v
GrpcSetup.v
Zeromq.v
ZeromqProps.v
