(* ===== verification/Prelude.v ===== *)
(** * rpc-bench: a verification development

    rpc-bench measures what RPC libraries cost.  One program, started as a server
    or as a client (src/src/rpc_bench.cc), runs one of the benchmarks bandwidth,
    latency, throughput and hotel reservation over plain sockets, gRPC, brpc or
    ZeroMQ.  This library models the program's own code in the directory
    src/src/ -- every path below is relative to it -- and proves what that code
    does.  Libraries, the operating system and the network are type classes of
    operations with the laws the code relies on; every class has an instance that
    runs, so that the hypotheses can hold and the examples evaluate.

    ** The language of the models

    C++ code is a function of the monad [M S A] of this file: from a state it
    returns a value and a state, or stops for a reason ([Fatal], a failed CHECK or
    LOG(FATAL); [Throw], an exception; [Exit]; [Undef], undefined behaviour;
    [OutOfFuel]).  [wp E m s Q] says that [m] returns with [Q] or stops for a reason
    in [E]: [total] allows none, [safe] allows an abort and more rounds of a loop.
    Integers are of type Z at the width of the source (CInt.v: [i32], [u32], [u64]
    wrap around; [signed32] and [signed64] are undefined on overflow).  Objects
    that are shared or deleted live in an explicit heap.  Time points are exact
    nanoseconds and clocks are functions of their state, most often only supposed
    to advance.  The doubles of the latency client are rationals that are rounded after
    each operation (Double.v); the other figures that are printed as doubles are kept as
    the integers they come from, or as exact quotients ([ratio] of ClosedLoop.v).

    ** Parts and files

    - Prelude.v, CInt.v, Double.v, Scan.v: the monad and its rules; machine integers;
      rounding to doubles, and the errors of sums and means; the functions of the C
      library that read text ([std::stoi], [fscanf]).
    - Utils.v (prism/utils.h): settings from environment variables, [FormatString].
    - Kernel.v, SimKernel.v: the system calls the socket code makes, with laws for
      any kernel ([KernelLaws]: only what a call may not do) and for a reliable one
      ([KernelReliable]); a simulated kernel that satisfies both.
    - Poll.v (socket/poll.h): [Interest], [Selector], [Event], [Registry], [Poll].
    - Buffer.v (socket/buffer.h): owning and borrowed buffers over the heap.
    - Socket.v (socket/socket.h): addresses, [Socket], [TcpSocket], the loops
      [SendAll] and [RecvAll].  SocketLat.v (socket/socket_lat_app.{h,cc}): the two
      classes of the latency benchmark over a socket, which nothing creates.
      SocketUdp.v: the class [UdpSocket] and two getters of [Socket], which nothing uses.
    - Endpoint.v (socket/bw_server_endpoint.{h,cc}): the state machine of a
      connection.  EndpointSpec.v: the reference function [answer] from the bytes
      received to the bytes to send.  IOMode.v: the interface under which the
      handlers are verified once for both kinds of kernel.  EndpointProofs.v: the
      invariant; EndpointProps.v: safety, refinement of [answer], progress.
    - SocketBwServer.v (socket/socket_bw_app.{h,cc}, server): the event loop, the
      table of connections, the life of the objects.  ServerProofs.v, ServerProps.v:
      its invariant, isolation of connections, safety of the loop.  Keeps.v: what
      cannot happen to the world of a server while other connections are handled.
      ServerLive.v: what every connection of the server has done after any rounds.
      ServerTypes.v: the typing of the objects, their buffers and the blocks below them.
    - Edge.v, EdgeServer.v: edge-triggered epoll (EPOLLET in poll.h): when a registration
      is reported ([EdgeLaws]), peers that wait for their answers ([ClosedLoop]), and why
      the loop misses nothing.  EdgeLive.v: infinite runs of the loop, and what a kernel,
      a network and a peer that are [fair] make it finish.  EdgeSim.v: such a kernel that
      runs, and two runs in which something is missed: a peer that does not wait, two
      clients at one moment.  EdgeTotal.v: the handlers return over such a kernel, when the
      sizes of a request arrive together.
    - SocketBwClient.v (same files, client): [Init], [PushData], and the
      conversation with a server that answers like [answer].  Pacing.v: a kernel that
      logs its calls, and what holds at every call of the client: it is a peer that waits.
    - System.v: client and server as one system.  The client runs over a kernel in which
      the whole server runs, its loop over the kernel of EdgeSim.v; before each call of the
      client a schedule lets the server make some steps and bytes arrive.  SystemServer.v:
      what the server keeps meanwhile, and its progress.  SystemProps.v: what holds
      between the two, and that each push comes to its end.  SystemRuns.v: whole runs.
    - BwApp.v (bw_app.{h,cc}): messages, packing, [BwClientApp::Run] against any
      [PushData].
    - RpcBw.v, RpcBwProps.v (grpc/grpc_bw_app.{h,cc}, brpc/brpc_bw_app.{h,cc}):
      clients and handlers over an RPC library that may lose, delay, repeat and fail
      calls; both ends of the benchmark together.
    - Zeromq.v, ZeromqProps.v (zeromq/zeromq_bw_app.{h,cc}): client and server over
      the functions of a ZeroMQ socket; both ends together.
    - Meter.v (meter.h): the throughput meter that every benchmark calls.
    - ClosedLoop.v, ClosedLoopProps.v, HotelProps.v (grpc/grpc_tput_app.{h,cc},
      grpc/hotel_reservation_app.cc): the closed loop of the throughput and hotel
      clients over a completion queue, with the figures they print; the generator of the
      hotel workload.
    - LatClient.v, LatClientProps.v (grpc/grpc_lat_app.{h,cc}, lat_app.{h,cc}): the
      latency client, the mean and the percentiles it prints.  A latency is kept in
      nanoseconds; its double is [micros] of them, and keeps the order.
    - GrpcServer.v (grpc/grpc_lat_app.cc, grpc/hotel_reservation_app.cc): the
      asynchronous servers, a state machine per call.
    - GrpcThreads.v (grpc/grpc_lat_app.{h,cc}, server): the threads of the latency
      server, in any order of their turns, over the vector of queues and the heap of calls
      that they share.  Threads.v, TputThreads.v (grpc/grpc_tput_app.cc): the threads of
      the throughput client, which share nothing that changes.
    - GrpcSetup.v (grpc/grpc_{bw,lat,tput}_app.cc, grpc/hotel_reservation_app.cc): the
      channels of the clients, what the servers ask of their builder, and the [Run]
      methods that begin so.
    - CpuStat.v, CpuStatProps.v (cpu_stat.{h,cc}, [CpuMonitor] of rpc_bench.cc).
    - CommandLine.v, CommandLineProps.v (rpc_bench.cc, command_opts.h, app.cc):
      the options, [ParseArgument], [App::Create], [main].

    A record of a model has the members of the class it models, a definition the
    name of its function.  The applications are put together as in the source: the
    clients of the bandwidth benchmark instantiate [BwApp.Run] with their [Init] and
    [PushData]; the server loop calls the handlers of Endpoint.v, which call Buffer.v,
    Socket.v and Poll.v; every part that counts calls Meter.v; [CommandLine.main]
    takes the [Run] methods as an argument.

    ** What the theorems show

    The socket server: memory safety against any kernel ([endpoint_safe],
    [server_safe]); what a connection has sent is always a prefix of [answer] of what
    it received ([endpoint_refines_answer]); over a reliable kernel every request is
    answered ([endpoint_echoes_headers]); an event touches its own connection only
    ([server_isolation]); so both hold for every connection of a server that has
    many, however their events are interleaved ([server_refines_answer],
    [server_echoes_headers]).  Every object has the members of its state, of the right
    sizes and in its own blocks ([server_well_typed]).  Over edge-triggered epoll, when
    the loop has handled all it was told and nothing will be reported for a connection
    whose peer waits for its answers, all that has arrived has been read and answered
    ([server_misses_no_wakeup]), and if what is pending is reported, room comes again and
    an answered peer sends on, everything is answered in the end, in every infinite run of
    the loop ([server_answers_all]); the program's own client is such a peer, and never waits
    for what only a later request would bring ([client_paces]).  As one system, from their
    start and under every schedule, the client and the server come to the end of the
    client's [Run] with every request answered ([SocketBw_Run]), and what they do is what
    a sequential program does, so any two schedules agree ([interleavings_agree]).
    The settings of the loop come from the environment,
    and one that is zero or negative stops the server before its first round
    ([Run_environment]).  The bandwidth client ends and counts its successful pushes
    ([BwClientApp_Run]); over sockets, gRPC, brpc and ZeroMQ what it counts is related
    to what the other side has done ([PushAll_conversation], [GrpcBw_Run],
    [BrpcBw_Run], [ZeromqBw_Run]); the ZeroMQ server takes requests of any parts, over a
    meter of any contents ([RunZero_serves]).  The closed loops see their timeout, drain
    their calls and count each once, with any number of threads ([Tput_Run_drains],
    [Hotel_Run_drains]); the servers ask their builder for what the environment says
    ([servers_start]), keep one call waiting and answer each request once
    ([Job_serves]), also with threads that share their queues and calls
    ([Lat_Run_serves]); the generator
    of the hotel workload has full period ([workload_share]).  The latency client
    ends if failures are bounded, hangs if every call fails, its percentiles are at the
    exact ranks, and its mean is right but for the roundings of the doubles
    ([lat_Run_ends], [lat_loop_hangs], [print_percentiles]).  The
    meter loses nothing ([AddQps_conservation]) until its counter overflows
    ([AddQps_overflow]).  Options survive the command line, which never misbehaves
    ([ParseArgument_render], [ParseArgument_outcome]), and select the class of a
    table, whose [Run] must not return: [main] then deletes the object through a class
    without a virtual destructor, which is undefined ([main_dispatch]).  Snapshots are
    what the kernel printed, intervals do not wrap around, and the text of a snapshot
    fits its buffer
    ([Snapshot_reads], [GetCpuInterval_clamped], [DebugString_fits]).

    ** Fuel

    Loops without a structural measure take a number of iterations.  The theorems
    that say that code returns have hypotheses on it that are met by some number:
    the patience of a reliable kernel (the bytes and the failures still to come) for
    the socket loops; 65 for [RoundUpPower2], one for each bit; the length of the
    command line for [getopt_long]; the duration over the least step of the clock for
    the loops with a timeout; the longest run of interruptions for a send over
    ZeroMQ.  The servers' loops never end: their theorems hold for every number of
    rounds.  In the system of client and server nothing blocks for ever: the loops of the
    client need [session_fuel], which is computed from the messages alone; with each call
    that blocks the bytes under way, or what the server has left to do, get less.

    ** Not modelled

    What lies below the interfaces: the libraries, the kernel and the network; the order
    of the threads is a parameter where the program makes threads, but the sync server of
    the gRPC bandwidth benchmark runs its handlers one at a time in the model, while the
    library may run them on several threads over one unprotected meter.  The text on
    the terminal apart from its numbers, and the macros of logging.h.  The destructor of
    [GrpcLatServerApp], which is not reached: its [Run] does not return.  The Rust
    programs and the Envoy filter beside src/src/.  A member that the source leaves
    uninitialised is whatever was in its place ([log_id_], the meter of the ZeroMQ
    server) or [None] (the fields of an acknowledgement).  The name of a meter, which is
    only printed, is no part of it (in the throughput client it points to a string that is
    gone, in the ZeroMQ server it is not initialised either).  Signals interrupt the sends
    over ZeroMQ and the client's wait for an answer, but not the server's receives.  What
    a completion queue is worth when [BuildAndStart] has returned null is left open: the
    theorems about the threads and the handlers are about servers that have started.

    In System.v the server handles an event in one step, so the steps of the two programs
    interleave at the client's system calls and between the server's events; and at least
    eight bytes, or all there are, travel together.  With fewer the handler that reads the
    two sizes of a request waits in [RecvAll] for the rest, calling [recv] again and again:
    the other side would have to act inside that loop.  The connection of the system is the
    only one; ServerLive.v and EdgeLive.v treat one connection among many. *)

From stdpp Require Export base gmap sets list strings numbers.
From stdpp Require Import options.

#[global] Set Default Proof Using "Type".

(** * How a piece of the program ends *)

(** The C++ exceptions the program can raise (it catches none of them). *)
Inductive exn :=
  | bad_optional_access
  | invalid_argument
  | out_of_range
  | length_error.

#[export] Instance exn_eq_dec : EqDecision exn.
Proof. solve_decision. Defined.

(** Why a piece of C++ code does not return. *)
Inductive stop :=
  | Fatal            (* a CHECK, PCHECK or LOG(FATAL) aborts the process *)
  | Throw (e : exn)  (* an exception leaves the code *)
  | Exit (code : Z)  (* exit() ends the process *)
  | Undef            (* undefined behaviour of C++ *)
  | OutOfFuel.       (* the fuel given to a loop did not suffice *)

#[export] Instance stop_eq_dec : EqDecision stop.
Proof. solve_decision. Defined.

(** The result of running a piece of C++ code. *)
Inductive outcome (A : Type) :=
  | Ret (a : A)
  | Stop (r : stop).

Arguments Ret {A} _.
Arguments Stop {A} _.

#[export] Instance outcome_eq_dec `{EqDecision A} : EqDecision (outcome A).
Proof. solve_decision. Defined.

(** State-passing code over a state [S]. *)
Definition M (S A : Type) : Type := S → outcome (A * S).

#[export] Instance M_ret S : MRet (M S) := λ A a s, Ret (a, s).

#[export] Instance M_bind S : MBind (M S) := λ A B k m s,
  match m s with
  | Ret (a, s') => k a s'
  | Stop r => Stop r
  end.

Definition get {S} : M S S := λ s, Ret (s, s).
Definition gets {S A} (f : S → A) : M S A := λ s, Ret (f s, s).
Definition put {S} (s : S) : M S unit := λ _, Ret (tt, s).
Definition modify {S} (f : S → S) : M S unit := λ s, Ret (tt, f s).
Definition fatal {S A} : M S A := λ _, Stop Fatal.
Definition throw {S A} (e : exn) : M S A := λ _, Stop (Throw e).
Definition undef {S A} : M S A := λ _, Stop Undef.
Definition exit {S A} (code : Z) : M S A := λ _, Stop (Exit code).
Definition nofuel {S A} : M S A := λ _, Stop OutOfFuel.

(** [CHECK(b)] of glog: the process aborts when [b] is false. *)
Definition check {S} (b : bool) : M S unit := if b then mret tt else fatal.

(** Dereferencing a pointer or a smart pointer that may be null. *)
Definition deref {S A} (o : option A) : M S A :=
  match o with Some a => mret a | None => undef end.

(** [std::optional::value()]. *)
Definition value {S A} (o : option A) : M S A :=
  match o with Some a => mret a | None => throw bad_optional_access end.

(** Code over a part of the state. *)
Definition zoom {S T A} (g : T → S) (p : S → T → T) (m : M S A) : M T A := λ t,
  match m (g t) with
  | Ret (a, s) => Ret (a, p s t)
  | Stop r => Stop r
  end.

(** A total step of the environment as code. *)
Definition lift {S A} (f : S → A * S) : M S A := λ s, Ret (f s).

(** * Weakest preconditions *)

(** [wp E m s Q]: run from [s], the code [m] returns with [Q], or it stops
    for a reason allowed by [E]. *)
Definition wp {S A} (E : stop → Prop) (m : M S A) (s : S) (Q : A → S → Prop) : Prop :=
  match m s with
  | Ret (a, s') => Q a s'
  | Stop r => E r
  end.

(** Total correctness: the code returns. *)
Definition total : stop → Prop := λ _, False.
(** Safety: the code returns, or one of its own checks aborts the process, or
    it is still in a loop; it neither throws nor meets undefined behaviour. *)
Definition safe : stop → Prop := λ r, r = Fatal ∨ r = OutOfFuel.

Section wp.
Context {S : Type} (E : stop → Prop).
Implicit Types (s : S).

Lemma wp_ret {A} (a : A) s (Q : A → S → Prop) : Q a s → wp E (mret a) s Q.
Proof. done. Qed.

Lemma wp_bind {A B} (m : M S A) (k : A → M S B) s Q :
  wp E m s (λ a s', wp E (k a) s' Q) → wp E (m ≫= k) s Q.
Proof. unfold wp, mbind, M_bind. by destruct (m s) as [[]|]. Qed.

Lemma wp_bind_inv {A B} (m : M S A) (k : A → M S B) s Q :
  wp E (m ≫= k) s Q → wp E m s (λ a s', wp E (k a) s' Q).
Proof. unfold wp, mbind, M_bind. by destruct (m s) as [[]|]. Qed.

Lemma wp_mono {A} (m : M S A) s (P Q : A → S → Prop) :
  wp E m s P → (∀ a s', P a s' → Q a s') → wp E m s Q.
Proof. unfold wp. destruct (m s) as [[]|]; auto. Qed.

Lemma wp_weaken {A} (E' : stop → Prop) (m : M S A) s (Q : A → S → Prop) :
  wp E' m s Q → (∀ r, E' r → E r) → wp E m s Q.
Proof. unfold wp. destruct (m s) as [[]|]; auto. Qed.

Lemma wp_stop {A} r s (Q : A → S → Prop) : E r → wp E (λ _, Stop r) s Q.
Proof. done. Qed.
Lemma wp_get s (Q : S → S → Prop) : Q s s → wp E get s Q.
Proof. done. Qed.
Lemma wp_gets {A} (f : S → A) s (Q : A → S → Prop) : Q (f s) s → wp E (gets f) s Q.
Proof. done. Qed.
Lemma wp_put s s' (Q : unit → S → Prop) : Q tt s' → wp E (put s') s Q.
Proof. done. Qed.
Lemma wp_modify f s (Q : unit → S → Prop) : Q tt (f s) → wp E (modify f) s Q.
Proof. done. Qed.
Lemma wp_deref {A} (o : option A) a s (Q : A → S → Prop) :
  o = Some a → Q a s → wp E (deref o) s Q.
Proof. by intros ->. Qed.
Lemma wp_check b s (Q : unit → S → Prop) :
  (b = false → E Fatal) → (b = true → Q tt s) → wp E (check b) s Q.
Proof. destruct b; unfold wp; simpl; auto. Qed.
Lemma wp_lift {A} (f : S → A * S) s (Q : A → S → Prop) :
  (∀ a s', f s = (a, s') → Q a s') → wp E (lift f) s Q.
Proof. unfold wp, lift. destruct (f s) as [a s'] eqn:Ef. auto. Qed.

(** Total correctness gives the result of the run. *)
Lemma wp_run {A} (m : M S A) s (Q : A → S → Prop) :
  wp total m s Q → ∃ a s', m s = Ret (a, s') ∧ Q a s'.
Proof. unfold wp, total. destruct (m s) as [[]|]; naive_solver. Qed.

(** Two facts about the same run. *)
Lemma wp_and {A} (E' : stop → Prop) (m : M S A) s (P Q : A → S → Prop) :
  wp E m s P → wp E' m s Q → wp E m s (λ a s', P a s' ∧ Q a s').
Proof. unfold wp. destruct (m s) as [[]|]; auto. Qed.

(** A run that returns has what was proved of it. *)
Lemma wp_elim {A} (m : M S A) s a s' (Q : A → S → Prop) :
  wp E m s Q → m s = Ret (a, s') → Q a s'.
Proof. unfold wp. intros H Heq. by rewrite Heq in H. Qed.

Lemma wp_eq {A} (m : M S A) s (Q : A → S → Prop) :
  wp E m s (λ a s', m s = Ret (a, s') → Q a s') → wp E m s Q.
Proof. unfold wp. destruct (m s) as [[]|]; auto. Qed.

Lemma wp_intro {A} (m : M S A) s a s' (Q : A → S → Prop) :
  m s = Ret (a, s') → Q a s' → wp E m s Q.
Proof. unfold wp. by intros ->. Qed.
End wp.

Lemma wp_any {S A} (m : M S A) s : wp (λ _, True) m s (λ _ _, True).
Proof. unfold wp. by destruct (m s) as [[]|]. Qed.

Lemma wp_zoom {S T A} E (g : T → S) (p : S → T → T) (m : M S A) t (Q : A → T → Prop) :
  wp E m (g t) (λ a s, Q a (p s t)) → wp E (zoom g p m) t Q.
Proof. unfold wp, zoom. by destruct (m (g t)) as [[]|]. Qed.

(** One step of symbolic execution. *)
Ltac wp_step :=
  lazymatch goal with
  | |- wp _ (mbind _ _) _ _ => apply wp_bind
  | |- wp _ (mret _) _ _ => apply wp_ret
  | |- wp _ get _ _ => apply wp_get
  | |- wp _ (gets _) _ _ => apply wp_gets
  | |- wp _ (put _) _ _ => apply wp_put
  | |- wp _ (modify _) _ _ => apply wp_modify
  | |- wp _ (zoom _ _ _) _ _ => apply wp_zoom
  end.
Ltac wp_steps := repeat (wp_step; simpl).
