(* ===== verification/CInt.v ===== *)
(** Machine integers of the x86-64 Linux ABI the program is built for: values
    are [Z], every operation that can leave the range of its type goes through
    the wrapping function of that type.  Also bytes and the little-endian
    layout of a [uint32_t] in memory. *)
From Stdlib Require Export Strings.Byte.
From S2P Require Import Prelude.

Local Open Scope Z_scope.

Definition u8 (z : Z) : Z := z mod 2 ^ 8.
Definition u16 (z : Z) : Z := z mod 2 ^ 16.
Definition u32 (z : Z) : Z := z mod 2 ^ 32.
Definition u64 (z : Z) : Z := z mod 2 ^ 64.
Definition i32 (z : Z) : Z := (z + 2 ^ 31) mod 2 ^ 32 - 2 ^ 31.
Definition i64 (z : Z) : Z := (z + 2 ^ 63) mod 2 ^ 64 - 2 ^ 63.

Definition INT_MAX : Z := 2 ^ 31 - 1.
Definition INT_MIN : Z := - 2 ^ 31.
Definition LONG_MAX : Z := 2 ^ 63 - 1.
Definition LONG_MIN : Z := - 2 ^ 63.

Definition in_i32 (z : Z) : bool := (INT_MIN <=? z) && (z <=? INT_MAX).
Definition in_i64 (z : Z) : bool := (LONG_MIN <=? z) && (z <=? LONG_MAX).

(** Signed arithmetic: leaving the type is undefined behaviour. *)
Definition signed32 {S} (z : Z) : M S Z := if in_i32 z then mret z else undef.
Definition signed64 {S} (z : Z) : M S Z := if in_i64 z then mret z else undef.

Lemma u32_small z : 0 <= z < 2 ^ 32 → u32 z = z.
Proof. apply Z.mod_small. Qed.
Lemma u64_small z : 0 <= z < 2 ^ 64 → u64 z = z.
Proof. apply Z.mod_small. Qed.
Lemma u8_small z : 0 <= z < 2 ^ 8 → u8 z = z.
Proof. apply Z.mod_small. Qed.
Lemma i32_small z : INT_MIN <= z <= INT_MAX → i32 z = z.
Proof. unfold i32, INT_MIN, INT_MAX. intros. rewrite Z.mod_small; lia. Qed.
Lemma i64_small z : LONG_MIN <= z <= LONG_MAX → i64 z = z.
Proof. unfold i64, LONG_MIN, LONG_MAX. intros. rewrite Z.mod_small; lia. Qed.
Lemma u32_range z : 0 <= u32 z < 2 ^ 32.
Proof. apply Z.mod_pos_bound. lia. Qed.
Lemma u64_range z : 0 <= u64 z < 2 ^ 64.
Proof. apply Z.mod_pos_bound. lia. Qed.
Lemma i32_range z : INT_MIN <= i32 z <= INT_MAX.
Proof.
  unfold i32, INT_MIN, INT_MAX.
  pose proof (Z.mod_pos_bound (z + 2 ^ 31) (2 ^ 32)). lia.
Qed.

(** Converting to [int] and back keeps the 32 bits. *)
Lemma u32_i32 z : u32 (i32 z) = u32 z.
Proof.
  unfold u32, i32.
  rewrite Zminus_mod_idemp_l. f_equal. lia.
Qed.

Lemma i32_u32 z : i32 (u32 z) = i32 z.
Proof. unfold u32, i32. by rewrite Zplus_mod_idemp_l. Qed.

Lemma u32_idemp z : u32 (u32 z) = u32 z.
Proof. apply Z.mod_mod. lia. Qed.

Lemma u64_add_l a b : u64 (u64 a + b) = u64 (a + b).
Proof. apply Zplus_mod_idemp_l. Qed.
Lemma u64_add_r a b : u64 (a + u64 b) = u64 (a + b).
Proof. apply Zplus_mod_idemp_r. Qed.
Lemma u64_sub_l a b : u64 (u64 a - b) = u64 (a - b).
Proof. apply Zminus_mod_idemp_l. Qed.
Lemma u64_sub_r a b : u64 (a - u64 b) = u64 (a - b).
Proof. apply Zminus_mod_idemp_r. Qed.
Lemma u64_of_nat_add z n : u64 (u64 z + n) = u64 (z + n).
Proof. apply u64_add_l. Qed.

(** * Bytes *)

#[export] Instance byte_eq_dec : EqDecision byte := Byte.byte_eq_dec.

Definition byte_to_Z (b : byte) : Z := Z.of_N (Byte.to_N b).

Definition byte_of_Z (z : Z) : byte :=
  default Byte.x00 (Byte.of_N (Z.to_N (u8 z))).

Lemma byte_to_of_Z z : byte_to_Z (byte_of_Z z) = u8 z.
Proof.
  unfold byte_to_Z, byte_of_Z.
  assert (0 <= u8 z < 2 ^ 8) by (apply Z.mod_pos_bound; lia).
  destruct (Byte.of_N (Z.to_N (u8 z))) as [b|] eqn:E; simpl.
  - apply Byte.to_of_N in E. lia.
  - apply Byte.of_N_None_iff in E. lia.
Qed.

Lemma byte_to_Z_range b : 0 <= byte_to_Z b < 2 ^ 8.
Proof. unfold byte_to_Z. pose proof (Byte.to_N_bounded b). lia. Qed.

(** * The little-endian layout of a uint32_t *)

Definition le32 (z : Z) : list byte :=
  [byte_of_Z z; byte_of_Z (Z.shiftr z 8); byte_of_Z (Z.shiftr z 16); byte_of_Z (Z.shiftr z 24)].

(** Reading [*reinterpret_cast<uint32_t*>(p)]: the value of the first four bytes. *)
Definition of_le32 (bs : list byte) : Z :=
  match bs with
  | b0 :: b1 :: b2 :: b3 :: _ =>
      byte_to_Z b0 + 2 ^ 8 * byte_to_Z b1 + 2 ^ 16 * byte_to_Z b2 + 2 ^ 24 * byte_to_Z b3
  | _ => 0
  end.

Lemma length_le32 z : length (le32 z) = 4%nat.
Proof. done. Qed.

Lemma of_le32_le32 z rest : of_le32 (le32 z ++ rest) = u32 z.
Proof.
  unfold le32. cbn [app of_le32]. rewrite !byte_to_of_Z.
  unfold u8, u32. rewrite !Z.shiftr_div_pow2 by lia.
  change (2 ^ 8) with 256. change (2 ^ 16) with 65536. change (2 ^ 24) with 16777216.
  change (2 ^ 32) with 4294967296.
  Z.div_mod_to_equations. lia.
Qed.

Lemma of_le32_app bs rest : (4 ≤ length bs)%nat → of_le32 (bs ++ rest) = of_le32 bs.
Proof. destruct bs as [|b0 [|b1 [|b2 [|b3 bs]]]]; simpl; lia || done. Qed.

Lemma of_le32_range bs : 0 <= of_le32 bs < 2 ^ 32.
Proof.
  unfold of_le32. destruct bs as [|b0 [|b1 [|b2 [|b3 ?]]]]; try lia.
  pose proof (byte_to_Z_range b0). pose proof (byte_to_Z_range b1).
  pose proof (byte_to_Z_range b2). pose proof (byte_to_Z_range b3). lia.
Qed.

Create HintDb cint.
Create Rewrite HintDb cint.
#[export] Hint Rewrite u64_add_l u64_add_r u64_sub_l u64_sub_r u32_idemp u32_i32 : cint.
#[export] Hint Resolve u32_range u64_range i32_range of_le32_range byte_to_Z_range : cint.
