(* ===== verification/Double.v ===== *)
(** The doubles of the program: numbers that are rounded to 53 bits, ties to even,
    after every operation.  No figure of the program is as large, or as close to
    zero, as to leave the range of the exponents, so only the mantissa is bounded.
    The relative error of a rounding is at most [eps]; [near k] is that of [k]
    roundings in a row. *)
From Stdlib Require Import QArith Qround Qpower Lqa SpecFloat.
From S2P Require Import Prelude.

Local Open Scope Q_scope.

(** * Rounding *)

(** The nearest integer, the even one of two. *)
Definition nearest_even (x : Q) : Z :=
  let n := Qfloor x in
  match (x - inject_Z n ?= 1 # 2)%Q with
  | Lt => n
  | Eq => if Z.even n then n else (n + 1)%Z
  | Gt => (n + 1)%Z
  end.

(** The exponent of a positive number: [2 ^ e <= x < 2 ^ (e + 1)]. *)
Definition binade (x : Q) : Z :=
  let e := (Z.log2 (Qnum x) - Z.log2 (Zpos (Qden x)))%Z in
  if Qle_bool (2 ^ e)%Q x then e else (e - 1)%Z.

Definition round_pos (x : Q) : Q :=
  let ulp := 2 ^ (binade x - 52) in inject_Z (nearest_even (x / ulp)) * ulp.

Definition double_round (x : Q) : Q :=
  match (x ?= 0) with
  | Eq => 0
  | Gt => Qred (round_pos x)
  | Lt => Qred (- round_pos (- x))
  end.

(** The operations of the source. *)
Definition double_of_Z (n : Z) : Q := double_round (inject_Z n).
Definition double_add (x y : Q) : Q := double_round (x + y).
Definition double_mul (x y : Q) : Q := double_round (x * y).
Definition double_div (x y : Q) : Q := double_round (x / y).

(** * The error of a rounding *)

Lemma floor_spec x : inject_Z (Qfloor x) <= x < inject_Z (Qfloor x) + 1.
Proof.
  split; [apply Qfloor_le|]. pose proof (Qlt_floor x) as H. by rewrite inject_Z_plus in H.
Qed.

Lemma nearest_even_cases x :
  (nearest_even x = Qfloor x ∧ x <= inject_Z (Qfloor x) + (1 # 2)) ∨
  (nearest_even x = (Qfloor x + 1)%Z ∧ inject_Z (Qfloor x) + (1 # 2) <= x).
Proof.
  unfold nearest_even. destruct (Qcompare_spec (x - inject_Z (Qfloor x)) (1 # 2)).
  - destruct (Z.even _); [left|right]; (split; [done|lra]).
  - left. split; [done|lra].
  - right. split; [done|lra].
Qed.

Lemma nearest_even_half x :
  x - (1 # 2) <= inject_Z (nearest_even x) <= x + (1 # 2).
Proof.
  pose proof (floor_spec x). destruct (nearest_even_cases x) as [[-> ?]|[-> ?]];
    rewrite ?inject_Z_plus; change (inject_Z 1) with 1; lra.
Qed.

Lemma nearest_even_mono x y : x <= y → (nearest_even x <= nearest_even y)%Z.
Proof.
  intros Hxy. pose proof (Qfloor_resp_le _ _ Hxy) as Hf.
  destruct (decide (Qfloor x = Qfloor y)) as [He|He].
  - unfold nearest_even. rewrite He.
    destruct (Qcompare_spec (x - inject_Z (Qfloor y)) (1 # 2)),
      (Qcompare_spec (y - inject_Z (Qfloor y)) (1 # 2));
      try (exfalso; lra); try destruct (Z.even (Qfloor y)); lia.
  - destruct (nearest_even_cases x) as [[-> _]|[-> _]], (nearest_even_cases y) as [[-> _]|[-> _]]; lia.
Qed.

Lemma nearest_even_Z n : nearest_even (inject_Z n) = n.
Proof.
  unfold nearest_even. rewrite Qfloor_Z.
  destruct (Qcompare_spec (inject_Z n - inject_Z n) (1 # 2)); [exfalso; lra|done|exfalso; lra].
Qed.

Lemma pow2_pos e : 0 < 2 ^ e.
Proof. by apply Qpower_0_lt. Qed.

Lemma pow2_succ e : 2 ^ (e + 1) == 2 * 2 ^ e.
Proof. rewrite Qpower_plus by done. change (2 ^ 1) with 2. ring. Qed.

(** From a bound by powers of two of integers to one of rationals. *)
Lemma Zpow2_Q n e :
  (0 <= e)%Z → (2 ^ e <= n < 2 ^ Z.succ e)%Z → 2 ^ e <= inject_Z n < 2 * 2 ^ e.
Proof.
  intros He [H1 H2]. change 2 with (inject_Z 2). rewrite <- Zpower_Qpower, <- inject_Z_mult by done.
  rewrite <- Zle_Qle, <- Zlt_Qlt, <- Z.pow_succ_r by done. done.
Qed.

Lemma binade_spec x : 0 < x → 2 ^ binade x <= x < 2 ^ (binade x + 1).
Proof.
  intros Hx. unfold binade. set (e := (Z.log2 (Qnum x) - Z.log2 (Zpos (Qden x)))%Z).
  assert (Hn : (0 < Qnum x)%Z) by (destruct x as [n d]; unfold Qlt in Hx; simpl in *; lia).
  destruct (Z.log2_spec (Qnum x) Hn) as [Hn1 Hn2].
  destruct (Z.log2_spec (Zpos (Qden x)) ltac:(lia)) as [Hd1 Hd2].
  assert (Heq : x == inject_Z (Qnum x) / inject_Z (Zpos (Qden x))).
  { destruct x as [n d]. by rewrite <- Qmake_Qdiv. }
  assert (Hbounds : 2 ^ (e - 1) <= x < 2 ^ (e + 1)).
  { set (A := 2 ^ Z.log2 (Qnum x)). set (B := 2 ^ Z.log2 (Zpos (Qden x))).
    assert (HA : A <= inject_Z (Qnum x) < 2 * A) by (apply Zpow2_Q; [apply Z.log2_nonneg|done]).
    assert (HB : B <= inject_Z (Zpos (Qden x)) < 2 * B) by (apply Zpow2_Q; [apply Z.log2_nonneg|done]).
    assert (He : 2 ^ e * B == A).
    { unfold A, B, e. rewrite Qpower_minus by done. field. apply Qnot_eq_sym, Qlt_not_eq, pow2_pos. }
    assert (He1 : 2 ^ e == 2 * 2 ^ (e - 1)) by (rewrite <- pow2_succ; by replace (e - 1 + 1)%Z with e by lia).
    pose proof (pow2_pos e) as Hpe. rewrite pow2_succ, Heq.
    assert (0 < B) by apply pow2_pos.
    split; [apply Qle_shift_div_l|apply Qlt_shift_div_r]; try lra; nra. }
  destruct (Qle_bool (2 ^ e) x) eqn:Hle.
  - apply Qle_bool_iff in Hle. tauto.
  - replace (e - 1 + 1)%Z with e by lia. split; [tauto|].
    apply Qnot_le_lt. intros Hc%Qle_bool_iff. congruence.
Qed.

(** The unit roundoff, [2 ^ -53]. *)
Definition eps : Q := 1 # 9007199254740992.

(** [x] is [y] after at most [k] roundings. *)
Definition near (k : nat) (x y : Q) : Prop :=
  y * (1 - eps) ^ Z.of_nat k <= x <= y * (1 + eps) ^ Z.of_nat k.

Section round_pos.
Context (x : Q) (x_pos : 0 < x).

(** The unit in the last place. *)
Lemma ulp_spec : 2 ^ (binade x - 52) == 2 ^ binade x * (1 # 2 ^ 52).
Proof. rewrite Qpower_minus by done. reflexivity. Qed.

Lemma quotient_bounds (t := 2 ^ (binade x - 52)) :
  inject_Z (2 ^ 52) <= x / t <= inject_Z (2 ^ 53) ∧ x / t * t == x.
Proof using x_pos.
  pose proof (pow2_pos (binade x - 52)) as Ht. fold t in Ht.
  pose proof (binade_spec x x_pos) as [Hlo Hhi]. rewrite pow2_succ in Hhi.
  pose proof ulp_spec as Hu. fold t in Hu.
  change (inject_Z (2 ^ 52)) with (4503599627370496 # 1).
  change (inject_Z (2 ^ 53)) with (9007199254740992 # 1).
  change (1 # 2 ^ 52) with (1 # 4503599627370496) in Hu.
  split; [split; [apply Qle_shift_div_l|apply Qle_shift_div_r]; [done|lra|done|lra]|].
  field. apply Qnot_eq_sym, Qlt_not_eq, Ht.
Qed.

(** A rounded number stays between the powers of two. *)
Lemma round_pos_range : 2 ^ binade x <= round_pos x <= 2 ^ (binade x + 1).
Proof using x_pos.
  destruct quotient_bounds as [[Hlo Hhi] _].
  apply nearest_even_mono in Hlo, Hhi. rewrite nearest_even_Z in Hlo, Hhi.
  rewrite Zle_Qle in Hlo, Hhi.
  pose proof (pow2_pos (binade x - 52)) as Ht. pose proof ulp_spec as Hu.
  rewrite pow2_succ. unfold round_pos.
  change (inject_Z (2 ^ 52)) with (4503599627370496 # 1) in Hlo.
  change (inject_Z (2 ^ 53)) with (9007199254740992 # 1) in Hhi.
  change (1 # 2 ^ 52) with (1 # 4503599627370496) in Hu.
  set (t := 2 ^ (binade x - 52)) in *.
  assert (Hb : 2 ^ binade x == (4503599627370496 # 1) * t) by lra.
  rewrite Hb, Qmult_assoc. split; apply Qmult_le_compat_r; lra.
Qed.

Lemma round_pos_near : x * (1 - eps) <= round_pos x <= x * (1 + eps).
Proof using x_pos.
  destruct quotient_bounds as [[Hlo _] Hx].
  pose proof (nearest_even_half (x / 2 ^ (binade x - 52))) as [H1 H2].
  pose proof (pow2_pos (binade x - 52)) as Ht. unfold round_pos.
  set (t := 2 ^ (binade x - 52)) in *. set (q := x / t) in *.
  change (inject_Z (2 ^ 52)) with (4503599627370496 # 1) in Hlo.
  unfold eps.
  rewrite <- Hx, <- !Qmult_assoc, !(Qmult_comm t), !Qmult_assoc.
  split; apply Qmult_le_compat_r; lra.
Qed.
End round_pos.

Lemma round_pos_mono x y : 0 < x → x <= y → round_pos x <= round_pos y.
Proof.
  intros Hx Hxy. assert (Hy : 0 < y) by lra.
  pose proof (binade_spec x Hx) as [Hx1 Hx2]. pose proof (binade_spec y Hy) as [Hy1 Hy2].
  assert (Hb : (binade x < binade y + 1)%Z).
  { apply (Qpower_lt_compat_l_inv 2); [lra|done]. }
  destruct (decide (binade x = binade y)) as [He|He].
  - unfold round_pos. rewrite He. pose proof (pow2_pos (binade y - 52)) as Ht.
    apply Qmult_le_compat_r; [|lra]. rewrite <- Zle_Qle. apply nearest_even_mono.
    unfold Qdiv. apply Qmult_le_compat_r; [done|]. by apply Qinv_le_0_compat, Qlt_le_weak.
  - pose proof (round_pos_range x Hx) as [_ H1]. pose proof (round_pos_range y Hy) as [H2 _].
    assert (2 ^ (binade x + 1) <= 2 ^ binade y) by (apply Qpower_le_compat_l; [lia|done]). lra.
Qed.

(** * Doubles that are not negative *)

Lemma double_round_cases x :
  0 <= x → (x == 0 ∧ double_round x = 0) ∨ (0 < x ∧ double_round x == round_pos x).
Proof.
  intros Hx. unfold double_round. destruct (Qcompare_spec x 0) as [H|H|H].
  - by left.
  - lra.
  - right. split; [done|]. apply Qred_correct.
Qed.

Lemma near_1 x y : y * (1 - eps) <= x <= y * (1 + eps) → near 1 x y.
Proof. done. Qed.

Lemma round_near x : 0 <= x → near 1 (double_round x) x.
Proof.
  intros Hx. apply near_1. destruct (double_round_cases x Hx) as [[Hz ->]|[Hp ->]].
  - rewrite Hz. lra.
  - by apply round_pos_near.
Qed.

Lemma round_nonneg x : 0 <= x → 0 <= double_round x.
Proof.
  intros Hx. pose proof (round_near x Hx) as [H _]. simpl in H.
  assert (0 <= x * (1 - eps)) by (apply Qmult_le_0_compat; [done|by unfold eps]). lra.
Qed.

(** Rounding keeps the order, *)
Lemma round_mono_nonneg x y : 0 <= x → x <= y → double_round x <= double_round y.
Proof.
  intros Hx Hxy. destruct (double_round_cases x Hx) as [[_ ->]|[Hp ->]].
  { apply round_nonneg. lra. }
  destruct (double_round_cases y ltac:(lra)) as [[Hz _]|[_ ->]]; [lra|]. by apply round_pos_mono.
Qed.

Lemma round_opp x : x < 0 → double_round x == - double_round (- x).
Proof.
  intros Hx. unfold double_round at 1. destruct (Qcompare_spec x 0); [lra| |lra].
  destruct (double_round_cases (- x) ltac:(lra)) as [[Hz _]|[_ ->]]; [lra|]. apply Qred_correct.
Qed.

Lemma round_mono x y : x <= y → double_round x <= double_round y.
Proof.
  intros Hxy. destruct (Qlt_le_dec x 0) as [Hx|Hx]; [|by apply round_mono_nonneg].
  rewrite (round_opp x Hx). destruct (Qlt_le_dec y 0) as [Hy|Hy].
  - rewrite (round_opp y Hy). assert (double_round (- y) <= double_round (- x))
      by (apply round_mono_nonneg; lra). lra.
  - pose proof (round_nonneg y Hy). assert (0 <= double_round (- x)) by (apply round_nonneg; lra). lra.
Qed.

#[export] Instance round_proper : Proper (Qeq ==> Qeq) double_round.
Proof. intros x y Hxy. apply Qle_antisym; apply round_mono; rewrite Hxy; apply Qle_refl. Qed.

(** and an integer of 53 bits as it is. *)
Lemma double_of_Z_exact n : (0 <= n < 2 ^ 53)%Z → double_of_Z n == inject_Z n.
Proof.
  intros Hn. unfold double_of_Z.
  assert (Hnn : 0 <= inject_Z n) by (change 0 with (inject_Z 0); rewrite <- Zle_Qle; lia).
  destruct (double_round_cases (inject_Z n) Hnn) as [[Hz ->]|[Hp ->]].
  - by symmetry.
  - pose proof (binade_spec _ Hp) as [Hb _]. pose proof (pow2_pos (binade (inject_Z n) - 52)) as Ht.
    assert (Hlt : (binade (inject_Z n) < 53)%Z).
    { apply (Qpower_lt_compat_l_inv 2); [|done]. eapply Qle_lt_trans; [exact Hb|].
      change (2 ^ 53) with (inject_Z (2 ^ 53)). rewrite <- Zlt_Qlt. lia. }
    unfold round_pos. set (b := binade (inject_Z n)) in *.
    assert (Hq : inject_Z n / 2 ^ (b - 52) == inject_Z (n * 2 ^ (52 - b))).
    { rewrite inject_Z_mult, Zpower_Qpower by lia. change (inject_Z 2) with 2.
      replace (b - 52)%Z with (- (52 - b))%Z by lia. rewrite Qpower_opp.
      unfold Qdiv. by rewrite Qinv_involutive. }
    assert (He : nearest_even (inject_Z n / 2 ^ (b - 52)) = (n * 2 ^ (52 - b))%Z).
    { rewrite <- (nearest_even_Z (n * 2 ^ (52 - b))).
      apply Z.le_antisymm; apply nearest_even_mono; rewrite Hq; apply Qle_refl. }
    rewrite He, <- Hq. field. apply Qnot_eq_sym, Qlt_not_eq, pow2_pos.
Qed.

(** * Errors that add up *)

Lemma pow_succ q (k : nat) : ~ q == 0 → q ^ Z.of_nat (S k) == q * q ^ Z.of_nat k.
Proof.
  intros Hq. rewrite Nat2Z.inj_succ, <- Z.add_1_l, Qpower_plus by done. done.
Qed.

Lemma pow_low k : 0 < (1 - eps) ^ Z.of_nat k <= 1.
Proof.
  induction k as [|k IH]; [simpl; lra|]. rewrite pow_succ by done.
  revert IH. generalize ((1 - eps) ^ Z.of_nat k). unfold eps. intros q ?. split; nra.
Qed.

Lemma pow_high k : 1 <= (1 + eps) ^ Z.of_nat k.
Proof.
  induction k as [|k IH]; [simpl; lra|]. rewrite pow_succ by done.
  revert IH. generalize ((1 + eps) ^ Z.of_nat k). unfold eps. intros q ?. nra.
Qed.

Lemma pow_add q j k : ~ q == 0 → q ^ Z.of_nat (j + k) == q ^ Z.of_nat j * q ^ Z.of_nat k.
Proof. intros Hq. by rewrite Nat2Z.inj_add, Qpower_plus. Qed.

Lemma near_refl k x : 0 <= x → near k x x.
Proof.
  intros Hx. pose proof (pow_low k). pose proof (pow_high k). unfold near. split; nra.
Qed.

Lemma near_trans j k x y z : near j x y → near k y z → near (k + j) x z.
Proof.
  intros [H1 H2] [H3 H4]. unfold near. rewrite !pow_add, !Qmult_assoc by done.
  pose proof (pow_low j). pose proof (pow_high j).
  split; (eapply Qle_trans; [|eassumption]) || (eapply Qle_trans; [eassumption|]);
    apply Qmult_le_compat_r; lra.
Qed.

Lemma near_le j k x y : (j ≤ k)%nat → 0 <= y → near j x y → near k x y.
Proof.
  intros Hjk Hy Hn. replace k with ((k - j) + j)%nat by lia.
  eapply near_trans; [done|by apply near_refl].
Qed.

Lemma near_add k x y x' y' : near k x y → near k x' y' → near k (x + x') (y + y').
Proof. unfold near. intros [] []. rewrite !Qmult_plus_distr_l. split; lra. Qed.

Lemma near_scale k c x y : 0 <= c → near k x y → near k (c * x) (c * y).
Proof.
  intros Hc [H1 H2]. unfold near. rewrite <- !Qmult_assoc.
  split; rewrite !(Qmult_comm c); by apply Qmult_le_compat_r.
Qed.

#[export] Instance near_proper : Proper (eq ==> Qeq ==> Qeq ==> iff) near.
Proof. intros k _ <- x x' Hx y y' Hy. unfold near. by rewrite Hx, Hy. Qed.

(** One more rounding. *)
Lemma round_after k x y : 0 <= x → near k x y → near (S k) (double_round x) y.
Proof. intros Hx Hn. rewrite <- Nat.add_1_r. eapply near_trans; [by apply round_near|done]. Qed.

(** A sum from left to right: one rounding for each number. *)
Definition double_sum (l : list Q) : Q := foldl double_add 0 l.

(** The exact sum. *)
Fixpoint Qsum (l : list Q) : Q := match l with [] => 0 | x :: l => x + Qsum l end.

Lemma double_fold_near j k (l l' : list Q) a a' :
  Forall2 (λ x y, 0 <= x ∧ 0 <= y ∧ near j x y) l l' → (j ≤ k)%nat →
  0 <= a → 0 <= a' → near k a a' →
  0 <= foldl double_add a l ∧ near (k + length l) (foldl double_add a l) (a' + Qsum l').
Proof.
  intros Hl. revert k a a'. induction Hl as [|x y l l' (Hx & Hy & Hn) Hl IH]; intros k a a' Hjk Ha Ha' Hk; simpl.
  - split; [done|]. rewrite Nat.add_0_r, Qplus_0_r. done.
  - rewrite Qplus_assoc, <- Nat.add_succ_comm. apply IH; [lia| |lra|].
    + apply round_nonneg. lra.
    + apply round_after; [lra|]. apply near_add; [done|]. by apply (near_le j).
Qed.

Lemma double_sum_near j (l l' : list Q) :
  Forall2 (λ x y, 0 <= x ∧ 0 <= y ∧ near j x y) l l' →
  0 <= double_sum l ∧ near (j + length l) (double_sum l) (Qsum l').
Proof.
  intros Hl. rewrite <- (Qplus_0_l (Qsum l')).
  apply (double_fold_near j j); [done..|]. by apply near_refl.
Qed.

(** * Examples *)

(** The same operations as the binary64 of the standard library, on numbers of many
    sizes: sums, products and quotients, with results that are exact, rounded up,
    rounded down and between two doubles. *)
Definition spec_of_Z (n : Z) : spec_float := binary_normalize 53 1024 n 0 false.
Definition Q_of_spec (x : spec_float) : Q :=
  match x with
  | S754_finite s m e => (if s then -1 else 1) * inject_Z (Zpos m) * 2 ^ e
  | _ => 0
  end.

Definition ieee_samples : list Z :=
  [1; 3; 7; 10; 1000; 999999999; 1000000000; 600000001; 123456789012345678; 2 ^ 53 + 1;
   2 ^ 53 + 3; 2 ^ 54 + 2; 2 ^ 62 + 12345; -1; -3; -999999999; - (2 ^ 53 + 1)]%Z.

Example double_ieee :
  forallb (λ '(m, n),
    Qeq_bool (double_add (double_of_Z m) (double_of_Z n))
      (Q_of_spec (SFadd 53 1024 (spec_of_Z m) (spec_of_Z n))) &&
    Qeq_bool (double_mul (double_of_Z m) (double_of_Z n))
      (Q_of_spec (SFmul 53 1024 (spec_of_Z m) (spec_of_Z n))) &&
    Qeq_bool (double_div (double_of_Z m) (double_of_Z n))
      (Q_of_spec (SFdiv 53 1024 (spec_of_Z m) (spec_of_Z n))))
    (list_prod ieee_samples ieee_samples) = true.
Proof. vm_compute. reflexivity. Qed.
