(* ===== verification/Scan.v ===== *)
(** The conversions between numbers and text that the program takes from the
    C and C++ library: [std::stoi], [std::to_string] and [fscanf].  The functions
    are executable; scanning what was printed gives the number back. *)
From Stdlib Require Import Ascii.
From stdpp Require Import pretty.
From S2P Require Import Prelude CInt.

Local Open Scope Z_scope.

(** * Scanning a number *)

(** [isspace] *)
Definition is_space (c : Ascii.ascii) : bool :=
  let n := Ascii.nat_of_ascii c in ((n =? 32) || ((9 <=? n) && (n <=? 13)))%nat.

Fixpoint skip_space (s : string) : string :=
  match s with
  | String c s' => if is_space c then skip_space s' else s
  | EmptyString => s
  end.

Definition digit_of (c : Ascii.ascii) : option Z :=
  let n := Z.of_nat (Ascii.nat_of_ascii c) in
  if (48 <=? n) && (n <=? 57) then Some (n - 48) else None.

(** The digits at the start of [s], after a prefix of value [acc]. *)
Fixpoint scan_digits (acc : Z) (s : string) : Z * string :=
  match s with
  | String c s' =>
      match digit_of c with
      | Some d => scan_digits (10 * acc + d) s'
      | None => (acc, s)
      end
  | EmptyString => (acc, s)
  end.

(** At least one digit. *)
Definition scan_nat (s : string) : option (Z * string) :=
  match s with
  | String c _ => match digit_of c with Some _ => Some (scan_digits 0 s) | None => None end
  | EmptyString => None
  end.

(** White space, a sign, digits: the subject sequence of [strtol]. *)
Definition scan_int (s : string) : option (Z * string) :=
  match skip_space s with
  | String "-"%char s => match scan_nat s with Some (z, s) => Some (- z, s) | None => None end
  | String "+"%char s => scan_nat s
  | s => scan_nat s
  end.

(** [std::stoi]: the text after the number is ignored. *)
Definition stoi {S} (s : string) : M S Z :=
  match scan_int s with
  | None => throw invalid_argument
  | Some (z, _) => if in_i32 z then mret z else throw out_of_range
  end.

(** * fscanf *)

(** What the program's formats are made of. *)
Inductive directive :=
  | Blank               (* any amount of white space *)
  | Text (s : string)   (* exactly this *)
  | Conv_i32            (* %d *)
  | Conv_u32            (* %u *)
  | Conv_i64            (* %ld *)
  | Conv_u64            (* %lu *)
  | Conv_str            (* %s *)
  | Conv_chr.           (* %c *)

Inductive item := Num (z : Z) | Str (s : string) | Chr (c : Ascii.ascii).

(** A number out of the range of [long] (or [unsigned long]) is its nearest end. *)
Definition clamp (lo hi z : Z) : Z := Z.max lo (Z.min hi z).
Definition to_signed (z : Z) : Z := clamp LONG_MIN LONG_MAX z.
Definition to_unsigned (z : Z) : Z := if Z.abs z <? 2 ^ 64 then u64 z else 2 ^ 64 - 1.

Fixpoint scan_word (s : string) : string * string :=
  match s with
  | String c s' =>
      if is_space c then (EmptyString, s) else
        let (w, r) := scan_word s' in (String c w, r)
  | EmptyString => (EmptyString, s)
  end.

Fixpoint strip_prefix (p s : string) : option string :=
  match p, s with
  | EmptyString, _ => Some s
  | String a p, String b s => if bool_decide (a = b) then strip_prefix p s else None
  | _, _ => None
  end.

Definition convert (f : Z → Z) (s : string) : option (item * string) :=
  match scan_int s with Some (z, r) => Some (Num (f z), r) | None => None end.

(** One conversion. *)
Definition scan_item (d : directive) (s : string) : option (item * string) :=
  match d with
  | Conv_i32 => convert (λ z, i32 (to_signed z)) s
  | Conv_u32 => convert (λ z, u32 (to_unsigned z)) s
  | Conv_i64 => convert to_signed s
  | Conv_u64 => convert to_unsigned s
  | Conv_str =>
      match scan_word (skip_space s) with
      | (EmptyString, _) => None
      | (w, r) => Some (Str w, r)
      end
  | Conv_chr => match s with String c r => Some (Chr c, r) | EmptyString => None end
  | Blank | Text _ => None
  end.

(** The items converted until the first failure. *)
Fixpoint fscanf (fmt : list directive) (s : string) : list item :=
  match fmt with
  | [] => []
  | Blank :: fmt => fscanf fmt (skip_space s)
  | Text p :: fmt => match strip_prefix p s with Some r => fscanf fmt r | None => [] end
  | d :: fmt =>
      match scan_item d s with
      | Some (x, r) => x :: fscanf fmt r
      | None => []
      end
  end.

(** * Scanning what was printed *)

Lemma digit_of_char d : (d < 10)%N → digit_of (pretty_N_char d) = Some (Z.of_N d).
Proof.
  intros Hd. destruct d as [|p]; [done|]. do 4 (destruct p as [p|p|]; try done; try lia).
Qed.

(** No digit at the start. *)
Definition no_digit (s : string) : Prop :=
  match s with String c _ => digit_of c = None | EmptyString => True end.

Lemma scan_digits_stop acc s : no_digit s → scan_digits acc s = (acc, s).
Proof. destruct s as [|c s]; simpl; [done|]. by intros ->. Qed.

(** The digits of a number scan to it. *)
Lemma scan_digits_go x s : scan_digits 0 (pretty_N_go x s) = scan_digits (Z.of_N x) s.
Proof.
  revert s. induction (N.lt_wf_0 x) as [x _ IH]. intros s.
  destruct (decide (0 < x)%N) as [Hx|Hx].
  - rewrite pretty_N_go_step by done. rewrite IH by (apply N.div_lt; lia). cbn [scan_digits].
    assert (Hd : (x mod 10 < 10)%N) by (apply N.mod_lt; lia).
    rewrite digit_of_char by done. f_equal.
    rewrite N2Z.inj_div, N2Z.inj_mod. change (Z.of_N 10) with 10. Z.div_mod_to_equations. lia.
  - replace x with 0%N by lia. by rewrite pretty_N_go_0.
Qed.

Lemma pretty_N_go_app x s r : pretty_N_go x s +:+ r = pretty_N_go x (s +:+ r).
Proof.
  revert s. induction (N.lt_wf_0 x) as [x _ IH]. intros s.
  destruct (decide (0 < x)%N) as [Hx|Hx].
  - rewrite !(pretty_N_go_step x) by done. by rewrite IH by (apply N.div_lt; lia).
  - replace x with 0%N by lia. by rewrite !pretty_N_go_0.
Qed.

Lemma pretty_N_go_head x s :
  (0 < x)%N → ∃ c t, pretty_N_go x s = String c t ∧ is_Some (digit_of c).
Proof.
  revert s. induction (N.lt_wf_0 x) as [x _ IH]. intros s Hx. rewrite pretty_N_go_step by done.
  destruct (decide (0 < x / 10)%N) as [Hq|Hq]; [apply IH; [apply N.div_lt; lia|done]|].
  apply N.nlt_ge, N.le_0_r in Hq. rewrite Hq. rewrite pretty_N_go_0. do 2 eexists. split; [done|].
  rewrite digit_of_char by (apply N.mod_lt; lia). done.
Qed.

Lemma pretty_N_head (x : N) r : ∃ c t, pretty x +:+ r = String c t ∧ is_Some (digit_of c).
Proof.
  unfold pretty, pretty_N. case_decide; [by exists "0"%char, r|].
  rewrite pretty_N_go_app. apply pretty_N_go_head. lia.
Qed.

Lemma scan_nat_pretty (x : N) r :
  no_digit r → scan_nat (pretty x +:+ r) = Some (Z.of_N x, r).
Proof.
  intros Hr. destruct (pretty_N_head x r) as (c & t & Hs & Hc). unfold scan_nat.
  rewrite Hs. destruct Hc as [d Hd]. rewrite Hd, <- Hs. f_equal.
  unfold pretty, pretty_N. case_decide as Hx.
  - subst x. simpl. by apply scan_digits_stop.
  - rewrite pretty_N_go_app, scan_digits_go. by apply scan_digits_stop.
Qed.

Lemma digit_not_space c d : digit_of c = Some d → is_space c = false ∧ c ≠ "-"%char ∧ c ≠ "+"%char.
Proof.
  intros Hd. split_and!; [|by intros ->..].
  unfold digit_of, is_space in *. case_match eqn:Hc; [|done].
  apply andb_prop in Hc as [H1 H2]. apply Z.leb_le in H1, H2.
  apply orb_false_iff. split; [by apply Nat.eqb_neq; lia|].
  apply andb_false_iff. right. apply Nat.leb_gt. lia.
Qed.

(** White space before a number is skipped. *)
Lemma scan_int_space c s : is_space c = true → scan_int (String c s) = scan_int s.
Proof. intros Hc. unfold scan_int. simpl. by rewrite Hc. Qed.

Lemma scan_int_digit c t d : digit_of c = Some d → scan_int (String c t) = scan_nat (String c t).
Proof.
  intros Hd. destruct (digit_not_space c d Hd) as (Hsp & Hm & Hp).
  unfold scan_int. cbn [skip_space]. rewrite Hsp. clear Hd Hsp.
  by destruct c as [[] [] [] [] [] [] [] []].
Qed.

Lemma scan_int_pretty (z : Z) r : no_digit r → scan_int (pretty z +:+ r) = Some (z, r).
Proof.
  intros Hr.
  assert (Hn : ∀ n : N, scan_int (pretty n +:+ r) = Some (Z.of_N n, r)).
  { intros n. destruct (pretty_N_head n r) as (c & t & Hs & d & Hd).
    rewrite <- (scan_nat_pretty n r Hr), Hs. by eapply scan_int_digit. }
  destruct z as [|p|p]; [exact (Hn 0%N)|exact (Hn (Npos p))|].
  change (match scan_nat (pretty (Npos p) +:+ r) with
          | Some (z, s) => Some (- z, s) | None => None end = Some (Z.neg p, r)).
  by rewrite (scan_nat_pretty (Npos p) r Hr).
Qed.

Lemma append_empty s : s +:+ "" = s.
Proof. induction s as [|c s IH]; [done|]. exact (f_equal (String c) IH). Qed.

(** [std::stoi] reads back what [std::to_string] printed. *)
Lemma stoi_pretty {S} (z : Z) (s : S) : INT_MIN ≤ z ≤ INT_MAX → stoi (pretty z) s = Ret (z, s).
Proof.
  intros Hz. unfold stoi. replace (pretty z) with (pretty z +:+ "") by apply append_empty.
  rewrite scan_int_pretty by done. unfold in_i32.
  by rewrite (proj2 (Z.leb_le _ _) (proj1 Hz)), (proj2 (Z.leb_le _ _) (proj2 Hz)).
Qed.

(** A number with a space before it, for the conversions that skip it. *)
Lemma convert_pretty f (z : Z) r :
  no_digit r → convert f (" " +:+ pretty z +:+ r) = Some (Num (f z), r).
Proof.
  intros Hr. unfold convert. change (" " +:+ ?s) with (String " " s).
  by rewrite scan_int_space, scan_int_pretty.
Qed.

Lemma to_unsigned_small z : 0 ≤ z < 2 ^ 64 → to_unsigned z = z.
Proof.
  intros Hz. unfold to_unsigned. rewrite Z.abs_eq, (proj2 (Z.ltb_lt _ _)) by lia.
  by apply u64_small.
Qed.
Lemma to_signed_small z : LONG_MIN ≤ z ≤ LONG_MAX → to_signed z = z.
Proof. unfold to_signed, clamp. lia. Qed.
