(* ===== verification/Utils.v ===== *)
(** prism/utils.h: values of environment variables with a default, and formatted
    text; the conversions [atoi], [atol] and [atoll] of the C library. *)
From stdpp Require Import pretty.
From S2P Require Import Prelude CInt Scan.

Local Open Scope Z_scope.

(** * The environment *)

(** The environment of the process, which nothing changes. *)
Abbreviation environ := (gmap string string).

Definition getenv (e : environ) (name : string) : option string := e !! name.

(** A text that does not start with a number counts as 0; a number that the type
    cannot represent is undefined. *)
Definition ato (in_range : Z → bool) {S} (s : string) : M S Z :=
  match scan_int s with
  | None => mret 0
  | Some (z, _) => if in_range z then mret z else undef
  end.
Definition atoi {S} : string → M S Z := ato in_i32.
Definition atol {S} : string → M S Z := ato in_i64.
Definition atoll {S} : string → M S Z := ato in_i64.

Definition GetEnvOrDefault {S A} (func : string → M S A) (e : environ) (name : string)
    (default_value : A) : M S A :=
  match getenv e name with
  | None => mret default_value
  | Some value => func value
  end.

(** [REGISTER_GET_ENV_FUNC] for the types of the source; [atof] makes a [double]. *)
Definition GetEnvOrDefault_int {S} : environ → string → Z → M S Z := GetEnvOrDefault atoi.
Definition GetEnvOrDefault_long {S} : environ → string → Z → M S Z := GetEnvOrDefault atol.
Definition GetEnvOrDefault_longlong {S} : environ → string → Z → M S Z := GetEnvOrDefault atoll.
Definition GetEnvOrDefault_double {S D} (atof : string → M S D) : environ → string → D → M S D :=
  GetEnvOrDefault atof.
Definition GetEnvOrDefault_string {S} : environ → string → string → M S string :=
  GetEnvOrDefault mret.

(** The value that a variable gives to an [int] setting. *)
Definition setting (e : environ) (name : string) (default_value v : Z) : Prop :=
  match getenv e name with
  | None => v = default_value
  | Some s =>
      match scan_int s with Some (z, _) => v = z ∧ INT_MIN ≤ z ≤ INT_MAX | None => v = 0 end
  end.

Lemma wp_GetEnvOrDefault_int {S} E e name d v (s : S) (Q : Z → S → Prop) :
  setting e name d v → Q v s → wp E (GetEnvOrDefault_int e name d) s Q.
Proof.
  unfold setting, GetEnvOrDefault_int, GetEnvOrDefault, atoi, ato. intros Hv HQ.
  destruct (getenv e name) as [t|]; [|by subst v].
  destruct (scan_int t) as [[z r]|]; [|by subst v]. destruct Hv as [-> [Hlo Hhi]].
  unfold in_i32. by rewrite (proj2 (Z.leb_le _ _) Hlo), (proj2 (Z.leb_le _ _) Hhi).
Qed.

(** The text of a number, with anything after it that is no digit. *)
Lemma setting_pretty e name d z r :
  getenv e name = Some (pretty z +:+ r) → no_digit r → INT_MIN ≤ z ≤ INT_MAX →
  setting e name d z.
Proof. intros He Hr Hz. unfold setting. by rewrite He, scan_int_pretty. Qed.

(** * Text *)

(** The text of a C string: up to its terminator. *)
Fixpoint c_str (s : string) : string :=
  match s with
  | EmptyString => EmptyString
  | String c s => if bool_decide (c = Ascii.zero) then EmptyString else String c (c_str s)
  end.

(** [FormatString]: the output of [snprintf], or nothing when it fails, through a
    buffer of its length and one. *)
Definition FormatString {S} (out : option string) : M S string :=
  match out with
  | None => fatal  (* assert(length >= 0) *)
  | Some out => mret (c_str out)
  end.

(** [sprintf(s, ...)] into [char s[size]]: the text and its terminator have to fit. *)
Definition sprintf {S} (size : Z) (out : string) : M S string :=
  if Z.of_nat (String.length out) <? size then mret (c_str out) else undef.

(** ** How long a printed number is *)

Lemma length_append s t : String.length (s +:+ t) = (String.length s + String.length t)%nat.
Proof. induction s as [|c s IH]; [done|]. exact (f_equal S IH). Qed.

Lemma length_pretty_go x s k :
  (x < 10 ^ N.of_nat k)%N →
  (String.length (pretty_N_go x s) ≤ k + String.length s)%nat.
Proof.
  revert x s. induction k as [|k IH]; intros x s Hx.
  - assert (x = 0%N) as -> by (simpl in Hx; lia). by rewrite pretty_N_go_0.
  - destruct (decide (0 < x)%N); [|replace x with 0%N by lia; rewrite pretty_N_go_0; lia].
    rewrite pretty_N_go_step by done. etrans; [apply IH|simpl; lia].
    apply N.Div0.div_lt_upper_bound. rewrite Nat2N.inj_succ, N.pow_succ_r' in Hx. lia.
Qed.

Lemma length_pretty_N (x : N) k :
  (x < 10 ^ N.of_nat k)%N → (0 < k)%nat → (String.length (pretty x) ≤ k)%nat.
Proof.
  intros Hx Hk. unfold pretty, pretty_N. case_decide; [simpl; lia|].
  pose proof (length_pretty_go x "" k Hx). simpl in *. lia.
Qed.

Lemma length_pretty_Z (z : Z) k :
  - 10 ^ Z.of_nat k < z < 10 ^ Z.of_nat k → (0 < k)%nat →
  (String.length (pretty z) ≤ k + 1)%nat ∧ (0 ≤ z → (String.length (pretty z) ≤ k)%nat).
Proof.
  intros Hz Hk.
  assert (Hn : ∀ x : N, Z.of_N x < 10 ^ Z.of_nat k → (String.length (pretty x) ≤ k)%nat).
  { intros x Hx. apply length_pretty_N; [|done].
    rewrite <- nat_N_Z in Hx. change 10 with (Z.of_N 10) in Hx. rewrite <- N2Z.inj_pow in Hx. lia. }
  destruct z as [|p|p].
  - split; [|intros _]; change (pretty 0) with "0"; simpl; lia.
  - change (pretty (Z.pos p)) with (pretty (Npos p)).
    specialize (Hn (Npos p) (proj2 Hz)). split; [|intros _]; lia.
  - change (pretty (Z.neg p)) with ("-" +:+ pretty (Npos p)).
    specialize (Hn (Npos p)). change (Z.of_N (Npos p)) with (- Z.neg p) in Hn.
    specialize (Hn ltac:(lia)). rewrite length_append. change (String.length "-") with 1%nat.
    split; lia.
Qed.
