(* ===== verification/Meter.v ===== *)
(** meter.h: the throughput meter. *)
From S2P Require Import Prelude CInt Scan Utils.

Local Open Scope Z_scope.

(** * Lowbit and RoundUpPower2, on [long] *)
Module Pow2.
(** [x & -x]; negating the least long is undefined. *)
Definition Lowbit {S} (x : Z) : M S Z :=
  m ← signed64 (- x);
  mret (Z.land x m).

Fixpoint RoundUpPower2_loop {S} (fuel : nat) (x : Z) : M S Z :=
  match fuel with
  | O => nofuel
  | S fuel =>
    l ← Lowbit x;
    if x =? l then mret x
    else
      l ← Lowbit x;
      x ← signed64 (x + l);
      RoundUpPower2_loop fuel x
  end.

(** Every iteration clears the lowest bit of the 64 that is set. *)
Definition RoundUpPower2 {S} (x : Z) : M S Z := RoundUpPower2_loop 65 x.
End Pow2.

(** * struct Meter *)

(** One line of output: the bytes and operations since the last one, and the
    nanoseconds they took. *)
Record report := Report { rp_bytes : Z; rp_qps : Z; rp_dura : Z }.

Record Meter := mkMeter {
  sample : Z;
  cnt : Z;
  bytes : Z;
  qps : Z;
  tp : Z;        (* nanoseconds *)
  interval : Z;  (* milliseconds *)
  disable : Z;
}.

(** A meter in its process: the clock and what has been printed. *)
Record mstate (C : Type) := MState { ms_meter : Meter; ms_log : list report; ms_clock : C }.
Arguments MState {C} _ _ _.
Arguments ms_meter {C} _.
Arguments ms_log {C} _.
Arguments ms_clock {C} _.

Section meter.
(** [Clock::now()], in nanoseconds. *)
Context {C : Type} (now : C → Z * C).

(** The constructor; [env] is the value of RPC_BENCH_DISABLE_METER. *)
Definition Meter_make (interval_ms : Z) (_sample : Z) (env : Z) : M C Meter :=
  t ← lift now;
  s ← signed32 (_sample + 1);
  r ← Pow2.RoundUpPower2 s;
  mret (mkMeter (i32 (r - 1)) 0 0 0 t interval_ms env).

(** The constructor in an environment. *)
Definition Meter_new (e : environ) (interval_ms _sample : Z) : M C Meter :=
  t ← lift now;
  s ← signed32 (_sample + 1);
  r ← Pow2.RoundUpPower2 s;
  d ← GetEnvOrDefault_int e "RPC_BENCH_DISABLE_METER" 0;
  mret (mkMeter (i32 (r - 1)) 0 0 0 t interval_ms d).

Lemma Meter_new_setting e interval_ms _sample d c :
  setting e "RPC_BENCH_DISABLE_METER" 0 d →
  Meter_new e interval_ms _sample c = Meter_make interval_ms _sample d c.
Proof.
  intros Hd. unfold Meter_new, Meter_make, mbind, M_bind.
  destruct (lift now c) as [[t c1]|]; [|done]. destruct (signed32 _ c1) as [[s c2]|]; [|done].
  destruct (Pow2.RoundUpPower2 s c2) as [[r c3]|]; [|done].
  pose proof (wp_GetEnvOrDefault_int total _ _ _ _ c3 (λ a c', a = d ∧ c' = c3) Hd) as Hwp.
  apply wp_run in Hwp as (a & c' & -> & -> & ->); [done|by split].
Qed.

Definition read_clock : M (mstate C) Z :=
  zoom ms_clock (λ c s, MState (ms_meter s) (ms_log s) c) (lift now).
Definition set_meter (m : Meter) : M (mstate C) unit :=
  modify (λ s, MState m (ms_log s) (ms_clock s)).
Definition print_report (r : report) : M (mstate C) unit :=
  modify (λ s, MState (ms_meter s) (ms_log s ++ [r]) (ms_clock s)).

(** [(now - tp) >= interval] *)
Definition interval_over (m : Meter) (t : Z) : bool := interval m * 1000000 <=? t - tp m.

Definition AddBytes (add : Z) : M (mstate C) unit :=
  m ← gets ms_meter;
  if negb (disable m =? 0) then mret tt
  else
    b ← signed64 (bytes m + add);
    c ← signed32 (cnt m + 1);
    let m := mkMeter (sample m) c b (qps m) (tp m) (interval m) (disable m) in
    _ ← set_meter m;
    if Z.land c (sample m) =? sample m then
      t ← read_clock;
      if interval_over m t then
        _ ← print_report (Report b 0 (t - tp m));
        set_meter (mkMeter (sample m) c 0 (qps m) t (interval m) (disable m))
      else mret tt
    else mret tt.

Definition AddQps (bytes_add qps_add : Z) : M (mstate C) unit :=
  m ← gets ms_meter;
  if negb (disable m =? 0) then mret tt
  else
    b ← signed64 (bytes m + bytes_add);
    q ← signed64 (qps m + qps_add);
    c ← signed32 (cnt m + 1);
    let m := mkMeter (sample m) c b q (tp m) (interval m) (disable m) in
    _ ← set_meter m;
    if Z.land c (sample m) =? sample m then
      t ← read_clock;
      if interval_over m t then
        _ ← print_report (Report b q (t - tp m));
        set_meter (mkMeter (sample m) c 0 0 t (interval m) (disable m))
      else mret tt
    else mret tt.

(** A run of calls. *)
Fixpoint AddQps_all (l : list (Z * Z)) : M (mstate C) unit :=
  match l with
  | [] => mret tt
  | (b, q) :: l => _ ← AddQps b q; AddQps_all l
  end.
End meter.

(** * Lowbit *)

Lemma land_odd_neg q : Z.odd q = true → Z.land q (- q) = 1.
Proof.
  intros Hq. apply Z.odd_spec in Hq as [a ->].
  apply Z.bits_inj'. intros n Hn. rewrite Z.land_spec.
  destruct (decide (n = 0)) as [->|].
  - rewrite Z.testbit_odd_0. replace (- (2 * a + 1)) with (2 * (- a - 1) + 1) by lia.
    rewrite Z.testbit_odd_0. reflexivity.
  - replace (- (2 * a + 1)) with (2 * Z.lnot a + 1) by (unfold Z.lnot; lia).
    replace n with (Z.succ (n - 1)) by lia.
    rewrite !Z.testbit_odd_succ, Z.lnot_spec by lia.
    by rewrite andb_negb_r, (Z.bits_above_log2 1) by (simpl; lia).
Qed.

Lemma land_neg_lowbit k q : 0 ≤ k → Z.odd q = true → Z.land (2 ^ k * q) (- (2 ^ k * q)) = 2 ^ k.
Proof.
  intros Hk Hq. rewrite <- Z.mul_opp_r, !(Z.mul_comm (2 ^ k)), <- !Z.shiftl_mul_pow2 by done.
  by rewrite <- Z.shiftl_land, land_odd_neg, Z.shiftl_mul_pow2, Z.mul_1_l.
Qed.

(** Every positive integer is a power of two times an odd number. *)
Lemma odd_part x : 0 < x → ∃ k q, 0 ≤ k ∧ Z.odd q = true ∧ 0 < q ∧ x = 2 ^ k * q.
Proof.
  induction (Z.lt_wf 0 x) as [x _ IH]. intros Hx.
  destruct (Z.odd x) eqn:Hodd.
  - exists 0, x. split_and!; [done|done|lia|lia].
  - rewrite <- Z.negb_even, negb_false_iff in Hodd. apply Z.even_spec in Hodd as [y ->].
    destruct (IH y) as (k & q & ? & ? & ? & ->); [lia|lia|].
    exists (k + 1), q. split_and!; [lia|done|done|]. rewrite Z.pow_add_r by lia. lia.
Qed.

(** * RoundUpPower2 *)

Lemma wp_signed32 {S} E z (s : S) (Q : Z → S → Prop) :
  INT_MIN ≤ z ≤ INT_MAX → Q z s → wp E (signed32 z) s Q.
Proof.
  intros Hz HQ. unfold signed32, in_i32.
  by rewrite (proj2 (Z.leb_le _ _) (proj1 Hz)), (proj2 (Z.leb_le _ _) (proj2 Hz)).
Qed.
Lemma wp_signed64 {S} E z (s : S) (Q : Z → S → Prop) :
  LONG_MIN ≤ z ≤ LONG_MAX → Q z s → wp E (signed64 z) s Q.
Proof.
  intros Hz HQ. unfold signed64, in_i64.
  by rewrite (proj2 (Z.leb_le _ _) (proj1 Hz)), (proj2 (Z.leb_le _ _) (proj2 Hz)).
Qed.

(** The same, where an overflow is allowed for. *)
Lemma wp_signed32_or {S} (E : stop → Prop) z (s : S) (Q : Z → S → Prop) :
  E Undef ∨ INT_MIN ≤ z ≤ INT_MAX → Q z s → wp E (signed32 z) s Q.
Proof. intros [?|?] ?; [|by apply wp_signed32]. unfold wp, signed32. by destruct (in_i32 z). Qed.
Lemma wp_signed64_or {S} (E : stop → Prop) z (s : S) (Q : Z → S → Prop) :
  E Undef ∨ LONG_MIN ≤ z ≤ LONG_MAX → Q z s → wp E (signed64 z) s Q.
Proof. intros [?|?] ?; [|by apply wp_signed64]. unfold wp, signed64. by destruct (in_i64 z). Qed.

Section pow2.
Context {S : Type} (E : stop → Prop).
Implicit Types (s : S).

Lemma wp_Lowbit k q s (Q : Z → S → Prop) :
  0 ≤ k → Z.odd q = true → 0 < 2 ^ k * q ≤ LONG_MAX → Q (2 ^ k) s →
  wp E (Pow2.Lowbit (2 ^ k * q)) s Q.
Proof.
  intros Hk Hq Hr HQ. unfold Pow2.Lowbit. wp_step.
  apply wp_signed64; [unfold LONG_MIN, LONG_MAX in *; lia|].
  wp_steps. by rewrite land_neg_lowbit.
Qed.

(** Adding the lowest bit stays below the next power of two. *)
Lemma add_lowbit_log2_up k q :
  0 ≤ k → Z.odd q = true → 1 < q →
  k < Z.log2_up (2 ^ k * q) ∧ 2 ^ k * q + 2 ^ k ≤ 2 ^ Z.log2_up (2 ^ k * q) ∧
  Z.log2_up (2 ^ k * q + 2 ^ k) = Z.log2_up (2 ^ k * q).
Proof.
  intros Hk Hq Hq1. pose proof (Z.pow_pos_nonneg 2 k ltac:(lia) Hk) as Hpos.
  remember (2 ^ k * q) as x eqn:Hx. assert (1 < x) by nia.
  pose proof (Z.log2_up_spec x ltac:(done)) as Hn. pose proof (Z.log2_up_pos x ltac:(done)).
  remember (Z.log2_up x) as n eqn:Hlog.
  assert (Hkn : k < n) by (apply (Z.pow_lt_mono_r_iff 2); [lia|lia|nia]).
  assert (Hdiv : 2 ^ n = 2 ^ k * 2 ^ (n - k)) by (rewrite <- Z.pow_add_r by lia; f_equal; lia).
  assert (Heven : Z.odd (2 ^ (n - k)) = false) by (apply Z.odd_pow; lia).
  assert (q ≠ 2 ^ (n - k)) by (intros ->; congruence).
  assert (x + 2 ^ k ≤ 2 ^ n) by (rewrite Hdiv in *; nia).
  split_and!; [done|done|]. apply Z.log2_up_unique; lia.
Qed.

Lemma wp_RoundUpPower2_loop fuel x j s (Q : Z → S → Prop) :
  0 < x ≤ 2 ^ 62 → 0 ≤ j → (2 ^ j | x) → (63 - j < Z.of_nat fuel) →
  Q (2 ^ Z.log2_up x) s → wp E (Pow2.RoundUpPower2_loop fuel x) s Q.
Proof.
  revert x j. induction fuel as [|fuel IH]; intros x j Hx Hj Hd Hf HQ.
  { exfalso. assert (j ≤ 62); [|lia]. apply (Z.pow_le_mono_r_iff 2); [lia|lia|].
    apply Z.divide_pos_le in Hd; lia. }
  destruct (odd_part x) as (k & q & Hk & Hq & Hq0 & ->); [lia|].
  cbn [Pow2.RoundUpPower2_loop]. wp_step.
  apply wp_Lowbit; [done|done|unfold LONG_MAX; lia|].
  destruct (Z.eqb_spec (2 ^ k * q) (2 ^ k)) as [Heq|Hne].
  - wp_steps. rewrite Heq, Z.log2_up_pow2 in HQ by done. by rewrite Heq.
  - assert (1 < q) by (destruct (decide (q = 1)) as [->|]; lia).
    destruct (add_lowbit_log2_up k q) as (Hlt & Hle & Hlog); [done..|].
    assert (Hjk : j ≤ k).
    { destruct (decide (j ≤ k)) as [|Hjk]; [done|exfalso].
      destruct Hd as [c Hc]. replace j with (k + 1 + (j - k - 1)) in Hc by lia.
      rewrite !Z.pow_add_r in Hc by lia.
      assert (q = 2 * (c * 2 ^ (j - k - 1))) as ->.
      { apply (Z.mul_reg_l _ _ (2 ^ k)); lia. }
      by rewrite Z.odd_mul in Hq. }
    assert (Hub : Z.log2_up (2 ^ k * q) ≤ 62).
    { rewrite <- (Z.log2_up_pow2 62) by lia. apply Z.log2_up_le_mono. lia. }
    assert (2 ^ Z.log2_up (2 ^ k * q) ≤ 2 ^ 62) by (apply Z.pow_le_mono_r; lia).
    wp_step. apply wp_Lowbit; [done|done|unfold LONG_MAX; lia|].
    wp_step. apply wp_signed64; [unfold LONG_MIN, LONG_MAX; lia|].
    apply (IH _ (k + 1)); [nia|lia| |lia|by rewrite Hlog].
    apply Z.odd_spec in Hq as [a ->]. exists (a + 1).
    rewrite Z.pow_add_r by lia. lia.
Qed.
End pow2.

(** * Counting *)

Definition sum (l : list Z) : Z := foldr Z.add 0 l.
#[global] Arguments sum : simpl never.

Lemma sum_cons x l : sum (x :: l) = x + sum l.
Proof. done. Qed.
Lemma sum_single x : sum [x] = x.
Proof. apply Z.add_0_r. Qed.
Lemma sum_app l l' : sum (l ++ l') = sum l + sum l'.
Proof. induction l as [|x l IH]; simpl; [done|]. rewrite !sum_cons, IH. lia. Qed.
Lemma sum_nonneg l : Forall (λ x, 0 ≤ x) l → 0 ≤ sum l.
Proof. induction 1; [done|]. rewrite sum_cons. lia. Qed.
Lemma sum_replicate n x : sum (replicate n x) = Z.of_nat n * x.
Proof. induction n as [|n IH]; simpl; [done|]. rewrite sum_cons, IH. lia. Qed.

(** [cnt & sample] is all ones once in [2^k] calls. *)
Lemma land_sample k c :
  0 ≤ k → 0 ≤ c →
  (Z.land c (2 ^ k - 1) =? 2 ^ k - 1) = (c mod 2 ^ k =? 2 ^ k - 1).
Proof.
  intros. rewrite <- (Z.land_ones c k) by done. by rewrite Z.ones_equiv, <- Z.sub_1_r.
Qed.

Lemma div_succ_sample m c :
  0 < m → 0 ≤ c → (c + 1) / m = c / m + (if c mod m =? m - 1 then 1 else 0).
Proof.
  intros Hm Hc. pose proof (Z.div_mod c m ltac:(lia)). pose proof (Z.mod_pos_bound c m Hm).
  destruct (Z.eqb_spec (c mod m) (m - 1)).
  - symmetry. apply (Z.div_unique _ _ _ 0); lia.
  - rewrite Z.add_0_r. symmetry. apply (Z.div_unique _ _ _ (c mod m + 1)); lia.
Qed.

Section accounting.
Context {C : Type} (now : C → Z * C).
Implicit Types (s : mstate C).

(** The clock after [n] readings. *)
Definition ticks (n : nat) (c : C) : C := Nat.iter n (λ c, (now c).2) c.

(** A meter that has counted [B] bytes and [Q] operations in [N] calls, one
    out of [2^k] of which read the clock. *)
Record tallied (k t0 iv : Z) (B Q N : Z) (s : mstate C) : Prop := {
  ct_bytes : sum (rp_bytes <$> ms_log s) + bytes (ms_meter s) = B;
  ct_qps : sum (rp_qps <$> ms_log s) + qps (ms_meter s) = Q;
  ct_cnt : cnt (ms_meter s) = N;
  ct_dura : tp (ms_meter s) = t0 + sum (rp_dura <$> ms_log s);
  ct_interval : Forall (λ r, iv * 1000000 ≤ rp_dura r) (ms_log s);
  ct_pos : Forall (λ r, 0 ≤ rp_bytes r ∧ 0 ≤ rp_qps r) (ms_log s) ∧
  0 ≤ bytes (ms_meter s) ∧ 0 ≤ qps (ms_meter s);
  ct_conf : sample (ms_meter s) = 2 ^ k - 1 ∧ interval (ms_meter s) = iv ∧
  disable (ms_meter s) = 0;
}.

(** The same when the meter is the only one to read its clock. *)
Definition counted (k t0 iv : Z) (c0 : C) (B Q N : Z) (s : mstate C) : Prop :=
  tallied k t0 iv B Q N s ∧ ms_clock s = ticks (Z.to_nat ((N + 1) / 2 ^ k)) c0.

Lemma reports_pos l :
  Forall (λ r, 0 ≤ rp_bytes r ∧ 0 ≤ rp_qps r) l →
  0 ≤ sum (rp_bytes <$> l) ∧ 0 ≤ sum (rp_qps <$> l).
Proof.
  induction 1 as [|r l ? ? ?]; [done|]. rewrite !fmap_cons, !sum_cons. lia.
Qed.

(** The call, where an overflow is allowed for or excluded. *)
Lemma AddQps_counts E k t0 iv B Q N b q s :
  tallied k t0 iv B Q N s → 0 ≤ k → 0 ≤ N → 0 ≤ b → 0 ≤ q →
  E Undef ∨ N < INT_MAX ∧ B + b ≤ LONG_MAX ∧ Q + q ≤ LONG_MAX →
  wp E (AddQps now b q) s (λ _ s', tallied k t0 iv (B + b) (Q + q) (N + 1) s' ∧
  ms_clock s' = if (N + 1) mod 2 ^ k =? 2 ^ k - 1 then (now (ms_clock s)).2 else ms_clock s).
Proof.
  intros [Hb Hq Hc Hd Hi [Hlog [? ?]] (Hsm & Hiv & Hdis)] Hk HN ? ? Hroom.
  destruct (reports_pos _ Hlog). destruct s as [m log clk].
  cbn [ms_meter ms_log ms_clock] in *. unfold AddQps. wp_steps. rewrite Hdis. simpl.
  wp_step. apply wp_signed64_or; [unfold LONG_MIN; destruct Hroom; [by left|right; lia]|].
  wp_step. apply wp_signed64_or; [unfold LONG_MIN; destruct Hroom; [by left|right; lia]|].
  wp_step. apply wp_signed32_or; [unfold INT_MIN; destruct Hroom; [by left|right; lia]|].
  unfold set_meter. wp_steps. rewrite Hsm, Hc, land_sample by lia.
  destruct ((N + 1) mod 2 ^ k =? 2 ^ k - 1).
  - unfold read_clock. wp_steps. apply wp_lift. intros t c' Ht. rewrite Ht.
    unfold interval_over. cbn [interval tp]. destruct (Z.leb_spec (interval m * 1000000) (t - tp m)).
    + unfold print_report. wp_steps. split; [|done].
      split; cbn [ms_meter ms_log ms_clock bytes qps cnt tp sample interval disable];
        rewrite ?fmap_app, ?sum_app; simpl; rewrite ?sum_single; try done; try lia.
      * apply Forall_app. split; [done|]. constructor; [simpl; lia|done].
      * split; [|lia]. apply Forall_app. split; [done|]. constructor; [simpl; lia|done].
    + wp_steps. split; [|done]. split; simpl; try done; try lia. split; [done|lia].
  - wp_steps. split; [|done]. split; simpl; try done; try lia. split; [done|lia].
Qed.

Lemma AddQps_tallied k t0 iv B Q N b q s :
  tallied k t0 iv B Q N s → 0 ≤ k → 0 ≤ N < INT_MAX → 0 ≤ b → 0 ≤ q →
  B + b ≤ LONG_MAX → Q + q ≤ LONG_MAX →
  wp total (AddQps now b q) s (λ _ s', tallied k t0 iv (B + b) (Q + q) (N + 1) s' ∧
  ms_clock s' = if (N + 1) mod 2 ^ k =? 2 ^ k - 1 then (now (ms_clock s)).2 else ms_clock s).
Proof. intros. apply AddQps_counts; try done; [lia|right; lia]. Qed.

Lemma AddQps_counted k t0 iv c0 B Q N b q s :
  counted k t0 iv c0 B Q N s → 0 ≤ k → 0 ≤ N < INT_MAX → 0 ≤ b → 0 ≤ q →
  B + b ≤ LONG_MAX → Q + q ≤ LONG_MAX →
  wp total (AddQps now b q) s (λ _ s', counted k t0 iv c0 (B + b) (Q + q) (N + 1) s').
Proof.
  intros [Ht Hclk] Hk HN ? ? ? ?.
  eapply wp_mono; [by apply (AddQps_tallied k t0 iv B Q N)|]. simpl. intros _ s' [Ht' Hclk'].
  split; [done|]. rewrite Hclk', Hclk.
  pose proof (Z.pow_pos_nonneg 2 k ltac:(lia) Hk).
  pose proof (Z.div_pos (N + 1) (2 ^ k) ltac:(lia) ltac:(lia)).
  rewrite (div_succ_sample (2 ^ k) (N + 1)) by lia.
  destruct ((N + 1) mod 2 ^ k =? 2 ^ k - 1).
  - rewrite Z2Nat.inj_add, Nat.add_1_r by lia. done.
  - by rewrite Z.add_0_r.
Qed.

(** Over a run of calls, as long as none of the counters overflows. *)
Lemma AddQps_all_counted k t0 iv c0 l B Q N s :
  counted k t0 iv c0 B Q N s → 0 ≤ k → 0 ≤ N → N + Z.of_nat (length l) ≤ INT_MAX →
  Forall (λ x, 0 ≤ x) l.*1 → Forall (λ x, 0 ≤ x) l.*2 →
  B + sum l.*1 ≤ LONG_MAX → Q + sum l.*2 ≤ LONG_MAX →
  wp total (AddQps_all now l) s (λ _ s',
  counted k t0 iv c0 (B + sum l.*1) (Q + sum l.*2) (N + Z.of_nat (length l)) s').
Proof.
  revert B Q N s. induction l as [|[b q] l IH]; intros B Q N s Hct Hk HN Hlen Hb Hq HB HQ.
  - apply wp_ret. simpl. by rewrite !Z.add_0_r.
  - rewrite !fmap_cons, !sum_cons in *. simpl in *. rewrite !Forall_cons_iff in *.
    pose proof (sum_nonneg _ (proj2 Hb)). pose proof (sum_nonneg _ (proj2 Hq)).
    wp_step. eapply wp_mono; [apply (AddQps_counted k t0 iv c0 B Q N); try lia; done|].
    simpl. intros _ s' Hct'. rewrite !Z.add_assoc.
    replace (N + Z.of_nat (S (length l))) with (N + 1 + Z.of_nat (length l)) by lia.
    apply IH; try done; try lia; [apply Hb|apply Hq].
Qed.

Lemma AddQps_all_app l l' s :
  AddQps_all now (l ++ l') s = (AddQps_all now l ≫= λ _, AddQps_all now l') s.
Proof.
  revert s. induction l as [|[b q] l IH]; intros s; [done|]. simpl.
  unfold mbind, M_bind in *. destruct (AddQps now b q s) as [[[] s']|]; [apply IH|done].
Qed.

Lemma AddQps_undef k t0 iv c0 B Q b q s :
  counted k t0 iv c0 B Q INT_MAX s → 0 ≤ b → 0 ≤ q → B + b ≤ LONG_MAX → Q + q ≤ LONG_MAX →
  AddQps now b q s = Stop Undef.
Proof.
  intros [[Hb Hq Hc _ _ [Hlog [? ?]] (_ & _ & Hdis)] _] ? ? ? ?.
  destruct (reports_pos _ Hlog). unfold AddQps, mbind, M_bind, gets. rewrite Hdis, Hc. simpl.
  unfold signed64, in_i64. rewrite !(proj2 (Z.leb_le _ _)) by (unfold LONG_MIN; lia). done.
Qed.
End accounting.

Lemma log2_up_int x :
  0 ≤ x < INT_MAX → 0 ≤ Z.log2_up (x + 1) ≤ 31 ∧ 0 < 2 ^ Z.log2_up (x + 1) ≤ 2 ^ 31.
Proof.
  unfold INT_MAX. intros Hx. assert (0 ≤ Z.log2_up (x + 1) ≤ 31).
  { split; [apply Z.log2_up_nonneg|]. rewrite <- (Z.log2_up_pow2 31) by lia.
    apply Z.log2_up_le_mono. lia. }
  split; [done|]. split; [by apply Z.pow_pos_nonneg; lia|by apply Z.pow_le_mono_r; lia].
Qed.

(** The constructor rounds the sample argument up to the next mask. *)
Lemma wp_Meter_make {C} (now : C → Z * C) iv smp env c E (Q : Meter → C → Prop) :
  0 ≤ smp < INT_MAX →
  Q (mkMeter (2 ^ Z.log2_up (smp + 1) - 1) 0 0 0 (now c).1 iv env) (now c).2 →
  wp E (Meter_make now iv smp env) c Q.
Proof.
  intros Hs HQ. unfold Meter_make. wp_step. apply wp_lift. intros t c' Ht. rewrite Ht in HQ.
  wp_step. unfold INT_MAX in *. apply wp_signed32; [unfold INT_MIN, INT_MAX; lia|]. wp_step.
  apply (wp_RoundUpPower2_loop _ _ _ 0); [lia|lia|apply Z.divide_1_l|lia|].
  destruct (log2_up_int smp Hs). apply wp_ret.
  rewrite i32_small by (unfold INT_MIN, INT_MAX; lia). exact HQ.
Qed.

(** [AddBytes] is [AddQps] with no operations, on a meter that has never counted
    any. *)
Lemma AddBytes_AddQps {C} (now : C → Z * C) add (s : mstate C) :
  qps (ms_meter s) = 0 → AddBytes now add s = AddQps now add 0 s.
Proof.
  intros Hq. unfold AddBytes, AddQps, gets, mbind, M_bind. rewrite Hq.
  case_match; [done|]. destruct (signed64 _ s) as [[b s1]|]; [|done].
  change (signed64 (0 + 0) s1) with (@Ret (Z * mstate C) (0, s1)). cbn iota beta.
  destruct (signed32 _ s1) as [[c s2]|]; [|done]. done.
Qed.

(** One call with bytes only, where an overflow is allowed for or excluded. *)
Lemma AddBytes_counts {C} (now : C → Z * C) E k t0 iv B N b (s : mstate C) :
  tallied k t0 iv B 0 N s → 0 ≤ k → 0 ≤ N → 0 ≤ b →
  E Undef ∨ N < INT_MAX ∧ B + b ≤ LONG_MAX →
  wp E (AddBytes now b) s (λ _ s', tallied k t0 iv (B + b) 0 (N + 1) s').
Proof.
  intros Ht Hk HN Hb Hroom. pose proof Ht as [_ Hsq _ _ _ [Hlog [? ?]] _].
  destruct (reports_pos _ Hlog). unfold wp. rewrite AddBytes_AddQps by lia.
  assert (Hwp : wp E (AddQps now b 0) s (λ _ s', tallied k t0 iv (B + b) 0 (N + 1) s')).
  { eapply wp_mono; [apply (AddQps_counts now E k t0 iv B 0 N); try done|by intros _ s2 [? _]].
    unfold LONG_MAX in *. destruct Hroom; [by left|right; lia]. }
  exact Hwp.
Qed.

(** One call with bytes only, on a meter shared with other readers of the clock. *)
Lemma wp_AddBytes {C} (now : C → Z * C) add (s : mstate C) :
  let m := ms_meter s in
  disable m ≠ 0 ∨ INT_MIN ≤ cnt m < INT_MAX ∧ 0 ≤ bytes m ∧ bytes m + add ≤ LONG_MAX → 0 ≤ add →
  wp total (AddBytes now add) s (λ _ s',
    (ms_clock s' = ms_clock s ∨ ms_clock s' = (now (ms_clock s)).2) ∧
    disable (ms_meter s') = disable m ∧ cnt m ≤ cnt (ms_meter s') ≤ cnt m + 1 ∧
    (0 ≤ bytes m → 0 ≤ bytes (ms_meter s') ≤ bytes m + add)).
Proof.
  intros m Hok Hadd. destruct s as [m0 log clk]; subst m; cbn [ms_meter ms_log ms_clock] in *.
  unfold AddBytes, set_meter, read_clock, print_report. wp_steps.
  destruct (disable m0 =? 0) eqn:Hdis; simpl; cycle 1.
  { wp_steps. split_and!; try done; try lia; by left. }
  destruct Hok as [|(? & ? & ?)]; [lia|].
  wp_step. apply wp_signed64; [unfold LONG_MIN; lia|].
  wp_step. apply wp_signed32; [lia|]. wp_steps.
  case_match; wp_steps; [|split_and!; try done; try lia; by left].
  apply wp_lift. intros t c Ht. case_match; wp_steps; rewrite ?Ht;
    (split_and!; simpl; try done; try lia; by right).
Qed.

(** A meter as the constructor leaves it, with mask [2^k - 1]. *)
Definition fresh_meter (k t0 iv : Z) : Meter := mkMeter (2 ^ k - 1) 0 0 0 t0 iv 0.

Lemma fresh_tallied {C} k t0 iv (c : C) : tallied k t0 iv 0 0 0 (MState (fresh_meter k t0 iv) [] c).
Proof. split; simpl; [done|done|done|unfold sum; simpl; lia|constructor|by split|done]. Qed.

Lemma fresh_counted {C} (now : C → Z * C) k t0 iv c0 :
  0 < k → counted now k t0 iv c0 0 0 0 (MState (fresh_meter k t0 iv) [] c0).
Proof.
  intros. split; [apply fresh_tallied|]. simpl.
  by rewrite Z.div_small by (split; [lia|apply Z.pow_gt_1; lia]).
Qed.

Section theorems.
Context {C : Type} (now : C → Z * C).

(** The mask of a meter.  For every sample argument of type [int] that
    the constructor may be given (not negative, below INT_MAX) it returns a
    mask of the form [2^k - 1], at least the argument, and the least such. *)
Lemma Meter_make_sample iv smp env (c : C) :
  0 ≤ smp < INT_MAX →
  wp total (Meter_make now iv smp env) c (λ m c', ∃ k, 0 ≤ k ≤ 31 ∧
  m = mkMeter (2 ^ k - 1) 0 0 0 (now c).1 iv env ∧ c' = (now c).2 ∧
  smp ≤ sample m ∧ ∀ j, 0 ≤ j → smp ≤ 2 ^ j - 1 → sample m ≤ 2 ^ j - 1).
Proof.
  intros Hs. apply wp_Meter_make; [done|]. exists (Z.log2_up (smp + 1)).
  pose proof (log2_up_int smp Hs). simpl.
  split_and!; [lia|lia|done|done| |].
  - destruct (decide (smp = 0)) as [->|]; [simpl; lia|].
    pose proof (Z.log2_up_spec (smp + 1) ltac:(lia)). lia.
  - intros j Hj Hle. apply Z.sub_le_mono_r, Z.pow_le_mono_r; [lia|].
    apply Z.log2_up_le_pow2; lia.
Qed.

(** C26. Nothing is lost and nothing counted twice.  After any run of calls
    that does not overflow a counter, the bytes and operations of the printed
    lines and what is still pending add up to exactly what was given to the
    meter; the lines tile the time since the start, each spans at least the
    interval, and the clock was read once in [2^k] calls only. *)
Theorem AddQps_conservation k t0 iv (c0 : C) l :
  0 < k → Z.of_nat (length l) ≤ INT_MAX →
  Forall (λ x, 0 ≤ x) l.*1 → Forall (λ x, 0 ≤ x) l.*2 →
  sum l.*1 ≤ LONG_MAX → sum l.*2 ≤ LONG_MAX →
  wp total (AddQps_all now l) (MState (fresh_meter k t0 iv) [] c0) (λ _ s,
  sum (rp_bytes <$> ms_log s) + bytes (ms_meter s) = sum l.*1 ∧
  sum (rp_qps <$> ms_log s) + qps (ms_meter s) = sum l.*2 ∧
  tp (ms_meter s) = t0 + sum (rp_dura <$> ms_log s) ∧
  Forall (λ r, iv * 1000000 ≤ rp_dura r) (ms_log s) ∧
  ms_clock s = ticks now (Z.to_nat ((Z.of_nat (length l) + 1) / 2 ^ k)) c0).
Proof.
  intros. eapply wp_mono;
    [apply (AddQps_all_counted now k t0 iv c0 l 0 0 0); try done; [by apply fresh_counted|lia]|].
  simpl. intros _ s [[? ? ? ? ? _ _] ?]. by split_and!.
Qed.

(** C40. [cnt] is an [int] that is never reset: the call number 2^31 on one
    meter overflows it, which is undefined behaviour. *)
Theorem AddQps_overflow k t0 iv (c0 : C) l x :
  0 < k → Z.of_nat (length l) = INT_MAX →
  Forall (λ x, 0 ≤ x) (l ++ [x]).*1 → Forall (λ x, 0 ≤ x) (l ++ [x]).*2 →
  sum (l ++ [x]).*1 ≤ LONG_MAX → sum (l ++ [x]).*2 ≤ LONG_MAX →
  AddQps_all now (l ++ [x]) (MState (fresh_meter k t0 iv) [] c0) = Stop Undef.
Proof.
  intros Hk Hlen Hb Hq HB HQ. rewrite !fmap_app, !sum_app, !Forall_app in *.
  destruct x as [b q]. simpl in *. rewrite !sum_single in *.
  destruct Hb as [Hb [Hb0 _]%Forall_cons_iff], Hq as [Hq [Hq0 _]%Forall_cons_iff].
  destruct (wp_run _ _ _ (AddQps_all_counted now k t0 iv c0 l 0 0 0 _
    (fresh_counted now k t0 iv c0 Hk) ltac:(lia) ltac:(lia) ltac:(lia) Hb Hq
    ltac:(lia) ltac:(lia))) as ([] & s' & Hrun & Hct).
  rewrite Hlen in Hct. rewrite AddQps_all_app. unfold mbind, M_bind. rewrite Hrun.
  simpl. unfold mbind, M_bind. rewrite (AddQps_undef now k t0 iv c0 _ _ _ _ _ Hct); [done|lia..].
Qed.
End theorems.

(** * Examples *)

(** A clock that advances by 600 ms per reading. *)
Definition demo_now (c : Z) : Z * Z := (c, c + 600000000).

Example Meter_demo :
  (λ s : mstate Z, (ms_log s, bytes (ms_meter s), cnt (ms_meter s))) <$>
    match AddQps_all demo_now [(10, 1); (20, 1); (30, 1); (40, 2); (50, 1)]
      (MState (fresh_meter 1 0 1000) [] 600000000) with Ret (_, s) => Some s | _ => None end
  = Some ([Report 60 3 1200000000], 90, 5).
Proof. vm_compute. reflexivity. Qed.

Example Meter_make_sample_demo :
  0 ≤ 15 < INT_MAX ∧
  wp total (Meter_make demo_now 1000 15 0) 7 (λ m c', ∃ k, 0 ≤ k ≤ 31 ∧
    m = mkMeter (2 ^ k - 1) 0 0 0 (demo_now 7).1 1000 0 ∧ c' = (demo_now 7).2 ∧
    15 ≤ sample m ∧ ∀ j, 0 ≤ j → 15 ≤ 2 ^ j - 1 → sample m ≤ 2 ^ j - 1).
Proof.
  split; [unfold INT_MAX; lia|].
  apply (Meter_make_sample demo_now 1000 15 0 7). unfold INT_MAX. lia.
Qed.

Lemma AddQps_conservation_witness :
  wp total (AddQps_all demo_now [(10, 1); (20, 2)]) (MState (fresh_meter 1 0 1000) [] 0) (λ _ s,
    sum (rp_bytes <$> ms_log s) + bytes (ms_meter s) = 30 ∧
    sum (rp_qps <$> ms_log s) + qps (ms_meter s) = 3 ∧
    tp (ms_meter s) = 0 + sum (rp_dura <$> ms_log s) ∧
    Forall (λ r, 1000 * 1000000 ≤ rp_dura r) (ms_log s) ∧
    ms_clock s = ticks demo_now 1 0).
Proof.
  apply (AddQps_conservation demo_now 1 0 1000 0 [(10, 1); (20, 2)]);
    unfold INT_MAX, LONG_MAX, sum; simpl; try lia; repeat constructor; lia.
Defined.

Lemma AddQps_overflow_witness :
  AddQps_all demo_now (replicate (Z.to_nat INT_MAX) (1, 1) ++ [(1, 1)])
    (MState (fresh_meter 1 0 1000) [] 0) = Stop Undef.
Proof.
  assert (0 ≤ INT_MAX) by (unfold INT_MAX; lia).
  apply (AddQps_overflow demo_now 1 0 1000 0);
    rewrite ?length_replicate, ?fmap_app, ?fmap_replicate, ?sum_app, ?sum_replicate, ?Z2Nat.id by done;
    try (apply Forall_app; split; [apply Forall_replicate; simpl; lia|by repeat constructor]);
    unfold INT_MAX, LONG_MAX, sum; simpl; lia.
Defined.
