(* ===== verification/Kernel.v ===== *)
(** The interface between the program and what lies below it: the system calls
    of Linux and the allocator.  [Kernel] lists the calls the program makes,
    over an abstract world [W]; [KernelLaws] states the documented behaviour of
    the calls the proofs rely on (recv(2), send(2), epoll_ctl(2), accept(2),
    close(2), posix_memalign(3)) through the observation [kview] of a world;
    [KernelReliable] adds what a run without hardware or peer failures has.
    The concrete kernel of [SimKernel] satisfies all of it. *)
From S2P Require Import Prelude CInt.

Local Open Scope Z_scope.

(** [struct epoll_event]. *)
Record epoll_event := EpollEvent { ev_events : Z; ev_data : Z }.

Definition EAGAIN : Z := 11.
Definition EWOULDBLOCK : Z := 11.
Definition ECONNRESET : Z := 104.
Definition EPOLL_CTL_ADD : Z := 1.
Definition EPOLL_CTL_DEL : Z := 2.
Definition EPOLL_CTL_MOD : Z := 3.

(** Calls whose effect on the byte streams is nil; they return a status and,
    for the getters, a value. *)
Inductive syscall :=
  | SysGetfl (fd : Z)
  | SysSetfl (fd flags : Z)
  | SysGetsockopt (fd level name : Z)
  | SysSetsockopt (fd level name val : Z)
  | SysBind (fd : Z) (addr : list byte)
  | SysListen (fd backlog : Z)
  | SysShutdown (fd how : Z).

(** The first [struct addrinfo] a getaddrinfo(3) call yields. *)
Record addrinfo := MkAddrinfo {
  ai_family : Z;
  ai_socktype : Z;
  ai_protocol : Z;
  ai_addr : list byte;  (* the socket address, [ai_addrlen] bytes *)
}.

Class Kernel (W : Type) := {
  sys_errno : W → Z;
  sys_recv : Z → Z → Z → W → option (list byte) * W;
  sys_send : Z → list byte → Z → W → option Z * W;
  sys_epoll_ctl : Z → Z → Z → option epoll_event → W → Z * W;
  sys_epoll_wait : Z → Z → Z → W → option (list epoll_event) * W;
  sys_epoll_create : Z → W → Z * W;
  sys_dup : Z → W → Z * W;
  sys_accept : Z → W → Z * W;
  sys_close : Z → W → Z * W;
  sys_socket : Z → Z → Z → W → Z * W;
  sys_connect : Z → list byte → Z → W → Z * W;
  sys_getpeername : Z → W → option (list byte) * W;
  sys_getaddrinfo : option string → Z → Z → Z → W → option addrinfo * W;
  sys_getnameinfo : list byte → Z → W → option (string * string) * W;
  sys_call : syscall → W → (Z * Z) * W;
  sys_memalign : Z → Z → W → option (list byte) * W;
}.

(** A connected stream socket as the program sees it: the bytes that have been
    read from it, the bytes the peer's stream will still deliver, and the bytes the
    kernel has accepted. *)
Record sock_view := SockView {
  sv_read : list byte;
  sv_rx : list byte;
  sv_tx : list byte;
}.

(** What is observable of a world: the open sockets, and the interest lists
    of the epoll instances, keyed by (epoll descriptor, descriptor). *)
Record kernel_view := KView {
  kv_sock : gmap Z sock_view;
  kv_epoll : gmap (Z * Z) epoll_event;
}.

Definition kv_set_sock (fd : Z) (s : sock_view) (v : kernel_view) : kernel_view :=
  KView (<[fd := s]> (kv_sock v)) (kv_epoll v).
Definition kv_set_epoll (m : gmap (Z * Z) epoll_event) (v : kernel_view) : kernel_view :=
  KView (kv_sock v) m.
Definition kv_close (fd : Z) (v : kernel_view) : kernel_view :=
  KView (delete fd (kv_sock v)) (filter (λ p, p.1.2 ≠ fd) (kv_epoll v)).

Class KernelLaws (W : Type) `{!Kernel W} := {
  kview : W → kernel_view;

  recv_Some fd len flags w bs w' s :
    sys_recv fd len flags w = (Some bs, w') → 0 ≤ len → kv_sock (kview w) !! fd = Some s →
    Z.of_nat (length bs) ≤ len ∧
    (bs = [] → len = 0 ∨ sv_rx s = []) ∧
    ∃ rest, sv_rx s = bs ++ rest ∧
      kview w' = kv_set_sock fd (SockView (sv_read s ++ bs) rest (sv_tx s)) (kview w);
  recv_None fd len flags w w' :
    sys_recv fd len flags w = (None, w') → kview w' = kview w;

  send_Some fd bs flags w n w' s :
    sys_send fd bs flags w = (Some n, w') → kv_sock (kview w) !! fd = Some s →
    0 ≤ n ≤ Z.of_nat (length bs) ∧ (bs ≠ [] → 0 < n) ∧
    kview w' = kv_set_sock fd
      (SockView (sv_read s) (sv_rx s) (sv_tx s ++ take (Z.to_nat n) bs)) (kview w);
  send_None fd bs flags w w' :
    sys_send fd bs flags w = (None, w') → kview w' = kview w;

  epoll_ctl_fail epfd op fd ev w r w' :
    sys_epoll_ctl epfd op fd ev w = (r, w') → r ≠ 0 → kview w' = kview w;
  epoll_ctl_set epfd op fd ev w w' :
    sys_epoll_ctl epfd op fd (Some ev) w = (0, w') → op = EPOLL_CTL_ADD ∨ op = EPOLL_CTL_MOD →
    kview w' = kv_set_epoll (<[(epfd, fd) := ev]> (kv_epoll (kview w))) (kview w);
  epoll_ctl_del epfd fd ev w w' :
    sys_epoll_ctl epfd EPOLL_CTL_DEL fd ev w = (0, w') →
    kview w' = kv_set_epoll (delete (epfd, fd) (kv_epoll (kview w))) (kview w);
  epoll_wait_view epfd maxev timeout w r w' :
    sys_epoll_wait epfd maxev timeout w = (r, w') → kview w' = kview w;
  (* a descriptor is reported once, with the data it was registered with *)
  epoll_wait_events epfd maxev timeout w evs w' :
    sys_epoll_wait epfd maxev timeout w = (Some evs, w') →
    (length evs ≤ Z.to_nat maxev)%nat ∧
    ∃ fds, NoDup fds ∧ Forall2 (λ fd e, ∃ r, kv_epoll (kview w) !! (epfd, fd) = Some r ∧
      ev_data e = ev_data r) fds evs;

  (* the new descriptor is one that was not open *)
  accept_fresh fd w n w' :
    sys_accept fd w = (n, w') → n ≠ -1 →
    0 ≤ n ∧ n ≠ fd ∧ kv_sock (kview w) !! n = None ∧
    (∀ epfd, kv_epoll (kview w) !! (epfd, n) = None) ∧
    ∃ rx, kview w' = kv_set_sock n (SockView [] rx []) (kview w);
  accept_fail fd w w' :
    sys_accept fd w = (-1, w') → kview w' = kview w;
  close_view fd w r w' :
    sys_close fd w = (r, w') → kview w' = kv_close fd (kview w);

  socket_view domain type protocol w n w' :
    sys_socket domain type protocol w = (n, w') → kview w' = kview w;
  getpeername_view fd w r w' :
    sys_getpeername fd w = (r, w') → kview w' = kview w;
  (* a [struct sockaddr_storage] holds any address *)
  getpeername_size fd w bs w' :
    sys_getpeername fd w = (Some bs, w') → (length bs ≤ 128)%nat;
  getaddrinfo_view host port socktype flags w r w' :
    sys_getaddrinfo host port socktype flags w = (r, w') → kview w' = kview w;
  getnameinfo_view addr flags w r w' :
    sys_getnameinfo addr flags w = (r, w') → kview w' = kview w;
  call_view c w r w' : sys_call c w = (r, w') → kview w' = kview w;
  memalign_Some al size w bs w' :
    sys_memalign al size w = (Some bs, w') →
    length bs = Z.to_nat size ∧ kview w' = kview w;
  memalign_None al size w w' :
    sys_memalign al size w = (None, w') → kview w' = kview w;
}.

(** A world without failures: memory does not run out, recv and send fail on
    an open socket only because they would block, and they do that finitely
    often ([k_patience] bounds how often, in the whole future). *)
Class KernelReliable (W : Type) `{!Kernel W, !KernelLaws W} := {
  k_patience : W → nat;
  recv_wouldblock fd len flags w w' :
    is_Some (kv_sock (kview w) !! fd) →
    sys_recv fd len flags w = (None, w') →
    sys_errno w' = EAGAIN ∧ (k_patience w' < k_patience w)%nat;
  recv_patience fd len flags w bs w' :
    sys_recv fd len flags w = (Some bs, w') → (k_patience w' ≤ k_patience w)%nat;
  send_wouldblock fd bs flags w w' :
    is_Some (kv_sock (kview w) !! fd) →
    sys_send fd bs flags w = (None, w') →
    sys_errno w' = EAGAIN ∧ (k_patience w' < k_patience w)%nat;
  send_patience fd bs flags w n w' :
    sys_send fd bs flags w = (Some n, w') → (k_patience w' ≤ k_patience w)%nat;
  epoll_mod_ok epfd fd ev w :
    is_Some (kv_epoll (kview w) !! (epfd, fd)) →
    (sys_epoll_ctl epfd EPOLL_CTL_MOD fd (Some ev) w).1 = 0;
  epoll_ctl_patience epfd op fd ev w r w' :
    sys_epoll_ctl epfd op fd ev w = (r, w') → (k_patience w' ≤ k_patience w)%nat;
  memalign_ok al size w :
    ∃ bs w', sys_memalign al size w = (Some bs, w') ∧ (k_patience w' ≤ k_patience w)%nat;
}.

(** In such a world no call of the server makes more transfers block. *)
Class KernelPatience (W : Type) `{!Kernel W, !KernelLaws W, !KernelReliable W} := {
  patience_recv fd len flags w : (k_patience (sys_recv fd len flags w).2 ≤ k_patience w)%nat;
  patience_send fd bs flags w : (k_patience (sys_send fd bs flags w).2 ≤ k_patience w)%nat;
  patience_epoll_ctl epfd op fd ev w :
    (k_patience (sys_epoll_ctl epfd op fd ev w).2 ≤ k_patience w)%nat;
  patience_epoll_wait epfd maxev timeout w :
    (k_patience (sys_epoll_wait epfd maxev timeout w).2 ≤ k_patience w)%nat;
  patience_accept fd w : (k_patience (sys_accept fd w).2 ≤ k_patience w)%nat;
  patience_close fd w : (k_patience (sys_close fd w).2 ≤ k_patience w)%nat;
  patience_getpeername fd w : (k_patience (sys_getpeername fd w).2 ≤ k_patience w)%nat;
  patience_getnameinfo addr flags w :
    (k_patience (sys_getnameinfo addr flags w).2 ≤ k_patience w)%nat;
  patience_call c w : (k_patience (sys_call c w).2 ≤ k_patience w)%nat;
  patience_memalign al size w : (k_patience (sys_memalign al size w).2 ≤ k_patience w)%nat;
}.

(** How a call tells that there is nothing more to read, or no room to write. *)
Definition just_drained {W} `{!Kernel W} (fd : Z) (w' : W) : Prop :=
  ∃ len flags w r, sys_recv fd len flags w = (r, w') ∧
  match r with None => True | Some bs => Z.of_nat (length bs) < len end.
Definition just_blocked {W} `{!Kernel W} (fd : Z) (w' : W) : Prop :=
  ∃ bs flags w, sys_send fd bs flags w = (None, w').

(** * Algebra of the observations *)

Lemma kv_set_sock_lookup fd s v : kv_sock (kv_set_sock fd s v) !! fd = Some s.
Proof. apply lookup_insert_eq. Qed.

Lemma kv_set_sock_lookup_ne fd fd' s v :
  fd ≠ fd' → kv_sock (kv_set_sock fd s v) !! fd' = kv_sock v !! fd'.
Proof. apply lookup_insert_ne. Qed.

Lemma kv_set_sock_set fd s s' v : kv_set_sock fd s (kv_set_sock fd s' v) = kv_set_sock fd s v.
Proof. unfold kv_set_sock. simpl. by rewrite insert_insert_eq. Qed.

Lemma kv_set_sock_id fd s v : kv_sock v !! fd = Some s → kv_set_sock fd s v = v.
Proof. destruct v. unfold kv_set_sock; simpl. intros. by rewrite insert_id. Qed.

Create Rewrite HintDb kview.
#[export] Hint Rewrite kv_set_sock_lookup kv_set_sock_set : kview.
