(* ===== verification/SimKernel.v ===== *)
(** A concrete kernel satisfying [KernelLaws] and [KernelReliable]: sockets are
    pairs of byte lists, a schedule decides how many bytes each recv or send
    moves and when it would block.  The witnesses of the development run on it. *)
From S2P Require Import Prelude CInt Kernel.

Local Open Scope Z_scope.

(** What happens to the next recv or send: it would block, or it moves at most
    the given number of bytes (at least one).  After the schedule is used up
    every transfer is complete. *)
Inductive sim_action := Block | Chunk (n : nat).

Record sim := Sim {
  sim_sock : gmap Z sock_view;
  sim_epoll : gmap (Z * Z) epoll_event;
  sim_sched : list sim_action;
  sim_errno : Z;
  sim_pending : list (list byte);      (* streams of clients waiting in the backlog *)
  sim_ready : list (list (Z * Z)); (* what the coming epoll_waits find: descriptors and events *)
}.

Definition sim_set_errno (e : Z) (w : sim) : sim :=
  Sim (sim_sock w) (sim_epoll w) (sim_sched w) e (sim_pending w) (sim_ready w).
Definition sim_set_sched (l : list sim_action) (w : sim) : sim :=
  Sim (sim_sock w) (sim_epoll w) l (sim_errno w) (sim_pending w) (sim_ready w).
Definition sim_set_sock (fd : Z) (s : sock_view) (w : sim) : sim :=
  Sim (<[fd := s]> (sim_sock w)) (sim_epoll w) (sim_sched w) (sim_errno w)
    (sim_pending w) (sim_ready w).
Definition sim_set_epoll (m : gmap (Z * Z) epoll_event) (w : sim) : sim :=
  Sim (sim_sock w) m (sim_sched w) (sim_errno w) (sim_pending w) (sim_ready w).

(** The number of bytes the next transfer of at most [len] bytes moves, or
    [None] when it would block, and the rest of the schedule. *)
Definition sim_quota (len : nat) (l : list sim_action) : option nat * list sim_action :=
  match l with
  | [] => (Some len, [])
  | Block :: l => (None, l)
  | Chunk n :: l => (Some (len `min` S (pred n))%nat, l)
  end.

Definition sim_recv (fd len flags : Z) (w : sim) : option (list byte) * sim :=
  match sim_sock w !! fd with
  | None => (None, sim_set_errno 9 w)
  | Some s =>
      match sim_quota (Z.to_nat len) (sim_sched w) with
      | (None, l) => (None, sim_set_errno EAGAIN (sim_set_sched l w))
      | (Some n, l) =>
          (Some (take n (sv_rx s)),
           sim_set_sock fd (SockView (sv_read s ++ take n (sv_rx s)) (drop n (sv_rx s)) (sv_tx s))
             (sim_set_sched l w))
      end
  end.

Definition sim_send (fd : Z) (bs : list byte) (flags : Z) (w : sim) : option Z * sim :=
  match sim_sock w !! fd with
  | None => (None, sim_set_errno 9 w)
  | Some s =>
      match sim_quota (length bs) (sim_sched w) with
      | (None, l) => (None, sim_set_errno EAGAIN (sim_set_sched l w))
      | (Some n, l) =>
          (Some (Z.of_nat n),
           sim_set_sock fd (SockView (sv_read s) (sv_rx s) (sv_tx s ++ take n bs)) (sim_set_sched l w))
      end
  end.

Definition sim_epoll_ctl (epfd op fd : Z) (ev : option epoll_event) (w : sim) : Z * sim :=
  match decide (op = EPOLL_CTL_ADD), decide (op = EPOLL_CTL_MOD), decide (op = EPOLL_CTL_DEL),
        ev, sim_epoll w !! (epfd, fd) with
  | left _, _, _, Some e, None => (0, sim_set_epoll (<[(epfd, fd) := e]> (sim_epoll w)) w)
  | _, left _, _, Some e, Some _ => (0, sim_set_epoll (<[(epfd, fd) := e]> (sim_epoll w)) w)
  | _, _, left _, _, Some _ => (0, sim_set_epoll (delete (epfd, fd) (sim_epoll w)) w)
  | _, _, _, _, _ => (-1, sim_set_errno 2 w)
  end.

(** The events of the registered ones among the given descriptors. *)
Fixpoint sim_report (reg : gmap (Z * Z) epoll_event) (epfd : Z) (seen : list Z)
    (l : list (Z * Z)) : list (Z * epoll_event) :=
  match l with
  | [] => []
  | (fd, events) :: l =>
      match decide (fd ∈ seen), reg !! (epfd, fd) with
      | right _, Some r =>
          (fd, EpollEvent events (ev_data r)) :: sim_report reg epfd (fd :: seen) l
      | _, _ => sim_report reg epfd seen l
      end
  end.

Definition sim_epoll_wait (epfd maxev timeout : Z) (w : sim) : option (list epoll_event) * sim :=
  match sim_ready w with
  | [] => (Some [], w)
  | evs :: l =>
      (Some (take (Z.to_nat maxev) (sim_report (sim_epoll w) epfd [] evs).*2),
       Sim (sim_sock w) (sim_epoll w) (sim_sched w) (sim_errno w) (sim_pending w) l)
  end.

(** A descriptor above every one in use. *)
Definition sim_fresh_fd (w : sim) : Z :=
  1 + foldr Z.max 2 ((elements (dom (sim_sock w)) ++ (elements (dom (sim_epoll w))).*2)).

Definition sim_accept (fd : Z) (w : sim) : Z * sim :=
  match sim_pending w with
  | [] => (-1, sim_set_errno EAGAIN w)
  | rx :: l =>
      let n := Z.max (fd + 1) (sim_fresh_fd w) in
      (n, Sim (<[n := SockView [] rx []]> (sim_sock w)) (sim_epoll w) (sim_sched w)
            (sim_errno w) l (sim_ready w))
  end.

Definition sim_close (fd : Z) (w : sim) : Z * sim :=
  (0, Sim (delete fd (sim_sock w)) (filter (λ p, p.1.2 ≠ fd) (sim_epoll w)) (sim_sched w)
        (sim_errno w) (sim_pending w) (sim_ready w)).

#[export] Instance sim_kernel : Kernel sim := {|
    sys_errno := sim_errno;
    sys_recv := sim_recv;
    sys_send := sim_send;
    sys_epoll_ctl := sim_epoll_ctl;
    sys_epoll_wait := sim_epoll_wait;
    sys_epoll_create flags w := (3, w);
    sys_dup fd w := (fd, w);
    sys_accept := sim_accept;
    sys_close := sim_close;
    sys_socket _ _ _ w := (sim_fresh_fd w, w);
    sys_connect fd addr len w :=
      if decide (16 ≤ len) then (0, sim_set_sock fd (SockView [] [] []) w) else (-1, w);
    sys_getpeername fd w := (Some (replicate 16 Byte.x00), w);
    sys_getaddrinfo host port socktype flags w :=
      (Some (MkAddrinfo 2 socktype 0 (replicate 16 Byte.x00)), w);
    sys_getnameinfo addr flags w := (Some ("127.0.0.1", "18000"), w);
    sys_call c w := ((0, 0), w);
    sys_memalign al size w := (Some (replicate (Z.to_nat size) Byte.x00), w);
|}.

Lemma foldr_max_ge (l : list Z) (d x : Z) : x ∈ l → x ≤ foldr Z.max d l.
Proof.
  induction l as [|y l IH]; simpl; [by intros ?%elem_of_nil|].
  intros [->|?%IH]%elem_of_cons; lia.
Qed.

Lemma foldr_max_ge_d (l : list Z) (d : Z) : d ≤ foldr Z.max d l.
Proof. induction l; simpl; lia. Qed.

Lemma sim_fresh_sock (w : sim) n : sim_fresh_fd w ≤ n → sim_sock w !! n = None.
Proof.
  intros Hn. apply not_elem_of_dom. intros Hin.
  assert (n ≤ foldr Z.max 2 (elements (dom (sim_sock w)) ++ (elements (dom (sim_epoll w))).*2)).
  { apply foldr_max_ge, elem_of_app. left. by apply elem_of_elements. }
  unfold sim_fresh_fd in *. lia.
Qed.

Lemma sim_fresh_epoll (w : sim) n epfd : sim_fresh_fd w ≤ n → sim_epoll w !! (epfd, n) = None.
Proof.
  intros Hn. apply not_elem_of_dom. intros Hin.
  assert (n ≤ foldr Z.max 2 (elements (dom (sim_sock w)) ++ (elements (dom (sim_epoll w))).*2)).
  { apply foldr_max_ge, elem_of_app. right.
    apply list_elem_of_fmap. exists (epfd, n). split; [done|]. by apply elem_of_elements. }
  unfold sim_fresh_fd in *. lia.
Qed.

Definition sim_view (w : sim) : kernel_view := KView (sim_sock w) (sim_epoll w).

Lemma sim_quota_le len l n l' : sim_quota len l = (Some n, l') → (n ≤ len)%nat ∧ (len ≠ 0 → n ≠ 0)%nat ∧ (length l' ≤ length l)%nat.
Proof. destruct l as [|[] l]; simpl; intros; simplify_eq/=; lia. Qed.

Lemma sim_quota_None len l l' : sim_quota len l = (None, l') → (length l' < length l)%nat.
Proof. destruct l as [|[] l]; simpl; intros; simplify_eq/=; lia. Qed.

(** ** The laws *)

Section laws.
Implicit Types (w : sim) (fd : Z).

Lemma sim_recv_Some fd len flags w bs w' s :
  sim_recv fd len flags w = (Some bs, w') → 0 ≤ len → sim_sock w !! fd = Some s →
  Z.of_nat (length bs) ≤ len ∧ (bs = [] → len = 0 ∨ sv_rx s = []) ∧
  ∃ rest, sv_rx s = bs ++ rest ∧
  sim_view w' = kv_set_sock fd (SockView (sv_read s ++ bs) rest (sv_tx s)) (sim_view w).
Proof.
  unfold sim_recv. intros Hr Hlen Hs. rewrite Hs in Hr.
  destruct (sim_quota _ _) as [[n|] l] eqn:Hq; simplify_eq.
  apply sim_quota_le in Hq as (? & ? & ?). rewrite length_take. split_and!; [lia| |].
  - intros Hnil. apply (f_equal length) in Hnil. rewrite length_take in Hnil. simpl in Hnil.
    destruct (sv_rx s); [by right|left]. simpl in *. lia.
  - exists (drop n (sv_rx s)). by rewrite take_drop.
Qed.

Lemma sim_send_Some fd bs flags w n w' s :
  sim_send fd bs flags w = (Some n, w') → sim_sock w !! fd = Some s →
  0 ≤ n ≤ Z.of_nat (length bs) ∧ (bs ≠ [] → 0 < n) ∧
  sim_view w' =
  kv_set_sock fd (SockView (sv_read s) (sv_rx s) (sv_tx s ++ take (Z.to_nat n) bs)) (sim_view w).
Proof.
  unfold sim_send. intros Hr Hs. rewrite Hs in Hr.
  destruct (sim_quota _ _) as [[m|] l] eqn:Hq; simplify_eq.
  apply sim_quota_le in Hq as (? & Hnz & ?). rewrite Nat2Z.id. split_and!; try lia; [|done].
  intros Hbs. destruct bs; simpl in *; [done|lia].
Qed.

Lemma sim_recv_None fd len flags w w' :
  sim_recv fd len flags w = (None, w') → sim_view w' = sim_view w.
Proof.
  unfold sim_recv. destruct (sim_sock w !! fd) as [s|]; [|by intros; simplify_eq].
  destruct (sim_quota _ _) as [[n|] l]; intros; by simplify_eq.
Qed.

Lemma sim_send_None fd bs flags w w' :
  sim_send fd bs flags w = (None, w') → sim_view w' = sim_view w.
Proof.
  unfold sim_send. destruct (sim_sock w !! fd) as [s|]; [|by intros; simplify_eq].
  destruct (sim_quota _ _) as [[n|] l]; intros; by simplify_eq.
Qed.

Ltac sim_epoll_cases :=
  unfold sim_epoll_ctl; intros;
  destruct (decide (_ = EPOLL_CTL_ADD)), (decide (_ = EPOLL_CTL_MOD)),
  (decide (_ = EPOLL_CTL_DEL)); repeat case_match; simplify_eq/=; try done; naive_solver.

Lemma sim_epoll_ctl_fail epfd op fd ev w r w' :
  sim_epoll_ctl epfd op fd ev w = (r, w') → r ≠ 0 → sim_view w' = sim_view w.
Proof. sim_epoll_cases. Qed.

Lemma sim_epoll_ctl_set epfd op fd ev w w' :
  sim_epoll_ctl epfd op fd (Some ev) w = (0, w') → op = EPOLL_CTL_ADD ∨ op = EPOLL_CTL_MOD →
  sim_view w' = kv_set_epoll (<[(epfd, fd) := ev]> (sim_epoll w)) (sim_view w).
Proof. intros Hc [->| ->]; revert Hc; sim_epoll_cases. Qed.

Lemma sim_epoll_ctl_del epfd fd ev w w' :
  sim_epoll_ctl epfd EPOLL_CTL_DEL fd ev w = (0, w') →
  sim_view w' = kv_set_epoll (delete (epfd, fd) (sim_epoll w)) (sim_view w).
Proof. sim_epoll_cases. Qed.

Lemma sim_report_spec reg epfd seen l :
  NoDup (sim_report reg epfd seen l).*1 ∧
  Forall (λ fd, fd ∉ seen) (sim_report reg epfd seen l).*1 ∧
  Forall (λ p, ∃ r, reg !! (epfd, p.1) = Some r ∧ ev_data p.2 = ev_data r)
  (sim_report reg epfd seen l).
Proof.
  revert seen. induction l as [|[fd ev] l IH]; intros seen; simpl; [by repeat constructor|].
  destruct (decide (fd ∈ seen)), (reg !! (epfd, fd)) as [r|] eqn:Hr; try apply IH.
  destruct (IH (fd :: seen)) as (Hnd & Hseen & Hreg). split_and!.
  - constructor; [|done]. intros Hin. rewrite Forall_forall in Hseen.
    apply list_elem_of_In in Hin. apply (Hseen _ Hin). by left.
  - constructor; [done|]. revert Hseen. apply Forall_impl. intros x Hx ?. apply Hx. by right.
  - constructor; [by exists r|done].
Qed.

Lemma sim_epoll_wait_events epfd maxev timeout w evs w' :
  sim_epoll_wait epfd maxev timeout w = (Some evs, w') →
  (length evs ≤ Z.to_nat maxev)%nat ∧
  ∃ fds, NoDup fds ∧ Forall2 (λ fd e, ∃ r, sim_epoll w !! (epfd, fd) = Some r ∧
  ev_data e = ev_data r) fds evs.
Proof.
  unfold sim_epoll_wait. destruct (sim_ready w) as [|l rest]; intros; simplify_eq.
  { split; [simpl; lia|]. exists []. split; constructor. }
  split; [rewrite length_take; lia|].
  destruct (sim_report_spec (sim_epoll w) epfd [] l) as (Hnd & _ & Hreg).
  set (ps := sim_report _ _ _ _) in *. exists (take (Z.to_nat maxev) ps).*1. split.
  - rewrite fmap_take. eapply sublist_NoDup; [exact Hnd|]. apply sublist_take.
  - rewrite <- fmap_take. apply Forall2_fmap, Forall_Forall2_diag, Forall_take, Hreg.
Qed.

Lemma sim_accept_fresh fd w n w' :
  sim_accept fd w = (n, w') → n ≠ -1 →
  0 ≤ n ∧ n ≠ fd ∧ sim_sock w !! n = None ∧ (∀ epfd, sim_epoll w !! (epfd, n) = None) ∧
  ∃ rx, sim_view w' = kv_set_sock n (SockView [] rx []) (sim_view w).
Proof.
  unfold sim_accept. destruct (sim_pending w) as [|rx l]; intros ? ?; simplify_eq.
  assert (2 < sim_fresh_fd w).
  { unfold sim_fresh_fd. pose proof (foldr_max_ge_d (elements (dom (sim_sock w)) ++
    (elements (dom (sim_epoll w))).*2) 2). lia. }
  split_and!; [lia|lia|apply sim_fresh_sock; lia|intros; apply sim_fresh_epoll; lia|].
  by exists rx.
Qed.

Lemma sim_accept_fail fd w w' : sim_accept fd w = (-1, w') → sim_view w' = sim_view w.
Proof.
  unfold sim_accept. destruct (sim_pending w) as [|rx l]; intros; simplify_eq; [done|].
  unfold sim_fresh_fd in *. pose proof (foldr_max_ge_d (elements (dom (sim_sock w)) ++
    (elements (dom (sim_epoll w))).*2) 2). lia.
Qed.
End laws.


#[export] Program Instance sim_laws : KernelLaws sim := {|
    kview := sim_view;
    recv_Some := sim_recv_Some; recv_None := sim_recv_None;
    send_Some := sim_send_Some; send_None := sim_send_None;
    epoll_ctl_fail := sim_epoll_ctl_fail; epoll_ctl_set := sim_epoll_ctl_set;
    epoll_ctl_del := sim_epoll_ctl_del; epoll_wait_events := sim_epoll_wait_events;
    accept_fresh := sim_accept_fresh; accept_fail := sim_accept_fail;
|}.
Next Obligation.
  intros epfd maxev timeout w r w'. simpl. unfold sim_epoll_wait.
  case_match; intros; by simplify_eq.
Qed.
Next Obligation. intros fd w r w'. simpl. unfold sim_close. intros; by simplify_eq. Qed.
Next Obligation. intros; by simplify_eq/=. Qed.
Next Obligation. intros; by simplify_eq/=. Qed.
Next Obligation. intros; simplify_eq/=; lia. Qed.
Next Obligation. intros; by simplify_eq/=. Qed.
Next Obligation. intros; by simplify_eq/=. Qed.
Next Obligation. intros; by simplify_eq/=. Qed.
Next Obligation. intros; simplify_eq/=. by rewrite length_replicate. Qed.
Next Obligation. intros; by simplify_eq/=. Qed.

#[export] Program Instance sim_reliable : KernelReliable sim := {|
    k_patience w := length (sim_sched w)
|}.
Next Obligation.
  intros fd len flags w w' [s Hs]. simpl in *. unfold sim_recv. rewrite Hs.
  destruct (sim_quota _ _) as [[n|] l] eqn:Hq; intros; simplify_eq/=.
  split; [done|]. by eapply sim_quota_None.
Qed.
Next Obligation.
  intros fd len flags w bs w'. simpl. unfold sim_recv.
  destruct (sim_sock w !! fd); [|done].
  destruct (sim_quota _ _) as [[n|] l] eqn:Hq; intros; simplify_eq/=.
  apply sim_quota_le in Hq. lia.
Qed.
Next Obligation.
  intros fd bs flags w w' [s Hs]. simpl in *. unfold sim_send. rewrite Hs.
  destruct (sim_quota _ _) as [[n|] l] eqn:Hq; intros; simplify_eq/=.
  split; [done|]. by eapply sim_quota_None.
Qed.
Next Obligation.
  intros fd bs flags w n w'. simpl. unfold sim_send.
  destruct (sim_sock w !! fd); [|done].
  destruct (sim_quota _ _) as [[m|] l] eqn:Hq; intros; simplify_eq/=.
  apply sim_quota_le in Hq. lia.
Qed.
Next Obligation.
  intros epfd fd ev w [e He]. simpl in *. unfold sim_epoll_ctl. rewrite He.
  by destruct (decide (EPOLL_CTL_MOD = EPOLL_CTL_ADD)), (decide (EPOLL_CTL_MOD = EPOLL_CTL_MOD)),
    (decide (EPOLL_CTL_MOD = EPOLL_CTL_DEL)).
Qed.
Next Obligation.
  intros epfd op fd ev w r w'. simpl. unfold sim_epoll_ctl.
  destruct (decide (_ = EPOLL_CTL_ADD)), (decide (_ = EPOLL_CTL_MOD)),
    (decide (_ = EPOLL_CTL_DEL)); repeat case_match; intros; simplify_eq/=; lia.
Qed.
Next Obligation. intros al size w. simpl. eauto. Qed.

#[export] Program Instance sim_patience : KernelPatience sim := {}.
Next Obligation.
  intros fd len flags w. simpl. unfold sim_recv. destruct (sim_sock w !! fd); [|simpl; lia].
  destruct (sim_sched w) as [|[] l]; simpl; lia.
Qed.
Next Obligation.
  intros fd bs flags w. simpl. unfold sim_send. destruct (sim_sock w !! fd); [|simpl; lia].
  destruct (sim_sched w) as [|[] l]; simpl; lia.
Qed.
Next Obligation.
  intros epfd op fd ev w. simpl. unfold sim_epoll_ctl. repeat case_match; simpl; lia.
Qed.
Next Obligation. intros epfd maxev timeout w. simpl. unfold sim_epoll_wait. case_match; simpl; lia. Qed.
Next Obligation. intros fd w. simpl. unfold sim_accept. case_match; simpl; lia. Qed.
Next Obligation. intros fd w. simpl. lia. Qed.
Next Obligation. intros fd w. simpl. lia. Qed.
Next Obligation. intros addr flags w. simpl. lia. Qed.
Next Obligation. intros c w. simpl. lia. Qed.
Next Obligation. intros al size w. simpl. lia. Qed.
