(* ===== verification/Poll.v ===== *)
(** socket/poll.h: interests, events, the epoll selector, [Registry] and [Poll]. *)
From stdpp Require Import pretty.
From S2P Require Import Prelude CInt Kernel.

Local Open Scope Z_scope.

(** Testing a flag: [x & flag] used as a boolean. *)
Definition has_flag (x flag : Z) : bool := negb (Z.land x flag =? 0).

(** * class Interest *)
Module Interest.
Record Interest := mk { inner_ : Z }.

Definition READABLE : Z := 1.
Definition WRITABLE : Z := 2.

(** The constructor, [RPC_CHECK(interest <= (READABLE | WRITABLE))]; its
    argument is a uint8_t. *)
Definition make {S} (interest : Z) : M S Interest :=
  _ ← check (u8 interest <=? Z.lor READABLE WRITABLE);
  mret (mk (u8 interest)).

Definition IsReadable (i : Interest) : bool := has_flag (inner_ i) READABLE.
Definition IsWritable (i : Interest) : bool := has_flag (inner_ i) WRITABLE.

Definition Add {S} (i other : Interest) : M S Interest :=
  make (Z.lor (inner_ i) (inner_ other)).
Definition Remove {S} (i other : Interest) : M S Interest :=
  make (Z.land (inner_ i) (Z.lnot (inner_ other))).
(** [operator|] *)
Definition or {S} (i other : Interest) : M S Interest := Add i other.
(** [operator|=]: no check. *)
Definition or_assign (i other : Interest) : Interest :=
  mk (u8 (Z.lor (inner_ i) (inner_ other))).

Definition DebugString (i : Interest) : string :=
  (if IsReadable i then "READABLE" else "") +:+
  (if IsWritable i then (if IsReadable i then " | " else "") +:+ "WRITABLE" else "").

(** What the constructor guarantees of every interest. *)
Definition wf (i : Interest) : Prop := 0 ≤ inner_ i ≤ 3.

#[export] Instance wf_dec i : Decision (wf i).
Proof. unfold wf. apply _. Defined.

Lemma wf_cases i : wf i → i = mk 0 ∨ i = mk 1 ∨ i = mk 2 ∨ i = mk 3.
Proof.
  destruct i as [z]. unfold wf; simpl. intros.
  assert (z = 0 ∨ z = 1 ∨ z = 2 ∨ z = 3) as [->|[->|[->| ->]]] by lia; auto.
Qed.

Lemma wp_make {S} E z (s : S) (Q : Interest → S → Prop) :
  0 ≤ z ≤ 3 → Q (mk z) s → wp E (make z) s Q.
Proof.
  intros Hz HQ. unfold make. rewrite u8_small by lia. wp_step. apply wp_check.
  - change (Z.lor READABLE WRITABLE) with 3. lia.
  - intros _. by apply wp_ret.
Qed.

(** The interests of an endpoint: always in reading. *)
Definition reading (i : Interest) : Prop := wf i ∧ IsReadable i = true.

Lemma or_assign_writable i :
  reading i →
  reading (or_assign i (mk WRITABLE)) ∧ IsWritable (or_assign i (mk WRITABLE)) = true.
Proof. intros [Hwf Hr]. revert Hr. by destruct (wf_cases _ Hwf) as [->|[->|[->| ->]]]. Qed.
End Interest.

(** * The epoll flags *)
Definition EPOLLIN : Z := 1.
Definition EPOLLOUT : Z := 4.
Definition EPOLLERR : Z := 8.
Definition EPOLLHUP : Z := 16.
Definition EPOLLRDHUP : Z := 8192.
Definition EPOLLET : Z := 2 ^ 31.
Definition EPOLL_CLOEXEC : Z := 524288.

(** [sys::linux::InterestToEpoll] *)
Definition InterestToEpoll (interest : Interest.Interest) : Z :=
  let kind := EPOLLET in
  let kind := if Interest.IsReadable interest then Z.lor kind (Z.lor EPOLLIN EPOLLRDHUP) else kind in
  let kind := if Interest.IsWritable interest then Z.lor kind EPOLLOUT else kind in
  kind.

(** * class sys::linux::Selector *)
Module Selector.
Record Selector := mk { epollfd_ : Z }.

Section ops.
Context {W : Type} `{!Kernel W}.

Definition make (flags : Z) : M W Selector :=
  epollfd ← lift (sys_epoll_create flags);
  _ ← check (0 <=? epollfd);
  mret (mk epollfd).

(** The default constructor and [Create()]. *)
Definition Create : M W Selector := make EPOLL_CLOEXEC.

(** The copy constructor. *)
Definition copy (other : Selector) : M W Selector :=
  epollfd ← lift (sys_dup (epollfd_ other));
  _ ← check (0 <=? epollfd);
  mret (mk epollfd).

(** The destructor. *)
Definition destroy (s : Selector) : M W unit :=
  if epollfd_ s =? -1 then mret tt
  else _ ← lift (sys_close (epollfd_ s)); mret tt.

Definition EpollCtl (s : Selector) (op fd : Z) (epev : option epoll_event) : M W unit :=
  r ← lift (sys_epoll_ctl (epollfd_ s) op fd epev);
  check (r =? 0).

(** [Select]; [timeout_ms] is a [std::optional<milliseconds>]. *)
Definition Select (s : Selector) (maxevents : Z) (timeout_ms : option Z)
  : M W (option (list epoll_event)) :=
  let timeout := match timeout_ms with Some t => i32 t | None => -1 end in
  lift (sys_epoll_wait (epollfd_ s) maxevents timeout).

Definition Register (s : Selector) (fd token : Z) (interests : Interest.Interest) : M W unit :=
  EpollCtl s EPOLL_CTL_ADD fd (Some (EpollEvent (InterestToEpoll interests) token)).
Definition Reregister (s : Selector) (fd token : Z) (interests : Interest.Interest) : M W unit :=
  EpollCtl s EPOLL_CTL_MOD fd (Some (EpollEvent (InterestToEpoll interests) token)).
Definition Deregister (s : Selector) (fd : Z) : M W unit :=
  EpollCtl s EPOLL_CTL_DEL fd None.
End ops.
End Selector.

(** * class Event *)
Module Event.
Definition token (e : epoll_event) : Z := ev_data e.
Definition IsReadable (e : epoll_event) : bool := has_flag (ev_events e) EPOLLIN.
Definition IsWritable (e : epoll_event) : bool := has_flag (ev_events e) EPOLLOUT.
Definition IsError (e : epoll_event) : bool := has_flag (ev_events e) EPOLLERR.
Definition IsReadClosed (e : epoll_event) : bool :=
  has_flag (ev_events e) EPOLLHUP ||
  (has_flag (ev_events e) EPOLLRDHUP && has_flag (ev_events e) EPOLLIN).
Definition IsWriteClosed (e : epoll_event) : bool :=
  has_flag (ev_events e) EPOLLHUP ||
  (has_flag (ev_events e) EPOLLOUT && has_flag (ev_events e) EPOLLERR).

Definition DebugString (e : epoll_event) : string :=
  let r := IsReadable e in
  let w := IsWritable e in
  (if r then "EPOLLIN" else "") +:+
  (if w then (if r then " | " else "") +:+ "EPOLLOUT" else "") +:+
  (if IsError e then (if r || w then " | " else "") +:+ "EPOLLERR" else "") +:+
  "{ events: " +:+ pretty (ev_events e) +:+ ", data: " +:+ pretty (ev_data e) +:+ " }".
End Event.

(** * classes Registry and Poll *)
Module Poll.
Record Registry := mkRegistry { selector_ : Selector.Selector }.
Record Poll := mk { registry_ : Registry }.

Section ops.
Context {W : Type} `{!Kernel W}.

(** [Registry(sys::Selector selector) : selector_{selector}]: a copy of the
    selector; the parameter itself is destroyed by the caller. *)
Definition Registry_make (selector : Selector.Selector) : M W Registry :=
  s ← Selector.copy selector; mret (mkRegistry s).
Definition make (registry : Registry) : M W Poll :=
  s ← Selector.copy (selector_ registry); mret (mk (mkRegistry s)).

(** [Poll::Create()]: two copies of the selector are made on the way, the
    two originals are destroyed at the end of the expression. *)
Definition Create : M W Poll :=
  selector ← Selector.Create;
  registry ← Registry_make selector;
  poll ← make registry;
  _ ← Selector.destroy (selector_ registry);
  _ ← Selector.destroy selector;
  mret poll.

Definition PollUntil (p : Poll) (maxevents : Z) (timeout_ms : option Z)
  : M W (option (list epoll_event)) :=
  Selector.Select (selector_ (registry_ p)) maxevents timeout_ms.

(** [registry().Register(source, ..)] for the socket classes, the macro
    [POLL_DEFINE_FUNC_REGISTER_SOCKET]; the source is its descriptor. *)
Definition Register (p : Poll) (sockfd token : Z) (i : Interest.Interest) : M W unit :=
  Selector.Register (selector_ (registry_ p)) sockfd token i.
Definition Reregister (p : Poll) (sockfd token : Z) (i : Interest.Interest) : M W unit :=
  Selector.Reregister (selector_ (registry_ p)) sockfd token i.
Definition Deregister (p : Poll) (sockfd : Z) : M W unit :=
  Selector.Deregister (selector_ (registry_ p)) sockfd.

(** The descriptor under which the program knows its epoll instance. *)
Definition epfd (p : Poll) : Z := Selector.epollfd_ (selector_ (registry_ p)).
End ops.
End Poll.

(** * Properties of interests *)

Lemma Interest_cases (P : Interest.Interest → Prop) :
  P (Interest.mk 0) → P (Interest.mk 1) → P (Interest.mk 2) → P (Interest.mk 3) →
  ∀ i, Interest.wf i → P i.
Proof. intros ? ? ? ? i [->|[->|[->| ->]]]%Interest.wf_cases; done. Qed.

(** What the kernel is asked for.  The flags of an interest contain IN and
    RDHUP exactly for reading and OUT exactly for writing, and always ET: every
    registration of the program is edge-triggered.  There is nothing else in
    them. *)
Lemma InterestToEpoll_flags i :
  Interest.wf i →
  InterestToEpoll i =
    EPOLLET + (if Interest.IsReadable i then EPOLLIN + EPOLLRDHUP else 0) +
              (if Interest.IsWritable i then EPOLLOUT else 0) ∧
  has_flag (InterestToEpoll i) EPOLLET = true ∧
  has_flag (InterestToEpoll i) EPOLLIN = Interest.IsReadable i ∧
  has_flag (InterestToEpoll i) EPOLLRDHUP = Interest.IsReadable i ∧
  has_flag (InterestToEpoll i) EPOLLOUT = Interest.IsWritable i.
Proof. revert i. apply Interest_cases; by vm_compute. Qed.

(** Interests are sets.  On the interests the constructor lets through,
    [Add] is union and [Remove] is difference, their own check never fails, and
    [operator|=] is [Add]. *)
Lemma Interest_set {S} (i j : Interest.Interest) (s : S) :
  Interest.wf i → Interest.wf j →
  wp total (Interest.Add i j) s (λ k s', s' = s ∧ Interest.wf k ∧ k = Interest.or_assign i j ∧
    Interest.IsReadable k = Interest.IsReadable i || Interest.IsReadable j ∧
    Interest.IsWritable k = Interest.IsWritable i || Interest.IsWritable j) ∧
  wp total (Interest.Remove i j) s (λ k s', s' = s ∧ Interest.wf k ∧
    Interest.IsReadable k = Interest.IsReadable i && negb (Interest.IsReadable j) ∧
    Interest.IsWritable k = Interest.IsWritable i && negb (Interest.IsWritable j)).
Proof.
  intros Hi Hj. revert i Hi. apply Interest_cases; revert j Hj; apply Interest_cases;
    split; apply Interest.wp_make; (split_and!; done).
Qed.
