(* ===== verification/Buffer.v ===== *)
(** socket/buffer.h: the heap the buffers point into, and class [Buffer].
    A buffer is a view of a heap block, owning or not; two buffers may point to
    the same block, and writing through one is seen through the other. *)
From S2P Require Import Prelude CInt Kernel.

Local Open Scope Z_scope.

(** * The heap *)

(** A [char*]: a block and an offset into it. *)
Record ptr := Ptr { p_blk : Z; p_off : Z }.

#[export] Instance ptr_eq_dec : EqDecision ptr.
Proof. solve_decision. Defined.

Definition ptr_add (p : ptr) (n : Z) : ptr := Ptr (p_blk p) (p_off p + n).

Abbreviation heap := (gmap Z (list byte)).

(** The state of the process: its heap and the world below it. *)
Record machine (W : Type) := Machine { m_heap : heap; m_world : W }.
Arguments Machine {W} _ _.
Arguments m_heap {W} _.
Arguments m_world {W} _.

Definition set_heap {W} (h : heap) (m : machine W) : machine W := Machine h (m_world m).
Definition set_world {W} (w : W) (m : machine W) : machine W := Machine (m_heap m) w.

(** A system call made by code over the machine. *)
Definition sys {W A} (f : M W A) : M (machine W) A := zoom m_world set_world f.

(** Bytes [p, p + len) of the heap; reading outside the block is undefined. *)
Definition heap_read {W} (p : ptr) (len : Z) : M (machine W) (list byte) :=
  h ← gets m_heap;
  blk ← deref (h !! p_blk p);
  if (0 <=? p_off p) && (0 <=? len) && (p_off p + len <=? Z.of_nat (length blk))
  then mret (take (Z.to_nat len) (drop (Z.to_nat (p_off p)) blk))
  else undef.

Definition overwrite (off : nat) (bs blk : list byte) : list byte :=
  take off blk ++ bs ++ drop (off + length bs) blk.

(** Storing [bs] at [p]; storing outside the block is undefined. *)
Definition heap_write {W} (p : ptr) (bs : list byte) : M (machine W) unit :=
  h ← gets m_heap;
  blk ← deref (h !! p_blk p);
  if (0 <=? p_off p) && (p_off p + Z.of_nat (length bs) <=? Z.of_nat (length blk))
  then modify (set_heap (<[p_blk p := overwrite (Z.to_nat (p_off p)) bs blk]> h))
  else undef.

(** [free(p)]: the block must be allocated and [p] its start. *)
Definition heap_free {W} (p : ptr) : M (machine W) unit :=
  h ← gets m_heap;
  _ ← deref (h !! p_blk p);
  if p_off p =? 0 then modify (set_heap (delete (p_blk p) h)) else undef.

(** * class Buffer *)
Record Buffer := mkBuffer {
  ptr_ : option ptr;
  size_ : Z;
  msg_length_ : Z;
  bytes_handled_ : Z;
  is_owner_ : bool;
}.

Module Buffer.
Section ops.
Context {W : Type} `{!Kernel W}.

(** [Buffer(size_t size)] *)
Definition alloc (size : Z) : M (machine W) Buffer :=
  r ← sys (lift (sys_memalign 4096 size));
  match r with
  | None => fatal (* posix_memalign failed *)
  | Some bs =>
      h ← gets m_heap;
      let l := fresh (dom h) in
      _ ← modify (set_heap (<[l := bs]> h));
      mret (mkBuffer (Some (Ptr l 0)) size 0 0 true)
  end.

(** [~Buffer()] *)
Definition destroy (b : Buffer) : M (machine W) unit :=
  match is_owner_ b, ptr_ b with
  | true, Some p => heap_free p
  | _, _ => mret tt
  end.

(** [CopyFrom(Buffer* other)] *)
Definition CopyFrom (b other : Buffer) : M (machine W) Buffer :=
  _ ← check (msg_length_ other <=? size_ b);
  src ← deref (ptr_ other);
  dst ← deref (ptr_ b);
  bs ← heap_read src (msg_length_ other);
  _ ← heap_write dst bs;
  mret (mkBuffer (ptr_ b) (size_ b) (msg_length_ other) (bytes_handled_ b) (is_owner_ b)).
End ops.

(** [Buffer()] *)
Definition empty : Buffer := mkBuffer None 0 0 0 false.
(** [Buffer(void* ptr, size_t size, uint32_t msg_length)] *)
Definition of_ptr (p : option ptr) (size msg_length : Z) : Buffer :=
  mkBuffer p size msg_length 0 false.
(** [Buffer(Buffer* buffer)]: a view of the other buffer's memory. *)
Definition view (b : Buffer) : Buffer := of_ptr (ptr_ b) (size_ b) (msg_length_ b).

Definition GetRemainBuffer (b : Buffer) : option ptr :=
  (λ p, ptr_add p (bytes_handled_ b)) <$> ptr_ b.
Definition GetRemainSize (b : Buffer) : Z := u32 (msg_length_ b - bytes_handled_ b).
Definition IsClear (b : Buffer) : bool := msg_length_ b =? bytes_handled_ b.
Definition MarkHandled (nbytes : Z) (b : Buffer) : Buffer :=
  mkBuffer (ptr_ b) (size_ b) (msg_length_ b) (u32 (bytes_handled_ b + nbytes)) (is_owner_ b).
Definition set_msg_length (msg_length : Z) (b : Buffer) : Buffer :=
  mkBuffer (ptr_ b) (size_ b) msg_length (bytes_handled_ b) (is_owner_ b).
End Buffer.

(** * Lemmas *)

Lemma length_overwrite off bs blk :
  (off + length bs ≤ length blk)%nat → length (overwrite off bs blk) = length blk.
Proof. intros. unfold overwrite. rewrite !length_app, length_take, length_drop. lia. Qed.

Lemma take_overwrite off bs blk :
  (off ≤ length blk)%nat →
  take (off + length bs) (overwrite off bs blk) = take off blk ++ bs.
Proof.
  intros. unfold overwrite. rewrite app_assoc, take_app_length'; [done|].
  rewrite length_app, length_take. lia.
Qed.

(** [b] is backed by a block of the heap that is large enough for its message. *)
Definition buf_ok (h : heap) (b : Buffer) : Prop :=
  ∃ l blk, ptr_ b = Some (Ptr l 0) ∧ h !! l = Some blk ∧
    0 ≤ bytes_handled_ b ≤ msg_length_ b ∧ msg_length_ b ≤ Z.of_nat (length blk) ∧
    msg_length_ b < 2 ^ 32.

Section lemmas.
Context {W : Type} `{!Kernel W} (E : stop → Prop).
Implicit Types (m : machine W).

Lemma wp_heap_read p len blk m (Q : list byte → machine W → Prop) :
  m_heap m !! p_blk p = Some blk → 0 ≤ p_off p → 0 ≤ len →
  p_off p + len ≤ Z.of_nat (length blk) →
  Q (take (Z.to_nat len) (drop (Z.to_nat (p_off p)) blk)) m → wp E (heap_read p len) m Q.
Proof.
  intros Hl ? ? ? HQ. unfold heap_read. wp_steps. eapply wp_deref; [done|].
  assert ((0 <=? p_off p) && (0 <=? len) && (p_off p + len <=? Z.of_nat (length blk)) = true) as ->.
  { rewrite !andb_true_iff. lia. }
  by wp_steps.
Qed.

Lemma wp_heap_write p bs blk m (Q : unit → machine W → Prop) :
  m_heap m !! p_blk p = Some blk → 0 ≤ p_off p →
  p_off p + Z.of_nat (length bs) ≤ Z.of_nat (length blk) →
  Q tt (set_heap (<[p_blk p := overwrite (Z.to_nat (p_off p)) bs blk]> (m_heap m)) m) →
  wp E (heap_write p bs) m Q.
Proof.
  intros Hl ? ? HQ. unfold heap_write. wp_steps. eapply wp_deref; [done|].
  assert ((0 <=? p_off p) &&
    (p_off p + Z.of_nat (length bs) <=? Z.of_nat (length blk)) = true) as ->.
  { rewrite !andb_true_iff. lia. }
  by wp_steps.
Qed.

Lemma wp_heap_free l m (Q : unit → machine W → Prop) :
  is_Some (m_heap m !! l) → Q tt (set_heap (delete l (m_heap m)) m) →
  wp E (heap_free (Ptr l 0)) m Q.
Proof.
  intros [blk Hl] HQ. unfold heap_free. wp_steps. eapply wp_deref; [done|].
  by wp_steps.
Qed.

Lemma wp_sys {A} (f : W → A * W) m (Q : A → machine W → Prop) :
  (∀ a w', f (m_world m) = (a, w') → Q a (set_world w' m)) → wp E (sys (lift f)) m Q.
Proof. intros HQ. unfold sys. apply wp_zoom, wp_lift, HQ. Qed.

Lemma wp_alloc `{!KernelLaws W} size m (Q : Buffer → machine W → Prop) :
  (∀ w', sys_memalign 4096 size (m_world m) = (None, w') → E Fatal) →
  (∀ l blk w', m_heap m !! l = None → length blk = Z.to_nat size →
   sys_memalign 4096 size (m_world m) = (Some blk, w') →
   kview w' = kview (m_world m) →
   Q (mkBuffer (Some (Ptr l 0)) size 0 0 true) (Machine (<[l := blk]> (m_heap m)) w')) →
  wp E (Buffer.alloc size) m Q.
Proof.
  intros HF HQ. unfold Buffer.alloc. wp_step. apply wp_sys. intros [blk|] w' Hw'.
  - apply memalign_Some in Hw' as Hl. destruct Hl as [Hlen Hv]. wp_steps.
    apply HQ; try done. apply not_elem_of_dom, is_fresh.
  - by eapply HF.
Qed.
End lemmas.
