(* ===== verification/Socket.v ===== *)
(** socket/socket.h: addresses and the classes [Socket] and [TcpSocket], over
    the system calls of [Kernel]. *)
From S2P Require Import Prelude CInt Kernel.

Local Open Scope Z_scope.

Definition INVALID_SOCKET : Z := -1.
Definition AF_INET : Z := 2.
Definition SOCK_STREAM : Z := 1.
Definition IPPROTO_TCP : Z := 6.
Definition IPPROTO_IP : Z := 0.
Definition IP_TOS : Z := 1.
Definition SOL_SOCKET : Z := 1.
Definition SO_REUSEADDR : Z := 2.
Definition SO_ERROR : Z := 4.
Definition SO_SNDBUF : Z := 7.
Definition SO_RCVBUF : Z := 8.
Definition O_NONBLOCK : Z := 2048.
Definition AI_PASSIVE : Z := 1.
Definition AI_V4MAPPED : Z := 8.
Definition AI_ADDRCONFIG : Z := 32.
Definition NI_NUMERICHOST : Z := 1.
Definition NI_NUMERICSERV : Z := 2.

(** [sizeof(struct sockaddr)] and [sizeof(struct sockaddr_storage)]. *)
Definition sizeof_sockaddr : Z := 16.
Definition sizeof_sockaddr_storage : Z := 128.

(** * struct SockAddr: the bytes of the union that are set, and [addrlen] *)
Record SockAddr := MkSockAddr { addr_bytes : list byte; addrlen : Z }.

(** [SockAddr()]: nothing of the union is set. *)
Definition SockAddr_empty : SockAddr := MkSockAddr [] sizeof_sockaddr_storage.

(** [SockAddr(const struct sockaddr* saddr, socklen_t len)]; the memcpy must
    stay inside the union. *)
Definition SockAddr_make {S} (saddr : option (list byte)) : M S SockAddr :=
  match saddr with
  | None => fatal
  | Some bs =>
      _ ← check (0 <? Z.of_nat (length bs));
      if Z.of_nat (length bs) <=? sizeof_sockaddr_storage
      then mret (MkSockAddr bs (Z.of_nat (length bs)))
      else undef
  end.

Section socket.
Context {W : Type} `{!Kernel W}.

(** * struct AddrInfo *)
Definition AddrInfo_passive (port protocol : Z) : M W addrinfo :=
  r ← lift (sys_getaddrinfo None port protocol
            (Z.lor (Z.lor AI_PASSIVE AI_V4MAPPED) AI_ADDRCONFIG));
  match r with Some ai => mret ai | None => fatal end.
Definition AddrInfo_host (host : string) (port protocol : Z) (passive : bool) : M W addrinfo :=
  r ← lift (sys_getaddrinfo (Some host) port protocol
            (Z.lor (Z.lor (if passive then AI_PASSIVE else 0) AI_V4MAPPED) AI_ADDRCONFIG));
  match r with Some ai => mret ai | None => fatal end.

(** [AddrInfo::AddrStr(addr, len, protocol)]; the format is
    "%s://%s:%s" of the protocol, the host and the service. *)
Definition AddrInfo_AddrStr (addr : list byte) (protocol : Z) : M W string :=
  r ← lift (sys_getnameinfo addr (Z.lor NI_NUMERICHOST NI_NUMERICSERV));
  match r with
  | None => fatal
  | Some (addr_buf, serv_buf) =>
    let proto_str := if protocol =? SOCK_STREAM then "tcp" else "udp" in
    mret (proto_str +:+ "://" +:+ addr_buf +:+ ":" +:+ serv_buf)
  end.
(** [SockAddr::AddrStr(protocol = SOCK_STREAM)] *)
Definition SockAddr_AddrStr (a : SockAddr) : M W string :=
  AddrInfo_AddrStr (addr_bytes a) SOCK_STREAM.

(** * class Socket; the object is its field [sockfd] *)
Definition GetLastError : M W Z := gets sys_errno.

Definition LastErrorWouldBlock : M W bool :=
  errsv ← GetLastError;
  mret ((errsv =? EAGAIN) || (errsv =? EWOULDBLOCK)).

Definition GetSockError (sockfd : Z) : M W Z :=
  r ← lift (sys_call (SysGetsockopt sockfd SOL_SOCKET SO_ERROR));
  _ ← check (r.1 =? 0);
  mret r.2.

Definition SetNonBlock (sockfd : Z) (non_block : bool) : M W unit :=
  r ← lift (sys_call (SysGetfl sockfd));
  let flags := r.1 in
  let flags := if non_block then Z.lor flags O_NONBLOCK
             else Z.land flags (Z.lnot O_NONBLOCK) in
  r ← lift (sys_call (SysSetfl sockfd flags));
  check (negb (r.1 =? -1)).

Definition setsockopt_checked (sockfd level name val : Z) : M W unit :=
  r ← lift (sys_call (SysSetsockopt sockfd level name val));
  check (r.1 =? 0).
Definition SetReuseAddr (sockfd : Z) (reuse : bool) : M W unit :=
  setsockopt_checked sockfd SOL_SOCKET SO_REUSEADDR (if reuse then 1 else 0).
Definition SetRecvBuffer (sockfd bufsize : Z) : M W unit :=
  setsockopt_checked sockfd SOL_SOCKET SO_RCVBUF bufsize.
Definition SetSendBuffer (sockfd bufsize : Z) : M W unit :=
  setsockopt_checked sockfd SOL_SOCKET SO_SNDBUF bufsize.
Definition SetTos (sockfd tos : Z) : M W unit :=
  setsockopt_checked sockfd IPPROTO_IP IP_TOS (u8 tos).

Definition IsClosed (sockfd : Z) : bool := sockfd =? INVALID_SOCKET.

(** [Close()]: returns the new value of the field. *)
Definition Close (sockfd : Z) : M W Z :=
  _ ← check (negb (sockfd =? INVALID_SOCKET));
  _ ← lift (sys_close sockfd);
  mret INVALID_SOCKET.

Definition Shutdown (sockfd how : Z) : M W unit :=
  r ← lift (sys_call (SysShutdown sockfd how)); check (r.1 =? 0).

Definition TryBind (sockfd : Z) (ai : addrinfo) : M W bool :=
  r ← lift (sys_call (SysBind sockfd (ai_addr ai))); mret (r.1 =? 0).
Definition Bind (sockfd : Z) (ai : addrinfo) : M W unit :=
  r ← lift (sys_call (SysBind sockfd (ai_addr ai))); check (r.1 =? 0).

(** * class TcpSocket *)
Definition Create_ai (ai : addrinfo) : M W Z :=
  sockfd ← lift (sys_socket (ai_family ai) (ai_socktype ai) (ai_protocol ai));
  _ ← check (negb (sockfd =? INVALID_SOCKET));
  mret sockfd.
Definition Create (domain : Z) : M W Z :=
  sockfd ← lift (sys_socket domain SOCK_STREAM IPPROTO_TCP);
  _ ← check (negb (sockfd =? INVALID_SOCKET));
  mret sockfd.

Definition Listen (sockfd backlog : Z) : M W unit :=
  r ← lift (sys_call (SysListen sockfd backlog)); check (r.1 =? 0).

Definition Accept (sockfd : Z) : M W Z :=
  new_sock ← lift (sys_accept sockfd);
  _ ← check (negb (new_sock =? INVALID_SOCKET));
  mret new_sock.

(** [Connect(const SockAddr& addr)]: the length passed is that of a
    [struct sockaddr], whatever [addr.addrlen] says. *)
Definition Connect_addr (sockfd : Z) (addr : SockAddr) : M W bool :=
  r ← lift (sys_connect sockfd (addr_bytes addr) sizeof_sockaddr);
  mret (r =? 0).
Definition Connect (sockfd : Z) (ai : addrinfo) : M W bool :=
  addr ← SockAddr_make (Some (ai_addr ai));
  Connect_addr sockfd addr.

(** [Send]: [buf] is the contents of the memory passed; [None] is -1. *)
Definition Send (sockfd : Z) (buf : list byte) (flags : Z) : M W (option Z) :=
  lift (sys_send sockfd buf flags).
(** [Recv]: [Some bs] when the call stored [bs] and returned its length. *)
Definition Recv (sockfd len flags : Z) : M W (option (list byte)) :=
  lift (sys_recv sockfd len flags).

(** The loop of [SendAll]; [n] is the number of bytes sent so far. *)
Fixpoint SendAll_loop (fuel : nat) (sockfd : Z) (buf : list byte) (flags n : Z) : M W Z :=
  match fuel with
  | O => nofuel
  | S fuel =>
    if n <? Z.of_nat (length buf) then
      r ← Send sockfd (drop (Z.to_nat n) buf) flags;
      match r with
      | None =>
          wouldblock ← LastErrorWouldBlock;
          if wouldblock : bool then SendAll_loop fuel sockfd buf flags n
          else _ ← GetSockError sockfd; mret n
      | Some r => SendAll_loop fuel sockfd buf flags (n + r)
      end
    else mret n
  end.
Definition SendAll (fuel : nat) (sockfd : Z) (buf : list byte) (flags : Z) : M W Z :=
  SendAll_loop fuel sockfd buf flags 0.

(** The loop of [RecvAll]; [acc] is what has been stored at [buf] so far, so
    its length is the counter [n]. *)
Fixpoint RecvAll_loop (fuel : nat) (sockfd len flags : Z) (acc : list byte)
  : M W (list byte) :=
  match fuel with
  | O => nofuel
  | S fuel =>
    if Z.of_nat (length acc) <? len then
      r ← Recv sockfd (len - Z.of_nat (length acc)) flags;
      match r with
      | None =>
          wouldblock ← LastErrorWouldBlock;
          if wouldblock : bool then RecvAll_loop fuel sockfd len flags acc
          else _ ← GetSockError sockfd; mret acc
      | Some [] => mret acc
      | Some bs => RecvAll_loop fuel sockfd len flags (acc ++ bs)
      end
    else mret acc
  end.
Definition RecvAll (fuel : nat) (sockfd len flags : Z) : M W (list byte) :=
  RecvAll_loop fuel sockfd len flags [].
End socket.

(** * What the blocking loops do *)

Section specs.
Context {W : Type} `{!Kernel W, !KernelLaws W}.
Implicit Types (w : W) (v : kernel_view).

Lemma wp_LastErrorWouldBlock E w (Q : bool → W → Prop) :
  Q (sys_errno w =? EAGAIN) w → wp E LastErrorWouldBlock w Q.
Proof.
  intros HQ. unfold LastErrorWouldBlock, GetLastError, EWOULDBLOCK. wp_steps.
  change 11 with EAGAIN. by rewrite orb_diag.
Qed.

(** The error path of the loops asks for the pending error of the socket. *)
Lemma wp_GetSockError E fd w (Q : Z → W → Prop) :
  E Fatal → (∀ e w', kview w' = kview w → Q e w') → wp E (GetSockError fd) w Q.
Proof.
  intros HE HQ. unfold GetSockError. wp_step. apply wp_lift. intros r w' Hc.
  apply call_view in Hc. wp_step. apply wp_check; [done|]. intros _. wp_steps. by apply HQ.
Qed.

(** [v] is [v0] after [bs] has been taken from the stream of [fd]. *)
Definition received (fd : Z) (s0 : sock_view) (v0 : kernel_view) (bs : list byte)
  (v : kernel_view) : Prop :=
  ∃ rest, sv_rx s0 = bs ++ rest ∧
    v = kv_set_sock fd (SockView (sv_read s0 ++ bs) rest (sv_tx s0)) v0.

Lemma received_nil fd s v : kv_sock v !! fd = Some s → received fd s v [] v.
Proof.
  intros. exists (sv_rx s). split; [done|]. rewrite app_nil_r. destruct s.
  by rewrite kv_set_sock_id.
Qed.

Lemma received_lookup fd s0 v0 bs v :
  received fd s0 v0 bs v →
  ∃ rest, sv_rx s0 = bs ++ rest ∧
    kv_sock v !! fd = Some (SockView (sv_read s0 ++ bs) rest (sv_tx s0)).
Proof. intros (rest & ? & ->). exists rest. by rewrite kv_set_sock_lookup. Qed.

(** [received] determines the view, when all or a given number of bytes came. *)
Lemma received_take fd s0 v0 bs v n :
  received fd s0 v0 bs v → n = length bs ∨ (bs = sv_rx s0 ∧ length bs ≤ n)%nat →
  bs = take n (sv_rx s0) ∧
  v = kv_set_sock fd (SockView (sv_read s0 ++ bs) (drop n (sv_rx s0)) (sv_tx s0)) v0.
Proof.
  intros (rest & Hrx & ->) Hn. rewrite Hrx.
  assert (n = length bs ∨ (rest = [] ∧ length bs ≤ n)%nat) as [->|[-> ?]].
  { destruct Hn as [->|[Hbs ?]]; [by left|right]. split; [|done].
    apply (f_equal length) in Hrx. rewrite length_app, Hbs in Hrx. destruct rest; [done|].
    simpl in *. lia. }
  - by rewrite take_app_length, drop_app_length.
  - rewrite app_nil_r, take_ge, drop_ge by done. done.
Qed.

Lemma recv_received fd len flags w bs w' s0 v0 acc :
  sys_recv fd len flags w = (Some bs, w') → 0 ≤ len →
  received fd s0 v0 acc (kview w) →
  received fd s0 v0 (acc ++ bs) (kview w') ∧ Z.of_nat (length bs) ≤ len ∧
  (bs = [] → len = 0 ∨ acc = sv_rx s0).
Proof.
  intros Hr ? (rest & Hrx & Hv).
  assert (kv_sock (kview w) !! fd = Some (SockView (sv_read s0 ++ acc) rest (sv_tx s0))) as Hl
    by by rewrite Hv, kv_set_sock_lookup.
  destruct (recv_Some _ _ _ _ _ _ _ Hr ltac:(done) Hl) as (? & Heof & rest' & Hrest & Hv').
  simpl in *. subst rest. split_and!; [|done|].
  - exists rest'. rewrite Hrx, app_assoc. split; [done|].
    by rewrite Hv', Hv, kv_set_sock_set, app_assoc.
  - intros ->. destruct (Heof eq_refl) as [|Hnil]; [by left|right].
    simpl in *. by rewrite Hrx, Hnil, app_nil_r.
Qed.

Lemma RecvAll_loop_safe fuel fd len flags acc w s0 v0 :
  received fd s0 v0 acc (kview w) → Z.of_nat (length acc) ≤ len →
  wp safe (RecvAll_loop fuel fd len flags acc) w
  (λ bs w', received fd s0 v0 bs (kview w') ∧ Z.of_nat (length bs) ≤ len).
Proof.
  revert acc w. induction fuel as [|fuel IH]; intros acc w Hacc Hlen; [by right|].
  cbn [RecvAll_loop]. case_match; [|by wp_steps].
  wp_step. apply wp_lift. intros [bs|] w' Hr.
  - destruct (recv_received _ _ _ _ _ _ _ _ _ Hr ltac:(lia) Hacc) as (Hacc' & ? & _).
    destruct bs as [|b bs].
    + rewrite app_nil_r in Hacc'. by wp_steps.
    + apply IH; [done|]. rewrite length_app. lia.
  - apply recv_None in Hr. rewrite <- Hr in Hacc.
    wp_step. apply wp_LastErrorWouldBlock. case_match; [by apply IH|].
    wp_step. apply wp_GetSockError; [by left|]. intros e w'' Hv. rewrite <- Hv in Hacc.
    by wp_steps.
Qed.

(** [RecvAll] takes a prefix of at most [len] bytes off the stream, however
    the calls below it fail. *)
Lemma RecvAll_safe fuel fd len flags w s :
  0 ≤ len → kv_sock (kview w) !! fd = Some s →
  wp safe (RecvAll fuel fd len flags) w
  (λ bs w', received fd s (kview w) bs (kview w') ∧ Z.of_nat (length bs) ≤ len).
Proof. intros. apply RecvAll_loop_safe; [by apply received_nil|done]. Qed.

(** [v] is [v0] after [bs] has been given to the kernel for [fd]. *)
Definition sent (fd : Z) (s0 : sock_view) (v0 : kernel_view) (bs : list byte)
  (v : kernel_view) : Prop :=
  v = kv_set_sock fd (SockView (sv_read s0) (sv_rx s0) (sv_tx s0 ++ bs)) v0.

Lemma sent_nil fd s v : kv_sock v !! fd = Some s → sent fd s v [] v.
Proof. intros. unfold sent. rewrite app_nil_r. destruct s. by rewrite kv_set_sock_id. Qed.

Lemma send_sent fd buf n flags w r w' s0 v0 :
  sys_send fd (drop (Z.to_nat n) buf) flags w = (Some r, w') →
  0 ≤ n < Z.of_nat (length buf) →
  sent fd s0 v0 (take (Z.to_nat n) buf) (kview w) →
  sent fd s0 v0 (take (Z.to_nat (n + r)) buf) (kview w') ∧
  0 < r ∧ n + r ≤ Z.of_nat (length buf).
Proof.
  intros Hr Hn Hv.
  assert (kv_sock (kview w) !! fd =
    Some (SockView (sv_read s0) (sv_rx s0) (sv_tx s0 ++ take (Z.to_nat n) buf))) as Hl
    by by rewrite Hv, kv_set_sock_lookup.
  destruct (send_Some _ _ _ _ _ _ _ Hr Hl) as (Hrange & Hpos & Hv').
  rewrite length_drop in Hrange. simpl in *. split_and!; [|apply Hpos|lia].
  - unfold sent. rewrite Hv', Hv, kv_set_sock_set, <- app_assoc. do 3 f_equal; simpl.
    rewrite Z2Nat.inj_add by lia. apply take_take_drop.
  - intros Hnil. apply (f_equal length) in Hnil. rewrite length_drop in Hnil. simpl in *. lia.
Qed.

Lemma SendAll_loop_safe fuel fd buf flags n w s0 v0 :
  sent fd s0 v0 (take (Z.to_nat n) buf) (kview w) → 0 ≤ n ≤ Z.of_nat (length buf) →
  wp safe (SendAll_loop fuel fd buf flags n) w
  (λ n w', sent fd s0 v0 (take (Z.to_nat n) buf) (kview w') ∧
           0 ≤ n ≤ Z.of_nat (length buf)).
Proof.
  revert n w. induction fuel as [|fuel IH]; intros n w Hn Hlen; [by right|].
  cbn [SendAll_loop]. case_match; [|by wp_steps].
  wp_step. apply wp_lift. intros [r|] w' Hr.
  - destruct (send_sent _ _ _ _ _ _ _ _ _ Hr ltac:(lia) Hn) as (? & ? & ?).
    apply IH; [done|lia].
  - apply send_None in Hr. rewrite <- Hr in Hn.
    wp_step. apply wp_LastErrorWouldBlock. case_match; [by apply IH|].
    wp_step. apply wp_GetSockError; [by left|]. intros e w'' Hv. rewrite <- Hv in Hn.
    by wp_steps.
Qed.

(** [SendAll] gives the kernel a prefix of the buffer, the one its result
    counts, however the calls below it fail. *)
Lemma SendAll_safe fuel fd buf flags w s :
  kv_sock (kview w) !! fd = Some s →
  wp safe (SendAll fuel fd buf flags) w
  (λ n w', sent fd s (kview w) (take (Z.to_nat n) buf) (kview w') ∧
           0 ≤ n ≤ Z.of_nat (length buf)).
Proof. intros. apply SendAll_loop_safe; [by apply sent_nil|lia]. Qed.

Context `{!KernelReliable W}.

Lemma SendAll_loop_total fuel fd buf flags n w s0 v0 :
  sent fd s0 v0 (take (Z.to_nat n) buf) (kview w) → 0 ≤ n ≤ Z.of_nat (length buf) →
  (length buf + k_patience w < fuel + Z.to_nat n)%nat →
  wp total (SendAll_loop fuel fd buf flags n) w
  (λ n w', n = Z.of_nat (length buf) ∧ sent fd s0 v0 buf (kview w') ∧
           (k_patience w' ≤ k_patience w)%nat).
Proof.
  revert n w. induction fuel as [|fuel IH]; intros n w Hn Hlen Hfuel; [lia|].
  cbn [SendAll_loop]. destruct (Z.ltb_spec n (Z.of_nat (length buf))); cycle 1.
  { assert (n = Z.of_nat (length buf)) as -> by lia. wp_steps.
    rewrite Nat2Z.id, firstn_all in Hn. by split_and!. }
  wp_step. apply wp_lift. intros [r|] w' Hr.
  - destruct (send_sent _ _ _ _ _ _ _ _ _ Hr ltac:(lia) Hn) as (? & ? & ?).
    apply send_patience in Hr.
    eapply wp_mono; [apply IH; [done|lia|lia]|].
    simpl. intros ? ? (? & ? & ?). split_and!; [done|done|lia].
  - apply send_None in Hr as Hv. unfold sent in Hn.
    apply send_wouldblock in Hr as [Hwb ?]; [|by rewrite Hn, kv_set_sock_lookup].
    rewrite <- Hv in Hn. wp_step. apply wp_LastErrorWouldBlock. rewrite Hwb. simpl.
    eapply wp_mono; [apply IH; [done|lia|lia]|].
    simpl. intros ? ? (? & ? & ?). split_and!; [done|done|lia].
Qed.

(** Over a reliable world [SendAll] sends the whole buffer. *)
Lemma SendAll_total fuel fd buf flags w s :
  kv_sock (kview w) !! fd = Some s → (length buf + k_patience w < fuel)%nat →
  wp total (SendAll fuel fd buf flags) w
  (λ n w', n = Z.of_nat (length buf) ∧ sent fd s (kview w) buf (kview w') ∧
           (k_patience w' ≤ k_patience w)%nat).
Proof. intros. apply SendAll_loop_total; [by apply sent_nil|lia|lia]. Qed.

Lemma RecvAll_loop_total fuel fd len flags acc w s0 v0 :
  received fd s0 v0 acc (kview w) → Z.of_nat (length acc) ≤ len →
  (Z.to_nat len + k_patience w < fuel + length acc)%nat →
  wp total (RecvAll_loop fuel fd len flags acc) w
  (λ bs w', received fd s0 v0 bs (kview w') ∧
            (Z.to_nat len = length bs ∨ (bs = sv_rx s0 ∧ length bs ≤ Z.to_nat len)%nat) ∧
            (k_patience w' ≤ k_patience w)%nat ∧
            (Z.of_nat (length bs) < len → just_drained fd w')).
Proof.
  revert acc w. induction fuel as [|fuel IH]; intros acc w Hacc Hlen Hfuel; [lia|].
  cbn [RecvAll_loop]. destruct (Z.ltb_spec (Z.of_nat (length acc)) len); cycle 1.
  { wp_steps. split_and!; [done|lia|lia|lia]. }
  wp_step. apply wp_lift. intros [bs|] w' Hr.
  - destruct (recv_received _ _ _ _ _ _ _ _ _ Hr ltac:(lia) Hacc) as (Hacc' & ? & Heof).
    apply recv_patience in Hr as ?. destruct bs as [|b bs].
    + rewrite app_nil_r in Hacc'. wp_steps. split_and!; [done| |lia|].
      2: { intros _. eexists _, _, _, _. split; [exact Hr|simpl; lia]. }
      right. destruct (Heof eq_refl) as [| ->]; [lia|]. split; [done|lia].
    + eapply wp_mono; [apply IH; [done| |]; rewrite length_app; simpl in *; lia|].
      simpl. intros ? ? (? & ? & ? & ?). split_and!; [done|done|lia|done].
  - apply recv_None in Hr as Hv. destruct (received_lookup _ _ _ _ _ Hacc) as (? & ? & Hl).
    apply recv_wouldblock in Hr as [Hwb ?]; [|by rewrite Hl].
    rewrite <- Hv in Hacc. wp_step. apply wp_LastErrorWouldBlock. rewrite Hwb. simpl.
    eapply wp_mono; [by apply IH; [done|done|lia]|].
    simpl. intros ? ? (? & ? & ? & ?). split_and!; [done|done|lia|done].
Qed.

(** Over a reliable world [RecvAll] returns the next [len] bytes of the
    stream, or all of it when the peer closes earlier. *)
Lemma RecvAll_total fuel fd len flags w s :
  0 ≤ len → kv_sock (kview w) !! fd = Some s →
  (Z.to_nat len + k_patience w < fuel)%nat →
  wp total (RecvAll fuel fd len flags) w
  (λ bs w', bs = take (Z.to_nat len) (sv_rx s) ∧
     kview w' = kv_set_sock fd
       (SockView (sv_read s ++ bs) (drop (Z.to_nat len) (sv_rx s)) (sv_tx s)) (kview w) ∧
     (k_patience w' ≤ k_patience w)%nat ∧
     (Z.of_nat (length bs) < len → just_drained fd w')).
Proof.
  intros. eapply wp_mono; [eapply RecvAll_loop_total; [by apply received_nil|done|simpl; lia]|].
  simpl. intros bs w' (Hrec & Hn & ? & ?).
  by destruct (received_take _ _ _ _ _ _ Hrec Hn) as [-> ->].
Qed.
End specs.
