(* ===== verification/SocketLat.v ===== *)
(** socket/socket_lat_app.{h,cc}: the classes of the latency benchmark over a
    socket, which [App::Create] does not make.  The client connects and is done; the
    server listens, and its [Run] flows off its end. *)
From S2P Require Import Prelude CInt Kernel Socket.

Local Open Scope Z_scope.

Section lat.
Context {W : Type} `{!Kernel W}.

(** [SocketLatClientApp::Init]; the result is the member [sock_].  Whether the
    connection has been made is not looked at. *)
Definition LatClient_Init (host : option string) (port : Z) : M W Z :=
  host ← value host;
  ai ← AddrInfo_host host (u16 port) SOCK_STREAM false;
  _ ← AddrInfo_AddrStr (ai_addr ai) (ai_socktype ai);
  sock_ ← Create_ai ai;
  _ ← Connect sock_ ai;
  _ ← SetNonBlock sock_ true;
  _ ← AddrInfo_AddrStr (ai_addr ai) (ai_socktype ai);
  mret sock_.

Definition LatClient_Run : M W Z := mret 0.

(** [SocketLatServerApp::Init]; the result is the member [listener_]. *)
Definition LatServer_Init (port : Z) : M W Z :=
  ai ← AddrInfo_passive (u16 port) SOCK_STREAM;
  listener_ ← Create_ai ai;
  _ ← SetReuseAddr listener_ true;
  _ ← SetNonBlock listener_ true;
  _ ← Bind listener_ ai;
  _ ← Listen listener_ 128;
  _ ← AddrInfo_AddrStr (ai_addr ai) (ai_socktype ai);
  mret listener_.

(** There is no [return]. *)
Definition LatServer_Run (port : Z) : M W Z :=
  _ ← LatServer_Init port;
  undef.

(** The server never returns from [Run]. *)
Lemma LatServer_Run_undefined port w :
  wp (λ r, r = Fatal ∨ r = Undef) (LatServer_Run port) w (λ _ _, False).
Proof.
  unfold LatServer_Run, LatServer_Init, AddrInfo_passive, Create_ai, SetReuseAddr,
    setsockopt_checked, SetNonBlock, Bind, Listen, AddrInfo_AddrStr.
  repeat first
    [ wp_step
    | apply wp_lift; intros
    | apply wp_check; [by left|intros _]
    | case_match
    | by left
    | by right ].
Qed.
End lat.
