(* ===== verification/SocketUdp.v ===== *)
(** socket/socket.h, what nothing in the program uses: the class [UdpSocket], and the two
    getters of [Socket] whose [optlen] is not initialised. *)
From S2P Require Import Prelude CInt Kernel SimKernel Socket.

Local Open Scope Z_scope.

Definition SOCK_DGRAM : Z := 2.
Definition IPPROTO_UDP : Z := 17.

(** sendto(2), recvfrom(2) with the room for an address or a null pointer, sendmsg(2),
    recvmsg(2), and getsockopt(2) with the length it is given: what is stored is cut to
    it. *)
Class Datagrams (Msg W : Type) := {
  sys_sendto : Z → list byte → Z → list byte → Z → W → option Z * W;
  sys_recvfrom : Z → Z → Z → option Z → W → option (list byte * (list byte * Z)) * W;
  sys_sendmsg : Z → Msg → Z → W → option Z * W;
  sys_recvmsg : Z → Msg → Z → W → (option Z * Msg) * W;
  sys_getsockopt : Z → Z → Z → Z → W → (Z * list byte) * W;
}.

(** A [struct sockaddr_storage] holds any address; an address is cut to the room. *)
Class DatagramsLaws (Msg W : Type) `{!Datagrams Msg W} := {
  recvfrom_addr fd len flags room w bs addr alen w' :
    sys_recvfrom fd len flags (Some room) w = (Some (bs, (addr, alen)), w') →
    Z.of_nat (length addr) ≤ Z.max 0 room ∧ 0 ≤ alen ≤ sizeof_sockaddr_storage;
}.

Section udp.
Context {Msg W : Type} `{!Kernel W, !Datagrams Msg W}.

(** [UdpSocket::Create] *)
Definition Udp_Create_ai (ai : addrinfo) : M W Z :=
  sockfd ← lift (sys_socket (ai_family ai) (ai_socktype ai) (ai_protocol ai));
  _ ← check (negb (sockfd =? INVALID_SOCKET));
  mret sockfd.
Definition Udp_Create (domain : Z) : M W Z :=
  sockfd ← lift (sys_socket domain SOCK_DGRAM IPPROTO_UDP);
  _ ← check (negb (sockfd =? INVALID_SOCKET));
  mret sockfd.

Definition SendTo (sockfd : Z) (buf : list byte) (flags : Z) (addr : SockAddr) : M W (option Z) :=
  lift (sys_sendto sockfd buf flags (addr_bytes addr) (addrlen addr)).
Definition RecvFrom (sockfd len flags : Z) : M W (option (list byte)) :=
  r ← lift (sys_recvfrom sockfd len flags None);
  mret (fst <$> r).
(** With an address: its bytes and its length are replaced by those of the sender; the
    room is what [addrlen] says. *)
Definition RecvFrom_addr (sockfd len flags : Z) (addr : SockAddr) :
    M W (option (list byte) * SockAddr) :=
  r ← lift (sys_recvfrom sockfd len flags (Some (addrlen addr)));
  match r with
  | None => mret (None, addr)
  | Some (bs, (a, alen)) =>
      mret (Some bs, MkSockAddr (a ++ drop (length a) (addr_bytes addr)) alen)
  end.
Definition SendMsg (sockfd : Z) (msg : Msg) (flags : Z) : M W (option Z) :=
  lift (sys_sendmsg sockfd msg flags).
Definition RecvMsg (sockfd : Z) (msg : Msg) (flags : Z) : M W (option Z * Msg) :=
  lift (sys_recvmsg sockfd msg flags).

(** [Socket::GetRecvBuffer] and [GetSendBuffer]: [optlen] is what was in its place, and
    [bufsize] the bytes of the caller's [int]. *)
Definition get_buffer (name optlen sockfd : Z) (bufsize : list byte) : M W (list byte) :=
  r ← lift (sys_getsockopt sockfd SOL_SOCKET name optlen);
  _ ← check (r.1 =? 0);
  mret (r.2 ++ drop (length r.2) bufsize).
Definition GetRecvBuffer : Z → Z → list byte → M W (list byte) := get_buffer SO_RCVBUF.
Definition GetSendBuffer : Z → Z → list byte → M W (list byte) := get_buffer SO_SNDBUF.

(** The bytes of an address stay inside of its union, also when it is used again. *)
Definition addr_ok (a : SockAddr) : Prop :=
  Z.of_nat (length (addr_bytes a)) ≤ sizeof_sockaddr_storage ∧
  0 ≤ addrlen a ≤ sizeof_sockaddr_storage.

Lemma RecvFrom_addr_ok `{!DatagramsLaws Msg W} sockfd len flags addr w :
  addr_ok addr →
  wp total (RecvFrom_addr sockfd len flags addr) w (λ r _, addr_ok r.2).
Proof.
  intros [Hb Hl]. unfold RecvFrom_addr. wp_step. apply wp_lift.
  intros [(bs & a & alen)|] w' Hr; [|by wp_steps]. wp_steps.
  apply recvfrom_addr in Hr as [Ha Halen]. split; [|done]. simpl.
  rewrite length_app, length_drop. lia.
Qed.
End udp.

(** * Example *)

(** Datagrams that echo, and a receive buffer of 4096 bytes. *)
#[export] Instance demo_datagrams : Datagrams (list byte) sim := {
  sys_sendto fd buf flags addr alen w := (Some (Z.of_nat (length buf)), w);
  sys_recvfrom fd len flags room w :=
    (Some (take (Z.to_nat len) [x61; x62; x63],
           (take (Z.to_nat (default 0 room)) (replicate 28 x0a), 28)), w);
  sys_sendmsg fd msg flags w := (Some (Z.of_nat (length msg)), w);
  sys_recvmsg fd msg flags w := ((Some 3, [x61; x62; x63]), w);
  sys_getsockopt fd level name optlen w := ((0, take (Z.to_nat optlen) [x00; x10; x00; x00]), w);
}.
#[export] Instance demo_datagrams_laws : DatagramsLaws (list byte) sim.
Proof. split. intros * [= <- <- <- <-]. rewrite length_take. simpl. unfold sizeof_sockaddr_storage. lia. Qed.

(** The caller's [int] is set or not as the uninitialised length happens to be. *)
Example GetRecvBuffer_unset (w : sim) :
  GetRecvBuffer (Msg := list byte) 4 6 [xff; xff; xff; xff] w = Ret ([x00; x10; x00; x00], w) ∧
  GetRecvBuffer (Msg := list byte) 0 6 [xff; xff; xff; xff] w = Ret ([xff; xff; xff; xff], w).
Proof. split; reflexivity. Qed.
