(* ===== verification/Endpoint.v ===== *)
(** socket/bw_server_endpoint.{h,cc}: class [BwServerEndpoint], the server's
    side of one connection. *)
From S2P Require Import Prelude CInt Kernel Poll Buffer Socket.

Local Open Scope Z_scope.

(** [enum class State] *)
Inductive State := NEW_RPC | META_RECVED | HEADER_RECVED | DATA_RECVED | REPLYING.

#[export] Instance State_eq_dec : EqDecision State.
Proof. solve_decision. Defined.

(** The object; a [unique_ptr<Buffer>] is an [option Buffer]. *)
Record BwServerEndpoint := mkEndpoint {
  sock_ : Z;
  sock_addr_ : SockAddr;
  interest_ : Interest.Interest;
  tx_queue_ : list (option Buffer);
  header_buffer_owner_ : option Buffer;
  data_buffer_owner_ : option Buffer;
  header_buffer_ : option Buffer;
  data_buffer_ : option Buffer;
  reply_buffer_ : option Buffer;
  state_ : State;
}.

Definition set_sock x '(mkEndpoint _ a i q ho do h d r s) := mkEndpoint x a i q ho do h d r s.
Definition set_sock_addr x '(mkEndpoint k _ i q ho do h d r s) := mkEndpoint k x i q ho do h d r s.
Definition set_interest x '(mkEndpoint k a _ q ho do h d r s) := mkEndpoint k a x q ho do h d r s.
Definition set_tx_queue x '(mkEndpoint k a i _ ho do h d r s) := mkEndpoint k a i x ho do h d r s.
Definition set_header_owner x '(mkEndpoint k a i q _ do h d r s) := mkEndpoint k a i q x do h d r s.
Definition set_data_owner x '(mkEndpoint k a i q ho _ h d r s) := mkEndpoint k a i q ho x h d r s.
Definition set_header x '(mkEndpoint k a i q ho do _ d r s) := mkEndpoint k a i q ho do x d r s.
Definition set_data x '(mkEndpoint k a i q ho do h _ r s) := mkEndpoint k a i q ho do h x r s.
Definition set_reply x '(mkEndpoint k a i q ho do h d _ s) := mkEndpoint k a i q ho do h d x s.
Definition set_state x '(mkEndpoint k a i q ho do h d r _) := mkEndpoint k a i q ho do h d r x.

(** The state a handler runs over: its object and the machine. *)
Record ep_state (W : Type) := EpState { e_ep : BwServerEndpoint; e_m : machine W }.
Arguments EpState {W} _ _.
Arguments e_ep {W} _.
Arguments e_m {W} _.

Section endpoint.
Context {W : Type} `{!Kernel W}.
(** The fuel of the blocking receive in [ReceiveMeta]. *)
Context (io_fuel : nat).
(** [app_->poll()], and the address of the object, its epoll token. *)
Context (poll : Poll.Poll) (this : Z).

Abbreviation EM := (M (ep_state W)).

Definition on_m {A} (c : M (machine W) A) : EM A :=
  zoom e_m (λ m s, EpState (e_ep s) m) c.
Definition on_w {A} (c : M W A) : EM A := on_m (sys c).
Definition field {A} (f : BwServerEndpoint → A) : EM A := gets (λ s, f (e_ep s)).
Definition upd (f : BwServerEndpoint → BwServerEndpoint) : EM unit :=
  modify (λ s, EpState (f (e_ep s)) (e_m s)).

(** Assigning to a [unique_ptr<Buffer>] member: the new pointer is stored,
    then the old object is destroyed. *)
Definition assign (rd : BwServerEndpoint → option Buffer)
  (wr : option Buffer → BwServerEndpoint → BwServerEndpoint) (b : Buffer) : EM unit :=
  old ← field rd;
  _ ← upd (wr (Some b));
  match old with Some o => on_m (Buffer.destroy o) | None => mret tt end.

(** The constructor *)
Definition make (new_sock : Z) : M W BwServerEndpoint :=
  i ← Interest.make (Z.lor Interest.READABLE Interest.WRITABLE);
  mret (mkEndpoint new_sock SockAddr_empty i [] None None None None None NEW_RPC).

Definition GetPeerAddr : EM unit :=
  fd ← field sock_;
  r ← on_w (lift (sys_getpeername fd));
  _ ← check (bool_decide (is_Some r));
  a ← SockAddr_make r;
  upd (set_sock_addr a).

Definition OnAccepted : EM unit :=
  _ ← GetPeerAddr;
  fd ← field sock_;
  _ ← on_w (SetNonBlock fd true);
  i ← field interest_;
  _ ← on_w (Poll.Register poll fd this i);
  a ← field sock_addr_;
  _ ← on_w (SockAddr_AddrStr a);
  mret tt.

Definition OnError : EM unit :=
  fd ← field sock_;
  _ ← on_w (GetSockError fd);
  a ← field sock_addr_;
  _ ← on_w (SockAddr_AddrStr a);
  _ ← on_w (Poll.Deregister poll fd);
  fd' ← on_w (Close fd);
  upd (set_sock fd').

(** [~BwServerEndpoint()] and the destruction of the members. *)
Definition destroy_unique (o : option Buffer) : EM unit :=
  match o with Some b => on_m (Buffer.destroy b) | None => mret tt end.
Definition destroy : EM unit :=
  fd ← field sock_;
  _ ← (if IsClosed fd then mret tt else fd' ← on_w (Close fd); upd (set_sock fd'));
  r ← field reply_buffer_; _ ← destroy_unique r;
  d ← field data_buffer_; _ ← destroy_unique d;
  h ← field header_buffer_; _ ← destroy_unique h;
  d ← field data_buffer_owner_; _ ← destroy_unique d;
  h ← field header_buffer_owner_; _ ← destroy_unique h;
  q ← field tx_queue_;
  foldr (λ b k, _ ← destroy_unique b; k) (mret tt) q.

Definition needs_alloc (owner : option Buffer) (size : Z) : bool :=
  match owner with None => true | Some b => msg_length_ b <? size end.

(** The two "allocate buffer" blocks of [ReceiveMeta], for the owner read by
    [rd] and written by [wr]. *)
Definition ensure_buffer (rd : BwServerEndpoint → option Buffer)
  (wr : option Buffer → BwServerEndpoint → BwServerEndpoint) (size : Z) : EM unit :=
  owner ← field rd;
  if needs_alloc owner size then
    b ← on_m (Buffer.alloc size);
    _ ← assign rd wr b;
    upd (wr (Some (Buffer.set_msg_length size b)))
  else mret tt.

Definition ReceiveMeta : EM bool :=
  fd ← field sock_;
  meta_buffer ← on_w (RecvAll io_fuel fd 8 0);
  if Z.of_nat (length meta_buffer) <? 8 then mret false
  else
    let header_size := of_le32 meta_buffer in
    let data_size := of_le32 (drop 4 meta_buffer) in
    _ ← ensure_buffer header_buffer_owner_ set_header_owner header_size;
    _ ← ensure_buffer data_buffer_owner_ set_data_owner data_size;
    owner ← field header_buffer_owner_;
    b ← deref owner;
    _ ← assign header_buffer_ set_header (Buffer.view b);
    owner ← field data_buffer_owner_;
    b ← deref owner;
    _ ← assign data_buffer_ set_data (Buffer.view b);
    _ ← upd (set_state META_RECVED);
    mret true.

(** [sock_.Recv(b->GetRemainBuffer(), b->GetRemainSize())] *)
Definition recv_into (b : Buffer) : EM (option Z) :=
  fd ← field sock_;
  p ← deref (Buffer.GetRemainBuffer b);
  r ← on_w (Recv fd (Buffer.GetRemainSize b) 0);
  match r with
  | None => mret None
  | Some bs => _ ← on_m (heap_write p bs); mret (Some (Z.of_nat (length bs)))
  end.

Definition ReceiveHeader : EM bool :=
  h ← field header_buffer_;
  b ← deref h;
  nbytes ← recv_into b;
  _ ← match nbytes with
    | None => wouldblock ← on_w LastErrorWouldBlock; check wouldblock
    | Some nbytes =>
        let b := Buffer.MarkHandled nbytes b in
        _ ← upd (set_header (Some b));
        if Buffer.IsClear b then upd (set_state HEADER_RECVED) else mret tt
    end;
  h ← field header_buffer_;
  b ← deref h;
  mret (Buffer.IsClear b).

(** The two "data received" blocks of [ReceiveData]: the state changes and
    [reply_buffer_ = std::make_unique<Buffer>(header_buffer_.get())]. *)
Definition data_received : EM unit :=
  _ ← upd (set_state DATA_RECVED);
  h ← field header_buffer_;
  b ← deref h;
  assign reply_buffer_ set_reply (Buffer.view b).

Definition ReceiveData : EM bool :=
  d ← field data_buffer_;
  b ← deref d;
  if size_ b =? 0 then
    _ ← data_received;
    mret true
  else
    nbytes ← recv_into b;
    _ ← match nbytes with
      | None => wouldblock ← on_w LastErrorWouldBlock; check wouldblock
      | Some nbytes =>
          let b := Buffer.MarkHandled nbytes b in
          _ ← upd (set_data (Some b));
          if Buffer.IsClear b then data_received else mret tt
      end;
  d ← field data_buffer_;
  b ← deref d;
  mret (Buffer.IsClear b).

Fixpoint OnSendReady_loop (fuel : nat) : EM unit :=
  match fuel with
  | O => nofuel
  | S fuel =>
    q ← field tx_queue_;
    match q with
    | [] => mret tt
    | front :: rest =>
        buffer ← deref front;
        p ← deref (Buffer.GetRemainBuffer buffer);
        fd ← field sock_;
        bs ← on_m (heap_read p (Buffer.GetRemainSize buffer));
        nbytes ← on_w (Send fd bs 0);
        match nbytes with
        | None =>
            wouldblock ← on_w LastErrorWouldBlock;
            _ ← check wouldblock;
            i ← field interest_;
            if Interest.IsWritable i then mret tt
            else
              w ← Interest.make Interest.WRITABLE;
              _ ← upd (set_interest (Interest.or_assign i w));
              i ← field interest_;
              on_w (Poll.Reregister poll fd this i)
        | Some nbytes =>
            let buffer := Buffer.MarkHandled nbytes buffer in
            _ ← upd (set_tx_queue (Some buffer :: rest));
            _ ← (if Buffer.IsClear buffer then
                   _ ← upd (set_state NEW_RPC);
                   _ ← upd (set_tx_queue rest);
                   i ← field interest_;
                   if Interest.IsWritable i then
                     i ← Interest.make Interest.READABLE;
                     _ ← upd (set_interest i);
                     on_w (Poll.Reregister poll fd this i)
                   else mret tt
                 else mret tt);
            OnSendReady_loop fuel
        end
    end
  end.

(** Every iteration that does not leave the loop either completes the buffer
    at the front of the queue or sends at least one byte of it. *)
Definition tx_work (q : list (option Buffer)) : nat :=
  foldr (λ b n, (match b with
               | Some b => S (Z.to_nat (Buffer.GetRemainSize b))
               | None => 1
               end + n)%nat) 0%nat q.
Definition OnSendReady : EM unit :=
  q ← field tx_queue_;
  OnSendReady_loop (S (tx_work q)).

Definition Reply : EM bool :=
  r ← field reply_buffer_;
  _ ← upd (set_reply None);
  q ← field tx_queue_;
  _ ← upd (set_tx_queue (q ++ [r]));
  _ ← upd (set_state REPLYING);
  _ ← OnSendReady;
  mret true.

(** [if (!c) break; k] *)
Definition and_then (c : EM bool) (k : EM unit) : EM unit :=
  ok ← c; if ok : bool then k else mret tt.

Definition OnRecvReady : EM unit :=
  s ← field state_;
  match s with
  | NEW_RPC =>
    and_then ReceiveMeta (and_then ReceiveHeader (and_then ReceiveData
      (and_then Reply (mret tt))))
  | META_RECVED =>
    and_then ReceiveHeader (and_then ReceiveData (and_then Reply (mret tt)))
  | HEADER_RECVED => and_then ReceiveData (and_then Reply (mret tt))
  | DATA_RECVED => and_then Reply (mret tt)
  | REPLYING => mret tt
  end.
End endpoint.
