(* ===== verification/EndpointSpec.v ===== *)
(** What a [BwServerEndpoint] is for: the reference functions from the bytes a
    connection delivers to the bytes it must answer. *)
From S2P Require Import Prelude CInt Kernel Poll Buffer Socket Endpoint.

Local Open Scope Z_scope.

(** * The reference function *)

(** One request on the wire. *)
Definition frame (hd : list byte * list byte) : list byte :=
  le32 (Z.of_nat (length hd.1)) ++ le32 (Z.of_nat (length hd.2)) ++ hd.1 ++ hd.2.

(** The answer to the stream [inp] by an endpoint whose header and data
    buffers have [hcap] and [dcap] bytes: the two sizes are read, the buffers
    grow to them if they are smaller, both buffers are filled, and the header
    buffer is sent back. *)
Fixpoint serve (fuel : nat) (hcap dcap : nat) (inp : list byte) : list byte :=
  match fuel with
  | O => []
  | S fuel =>
      if (length inp <? 8)%nat then []
      else
        let hl := (hcap `max` Z.to_nat (of_le32 inp))%nat in
        let dl := (dcap `max` Z.to_nat (of_le32 (drop 4 inp)))%nat in
        let body := drop 8 inp in
        if (length body <? hl + dl)%nat then []
        else take hl body ++ serve fuel hl dl (drop (hl + dl) body)
  end.

(** The stream itself bounds the number of requests in it. *)
Definition answer (hcap dcap : nat) (inp : list byte) : list byte :=
  serve (length inp) hcap dcap inp.

(** Whole requests, read with buffers that grow from [hc] and [dc] to [hc'] and [dc']. *)
Inductive requests (hc dc : nat) : list byte → nat → nat → Prop :=
  | requests_none : requests hc dc [] hc dc
  | requests_more c hc' dc' m b :
      requests hc dc c hc' dc' → length m = 8%nat →
      length b = (hc' `max` Z.to_nat (of_le32 m) + dc' `max` Z.to_nat (of_le32 (drop 4 m)))%nat →
      requests hc dc (c ++ m ++ b)
        (hc' `max` Z.to_nat (of_le32 m)) (dc' `max` Z.to_nat (of_le32 (drop 4 m))).

(** The answer owed when the sizes are known and [body] is all that follows. *)
Definition answer_body (hl dl : nat) (body : list byte) : list byte :=
  if (length body <? hl + dl)%nat then []
  else take hl body ++ answer hl dl (drop (hl + dl) body).

Lemma serve_fuel f1 f2 hcap dcap inp :
  (length inp ≤ f1)%nat → (length inp ≤ f2)%nat →
  serve f1 hcap dcap inp = serve f2 hcap dcap inp.
Proof.
  revert f2 hcap dcap inp. induction f1 as [|f1 IH]; intros [|f2] hcap dcap inp H1 H2; simpl.
  - done.
  - by assert ((length inp <? 8)%nat = true) as -> by (apply Nat.ltb_lt; lia).
  - by assert ((length inp <? 8)%nat = true) as -> by (apply Nat.ltb_lt; lia).
  - destruct (Nat.ltb_spec (length inp) 8); [done|].
    case_match; [done|]. f_equal. apply IH; rewrite !length_drop; lia.
Qed.

Lemma answer_unfold hcap dcap inp :
  answer hcap dcap inp =
  if (length inp <? 8)%nat then []
  else answer_body (hcap `max` Z.to_nat (of_le32 inp)) (dcap `max` Z.to_nat (of_le32 (drop 4 inp)))
         (drop 8 inp).
Proof.
  unfold answer at 1. destruct (length inp) as [|n] eqn:Hn; [done|]. cbn [serve]. rewrite Hn.
  destruct (Nat.ltb_spec (S n) 8); [done|]. unfold answer_body.
  case_match; [done|]. f_equal. apply serve_fuel; rewrite !length_drop; lia.
Qed.

Lemma answer_short hcap dcap inp : (length inp < 8)%nat → answer hcap dcap inp = [].
Proof. intros. rewrite answer_unfold. by rewrite (proj2 (Nat.ltb_lt _ _)). Qed.

(** A stream of requests none of which is smaller than one before it. *)
Fixpoint nondecreasing (hcap dcap : nat) (reqs : list (list byte * list byte)) : Prop :=
  match reqs with
  | [] => True
  | (h, d) :: reqs =>
      (hcap ≤ length h)%nat ∧ (dcap ≤ length d)%nat ∧
      Z.of_nat (length h) < 2 ^ 32 ∧ Z.of_nat (length d) < 2 ^ 32 ∧
      nondecreasing (length h) (length d) reqs
  end.

Lemma nondecreasing_app_l hcap dcap reqs1 reqs2 :
  nondecreasing hcap dcap (reqs1 ++ reqs2) → nondecreasing hcap dcap reqs1.
Proof.
  revert hcap dcap. induction reqs1 as [|[h d] reqs1 IH]; intros hcap dcap; [done|].
  intros (? & ? & ? & ? & ?). split_and!; auto.
Qed.

(** The first request of a stream, whatever the capacities. *)
Lemma answer_frame hcap dcap h d rest :
  Z.of_nat (length h) < 2 ^ 32 → Z.of_nat (length d) < 2 ^ 32 →
  answer hcap dcap (frame (h, d) ++ rest) =
  answer_body (hcap `max` length h) (dcap `max` length d) (h ++ d ++ rest).
Proof.
  intros Hh32 Hd32. rewrite answer_unfold. unfold frame. cbn [fst snd]. rewrite <- !app_assoc.
  rewrite (proj2 (Nat.ltb_ge _ _)) by (rewrite !length_app, !length_le32; lia).
  rewrite of_le32_le32. rewrite (drop_app_length' (le32 _)) by done. rewrite of_le32_le32.
  rewrite !u32_small, !Nat2Z.id by lia.
  by rewrite (app_assoc (le32 _)), (drop_app_length' (le32 _ ++ _)) by done.
Qed.

Lemma answer_body_full (hb db rest : list byte) :
  answer_body (length hb) (length db) (hb ++ db ++ rest) =
  hb ++ answer (length hb) (length db) rest.
Proof.
  unfold answer_body. rewrite (proj2 (Nat.ltb_ge _ _)) by (rewrite !length_app; lia).
  by rewrite take_app_length, app_assoc, drop_app_length' by by rewrite length_app.
Qed.

(** A last request that does not fill the buffers is not answered. *)
Lemma answer_two_smaller h1 d1 h2 d2 :
  Z.of_nat (length h1) < 2 ^ 32 → Z.of_nat (length d1) < 2 ^ 32 →
  Z.of_nat (length h2) < 2 ^ 32 → Z.of_nat (length d2) < 2 ^ 32 →
  (length h2 + length d2 < (length h1 `max` length h2) + (length d1 `max` length d2))%nat →
  answer 0 0 (concat (frame <$> [(h1, d1); (h2, d2)])) = h1.
Proof.
  intros H1 H2 H3 H4 Hlt.
  change (concat _) with (frame (h1, d1) ++ frame (h2, d2) ++ []).
  rewrite answer_frame by done. rewrite !Nat.max_0_l, answer_body_full, answer_frame by done.
  unfold answer_body at 1. rewrite (proj2 (Nat.ltb_lt _ _)); [by rewrite app_nil_r|].
  rewrite !length_app. simpl. lia.
Qed.

(** On such a stream the answer is every header, in order. *)
Lemma answer_frames hcap dcap reqs :
  nondecreasing hcap dcap reqs →
  answer hcap dcap (concat (frame <$> reqs)) = concat reqs.*1.
Proof.
  revert hcap dcap. induction reqs as [|[h d] reqs IH]; intros hcap dcap; [done|].
  intros (Hh & Hd & Hh32 & Hd32 & Hrest).
  change (concat (frame <$> (h, d) :: reqs)) with (frame (h, d) ++ concat (frame <$> reqs)).
  change (concat ((h, d) :: reqs).*1) with (h ++ concat reqs.*1).
  rewrite answer_frame, !Nat.max_r, answer_body_full by lia. f_equal. by apply IH.
Qed.

(** Before such a request has come to its end, nothing of it is answered. *)
Lemma answer_unfinished hcap dcap h d p :
  Z.of_nat (length h) < 2 ^ 32 → Z.of_nat (length d) < 2 ^ 32 →
  p `prefix_of` frame (h, d) → p ≠ frame (h, d) → answer hcap dcap p = [].
Proof.
  intros Hh32 Hd32 [k Hk] Hne. rewrite answer_unfold.
  destruct (Nat.ltb_spec (length p) 8) as [|Hlen]; [done|].
  assert (Hkpos : (0 < length k)%nat).
  { destruct k; [|simpl; lia]. rewrite app_nil_r in Hk. congruence. }
  apply (f_equal length) in Hk as Hl. revert Hl. unfold frame in Hk |- *. cbn [fst snd] in *.
  rewrite !length_app, !length_le32. intros Hl.
  assert (of_le32 p = Z.of_nat (length h) ∧ of_le32 (drop 4 p) = Z.of_nat (length d)) as [-> ->].
  { rewrite <- (take_drop 4 p), <- (take_drop 4 (drop 4 p)), !drop_drop in Hk |- *.
    rewrite <- !app_assoc in Hk.
    apply app_inj_1 in Hk as [H1 Hk]; [|rewrite length_le32, length_take; lia].
    apply app_inj_1 in Hk as [H2 _]; [|rewrite length_le32, length_take, length_drop; lia].
    rewrite <- H1, <- H2, of_le32_le32, (drop_app_length' (le32 _)), of_le32_le32 by done.
    by rewrite !u32_small by lia. }
  unfold answer_body. rewrite (proj2 (Nat.ltb_lt _ _)); [done|]. rewrite length_drop. lia.
Qed.

(** And the requests before it are all that is answered. *)
Lemma answer_before hcap dcap reqs r p :
  nondecreasing hcap dcap (reqs ++ [r]) →
  p `prefix_of` concat (frame <$> reqs ++ [r]) → p ≠ concat (frame <$> reqs ++ [r]) →
  answer hcap dcap p `prefix_of` concat reqs.*1.
Proof.
  revert hcap dcap p. induction reqs as [|[h d] reqs IH]; intros hcap dcap p Hmono Hp Hne.
  - destruct r as [h d], Hmono as (_ & _ & Hh & Hd & _). simpl in Hp, Hne. rewrite app_nil_r in Hp, Hne.
    by rewrite (answer_unfinished _ _ h d).
  - destruct Hmono as (Hh & Hd & Hh32 & Hd32 & Hmono).
    change (concat (frame <$> ((h, d) :: reqs) ++ [r]))
      with (frame (h, d) ++ concat (frame <$> reqs ++ [r])) in *.
    change (concat ((h, d) :: reqs).*1) with (h ++ concat reqs.*1).
    destruct Hp as [k Hk]. destruct (app_eq_inv _ _ _ _ Hk) as [(l & Hl & Hk')|(l & -> & Hk')].
    + destruct l as [|b l].
      * rewrite app_nil_r in Hl. subst p. rewrite <- (app_nil_r (frame (h, d))), answer_frame by done.
        rewrite !Nat.max_r, answer_body_full, answer_short by (simpl; lia).
        apply prefix_app, prefix_nil.
      * rewrite (answer_unfinished _ _ h d); [apply prefix_nil|done|done|by exists (b :: l)|].
        intros ->. apply (f_equal length) in Hl. rewrite length_app in Hl. simpl in Hl. lia.
    + rewrite answer_frame, !Nat.max_r, answer_body_full by lia. apply prefix_app.
      apply IH; [done|by exists k|]. intros ->. by apply Hne.
Qed.

(** Whole requests at the beginning of such a stream are its first requests. *)
Lemma requests_frames hc dc c hc' dc' reqs :
  requests hc dc c hc' dc' → c `prefix_of` concat (frame <$> reqs) → nondecreasing hc dc reqs →
  ∃ reqs1 reqs2, reqs = reqs1 ++ reqs2 ∧ c = concat (frame <$> reqs1) ∧ nondecreasing hc' dc' reqs2.
Proof.
  intros Hreq Hpre Hmono. induction Hreq as [|c hc' dc' m b Hreq IH Hm Hb].
  { by exists [], reqs. }
  destruct IH as (reqs1 & reqs2 & -> & -> & Hmono2); [etrans; [|exact Hpre]; by apply prefix_app_r|].
  rewrite fmap_app, concat_app in Hpre. apply prefix_app_inv in Hpre as [k Hk].
  destruct reqs2 as [|[h d] reqs2].
  { apply (f_equal length) in Hk. rewrite !length_app in Hk. simpl in Hk. lia. }
  destruct Hmono2 as (Hh & Hd & Hh32 & Hd32 & Hmono2).
  assert (Hf : frame (h, d) = le32 (Z.of_nat (length h)) ++ le32 (Z.of_nat (length d)) ++ h ++ d) by done.
  change (concat (frame <$> (h, d) :: reqs2)) with (frame (h, d) ++ concat (frame <$> reqs2)) in Hk.
  rewrite Hf, <- !app_assoc in Hk.
  assert (m = le32 (Z.of_nat (length h)) ++ le32 (Z.of_nat (length d))) as Hmeta.
  { rewrite app_assoc in Hk. apply app_inj_1 in Hk as [<- _]; [done|]. rewrite Hm. by rewrite length_app, !length_le32. }
  assert (of_le32 m = Z.of_nat (length h) ∧ of_le32 (drop 4 m) = Z.of_nat (length d)) as [Hmh Hmd].
  { rewrite Hmeta, of_le32_le32, (drop_app_length' (le32 _)) by done.
    rewrite <- (app_nil_r (le32 (Z.of_nat (length d)))), of_le32_le32, !u32_small by lia. done. }
  rewrite Hmh, Hmd, !Nat2Z.id, !Nat.max_r in Hb |- * by lia.
  exists (reqs1 ++ [(h, d)]), reqs2. rewrite <- app_assoc. split_and!; [done| |done].
  rewrite fmap_app, concat_app. change (concat (frame <$> [(h, d)])) with (frame (h, d) ++ []).
  rewrite app_nil_r, Hf. f_equal. rewrite Hmeta, <- !app_assoc in Hk |- *. do 2 f_equal.
  do 2 apply app_inv_head in Hk. rewrite app_assoc in Hk.
  apply app_inj_1 in Hk as [<- _]; [done|]. by rewrite length_app, Hb.
Qed.
