(* ===== verification/IOMode.v ===== *)
(** The two ways the endpoint is verified against the kernel, as instances of
    one interface: [io_safe] (any errors may happen, the process may abort) and
    [io_total] (a [KernelReliable] world, every call returns).  The handlers'
    lemmas are proved once, against [IOMode]. *)
From S2P Require Import Prelude CInt Kernel Socket.

Local Open Scope Z_scope.

Class IOMode (W : Type) `{!Kernel W, !KernelLaws W} (E : stop → Prop) (fuel : nat) := {
  (* whether the byte streams are tracked exactly *)
  io_exact : Prop;
  (* whether a transfer can only block finitely often *)
  io_live : Prop;
  io_live_exact : io_live → io_exact;
  (* the worlds in which [fuel] is enough for a blocking receive *)
  io_ok : W → Prop;
  (* a bound on the transfers that would still block *)
  io_patience : W → nat;

  io_recv fd len flags w r w' :
    is_Some (kv_sock (kview w) !! fd) → sys_recv fd len flags w = (r, w') → io_ok w →
    io_ok w' ∧ (io_patience w' ≤ io_patience w)%nat ∧
    (r = None → E Fatal ∨ sys_errno w' = EAGAIN) ∧
    (r = None → io_live → (io_patience w' < io_patience w)%nat);
  io_send fd bs flags w r w' :
    is_Some (kv_sock (kview w) !! fd) → sys_send fd bs flags w = (r, w') → io_ok w →
    io_ok w' ∧ (io_patience w' ≤ io_patience w)%nat ∧
    (r = None → E Fatal ∨ sys_errno w' = EAGAIN) ∧
    (r = None → io_live → (io_patience w' < io_patience w)%nat);
  io_epoll_mod epfd fd ev w r w' :
    is_Some (kv_epoll (kview w) !! (epfd, fd)) →
    sys_epoll_ctl epfd EPOLL_CTL_MOD fd (Some ev) w = (r, w') → io_ok w →
    io_ok w' ∧ (io_patience w' ≤ io_patience w)%nat ∧ (r ≠ 0 → E Fatal);
  io_memalign al size w r w' :
    sys_memalign al size w = (r, w') → io_ok w →
    io_ok w' ∧ (io_patience w' ≤ io_patience w)%nat ∧ (r = None → E Fatal);
}.

(** The two sizes of a request are read in a loop.  It ends well from [w] ... *)
Definition meta_read {W} `{!Kernel W, !KernelLaws W} {E fuel} `{!IOMode W E fuel}
    (fd : Z) (s : sock_view) (w : W) : Prop :=
  wp E (RecvAll fuel fd 8 0) w (λ bs w',
    io_ok w' ∧ (io_patience w' ≤ io_patience w)%nat ∧
    received fd s (kview w) bs (kview w') ∧ Z.of_nat (length bs) ≤ 8 ∧
    (io_exact → bs = take 8 (sv_rx s)) ∧
    (io_exact → Z.of_nat (length bs) < 8 → just_drained fd w')).

(** ... or, in some modes, from any world. *)
Class IOMeta (W : Type) `{!Kernel W, !KernelLaws W} (E : stop → Prop) (fuel : nat)
    `{!IOMode W E fuel} : Prop := {
  io_recv_meta fd w s : kv_sock (kview w) !! fd = Some s → io_ok w → meta_read fd s w;
}.

Section instances.
Context {W : Type} `{!Kernel W, !KernelLaws W}.

#[export] Program Instance io_safe fuel : IOMode W safe fuel := {|
  io_exact := False;
  io_live := False;
  io_ok _ := True;
  io_patience _ := 0%nat;
|}.
Next Obligation. done. Qed.
Next Obligation. intros. split_and!; [done|lia|intros; left; by left|done]. Qed.
Next Obligation. intros. split_and!; [done|lia|intros; left; by left|done]. Qed.
Next Obligation. intros. split_and!; [done|lia|intros; by left]. Qed.
Next Obligation. intros. split_and!; [done|lia|intros; by left]. Qed.

#[export] Instance io_safe_meta fuel : IOMeta W safe fuel.
Proof.
  split. intros fd w s Hs _. eapply wp_mono; [by apply (RecvAll_safe fuel fd 8 0 w s)|].
  simpl. intros bs w' [? ?]. by split_and!.
Qed.

Context `{!KernelReliable W}.

#[export] Program Instance io_total fuel : IOMode W total fuel := {|
  io_exact := True;
  io_live := True;
  io_ok w := (8 + k_patience w < fuel)%nat;
  io_patience w := k_patience w;
|}.
Next Obligation. done. Qed.
Next Obligation.
  intros fuel fd len flags w [bs|] w' Hs Hr Hok.
  - apply recv_patience in Hr. split_and!; [lia|lia|done|done].
  - apply recv_wouldblock in Hr as [? ?]; [|done].
    split_and!; [lia|lia|by right|done].
Qed.
Next Obligation.
  intros fuel fd bs flags w [n|] w' Hs Hr Hok.
  - apply send_patience in Hr. split_and!; [lia|lia|done|done].
  - apply send_wouldblock in Hr as [? ?]; [|done].
    split_and!; [lia|lia|by right|done].
Qed.
Next Obligation.
  intros fuel epfd fd ev w r w' Hs Hr Hok. apply epoll_ctl_patience in Hr as ?.
  pose proof (epoll_mod_ok epfd fd ev w Hs) as H0. rewrite Hr in H0. simpl in *.
  split_and!; [lia|lia|done].
Qed.
Next Obligation.
  intros fuel al size w r w' Hr Hok. destruct (memalign_ok al size w) as (bs & w'' & Hr' & ?).
  simpl in *. rewrite Hr in Hr'. simplify_eq. split_and!; [lia|lia|done].
Qed.

#[export] Instance io_total_meta fuel : IOMeta W total fuel.
Proof.
  split. intros fd w s Hs Hok. unfold meta_read. simpl in *.
  eapply wp_mono; [apply (RecvAll_total fuel fd 8 0 w s); [lia|done|lia]|].
  simpl. intros bs w' (-> & -> & ? & ?). split_and!; [lia|lia| | |done|done].
  - exists (drop 8 (sv_rx s)). by rewrite take_drop.
  - rewrite length_take. lia.
Qed.
End instances.
