(* ===== verification/EndpointProofs.v ===== *)
(** The handlers of [BwServerEndpoint] keep the representation invariant and
    answer the byte stream as [answer] says. *)
From S2P Require Import Prelude CInt Kernel Poll Buffer Socket Endpoint EndpointSpec IOMode.

Local Open Scope Z_scope.

(** * The representation of an endpoint *)

(** A block of the heap and its contents. *)
Abbreviation blk := (Z * list byte)%type.

Definition cap (o : option blk) : nat := match o with Some (_, b) => length b | None => 0 end.
Definition contents (o : option blk) : list byte := match o with Some (_, b) => b | None => [] end.
Definition ins (o : option blk) (h : heap) : heap :=
  match o with Some (l, b) => <[l := b]> h | None => h end.
Definition fresh_in (o : option blk) (h : heap) : Prop :=
  match o with Some (l, b) => h !! l = None ∧ Z.of_nat (length b) < 2 ^ 32 | None => True end.

(** The owning buffer of a block, and a view of it with [k] bytes handled. *)
Definition ownerb (l : Z) (n : nat) : Buffer :=
  mkBuffer (Some (Ptr l 0)) (Z.of_nat n) (Z.of_nat n) 0 true.
Definition viewb (l : Z) (n k : nat) : Buffer :=
  mkBuffer (Some (Ptr l 0)) (Z.of_nat n) (Z.of_nat n) (Z.of_nat k) false.
Definition owner (o : option blk) : option Buffer :=
  (λ p : blk, ownerb p.1 (length p.2)) <$> o.
Definition non_owner (o : option Buffer) : Prop :=
  match o with Some b => is_owner_ b = false | None => True end.

Lemma GetRemainBuffer_viewb l n k : Buffer.GetRemainBuffer (viewb l n k) = Some (Ptr l (Z.of_nat k)).
Proof. reflexivity. Qed.

Lemma GetRemainSize_viewb l n k :
  (k ≤ n)%nat → Z.of_nat n < 2 ^ 32 → Buffer.GetRemainSize (viewb l n k) = Z.of_nat (n - k).
Proof. intros. unfold Buffer.GetRemainSize. simpl. rewrite u32_small; lia. Qed.

Lemma MarkHandled_viewb l n k m :
  (k + m ≤ n)%nat → Z.of_nat n < 2 ^ 32 →
  Buffer.MarkHandled (Z.of_nat m) (viewb l n k) = viewb l n (k + m).
Proof.
  intros. unfold Buffer.MarkHandled, viewb. simpl. f_equal. rewrite u32_small; lia.
Qed.

Lemma IsClear_viewb l n k : Buffer.IsClear (viewb l n k) = (n =? k)%nat.
Proof.
  unfold Buffer.IsClear. simpl. destruct (Nat.eqb_spec n k) as [->|]; [apply Z.eqb_refl|].
  apply Z.eqb_neq. lia.
Qed.

(** How far the current RPC is: nothing read, [k] and [j] bytes of header and
    data read, everything read, [j] bytes of the reply sent. *)
Inductive phase := PNew | PRecv (k j : nat) | PData | PReply (j : nat).

(** [ep_rep fd ep H D ph]: the object on socket [fd] owns the header block [H]
    and the data block [D] and is in phase [ph]. *)
Inductive ep_rep (fd : Z) : BwServerEndpoint → option blk → option blk → phase → Prop :=
  | rep_new addr i hv dv H D :
      non_owner hv → non_owner dv →
      ep_rep fd (mkEndpoint fd addr i [] (owner H) (owner D) hv dv None NEW_RPC) H D PNew
  | rep_recv addr i lh hb ld db k j st :
      (k ≤ length hb)%nat → (j < length db ∨ db = [] ∧ j = 0)%nat →
      ((k < length hb)%nat → j = 0%nat) →
      st = META_RECVED ∨ (st = HEADER_RECVED ∧ k = length hb) →
      ep_rep fd
        (mkEndpoint fd addr i [] (owner (Some (lh, hb))) (owner (Some (ld, db)))
           (Some (viewb lh (length hb) k)) (Some (viewb ld (length db) j)) None st)
        (Some (lh, hb)) (Some (ld, db)) (PRecv k j)
  | rep_data addr i lh hb D hv dv :
      non_owner hv → non_owner dv →
      ep_rep fd
        (mkEndpoint fd addr i [] (owner (Some (lh, hb))) (owner D) hv dv
           (Some (viewb lh (length hb) 0)) DATA_RECVED)
        (Some (lh, hb)) D PData
  | rep_reply addr i lh hb D hv dv j :
      non_owner hv → non_owner dv → (j ≤ length hb)%nat →
      ep_rep fd
        (mkEndpoint fd addr i [Some (viewb lh (length hb) j)] (owner (Some (lh, hb))) (owner D)
           hv dv None REPLYING)
        (Some (lh, hb)) D (PReply j).

(** The heap: the two blocks beside the rest [base] of it. *)
Definition mem_rep (base : heap) (H D : option blk) (h : heap) : Prop :=
  h = ins H (ins D base) ∧ fresh_in D base ∧ fresh_in H (ins D base).

(** What the endpoint still owes when [rx] is left of the stream. *)
Definition owed (H D : option blk) (ph : phase) (rx : list byte) : list byte :=
  match ph with
  | PNew => answer (cap H) (cap D) rx
  | PRecv k j =>
      answer_body (cap H) (cap D)
        (take k (contents H) ++ take j (contents D) ++ rx)
  | PData => contents H ++ answer (cap H) (cap D) rx
  | PReply j => drop j (contents H) ++ answer (cap H) (cap D) rx
  end.

Definition busy (ph : phase) : nat := match ph with PReply _ => 1 | _ => 0 end.

(** What an endpoint is there for: the stream of its peer, and what it has to send
    when this stream, or a prefix of it, has been read. *)
Record goal := Goal { g_in : list byte; g_out : list byte → list byte }.
Definition g_all (O : goal) : list byte := g_out O (g_in O).

(** Answering the stream [inp] from its beginning. *)
Definition echo (inp : list byte) : goal := Goal inp (answer 0 0).

Lemma g_all_echo inp : g_all (echo inp) = answer 0 0 inp.
Proof. reflexivity. Qed.

(** How far the stream has been read: whole requests, and a part of one in the phase
    that receives it. *)
Definition cut_ok (H D : option blk) (ph : phase) (read : list byte) : Prop :=
  match ph with
  | PRecv k j => ∃ c hc dc m b,
      read = c ++ m ++ b ∧ requests 0 0 c hc dc ∧ length m = 8%nat ∧ length b = (k + j)%nat ∧
      cap H = (hc `max` Z.to_nat (of_le32 m))%nat ∧ cap D = (dc `max` Z.to_nat (of_le32 (drop 4 m)))%nat
  | _ => requests 0 0 read (cap H) (cap D)
  end.

(** Receiving more of a request, and its end. *)
Lemma cut_ok_recv H D H' D' k j k' j' read bs :
  (k' + j' = k + j + length bs)%nat → cap H' = cap H → cap D' = cap D →
  cut_ok H D (PRecv k j) read → cut_ok H' D' (PRecv k' j') (read ++ bs).
Proof.
  intros Hlen HH HD (c & hc & dc & m & b & -> & ? & ? & ? & ? & ?). exists c, hc, dc, m, (b ++ bs).
  rewrite HH, HD, length_app, <- !app_assoc. split_and!; [done..|lia|done|done].
Qed.

Lemma cut_ok_full H D k j read :
  k = cap H → j = cap D → cut_ok H D (PRecv k j) read → requests 0 0 read (cap H) (cap D).
Proof.
  intros -> -> (c & hc & dc & m & b & -> & ? & ? & Hb & HH & HD). rewrite HH, HD in Hb |- *.
  by constructor.
Qed.

(** The endpoint is on its way: if [r] is all that still comes it will have sent what
    it has to.  Once a request has been begun, its header block
    is not smaller than the first header. *)
Definition stream_ok (O : goal) (s : sock_view) (H D : option blk) (ph : phase) : Prop :=
  g_in O = sv_read s ++ sv_rx s ∧
  (∀ r, r `prefix_of` sv_rx s → sv_tx s ++ owed H D ph r = g_out O (sv_read s ++ r)) ∧
  (ph = PNew ∧ sv_read s = [] ∨ (Z.to_nat (of_le32 (g_in O)) ≤ cap H)%nat ∨ sv_rx s = []) ∧
  (sv_rx s = [] ∨ cut_ok H D ph (sv_read s)).

Lemma stream_ok_all O s H D ph :
  stream_ok O s H D ph → sv_tx s ++ owed H D ph (sv_rx s) = g_all O.
Proof. intros (Hin & Hout & _). unfold g_all. rewrite Hin. by apply Hout. Qed.

(** Everything has been read and answered. *)
Definition done_with (O : goal) : sock_view := SockView (g_in O) [] (g_all O).

Lemma done_with_eq O s :
  g_in O = sv_read s ++ sv_rx s → sv_rx s = [] → sv_tx s = g_all O → s = done_with O.
Proof.
  destruct s as [rd rx tx]. unfold done_with. simpl. intros -> -> ->. by rewrite app_nil_r.
Qed.

(** Reading [bs]: what is owed stays the same. *)
Lemma stream_ok_recv O s H D ph bs rest H' D' ph' :
  stream_ok O s H D ph → sv_rx s = bs ++ rest →
  (∀ r, r `prefix_of` rest → owed H' D' ph' r = owed H D ph (bs ++ r)) →
  rest = [] ∨ ph ≠ PNew ∧ (cap H ≤ cap H')%nat ∨
    (4 ≤ length bs)%nat ∧ (cap H `max` Z.to_nat (of_le32 bs) ≤ cap H')%nat →
  rest = [] ∨ (cut_ok H D ph (sv_read s) → cut_ok H' D' ph' (sv_read s ++ bs)) →
  stream_ok O (SockView (sv_read s ++ bs) rest (sv_tx s)) H' D' ph'.
Proof.
  intros (Hin & Hout & Hcap & Hcut) Hrx Howed Hgrow Hcut'. unfold stream_ok. cbn [sv_read sv_rx sv_tx].
  split_and!.
  - by rewrite Hin, Hrx, app_assoc.
  - intros r Hr. rewrite Howed, <- app_assoc by done. apply Hout. rewrite Hrx. by apply prefix_app.
  - destruct Hgrow as [|Hgrow]; [by right; right|]. right.
    destruct Hcap as [[-> Hread]|[Hcap|Hnil]].
    + destruct Hgrow as [[? _]|[? ?]]; [done|]. left. rewrite Hin, Hread, Hrx. simpl.
      rewrite of_le32_app by done. lia.
    + left. lia.
    + right. rewrite Hnil in Hrx. symmetry in Hrx. by apply app_eq_nil in Hrx as [_ ?].
  - destruct Hcut' as [|Hcut']; [by left|]. destruct Hcut as [Hnil|]; [left|right; auto].
    rewrite Hnil in Hrx. symmetry in Hrx. by apply app_eq_nil in Hrx as [_ ?].
Qed.

(** Sending, or storing what has been read. *)
Lemma stream_ok_send O s s' H D ph H' D' ph' :
  stream_ok O s H D ph → sv_read s' = sv_read s → sv_rx s' = sv_rx s → ph ≠ PNew → (cap H ≤ cap H')%nat →
  (∀ r, sv_tx s' ++ owed H' D' ph' r = sv_tx s ++ owed H D ph r) →
  (cut_ok H D ph (sv_read s) → cut_ok H' D' ph' (sv_read s)) →
  stream_ok O s' H' D' ph'.
Proof.
  intros (Hin & Hout & Hcap & Hcut) Hread Hrx Hph Hle Howed Hcut'. unfold stream_ok. rewrite Hread, Hrx.
  split_and!; [done| | |by destruct Hcut; auto].
  - intros r Hr. rewrite Howed. by apply Hout.
  - right. destruct Hcap as [[? _]|[?|?]]; [done|left; lia|by right].
Qed.

(** ** Symbolic execution of handlers *)
Section wp.
Context {W : Type} `{!Kernel W} (E : stop → Prop).
Implicit Types (e : ep_state W).

Lemma wp_field {A} (f : BwServerEndpoint → A) e (Q : A → ep_state W → Prop) :
  Q (f (e_ep e)) e → wp E (field f) e Q.
Proof. done. Qed.
Lemma wp_upd f e (Q : unit → ep_state W → Prop) :
  Q tt (EpState (f (e_ep e)) (e_m e)) → wp E (upd f) e Q.
Proof. done. Qed.
Lemma wp_on_m {A} (c : M (machine W) A) e (Q : A → ep_state W → Prop) :
  wp E c (e_m e) (λ a m, Q a (EpState (e_ep e) m)) → wp E (on_m c) e Q.
Proof. intros. by apply wp_zoom. Qed.
Lemma wp_on_w {A} (c : M W A) e (Q : A → ep_state W → Prop) :
  wp E c (m_world (e_m e)) (λ a w, Q a (EpState (e_ep e) (set_world w (e_m e)))) →
  wp E (on_w c) e Q.
Proof. intros. by apply wp_on_m, wp_zoom. Qed.

(** Replacing a non-owning pointer frees nothing. *)
Lemma wp_assign_view rd wr b e (Q : unit → ep_state W → Prop) :
  non_owner (rd (e_ep e)) → Q tt (EpState (wr (Some b) (e_ep e)) (e_m e)) →
  wp E (assign rd wr b) e Q.
Proof.
  intros Hno HQ. unfold assign. apply wp_bind, wp_field, wp_bind, wp_upd.
  destruct (rd (e_ep e)) as [o|]; [|done]. simpl in Hno.
  apply wp_on_m. unfold Buffer.destroy. rewrite Hno. by apply wp_ret.
Qed.
End wp.

Ltac ep_step :=
  lazymatch goal with
  | |- wp _ (mbind _ _) _ _ => apply wp_bind
  | |- wp _ (mret _) _ _ => apply wp_ret
  | |- wp _ (field _) _ _ => apply wp_field
  | |- wp _ (upd _) _ _ => apply wp_upd
  | |- wp _ (on_w _) _ _ => apply wp_on_w
  | |- wp _ (deref _) _ _ => eapply wp_deref; [first [apply GetRemainBuffer_viewb | reflexivity]|]
  end; cbn [e_ep e_m m_heap m_world set_heap set_world sock_ sock_addr_ interest_ tx_queue_
    header_buffer_owner_ data_buffer_owner_ header_buffer_ data_buffer_ reply_buffer_ state_
    set_sock set_interest set_tx_queue set_header set_data set_reply set_state
    set_header_owner set_data_owner app].

Ltac ep_steps := repeat ep_step.

(** The members of the object that are assigned through [assign]. *)
Class Lens (rd : BwServerEndpoint → option Buffer)
    (wr : option Buffer → BwServerEndpoint → BwServerEndpoint) : Prop := {
  lens_rw b ep : rd (wr b ep) = b;
  lens_ww b b' ep : wr b (wr b' ep) = wr b ep;
  lens_wr ep : wr (rd ep) ep = ep;
}.

#[export] Instance lens_header_owner : Lens header_buffer_owner_ set_header_owner.
Proof. split; by intros; destruct ep. Qed.
#[export] Instance lens_data_owner : Lens data_buffer_owner_ set_data_owner.
Proof. split; by intros; destruct ep. Qed.

Lemma cap_fresh X R : fresh_in X R → Z.of_nat (cap X) < 2 ^ 32.
Proof. destruct X as [[l b]|]; simpl; [by intros [_ ?]|lia]. Qed.

Lemma ins_comm X Y R :
  fresh_in X R → fresh_in Y (ins X R) → ins X (ins Y R) = ins Y (ins X R).
Proof.
  destruct X as [[lx bx]|], Y as [[ly by']|]; simpl; try done.
  intros [Hx _] [Hy _]. apply insert_insert_ne. intros ->. by rewrite lookup_insert_eq in Hy.
Qed.

Lemma fresh_in_weaken X Y R : fresh_in X (ins Y R) → fresh_in X R.
Proof.
  destruct X as [[lx bx]|], Y as [[ly by']|]; simpl; try done.
  intros [[? ?]%lookup_insert_None ?]. done.
Qed.

Lemma fresh_in_ne l b l' b' R : fresh_in (Some (l, b)) (ins (Some (l', b')) R) → l' ≠ l.
Proof. simpl. by intros [[? ?]%lookup_insert_None ?]. Qed.

Lemma fresh_in_swap X Y R : fresh_in X R → fresh_in Y (ins X R) → fresh_in X (ins Y R).
Proof.
  destruct X as [[lx bx]|], Y as [[ly by']|]; simpl; try done.
  intros [Hx ?] [[Hy ?]%lookup_insert_None ?]. split; [|done].
  rewrite lookup_insert_ne; [done|congruence].
Qed.

Section grow.
Context {W : Type} `{!Kernel W, !KernelLaws W} {E : stop → Prop} {fuel : nat}
  `{!IOMode W E fuel}.

(** [ensure_buffer] leaves an owner of at least [size] bytes, never a smaller
    one than before, and frees the block it replaces. *)
Lemma wp_ensure_buffer rd wr `{!Lens rd wr} X R size (e : ep_state W)
  (Q : unit → ep_state W → Prop) :
  rd (e_ep e) = owner X → m_heap (e_m e) = ins X R → fresh_in X R →
  0 ≤ size < 2 ^ 32 → io_ok (m_world (e_m e)) →
  (∀ l b w', io_ok w' → kview w' = kview (m_world (e_m e)) →
   (io_patience w' ≤ io_patience (m_world (e_m e)))%nat →
   length b = (cap X `max` Z.to_nat size)%nat → fresh_in (Some (l, b)) R →
   Q tt (EpState (wr (owner (Some (l, b))) (e_ep e)) (Machine (ins (Some (l, b)) R) w'))) →
  wp E (ensure_buffer rd wr size) e Q.
Proof.
  intros Hrd Hh HX Hsize Hok HQ. unfold ensure_buffer. do 2 ep_step. rewrite Hrd.
  destruct (needs_alloc (owner X) size) eqn:Hneed.
  - ep_step. apply wp_on_m. eapply wp_alloc.
    { intros w' Hw'. destruct (io_memalign _ _ _ _ _ Hw' Hok) as (_ & _ & HE). by apply HE. }
    intros l b w' Hl Hb Hm Hv. destruct (io_memalign _ _ _ _ _ Hm Hok) as (Hok' & Hp & _).
    rewrite Hh in Hl |- *. ep_step. unfold assign. do 4 ep_step. rewrite Hrd.
    assert (Hfr : R !! l = None).
    { destruct X as [[lx bx]|]; simpl in Hl; [|done]. by apply lookup_insert_None in Hl as []. }
    assert (Hres : ∀ h, h = ins (Some (l, b)) R →
      wp E (upd (wr (Some (Buffer.set_msg_length size (mkBuffer (Some (Ptr l 0)) size 0 0 true)))))
        (EpState (wr (Some (mkBuffer (Some (Ptr l 0)) size 0 0 true)) (e_ep e)) (Machine h w')) Q).
    { intros h ->. ep_step. rewrite lens_ww.
      replace (Some (Buffer.set_msg_length size _)) with (owner (Some (l, b))).
      - apply HQ; [done|done|done| |split; [done|rewrite Hb; lia]].
        destruct X as [[lx bx]|]; simpl in Hneed |- *; rewrite Hb; lia.
      - unfold owner, ownerb, Buffer.set_msg_length. simpl. rewrite Hb, Z2Nat.id by lia. done. }
    destruct X as [[lx bx]|]; simpl in *.
    + apply wp_on_m. unfold Buffer.destroy. simpl. apply wp_heap_free; simpl.
      * rewrite lookup_insert_ne; [by rewrite lookup_insert_eq|].
        intros ->. by rewrite lookup_insert_eq in Hl.
      * apply Hres. rewrite delete_insert_ne; [|by intros ->; rewrite lookup_insert_eq in Hl].
        by rewrite delete_insert_id by apply HX.
    + ep_step. by apply Hres.
  - destruct X as [[lx bx]|]; simpl in *; [|done]. ep_step.
    destruct e as [ep [h w]]; simpl in *. subst h.
    rewrite <- (lens_wr (rd := rd) (wr := wr) ep), Hrd. apply HQ; [done|done|done|lia|done].
Qed.
End grow.

(** Filling a block from position [k] on. *)
Lemma fill_header (hb bs db rest : list byte) k j :
  (k + length bs ≤ length hb)%nat → ((k < length hb)%nat → j = 0%nat) →
  take (k + length bs) (overwrite k bs hb) ++ take j db ++ rest =
  take k hb ++ take j db ++ bs ++ rest.
Proof.
  intros Hk Hj. rewrite take_overwrite by lia. rewrite <- app_assoc. f_equal.
  destruct (decide (k < length hb)%nat) as [Hlt|Hge].
  - by rewrite (Hj Hlt).
  - destruct bs; [done|simpl in Hk; lia].
Qed.

Lemma fresh_in_contents l b b' R :
  length b' = length b → fresh_in (Some (l, b)) R → fresh_in (Some (l, b')) R.
Proof. simpl. by intros ->. Qed.

Lemma fresh_in_ins_contents X l b b' R :
  fresh_in X (ins (Some (l, b)) R) → fresh_in X (ins (Some (l, b')) R).
Proof.
  destruct X as [[lx bx]|]; simpl; [|done]. by rewrite !lookup_insert_None.
Qed.

(** * The invariant and the handlers *)

Section handlers.
Context {W : Type} `{!Kernel W, !KernelLaws W} {E : stop → Prop} {fuel : nat}
  `{!IOMode W E fuel}.
Context (poll : Poll.Poll) (this fd : Z).
(** The rest of the heap, the other sockets and the other registrations. *)
Context (base : heap) (S0 : gmap Z sock_view) (E0 : gmap (Z * Z) epoll_event).

(** The world: the socket of the endpoint has streams [s], of which nothing has
    been taken back since [S0], and is registered with exactly the interest the
    object records. *)
Definition sent_since (s : sock_view) : Prop :=
  ∀ s0, S0 !! fd = Some s0 → sv_tx s0 `prefix_of` sv_tx s.
Definition world_rep (i : Interest.Interest) (s : sock_view) (w : W) : Prop :=
  kview w = KView (<[fd := s]> S0)
  (<[(Poll.epfd poll, fd) := EpollEvent (InterestToEpoll i) this]> E0) ∧
  Interest.reading i ∧ io_ok w ∧ sent_since s.

(** The invariant: [O] is what the endpoint is there for, [n] bounds
    the work left (where the mode keeps track of it). *)
Record inv (O : goal) (n : nat) (s : sock_view) (e : ep_state W)
    (H D : option blk) (ph : phase) : Prop := {
  inv_ep : ep_rep fd (e_ep e) H D ph;
  inv_mem : mem_rep base H D (m_heap (e_m e));
  inv_world : world_rep (interest_ (e_ep e)) s (m_world (e_m e));
  inv_stream : io_exact → stream_ok O s H D ph;
  inv_work : io_live →
    (length (sv_rx s) + io_patience (m_world (e_m e)) + busy ph ≤ n)%nat;
}.

Lemma world_rep_sock i s w : world_rep i s w → kv_sock (kview w) !! fd = Some s.
Proof. intros (-> & _ & _). apply lookup_insert_eq. Qed.

Lemma world_rep_view i s w w' :
  world_rep i s w → kview w' = kview w → io_ok w' → world_rep i s w'.
Proof. intros (Hv & ? & _ & ?) Heq ?. split_and!; [by rewrite Heq|done|done|done]. Qed.

Lemma world_rep_set i s s' w w' :
  world_rep i s w → kview w' = kv_set_sock fd s' (kview w) → io_ok w' →
  sv_tx s `prefix_of` sv_tx s' → world_rep i s' w'.
Proof.
  intros (Hv & ? & _ & Hs) Heq ? Hpre. split_and!; [|done|done|].
  - rewrite Heq, Hv. unfold kv_set_sock. simpl. by rewrite insert_insert_eq.
  - intros s0 Hs0. etrans; [by apply Hs|done].
Qed.

(** The socket had no room, and perhaps the kernel has been asked to report room. *)
Definition waits (w' : W) : Prop :=
  ∃ w, just_blocked fd w ∧ io_ok w ∧ (w' = w ∨ ∃ i, Poll.Reregister poll fd this i w = Ret (tt, w')).

(** The last thing that has happened: a reply to a complete request. *)
Definition replied (O : goal) (e' : ep_state W) : Prop :=
  ∃ n s e H D b, inv O n s e H D PData ∧ Reply poll this e = Ret (b, e').

Abbreviation world e := (m_world (e_m e)).

(** Nothing is left to do without a new event. *)
Definition at_rest (H D : option blk) (ph : phase) : Prop :=
  match ph with
  | PNew => True
  | PRecv k j => (k < cap H ∨ j < cap D)%nat
  | PData => False
  | PReply j => (j < cap H ∨ cap H = 0)%nat
  end.

(** Then only what is left of a reply is owed for what has been read. *)
Definition unsent (H : option blk) (ph : phase) : list byte :=
  match ph with PReply j => drop j (contents H) | _ => [] end.

Lemma owed_nil ep H D ph :
  ep_rep fd ep H D ph → at_rest H D ph → owed H D ph [] = unsent H ph.
Proof.
  inversion 1 as [|? ? ? hb ? db k j ? Hk Hj Hkj| |]; subst; simpl; intros Hrest; [|unfold answer_body|done|].
  - apply answer_short. simpl. lia.
  - rewrite (proj2 (Nat.ltb_lt _ _)); [done|].
    rewrite !length_app, !length_take. simpl. lia.
  - by rewrite answer_short, app_nil_r by (simpl; lia).
Qed.

(** Receiving into a view: a prefix of the stream lands in its block. *)
Lemma wp_recv_into l bk k ep m i s (Q : option Z → ep_state W → Prop) :
  m_heap m !! l = Some bk → (k ≤ length bk)%nat → Z.of_nat (length bk) < 2 ^ 32 →
  sock_ ep = fd → world_rep i s (m_world m) →
  (∀ w', world_rep i s w' → (io_patience w' ≤ io_patience (m_world m))%nat →
   E Fatal ∨ sys_errno w' = EAGAIN →
   (io_live → (io_patience w' < io_patience (m_world m))%nat) → just_drained fd w' →
   Q None (EpState ep (set_world w' m))) →
  (∀ bs rest w', sv_rx s = bs ++ rest → (k + length bs ≤ length bk)%nat →
   (bs = [] → k = length bk ∨ sv_rx s = []) →
   ((k + length bs < length bk)%nat → just_drained fd w') →
   world_rep i (SockView (sv_read s ++ bs) rest (sv_tx s)) w' →
   (io_patience w' ≤ io_patience (m_world m))%nat →
   Q (Some (Z.of_nat (length bs)))
     (EpState ep (Machine (<[l := overwrite k bs bk]> (m_heap m)) w'))) →
  wp E (recv_into (viewb l (length bk) k)) (EpState ep m) Q.
Proof.
  intros Hl Hk Hlen Hfd Hw HNone HSome. unfold recv_into.
  do 3 ep_step. eapply wp_deref; [apply GetRemainBuffer_viewb|]. do 2 ep_step.
  rewrite Hfd. unfold Recv. apply wp_lift. intros r w' Hr.
  pose proof (world_rep_sock _ _ _ Hw) as Hs.
  destruct (io_recv _ _ _ _ _ _ ltac:(by rewrite Hs) Hr ltac:(apply Hw)) as (Hok & Hp & HE & Hlt).
  rewrite GetRemainSize_viewb in Hr by done.
  destruct r as [bs|]; cbn [set_world].
  - destruct (recv_Some _ _ _ _ _ _ _ Hr ltac:(lia) Hs) as (? & Heof & rest & Hrx & Hv).
    ep_step. apply wp_on_m. eapply wp_heap_write; cbn [p_blk p_off m_heap set_world];
      [done|lia|lia|]. ep_step. rewrite Nat2Z.id.
    apply (HSome bs rest w'); [done|lia| | |by eapply world_rep_set|done].
    + intros Hnil. destruct (Heof Hnil); [left; lia|by right].
    + intros ?. eexists _, _, _, _. split; [exact Hr|]. simpl. lia.
  - ep_step. apply recv_None in Hr as Hv.
    apply HNone; [|done|by apply HE|intros; by apply Hlt|by eexists _, _, _, _].
    by eapply world_rep_view.
Qed.

Lemma ReceiveMeta_inv O n s e H D :
  inv O n s e H D PNew → meta_read fd s (world e) →
  wp E (ReceiveMeta fuel) e (λ ok e', ∃ n' s' H' D',
  inv O n' s' e' H' D' (if ok : bool then PRecv 0 0 else PNew) ∧
  (n' ≤ n)%nat ∧ (sv_rx s = [] → sv_rx s' = []) ∧
  (io_live → sv_rx s ≠ [] → (n' < n)%nat) ∧
  (ok = false → io_exact → just_drained fd (world e'))).
Proof.
  intros [Hep (Hh & HfD & HfH) Hw Hst Hwk] Hmeta. destruct e as [ep [h w]].
  cbn [e_ep e_m m_heap m_world] in *.
  inversion Hep as [addr i hv dv H' D' Hhv Hdv| | |]; subst H' D' ep. clear Hep.
  cbn [interest_] in *. unfold ReceiveMeta. do 4 ep_step. eapply wp_mono; [exact Hmeta|].
  intros bs w1 (Hok & Hp & (rest & Hrx & Hv) & Hlen & Hexact & Hdrain). cbn beta.
  assert (Hw1 : world_rep i (SockView (sv_read s ++ bs) rest (sv_tx s)) w1) by by eapply world_rep_set.
  assert (Hnil : sv_rx s = [] → rest = []).
  { rewrite Hrx. by intros [_ ?]%app_eq_nil. }
  destruct (Z.ltb_spec (Z.of_nat (length bs)) 8) as [Hshort|Hlong].
  - ep_step. exists (n - length (sv_rx s))%nat, (SockView (sv_read s ++ bs) rest (sv_tx s)), H, D.
    split_and!; [|lia|done| |by intros _ Hx; apply Hdrain].
    + assert (Hall : io_exact → bs = sv_rx s ∧ rest = []).
      { intros Hx. rewrite (Hexact Hx) in Hrx, Hshort |- *. rewrite length_take in Hshort.
        rewrite take_ge in Hrx |- * by lia. split; [done|].
        rewrite <- (app_nil_r (sv_rx s)) in Hrx at 1. by apply app_inv_head in Hrx. }
      split; [by constructor|done|done| |]; intros Hx.
      * destruct (Hall Hx) as [-> ->].
        apply (stream_ok_recv O s H D PNew (sv_rx s) []); [auto|by rewrite app_nil_r| |by left|by left].
        intros r ->%prefix_nil_inv. rewrite app_nil_r. simpl.
        by rewrite !answer_short by (simpl; lia).
      * destruct (Hall (io_live_exact Hx)) as [_ ->]. specialize (Hwk Hx). simpl in *. lia.
    + intros Hx Hne. specialize (Hwk Hx). destruct (sv_rx s); simpl in *; [done|lia].
  - assert (Hl8 : length bs = 8%nat) by lia. ep_step.
    eapply (wp_ensure_buffer (fuel := fuel) _ _ H (ins D base)); cbn [e_ep e_m m_heap m_world set_world];
      [done|done|done|apply of_le32_range|apply Hw1|].
    intros lh hb w2 Hok2 Hv2 Hp2 Hhb HfH2. ep_step.
    assert (Hw2 : world_rep i (SockView (sv_read s ++ bs) rest (sv_tx s)) w2) by by eapply world_rep_view.
    eapply (wp_ensure_buffer (fuel := fuel) _ _ D (ins (Some (lh, hb)) base));
      cbn [e_ep e_m m_heap m_world set_world set_header_owner];
      [done|symmetry; by apply ins_comm|by apply fresh_in_swap|apply of_le32_range|apply Hw2|].
    intros ld db w3 Hok3 Hv3 Hp3 Hdb HfD3. cbn [e_m m_world] in Hv3, Hp3. ep_step.
    assert (Hw3 : world_rep i (SockView (sv_read s ++ bs) rest (sv_tx s)) w3) by by eapply world_rep_view.
    ep_steps. apply wp_assign_view; [done|]. ep_steps. apply wp_assign_view; [done|]. ep_steps.
    exists (n - 8)%nat, (SockView (sv_read s ++ bs) rest (sv_tx s)), (Some (lh, hb)), (Some (ld, db)).
    split_and!; [|lia|done| |done].
    + split.
      * apply (rep_recv fd addr i lh hb ld db 0 0 META_RECVED); [lia| |done|by left].
        destruct db; simpl; [by right|left; lia].
      * split_and!; [|by eapply fresh_in_weaken|].
        -- symmetry. by apply ins_comm; [eapply fresh_in_weaken|].
        -- by apply fresh_in_swap; [eapply fresh_in_weaken|].
      * done.
      * intros Hx. eapply stream_ok_recv; [exact (Hst Hx)|exact Hrx| |right; right; simpl; lia|right]; cycle 1.
        { intros Hcut. exists (sv_read s), (cap H), (cap D), bs, [].
          by rewrite app_nil_r. }
        intros r _. cbn [owed cap take app]. rewrite Hhb, Hdb, (answer_unfold _ _ (bs ++ r)).
        rewrite (proj2 (Nat.ltb_ge _ _)) by (rewrite length_app; lia).
        rewrite of_le32_app by lia.
        rewrite drop_app_le, of_le32_app by (rewrite ?length_drop; lia).
        by rewrite drop_app_length' by done.
      * intros Hx. specialize (Hwk Hx). cbn [sv_rx busy m_world e_m] in *.
        rewrite Hrx, length_app in Hwk. lia.
    + intros Hx Hne. specialize (Hwk Hx). destruct (sv_rx s); simpl in *; [done|lia].
Qed.

Lemma ReceiveHeader_inv O n s e lh hb ld db k j :
  inv O n s e (Some (lh, hb)) (Some (ld, db)) (PRecv k j) →
  wp E ReceiveHeader e (λ ok e', ∃ n' s' hb' k',
  inv O n' s' e' (Some (lh, hb')) (Some (ld, db)) (PRecv k' j) ∧
  length hb' = length hb ∧ (n' ≤ n)%nat ∧
  (ok = true → k' = length hb') ∧ (ok = false → (k < length hb)%nat ∧ (k' < length hb')%nat) ∧
  (sv_rx s = [] → sv_rx s' = []) ∧
  (io_live → sv_rx s ≠ [] → (n' < n)%nat ∨ (k = length hb ∧ sv_rx s' = sv_rx s)) ∧
  (ok = false → just_drained fd (world e'))).
Proof.
  intros [Hep (Hh & HfD & HfH) Hw Hst Hwk]. destruct e as [ep [h w]]. cbn [e_ep e_m m_heap m_world] in *.
  inversion Hep as [|addr i ? ? ? ? ? ? st Hk Hj Hkj Hstate| |]; subst. clear Hep.
  cbn [interest_] in *. unfold ReceiveHeader. ep_steps.
  assert (Hbig : Z.of_nat (length hb) < 2 ^ 32) by apply HfH.
  eapply wp_recv_into; [apply lookup_insert_eq|done|done|done|exact Hw| |];
    cbn [m_heap m_world].
  - intros w' Hw' Hp HE Hlt Hdrain. ep_steps. apply wp_LastErrorWouldBlock. cbn [m_world set_world].
    apply wp_check.
    { intros Hneq. destruct HE as [|Heq]; [done|]. by rewrite Heq in Hneq. }
    intros _. ep_steps. rewrite IsClear_viewb.
    exists (n - 1)%nat, s, hb, k.
    split_and!; [|done|lia|intros ?%Nat.eqb_eq; lia|intros ?%Nat.eqb_neq; lia|done| |done].
    + split; [by constructor|done|done|done|]. cbn [e_m m_world set_world]. intros Hx.
      specialize (Hlt Hx). specialize (Hwk Hx). simpl in *. lia.
    + intros Hx _. specialize (Hlt Hx). specialize (Hwk Hx). simpl in *. left. lia.
  - intros bs rest w' Hrx Hlen Heof Hdrain Hw' Hp. ep_steps.
    rewrite MarkHandled_viewb, IsClear_viewb by done.
    assert (Hlen' : length (overwrite k bs hb) = length hb) by by apply length_overwrite.
    apply (wp_mono _ _ _ (λ _ e', ∃ st',
      e' = EpState (mkEndpoint fd addr i [] (owner (Some (lh, overwrite k bs hb)))
             (owner (Some (ld, db))) (Some (viewb lh (length hb) (k + length bs)))
             (Some (viewb ld (length db) j)) None st')
             (Machine (ins (Some (lh, overwrite k bs hb)) (ins (Some (ld, db)) base)) w') ∧
      (st' = META_RECVED ∨ st' = HEADER_RECVED ∧ (k + length bs)%nat = length hb))).
    { unfold owner, ins. cbn [fmap option_fmap option_map fst snd]. rewrite Hlen'.
      rewrite insert_insert_eq.
      destruct (Nat.eqb_spec (length hb) (k + length bs)) as [Heq|Hne].
      - ep_steps. exists HEADER_RECVED. split; [done|by right].
      - ep_steps. exists st. split; [done|]. destruct Hstate as [|[_ Hk']]; [by left|].
        exfalso. lia. }
    intros [] e' (st' & -> & Hst'). ep_steps. rewrite IsClear_viewb.
    exists (n - length bs)%nat, (SockView (sv_read s ++ bs) rest (sv_tx s)), (overwrite k bs hb), (k + length bs)%nat.
    split_and!; [|done|lia|intros ?%Nat.eqb_eq; lia|intros ?%Nat.eqb_neq; lia| | |
      by intros ?%Nat.eqb_neq; apply Hdrain; lia].
    + split.
      * rewrite <- Hlen'. constructor; rewrite ?Hlen'; [done|done| |done].
        intros; apply Hkj; lia.
      * split_and!; [done|done|by eapply fresh_in_contents].
      * done.
      * intros Hx. eapply stream_ok_recv;
          [exact (Hst Hx)|exact Hrx| |right; left; split; [done|simpl; lia]|right; apply cut_ok_recv; simpl; lia].
        intros r _. cbn [owed cap contents]. by rewrite Hlen', fill_header.
      * intros Hx. specialize (Hwk Hx). cbn [e_m m_world busy sv_rx] in *.
        rewrite Hrx, length_app in Hwk. lia.
    + rewrite Hrx. intros Hnil. by apply app_eq_nil in Hnil as [_ ->].
    + intros Hx Hne. specialize (Hwk Hx). rewrite Hrx, length_app in Hwk.
      destruct bs; [|left; simpl in *; lia]. right. destruct (Heof eq_refl); [|done].
      split; [done|]. by rewrite Hrx.
Qed.

(** The end of a request: the reply is a fresh view of the header block. *)
Lemma data_received_inv O n s addr i lh hb ld db hk dv st w :
  non_owner dv → hk = viewb lh (length hb) (length hb) →
  mem_rep base (Some (lh, hb)) (Some (ld, db)) (ins (Some (lh, hb)) (ins (Some (ld, db)) base)) →
  world_rep i s w →
  (io_exact → stream_ok O s (Some (lh, hb)) (Some (ld, db)) (PRecv (length hb) (length db))) →
  (io_live → (length (sv_rx s) + io_patience w ≤ n)%nat) →
  wp E data_received
  (EpState (mkEndpoint fd addr i [] (owner (Some (lh, hb))) (owner (Some (ld, db)))
     (Some hk) dv None st) (Machine (ins (Some (lh, hb)) (ins (Some (ld, db)) base)) w))
  (λ _ e', inv O n s e' (Some (lh, hb)) (Some (ld, db)) PData ∧
           data_buffer_ (e_ep e') = dv).
Proof.
  intros Hdv -> Hmem Hw Hst Hwk. unfold data_received. ep_steps. apply wp_assign_view; [done|].
  split; [|done]. split; [by constructor|done|done| |]; intros Hx.
  2: { specialize (Hwk Hx). simpl. lia. }
  eapply stream_ok_send; [exact (Hst Hx)|done..| |by apply cut_ok_full]. intros r. cbn [owed cap contents].
  by rewrite !firstn_all, answer_body_full.
Qed.

Lemma ReceiveData_inv O n s e lh hb ld db j :
  inv O n s e (Some (lh, hb)) (Some (ld, db)) (PRecv (length hb) j) →
  wp E ReceiveData e (λ ok e', ∃ n' s' db',
  (if ok : bool then inv O n' s' e' (Some (lh, hb)) (Some (ld, db')) PData
   else ∃ j', inv O n' s' e' (Some (lh, hb)) (Some (ld, db')) (PRecv (length hb) j') ∧
              (j' < length db')%nat) ∧
  (n' ≤ n)%nat ∧ (ok = false → (j < length db)%nat) ∧
  (sv_rx s = [] → sv_rx s' = []) ∧
  (io_live → sv_rx s ≠ [] → (j < length db)%nat → (n' < n)%nat) ∧
  (ok = false → just_drained fd (world e'))).
Proof.
  intros [Hep (Hh & HfD & HfH) Hw Hst Hwk]. destruct e as [ep [h w]]. cbn [e_ep e_m m_heap m_world] in *.
  inversion Hep as [|addr i ? ? ? ? ? ? st Hk Hj Hkj Hstate| |]; subst. clear Hep.
  cbn [interest_ busy] in *. unfold ReceiveData. ep_steps. cbn [size_ viewb].
  destruct (Z.eqb_spec (Z.of_nat (length db)) 0) as [Hz|Hnz].
  - destruct db; [|simpl in Hz; lia]. destruct Hj as [Hj|[_ ->]]; [simpl in Hj; lia|].
    apply wp_bind. eapply wp_mono.
    { eapply (data_received_inv O n); [done|done|by split_and!|exact Hw|exact Hst|].
      intros Hx. specialize (Hwk Hx). simpl in Hwk. lia. }
    intros [] e' [Hinv _]. ep_step. exists n, s, [].
    split_and!; [done|done|done|done|simpl; lia|done].
  - pose proof (fresh_in_ne _ _ _ _ _ HfH) as Hne. apply wp_bind.
    eapply wp_recv_into; [|destruct Hj as [|[-> ->]]; lia|apply HfD|done|exact Hw| |];
      cbn [m_heap m_world].
    { apply not_eq_sym in Hne. simpl. by rewrite lookup_insert_ne, lookup_insert_eq. }
    + intros w' Hw' Hp HE Hlt Hdrain. ep_steps. apply wp_LastErrorWouldBlock. cbn [m_world set_world].
      apply wp_check.
      { intros Hneq. destruct HE as [|Heq]; [done|]. by rewrite Heq in Hneq. }
      intros _. ep_steps. rewrite IsClear_viewb.
      destruct (Nat.eqb_spec (length db) j) as [|Hjne]; [exfalso; destruct Hj as [|[-> ->]]; simpl in *; lia|].
      exists (n - 1)%nat, s, db. split_and!; [exists j; split; [|lia]|lia|lia|done| |done].
      * split; [by constructor|done|done|done|]. cbn [e_m m_world set_world busy]. intros Hx.
        specialize (Hlt Hx). specialize (Hwk Hx). simpl in *. lia.
      * intros Hx _ _. specialize (Hlt Hx). specialize (Hwk Hx). simpl in *. lia.
    + intros bs rest w' Hrx Hlen Heof Hdrain Hw' Hp.
      assert (Hlt : (j < length db)%nat) by (destruct Hj as [|[-> ->]]; simpl in *; lia).
      ep_steps. rewrite MarkHandled_viewb, IsClear_viewb by (done || apply HfD).
      assert (Hlen' : length (overwrite j bs db) = length db) by by apply length_overwrite.
      set (db' := overwrite j bs db) in *.
      assert (Htake : take (j + length bs) db' = take j db ++ bs)
        by (apply take_overwrite; lia).
      assert (HfD' : fresh_in (Some (ld, db')) base) by by eapply fresh_in_contents.
      assert (HfH' : fresh_in (Some (lh, hb)) (ins (Some (ld, db')) base))
        by by eapply fresh_in_ins_contents.
      replace (<[ld:=db']> (ins (Some (lh, hb)) (ins (Some (ld, db)) base)))
        with (ins (Some (lh, hb)) (ins (Some (ld, db')) base)); cycle 1.
      { simpl. by rewrite (insert_insert_ne _ ld lh), insert_insert_eq. }
      replace (owner (Some (ld, db))) with (owner (Some (ld, db')))
        by (unfold owner; simpl; by rewrite Hlen').
      assert (Hlrx : length (sv_rx s) = (length bs + length rest)%nat) by by rewrite Hrx, length_app.
      destruct (Nat.eqb_spec (length db) (j + length bs)) as [Heq|Hneq].
      * eapply wp_mono.
        { eapply (data_received_inv O (n - length bs));
            [done|done|by split_and!|exact Hw'| |intros Hx; specialize (Hwk Hx); simpl in *; lia].
          intros Hx. eapply stream_ok_recv;
            [exact (Hst Hx)|exact Hrx| |right; left; split; done|right; apply cut_ok_recv; simpl; lia].
          intros r _. cbn [owed cap contents]. rewrite Hlen', Heq, Htake, <- app_assoc. done. }
        intros [] e' [Hinv Hdv]. do 2 ep_step. rewrite Hdv. ep_steps.
        rewrite IsClear_viewb, (proj2 (Nat.eqb_eq _ _) Heq).
        eexists _, _, db'. split_and!; [exact Hinv|lia|done| | |done].
        -- rewrite Hrx. intros Hnil. by apply app_eq_nil in Hnil as [_ ->].
        -- intros Hx Hne' _. specialize (Hwk Hx). destruct bs; simpl in *; lia.
      * ep_steps. rewrite IsClear_viewb, (proj2 (Nat.eqb_neq _ _) Hneq).
        eexists (n - length bs)%nat, _, db'.
        split_and!; [exists (j + length bs)%nat; split; [split|lia]|lia|done| | |by intros _; apply Hdrain; lia].
        -- rewrite <- Hlen'. constructor; [done|left; lia|lia|done].
        -- by split_and!.
        -- done.
        -- intros Hx. eapply stream_ok_recv;
            [exact (Hst Hx)|exact Hrx| |right; left; split; done|right; apply cut_ok_recv; simpl; lia].
          intros r _. cbn [owed cap contents]. by rewrite Hlen', Htake, <- app_assoc.
        -- intros Hx. specialize (Hwk Hx). simpl in *. lia.
        -- rewrite Hrx. intros Hnil. by apply app_eq_nil in Hnil as [_ ->].
        -- intros Hx Hne' _. specialize (Hwk Hx).
          destruct bs as [|b bs]; [|simpl in *; lia].
          by destruct (Heof eq_refl) as [|Hnil]; [lia|].
Qed.

Lemma wp_Reregister i i' s w (Q : unit → W → Prop) :
  world_rep i s w → Interest.reading i' →
  (∀ w', world_rep i' s w' → (io_patience w' ≤ io_patience w)%nat →
   Poll.Reregister poll fd this i' w = Ret (tt, w') → Q tt w') →
  wp E (Poll.Reregister poll fd this i') w Q.
Proof.
  intros Hw Hi' HQ. apply wp_eq. unfold Poll.Reregister, Selector.Reregister, Selector.EpollCtl.
  apply wp_bind, wp_lift. intros r w' Hr. destruct Hw as (Hv & Hi & Hok & Hsent).
  assert (Hin : is_Some (kv_epoll (kview w) !! (Poll.epfd poll, fd)))
    by (rewrite Hv; simpl; by rewrite lookup_insert_eq).
  destruct (io_epoll_mod _ _ _ _ _ _ Hin Hr Hok) as (Hok' & Hp & HE).
  apply wp_check.
  - intros Hne%Z.eqb_neq. by apply HE.
  - intros ->%Z.eqb_eq Hre. apply HQ; [|done|exact Hre]. apply epoll_ctl_set in Hr; [|by right].
    split_and!; [|done|done|done]. rewrite Hr, Hv. unfold kv_set_epoll. simpl.
    by rewrite insert_insert_eq.
Qed.

(** While a reply is queued, the kernel has been asked for writability. *)
Definition armed (e : ep_state W) (ph : phase) : Prop :=
  busy ph = 1%nat → Interest.IsWritable (interest_ (e_ep e)) = true.

(** After an attempt to send everything: it has been sent, or the socket has no room. *)
Definition tried O n s lh hb D e' : Prop :=
  ∃ s' ph', inv O n s' e' (Some (lh, hb)) D ph' ∧ armed e' ph' ∧
  at_rest (Some (lh, hb)) D ph' ∧ sv_rx s' = sv_rx s ∧
  (busy ph' = 1%nat → waits (world e')).

Lemma OnSendReady_loop_inv f O n s e lh hb D j :
  inv O (S n) s e (Some (lh, hb)) D (PReply j) → (j < length hb ∨ length hb = 0)%nat →
  (length hb - j + 2 ≤ f)%nat →
  wp E (OnSendReady_loop poll this f) e (λ _ e', tried O n s lh hb D e').
Proof.
  revert s e j. induction f as [|f IH]; intros s e j [Hep Hmem Hw Hst Hwk] Hjl Hf; [lia|].
  destruct Hmem as (Hh & HfD & HfH).
  destruct e as [ep [h w]]. cbn [e_ep e_m m_heap m_world] in *.
  inversion Hep as [| | |addr i ? ? ? hv dv ? Hhv Hdv Hj]; subst. clear Hep.
  assert (Hbig : Z.of_nat (length hb) < 2 ^ 32) by apply HfH.
  cbn [interest_ busy] in *. cbn [OnSendReady_loop]. ep_steps.
  apply wp_on_m. rewrite GetRemainSize_viewb by done.
  eapply wp_heap_read; cbn [p_blk p_off m_heap m_world]; [apply lookup_insert_eq|lia|lia|lia|].

  rewrite !Nat2Z.id, take_ge by (rewrite length_drop; lia).
  ep_steps. apply wp_lift. intros r w' Hr.
  pose proof (world_rep_sock _ _ _ Hw) as Hs.
  destruct (io_send _ _ _ _ _ _ ltac:(by rewrite Hs) Hr ltac:(apply Hw)) as (Hok & Hp & HE & Hlt).
  destruct r as [r|]; cbn [set_world m_heap m_world].
  - destruct (send_Some _ _ _ _ _ _ _ Hr Hs) as (Hrange & Hpos & Hv).
    rewrite length_drop in Hrange. rewrite <- (Z2Nat.id r) by lia.
    set (c := Z.to_nat r) in *.
    assert (Hcpos : (j < length hb)%nat → (0 < c)%nat).
    { intros. assert (0 < r); [|lia]. apply Hpos. intros Hnil%(f_equal length).
      rewrite length_drop in Hnil. simpl in Hnil. lia. }
    rewrite MarkHandled_viewb, IsClear_viewb by lia.
    set (s' := SockView (sv_read s) (sv_rx s) (sv_tx s ++ take c (drop j hb))) in *.
    assert (Hw' : world_rep i s' w').
    { eapply world_rep_set; [done..|]. by apply prefix_app_r. }
    assert (Hwk' : io_live → (length (sv_rx s') + io_patience w' + 1 ≤ S n)%nat).
    { intros Hx. specialize (Hwk Hx). simpl in *. lia. }
    assert (Hst' : io_exact → stream_ok O s' (Some (lh, hb)) D (PReply (j + c))).
    { intros Hx. eapply stream_ok_send; [exact (Hst Hx)|done..| |done]. intros r'. simpl.
      rewrite <- drop_drop, <- app_assoc. f_equal. by rewrite app_assoc, take_drop. }
    destruct (Nat.eqb_spec (length hb) (j + c)) as [Heq|Hne].
    + assert (Hfin : ∀ i' w'', world_rep i' s' w'' → (io_patience w'' ≤ io_patience w')%nat →
        wp E (OnSendReady_loop poll this f)
          (EpState (mkEndpoint fd addr i' [] (owner (Some (lh, hb))) (owner D) hv dv None NEW_RPC)
             (Machine (ins (Some (lh, hb)) (ins D base)) w''))
          (λ _ e', tried O n s lh hb D e')).
      { intros i' w'' Hw'' Hp''. destruct f as [|f']; [lia|]. cbn [OnSendReady_loop]. ep_steps.
        exists s', PNew. split_and!; [|done..].
        split; [by constructor|by split_and!|done| |]; intros Hx.
        2: { specialize (Hwk' Hx). simpl in *. lia. }
        eapply stream_ok_send; [exact (Hst' Hx)|done..| |done]. intros r'. cbn [owed cap contents].
        by rewrite <- Heq, drop_all. }
      ep_steps. destruct (Interest.IsWritable i) eqn:Hwr.
      * ep_steps. apply Interest.wp_make; [done|]. ep_steps.
        eapply wp_Reregister; [exact Hw'|done|]. intros w'' Hw'' Hp'' _. by apply Hfin.
      * ep_steps. by apply Hfin.
    + ep_steps. eapply wp_mono; [eapply (IH s' _ (j + c)%nat); [|lia|lia]|].
      * split; [constructor; [done|done|lia]|by split_and!|exact Hw'|exact Hst'|exact Hwk'].
      * done.
  - apply send_None in Hr as Hv. assert (Hw' : world_rep i s w') by by eapply world_rep_view.
    ep_steps. apply wp_LastErrorWouldBlock. cbn [m_world set_world]. ep_step.
    apply wp_check.
    { intros Hneq. destruct HE as [|Heq]; [done|done|]. by rewrite Heq in Hneq. }
    intros _.
    assert (Hfin : ∀ i' w'', world_rep i' s w'' → (io_patience w'' ≤ io_patience w')%nat →
      Interest.IsWritable i' = true → waits w'' →
      tried O n s lh hb D
        (EpState (mkEndpoint fd addr i' [Some (viewb lh (length hb) j)] (owner (Some (lh, hb)))
           (owner D) hv dv None REPLYING) (Machine (ins (Some (lh, hb)) (ins D base)) w''))).
    { intros i' w'' Hw'' Hp'' Hwr Hwait. exists s, (PReply j).
      split_and!; [|by intros _|done|done|done].
      split; [by constructor|by split_and!|done|done|].
      intros Hx. specialize (Hlt eq_refl Hx). specialize (Hwk Hx). simpl in *. lia. }
    ep_steps. destruct (Interest.IsWritable i) eqn:Hwr.
    + ep_step. apply Hfin; [done|done|done|]. exists w'. split_and!; [by eexists _, _, _|done|by left].
    + ep_steps. apply Interest.wp_make; [done|]. ep_steps.
      destruct (Interest.or_assign_writable i) as [Hwf Hwr']; [apply Hw|].
      eapply wp_Reregister; [exact Hw'|exact Hwf|]. intros w'' Hw'' Hp'' Hre.
      apply Hfin; [done|done|done|]. exists w'. split_and!; [by eexists _, _, _|done|right; by eexists].
Qed.

Lemma Reply_inv O n s e lh hb D :
  inv O n s e (Some (lh, hb)) D PData →
  wp E (Reply poll this) e (λ _ e', tried O n s lh hb D e').
Proof.
  intros [Hep Hmem Hw Hst Hwk]. destruct e as [ep [h w]]. cbn [e_ep e_m m_heap m_world] in *.
  inversion Hep as [| |addr i ? ? ? hv dv Hhv Hdv|]; subst. clear Hep.
  unfold Reply, OnSendReady. ep_steps. cbn [app tx_work foldr].
  eapply wp_mono; [eapply (OnSendReady_loop_inv _ O n s _ lh hb D 0)|].
  - split; [by constructor; [| |lia]|done|done| |]; intros Hx.
    + by eapply stream_ok_send; [exact (Hst Hx)|..].
    + specialize (Hwk Hx). simpl in *. lia.
  - lia.
  - rewrite GetRemainSize_viewb by (lia || apply Hmem). lia.
  - intros [] e' Hpost. ep_steps. exact Hpost.
Qed.

(** ** The invariant between two calls of the event loop *)

Definition Inv (O : goal) (n : nat) (s : sock_view) (e : ep_state W) : Prop :=
  ∃ H D ph, inv O n s e H D ph ∧ armed e ph ∧ at_rest H D ph.

(** The sizes can be read, where the mode says so. *)
Lemma Inv_meta `{!IOMeta W E fuel} O n s e : Inv O n s e → meta_read fd s (world e).
Proof.
  intros (H & D & ph & [_ _ Hw _ _] & _). apply io_recv_meta; [by eapply world_rep_sock|apply Hw].
Qed.

(** What a handler does to it: the stream is consumed, and unless it is at
    its end some progress is made. *)
Definition handled (O : goal) (n : nat) (rx : list byte) (e' : ep_state W) : Prop :=
  ∃ n' s', Inv O n' s' e' ∧ (n' ≤ n)%nat ∧ (rx = [] → sv_rx s' = []) ∧
  (io_live → rx ≠ [] → (n' < n)%nat).

(** After the reading handler: it has found the end of what has come, or it has
    answered a request; what is not sent waits for room. *)
Definition settled (O : goal) (e' : ep_state W) : Prop :=
  (just_drained fd (world e') ∨ replied O e') ∧
  (state_ (e_ep e') = REPLYING → waits (world e')).

Lemma replying_busy O n s e H D ph :
  inv O n s e H D ph → state_ (e_ep e) = REPLYING → busy ph = 1%nat.
Proof.
  intros [Hep _ _ _ _]. destruct e as [ep m]. cbn [e_ep] in *.
  inversion Hep as [|? ? ? ? ? ? ? ? ? ? ? ? Hstate| |]; subst; simpl; [done| |done|done].
  by destruct Hstate as [->|[-> _]].
Qed.

Lemma tried_settled O n s lh hb D n0 s0 e0 e' b :
  inv O n0 s0 e0 (Some (lh, hb)) D PData → Reply poll this e0 = Ret (b, e') →
  tried O n s lh hb D e' →
  ∃ s', Inv O n s' e' ∧ sv_rx s' = sv_rx s ∧ settled O e'.
Proof.
  intros H0 Hrun (s' & ph' & Hinv & Harm & Hrest & Hrx & Hwait). exists s'. split_and!; [|done|].
  - by exists (Some (lh, hb)), D, ph'.
  - split; [right; by eexists _, _, _, _, _, _|]. intros Hst. apply Hwait.
    by eapply replying_busy.
Qed.

Lemma receive_data_handled O n s e lh hb ld db j :
  inv O n s e (Some (lh, hb)) (Some (ld, db)) (PRecv (length hb) j) →
  wp E (and_then ReceiveData (and_then (Reply poll this) (mret tt))) e (λ _ e',
  ∃ n' s', Inv O n' s' e' ∧ (n' ≤ n)%nat ∧ (sv_rx s = [] → sv_rx s' = []) ∧
    (io_live → sv_rx s ≠ [] → (j < length db)%nat → (n' < n)%nat) ∧ settled O e').
Proof.
  intros Hinv. unfold and_then. ep_step.
  eapply wp_mono; [by eapply ReceiveData_inv|].
  intros [] e' (n' & s' & db' & Hpost & ? & ? & Hrx & Hx & Hdrain).
  - ep_step. eapply wp_eq, wp_mono; [by eapply Reply_inv|]. intros b e'' Htried Hrun.
    destruct (tried_settled _ _ _ _ _ _ _ _ _ _ _ Hpost Hrun Htried) as (s'' & HI & Hrx' & Hset).
    destruct b; ep_step; exists n', s''; (split_and!; [done|done|by rewrite Hrx'|done|done]).
  - ep_step. destruct Hpost as (j' & Hinv' & Hj'). exists n', s'.
    split_and!; [|done|done|done|split; [left; auto|]].
    + eexists _, _, _. split_and!; [exact Hinv'|by intros ?|by right].
    + by intros ?%(replying_busy _ _ _ _ _ _ _ Hinv').
Qed.

Lemma receive_header_handled O n s e lh hb ld db k j :
  inv O n s e (Some (lh, hb)) (Some (ld, db)) (PRecv k j) →
  wp E (and_then ReceiveHeader (and_then ReceiveData (and_then (Reply poll this) (mret tt)))) e
  (λ _ e', ∃ n' s', Inv O n' s' e' ∧ (n' ≤ n)%nat ∧ (sv_rx s = [] → sv_rx s' = []) ∧
    (io_live → sv_rx s ≠ [] → (k < length hb ∨ j < length db)%nat → (n' < n)%nat) ∧
    settled O e').
Proof.
  intros Hinv. unfold and_then at 1. ep_step.
  eapply wp_mono; [by eapply ReceiveHeader_inv|].
  intros [] e' (n' & s' & hb' & k' & Hinv' & Hlen & ? & Hok & Hno & Hrx & Hx & Hdrain).
  - specialize (Hok eq_refl). subst k'. eapply wp_mono; [by eapply receive_data_handled|].
    intros _ e'' (n'' & s'' & ? & ? & Hrx'' & Hx'' & ?). exists n'', s''.
    split_and!; [done|lia|auto| |done]. intros Hex Hne Hkj. destruct (Hx Hex Hne) as [|[-> Heq]]; [lia|].
    rewrite Heq in Hx''. specialize (Hx'' Hex Hne ltac:(lia)). lia.
  - ep_step. destruct (Hno eq_refl) as [? ?]. exists n', s'.
    split_and!; [|done|done| |split; [left; auto|]].
    + eexists _, _, _. split_and!; [exact Hinv'|by intros ?|by left].
    + intros Hex Hne _. destruct (Hx Hex Hne) as [|[-> _]]; lia.
    + by intros ?%(replying_busy _ _ _ _ _ _ _ Hinv').
Qed.

(** [OnRecvReady] keeps the invariant, in every state. *)
Lemma OnRecvReady_handled O n s e :
  Inv O n s e → state_ (e_ep e) ≠ REPLYING →
  (state_ (e_ep e) = NEW_RPC → meta_read fd s (world e)) →
  wp E (OnRecvReady fuel poll this) e (λ _ e',
  handled O n (sv_rx s) e' ∧ (io_exact → settled O e')).
Proof.
  intros (H & D & ph & Hinv & Harm & Hrest) Hst Hmeta. pose proof (inv_ep _ _ _ _ _ _ _ Hinv) as Hep.
  unfold OnRecvReady. ep_steps. destruct e as [ep m]. cbn [e_ep] in *.
  inversion Hep as [|addr i lh hb ld db k j st Hk Hj Hkj Hstate| |]; subst; cbn [state_] in *; [| |done|done].
  - unfold and_then at 1. ep_step. eapply wp_mono; [eapply ReceiveMeta_inv; [done|by apply Hmeta]|].
    intros [] e' (n' & s' & H' & D' & Hinv' & ? & Hnil & Hx & Hdrain).
    + pose proof (inv_ep _ _ _ _ _ _ _ Hinv') as Hep'.
      inversion Hep' as [|? ? lh hb ld db| |]; subst.
      eapply wp_mono; [by eapply receive_header_handled|].
      intros _ e'' (n'' & s'' & ? & ? & ? & _ & ?). split; [|done]. exists n'', s''.
      split_and!; [done|lia|auto|]. intros Hex Hne. specialize (Hx Hex Hne). lia.
    + ep_step. split.
      * exists n', s'. split_and!; [|done|done|done]. eexists H', D', PNew. by split_and!.
      * intros Hex. split; [left; auto|].
        by intros ?%(replying_busy _ _ _ _ _ _ _ Hinv').
  - destruct Hstate as [->|[-> ->]].
    + eapply wp_mono; [by eapply receive_header_handled|].
      intros _ e' (n' & s' & ? & ? & ? & Hx & ?). split; [|done].
      exists n', s'. split_and!; [done|done|done|]. intros Hex Hne. apply Hx; [done|done|exact Hrest].
    + eapply wp_mono; [by eapply receive_data_handled|].
      intros _ e' (n' & s' & ? & ? & ? & Hx & ?). split; [|done].
      exists n', s'. split_and!; [done|done|done|]. intros Hex Hne. apply Hx; [done|done|]. simpl in Hrest. lia.
Qed.

Lemma OnRecvReady_replying O n s e :
  Inv O n s e → state_ (e_ep e) = REPLYING →
  wp E (OnRecvReady fuel poll this) e (λ _ e', e' = e).
Proof. intros _ Hst. unfold OnRecvReady. do 2 ep_step. rewrite Hst. by ep_step. Qed.

(** [OnSendReady] sends what is queued; without a reply it does nothing. *)
Lemma OnSendReady_handled O n s e :
  Inv O n s e →
  wp E (OnSendReady poll this) e (λ _ e', ∃ n' s', Inv O n' s' e' ∧ (n' ≤ n)%nat ∧
  sv_rx s' = sv_rx s ∧
  (state_ (e_ep e) ≠ REPLYING → e' = e) ∧
  (io_live → state_ (e_ep e) = REPLYING → (n' < n)%nat) ∧
  (state_ (e_ep e) = REPLYING → state_ (e_ep e') = REPLYING → waits (world e'))).
Proof.
  intros (H & D & ph & Hinv & Harm & Hrest). pose proof (inv_ep _ _ _ _ _ _ _ Hinv) as Hep.
  assert (Hnop : tx_queue_ (e_ep e) = [] → state_ (e_ep e) ≠ REPLYING →
    wp E (OnSendReady poll this) e (λ _ e', ∃ n' s', Inv O n' s' e' ∧ (n' ≤ n)%nat ∧
    sv_rx s' = sv_rx s ∧ (state_ (e_ep e) ≠ REPLYING → e' = e) ∧
    (io_live → state_ (e_ep e) = REPLYING → (n' < n)%nat) ∧
    (state_ (e_ep e) = REPLYING → state_ (e_ep e') = REPLYING → waits (world e')))).
  { intros Hq Hst. unfold OnSendReady. do 2 ep_step. rewrite Hq. cbn [OnSendReady_loop tx_work foldr].
    do 2 ep_step. rewrite Hq. ep_step. exists n, s. split_and!; try done.
    by exists H, D, ph. }
  destruct e as [ep m]. cbn [e_ep] in *.
  inversion Hep as [| | |addr i lh hb ? hv dv j ? ? Hj]; subst; [apply Hnop; simpl; [done|intuition congruence]..|].
  cbn [state_]. unfold OnSendReady. ep_steps. cbn [tx_work foldr].
  assert (n ≠ 0%nat ∨ ¬ io_live) as Hn.
  { destruct n; [right|by left]. intros Hx. pose proof (inv_work _ _ _ _ _ _ _ Hinv Hx) as Hz.
    simpl in Hz. lia. }
  eapply wp_mono; [eapply (OnSendReady_loop_inv _ O (pred n) s _ lh hb D j)|].
  - destruct Hinv as [? ? ? ? Hs]. split; [done..|]. intros Hx. specialize (Hs Hx). lia.
  - exact Hrest.
  - rewrite GetRemainSize_viewb by (done || apply Hinv). lia.
  - intros [] e' (s' & ph' & Hinv' & Harm' & Hrest' & Hrx & Hwait). exists (pred n), s'.
    split_and!; [|lia|done|done| |].
    + by exists (Some (lh, hb)), D, ph'.
    + intros Hx _. destruct Hn; [lia|done].
    + intros _ ?. apply Hwait. by eapply replying_busy.
Qed.
End handlers.
