(* ===== verification/EndpointProps.v ===== *)
(** The properties of [BwServerEndpoint] over whole runs of its handlers:
    memory safety against any kernel, refinement of [answer] and progress over
    a reliable one, and what happens to a request smaller than an earlier one. *)
From S2P Require Import Prelude CInt Kernel SimKernel Poll Buffer Socket Endpoint EndpointSpec IOMode EndpointProofs.

Local Open Scope Z_scope.

(** What an event of the event loop makes the endpoint do. *)
Inductive readiness := Readable | Writable.

Section runs.
Context {W : Type} `{!Kernel W}.
Context (fuel : nat) (poll : Poll.Poll) (this : Z).

Definition on_ready (r : readiness) : M (ep_state W) unit :=
  match r with
  | Readable => OnRecvReady fuel poll this
  | Writable => OnSendReady poll this
  end.

Fixpoint run_events (evs : list readiness) : M (ep_state W) unit :=
  match evs with
  | [] => mret tt
  | r :: evs => _ ← on_ready r; run_events evs
  end.

(** An endpoint on socket [fd], constructed and registered, with nothing sent
    and [inp] still to come from its peer. *)
Definition accepted `{!KernelLaws W} (fd : Z) (inp : list byte) (e : ep_state W) : Prop :=
  (∃ addr, e_ep e = mkEndpoint fd addr (Interest.mk 3) [] None None None None None NEW_RPC) ∧
  kv_sock (kview (m_world (e_m e))) !! fd = Some (SockView [] inp []) ∧
  kv_epoll (kview (m_world (e_m e))) !! (Poll.epfd poll, fd) =
  Some (EpollEvent (InterestToEpoll (Interest.mk 3)) this).
End runs.

Section props.
Context {W : Type} `{!Kernel W, !KernelLaws W} {E : stop → Prop} {fuel : nat}
  `{!IOMode W E fuel}.
Context (poll : Poll.Poll) (this fd : Z).

Lemma accepted_Inv inp (e : ep_state W) :
  accepted poll this fd inp e → io_ok (m_world (e_m e)) →
  Inv poll this fd (m_heap (e_m e)) (kv_sock (kview (m_world (e_m e))))
  (kv_epoll (kview (m_world (e_m e)))) (echo inp)
  (length inp + io_patience (m_world (e_m e))) (SockView [] inp []) e.
Proof.
  intros ((addr & Hep) & Hs & Hev) Hok. exists None, None, PNew. split_and!; [|done|done].
  split.
  - rewrite Hep. by apply (rep_new fd addr (Interest.mk 3) None None None None).
  - by split_and!.
  - rewrite Hep. split_and!; [|done|done|by intros s0; rewrite Hs; intros [= <-]].
    simpl. rewrite !insert_id by done. by destruct (kview _).
  - intros _. split_and!; [done|done|by left|right; apply requests_none].
  - intros _. simpl. lia.
Qed.

Section fixed.
Context `{!IOMeta W E fuel}.
#[local] Set Default Proof Using "Type*".
Context (base : heap) (S0 : gmap Z sock_view) (E0 : gmap (Z * Z) epoll_event).
Local Abbreviation Inv := (Inv poll this fd base S0 E0).

Lemma on_ready_Inv r O n s (e : ep_state W) :
  Inv O n s e →
  wp E (on_ready fuel poll this r) e (λ _ e', ∃ n' s', Inv O n' s' e' ∧ (n' ≤ n)%nat ∧
  (sv_rx s = [] → sv_rx s' = [])).
Proof.
  intros HI. destruct r; simpl.
  - destruct (decide (state_ (e_ep e) = REPLYING)).
    + eapply wp_mono; [by eapply OnRecvReady_replying|]. intros _ e' ->. eauto.
    + eapply wp_mono; [eapply OnRecvReady_handled; [done|done|intros _; by eapply Inv_meta]|].
      intros _ e' [(n' & s' & ? & ? & ? & _) _]. eauto.
  - eapply wp_mono; [by eapply OnSendReady_handled|].
    intros _ e' (n' & s' & ? & ? & Hrx & _). exists n', s'. by rewrite Hrx.
Qed.

Lemma run_events_Inv evs O n s (e : ep_state W) :
  Inv O n s e →
  wp E (run_events fuel poll this evs) e (λ _ e', ∃ n' s', Inv O n' s' e' ∧ (n' ≤ n)%nat ∧
  (sv_rx s = [] → sv_rx s' = [])).
Proof.
  revert n s e. induction evs as [|r evs IH]; intros n s e HI; simpl.
  - apply wp_ret. eauto.
  - apply wp_bind. eapply wp_mono; [by eapply on_ready_Inv|].
    intros _ e' (n' & s' & HI' & ? & ?). eapply wp_mono; [by eapply IH|].
    intros _ e'' (n'' & s'' & ? & ? & ?). exists n'', s''. split_and!; [done|lia|auto].
Qed.

(** One event with both flags, as long as there is something to do. *)
Lemma round_progress O n s (e : ep_state W) :
  Inv O n s e →
  wp E (run_events fuel poll this [Readable; Writable]) e (λ _ e', ∃ n' s',
  Inv O n' s' e' ∧ (n' ≤ n)%nat ∧
  (io_live → (n' < n)%nat ∨ sv_rx s' = [] ∧ state_ (e_ep e') ≠ REPLYING)).
Proof.
  intros HI. simpl. apply wp_bind.
  destruct (decide (state_ (e_ep e) = REPLYING)) as [Hrep|Hnrep].
  - eapply wp_mono; [by eapply OnRecvReady_replying|]. intros _ e' ->. apply wp_bind.
    eapply wp_mono; [by eapply OnSendReady_handled|].
    intros _ e' (n' & s' & HI' & ? & _ & _ & Hlt & _). apply wp_ret.
    exists n', s'. split_and!; [done|done|]. left. by apply Hlt.
  - eapply wp_mono; [eapply OnRecvReady_handled; [done|done|intros _; by eapply Inv_meta]|].
    intros _ e' [(n' & s' & HI' & Hn' & Hnil & Hlt) _]. apply wp_bind.
    eapply wp_mono; [by eapply OnSendReady_handled|].
    intros _ e'' (n'' & s'' & HI'' & Hn'' & Hrx & Hnop & Hlt' & _). apply wp_ret.
    exists n'', s''. split_and!; [done|lia|]. intros Hx.
    destruct (decide (state_ (e_ep e') = REPLYING)) as [Hrep'|Hnrep'].
    { left. specialize (Hlt' Hx Hrep'). lia. }
    destruct (sv_rx s) eqn:Hs.
    + right. split; [rewrite Hrx; auto|by rewrite (Hnop Hnrep')].
    + left. specialize (Hlt Hx ltac:(done)). lia.
Qed.

Lemma Inv_done O n s (e : ep_state W) :
  Inv O n s e → io_exact → sv_rx s = [] → state_ (e_ep e) ≠ REPLYING → s = done_with O.
Proof.
  intros (H & D & ph & [Hep _ _ Hst _] & _ & Hrest) Hx Hrx Hne.
  pose proof (Hst Hx) as HS. apply done_with_eq; [apply HS|done|].
  apply stream_ok_all in HS as HO. rewrite Hrx, (owed_nil fd (e_ep e)) in HO by done.
  destruct ph; simpl in HO; try by rewrite app_nil_r in HO.
  destruct e as [ep m]. cbn [e_ep] in *. by inversion Hep; subst.
Qed.
End fixed.
End props.

(** ** The state a run starts from and the state it ends in *)

Section final.
Context {W : Type} `{!Kernel W, !KernelLaws W} {E : stop → Prop} {fuel : nat}
  `{!IOMode W E fuel}.
Context (poll : Poll.Poll) (this fd : Z).

Lemma Inv_sock base S0 E0 O n s (e : ep_state W) :
  Inv poll this fd base S0 E0 O n s e → kv_sock (kview (m_world (e_m e))) !! fd = Some s.
Proof. intros (H & D & ph & [_ _ Hw _ _] & _). by eapply world_rep_sock. Qed.

Lemma ins_subseteq X R : fresh_in X R → R ⊆ ins X R.
Proof. destruct X as [[l b]|]; simpl; [|done]. intros [? ?]. by apply insert_subseteq. Qed.

(** The handlers touch nothing that is not the endpoint's. *)
Lemma Inv_frame base S0 E0 O n s (e : ep_state W) :
  Inv poll this fd base S0 E0 O n s e →
  base ⊆ m_heap (e_m e) ∧
  (∀ fd', fd' ≠ fd → kv_sock (kview (m_world (e_m e))) !! fd' = S0 !! fd') ∧
  (∀ key, key ≠ (Poll.epfd poll, fd) → kv_epoll (kview (m_world (e_m e))) !! key = E0 !! key).
Proof.
  intros (H & D & ph & [_ (Hh & HfD & HfH) (Hv & _) _ _] & _). split_and!.
  - rewrite Hh. etrans; by apply ins_subseteq.
  - intros fd' Hne. rewrite Hv. by apply lookup_insert_ne.
  - intros key Hne. rewrite Hv. by apply lookup_insert_ne.
Qed.

Lemma rounds_done `{!IOMeta W E fuel} base S0 E0 O n s (e : ep_state W) :
  Inv poll this fd base S0 E0 O n s e → io_live →
  ∃ k, (k ≤ S n)%nat ∧
  wp E (run_events fuel poll this (mjoin (replicate k [Readable; Writable]))) e
    (λ _ e', kv_sock (kview (m_world (e_m e'))) !! fd = Some (done_with O)).
Proof.
  revert s e. induction (lt_wf n) as [n _ IH]. intros s e HI Hx.
  pose proof (round_progress poll this fd base S0 E0 O n s e HI) as Hround.
  unfold wp in Hround.
  destruct (run_events fuel poll this [Readable; Writable] e) as [[[] e']|r] eqn:Hrun; cycle 1.
  { exists 1%nat. split; [lia|]. unfold wp. change (mjoin _) with [Readable; Writable].
    by rewrite Hrun. }
  destruct Hround as (n' & s' & HI' & _ & [Hlt|(Hrx & Hne)]); [done|..].
  - destruct (IH n' Hlt s' e' HI' Hx) as (k & Hk & Hwp). exists (S k). split; [lia|].
    change (mjoin (replicate (S k) [Readable; Writable]))
      with (Readable :: Writable :: mjoin (replicate k [Readable; Writable])).
    revert Hrun Hwp. unfold wp. simpl. unfold mbind, M_bind, mret, M_ret.
    destruct (OnRecvReady _ _ _ _) as [[[] e1]|]; [|done].
    destruct (OnSendReady _ _ _) as [[[] e2]|]; [|done]. intros Heq. by simplify_eq.
  - exists 1%nat. split; [lia|]. unfold wp. change (mjoin _) with [Readable; Writable].
    rewrite Hrun. rewrite (Inv_sock _ _ _ _ _ _ _ HI'). by rewrite <- (Inv_done _ _ _ _ _ _ _ _ _ _ HI' (io_live_exact Hx) Hrx Hne).
Qed.
End final.

(** * The properties *)

Section theorems.
Context {W : Type} `{!Kernel W, !KernelLaws W}.
Context (fuel : nat) (poll : Poll.Poll) (this fd : Z).

(** C21. Memory safety and isolation of a connection.  Whatever bytes the peer
    sends, however the kernel splits them, in whatever order readiness is
    reported and whichever system call fails, the handlers of an accepted
    endpoint never meet undefined behaviour (no access outside a buffer or to
    a freed one, no null dereference, no double free) and never throw; and
    they leave the other blocks of the heap, the other sockets and the other
    epoll registrations as they were. *)
Theorem endpoint_safe inp (e : ep_state W) evs :
  accepted poll this fd inp e →
  wp safe (run_events fuel poll this evs) e (λ _ e',
  m_heap (e_m e) ⊆ m_heap (e_m e') ∧
  (∀ fd', fd' ≠ fd →
     kv_sock (kview (m_world (e_m e'))) !! fd' = kv_sock (kview (m_world (e_m e))) !! fd') ∧
  (∀ key, key ≠ (Poll.epfd poll, fd) →
     kv_epoll (kview (m_world (e_m e'))) !! key = kv_epoll (kview (m_world (e_m e))) !! key)).
Proof.
  intros Hacc. eapply wp_mono.
  - eapply run_events_Inv; [apply _|]. by apply (accepted_Inv (E := safe) (fuel := fuel)).
  - intros _ e' (n' & s' & HI & _). by eapply Inv_frame.
Qed.

Context `{!KernelReliable W}.

(** C5. Refinement.  Over a reliable kernel the handlers always return, and
    at every moment what the endpoint has sent is a prefix of [answer 0 0]
    of the stream of its peer, for every chunking of the stream and every
    sequence of readiness events. *)
Theorem endpoint_refines_answer inp (e : ep_state W) evs :
  accepted poll this fd inp e → (8 + k_patience (m_world (e_m e)) < fuel)%nat →
  wp total (run_events fuel poll this evs) e (λ _ e', ∃ s,
  kv_sock (kview (m_world (e_m e'))) !! fd = Some s ∧
  sv_tx s `prefix_of` answer 0 0 inp).
Proof.
  intros Hacc Hfuel. eapply wp_mono.
  - eapply run_events_Inv; [apply _|]. exact (accepted_Inv (E := total) (fuel := fuel) _ _ _ _ _ Hacc Hfuel).
  - intros _ e' (n' & s' & HI & _). exists s'. split; [exact (Inv_sock _ _ _ _ _ _ _ _ _ _ HI)|].
    destruct HI as (H & D & ph & [_ _ _ Hst _] & _). pose proof (stream_ok_all _ _ _ _ _ (Hst I)) as HO. simpl in HO.
    eexists. symmetry. exact HO.
Qed.

(** C3. The endpoint does its job.  When the peer sends the requests [reqs],
    none smaller than one before it, then after a bounded number of events
    reporting both readable and writable everything has been read and every
    header has been sent back, in order, however the kernel splits the
    stream. *)
Theorem endpoint_echoes_headers reqs (e : ep_state W) :
  accepted poll this fd (concat (frame <$> reqs)) e → nondecreasing 0 0 reqs →
  (8 + k_patience (m_world (e_m e)) < fuel)%nat →
  ∃ k, (k ≤ S (length (concat (frame <$> reqs)) + k_patience (m_world (e_m e))))%nat ∧
  wp total (run_events fuel poll this (mjoin (replicate k [Readable; Writable]))) e
    (λ _ e', kv_sock (kview (m_world (e_m e'))) !! fd =
       Some (SockView (concat (frame <$> reqs)) [] (concat reqs.*1))).
Proof.
  intros Hacc Hreqs Hfuel. rewrite <- (answer_frames 0 0 reqs Hreqs).
  rewrite <- g_all_echo. change (SockView _ [] _) with (done_with (echo (concat (frame <$> reqs)))).
  eapply (rounds_done (E := total) (fuel := fuel)); [apply _| |exact I].
  exact (accepted_Inv (E := total) (fuel := fuel) _ _ _ _ _ Hacc Hfuel).
Qed.

(** C37. A request that is smaller than an earlier one is not answered: the
    buffers keep the larger size, so the endpoint waits for bytes that the
    peer does not send.  Here the second of two requests is the last one and
    its header and data together are shorter than the buffers; the endpoint
    consumes it and only ever answers the first. *)
Theorem endpoint_smaller_request_unanswered h1 d1 h2 d2 (e : ep_state W) :
  let reqs := [(h1, d1); (h2, d2)] in
  accepted poll this fd (concat (frame <$> reqs)) e →
  Forall (λ x, Z.of_nat (length x) < 2 ^ 32) [h1; d1; h2; d2] →
  (length h2 + length d2 <
   (length h1 `max` length h2) + (length d1 `max` length d2))%nat →
  (8 + k_patience (m_world (e_m e)) < fuel)%nat →
  ∃ k, wp total (run_events fuel poll this (mjoin (replicate k [Readable; Writable]))) e
  (λ _ e', kv_sock (kview (m_world (e_m e'))) !! fd = Some (SockView (concat (frame <$> reqs)) [] h1)).
Proof.
  intros reqs Hacc Hsz Hlt Hfuel.
  assert (answer 0 0 (concat (frame <$> reqs)) = h1) as Hans.
  { rewrite !Forall_cons_iff in Hsz. destruct Hsz as (H1 & H2 & H3 & H4 & _).
    apply answer_two_smaller; assumption. }
  edestruct (rounds_done (E := total) (fuel := fuel) poll this fd) as (k & _ & Hk);
    [exact (accepted_Inv (E := total) (fuel := fuel) _ _ _ _ _ Hacc Hfuel)|exact I|].
  exists k. unfold done_with in Hk. by rewrite g_all_echo, Hans in Hk.
Qed.
End theorems.

(** * Examples *)

(** A server with epoll instance 3 and one accepted connection, socket 5,
    whose peer will have sent [inp]. *)
Definition demo_poll : Poll.Poll := Poll.mk (Poll.mkRegistry (Selector.mk 3)).

Definition demo (inp : list byte) (sched : list sim_action) : ep_state sim :=
  EpState
    (mkEndpoint 5 SockAddr_empty (Interest.mk 3) [] None None None None None NEW_RPC)
    (Machine ∅ (Sim {[ 5 := SockView [] inp [] ]}
      {[ (3, 5) := EpollEvent (InterestToEpoll (Interest.mk 3)) 77 ]} sched 0 [] [])).

Lemma demo_accepted inp sched : accepted demo_poll 77 5 inp (demo inp sched).
Proof. split_and!; [by eexists|done|done]. Qed.

Definition hello : list byte := [x68; x65; x6c; x6c; x6f].

(** Two requests, cut into pieces by the kernel. *)
Definition demo_reqs : list (list byte * list byte) := [([x61; x62], [x63]); (hello, [x64; x65])].
Definition demo_sched : list sim_action := [Chunk 3; Block; Chunk 2; Block; Chunk 4; Chunk 1].

Lemma endpoint_safe_witness :
  wp safe (run_events 1 demo_poll 77 [Writable; Readable; Readable; Writable])
    (demo [x05; x00] [Block]) (λ _ e',
      m_heap (e_m (demo [x05; x00] [Block])) ⊆ m_heap (e_m e') ∧
      (∀ fd', fd' ≠ 5 → kv_sock (kview (m_world (e_m e'))) !! fd' =
         kv_sock (kview (m_world (e_m (demo [x05; x00] [Block])))) !! fd') ∧
      (∀ key, key ≠ (Poll.epfd demo_poll, 5) → kv_epoll (kview (m_world (e_m e'))) !! key =
         kv_epoll (kview (m_world (e_m (demo [x05; x00] [Block])))) !! key)).
Proof. apply (endpoint_safe 1 demo_poll 77 5 [x05; x00]). apply demo_accepted. Defined.

Lemma endpoint_refines_answer_witness :
  wp total (run_events 20 demo_poll 77 [Readable; Writable; Readable])
    (demo (concat (frame <$> demo_reqs)) demo_sched) (λ _ e', ∃ s,
      kv_sock (kview (m_world (e_m e'))) !! 5 = Some s ∧
      sv_tx s `prefix_of` answer 0 0 (concat (frame <$> demo_reqs))).
Proof.
  apply (endpoint_refines_answer 20 demo_poll 77 5); [apply demo_accepted|].
  apply Nat.ltb_lt. reflexivity.
Defined.

Lemma endpoint_echoes_headers_witness : ∃ k,
  (k ≤ S (length (concat (frame <$> demo_reqs)) + 6))%nat ∧
  wp total (run_events 20 demo_poll 77 (mjoin (replicate k [Readable; Writable])))
    (demo (concat (frame <$> demo_reqs)) demo_sched) (λ _ e',
      kv_sock (kview (m_world (e_m e'))) !! 5 =
        Some (SockView (concat (frame <$> demo_reqs)) [] [x61; x62; x68; x65; x6c; x6c; x6f])).
Proof.
  refine (endpoint_echoes_headers 20 demo_poll 77 5 demo_reqs
    (demo (concat (frame <$> demo_reqs)) demo_sched) _ _ _).
  - apply demo_accepted.
  - repeat (split; [simpl; lia|]). exact I.
  - apply Nat.ltb_lt. reflexivity.
Defined.

Lemma endpoint_smaller_request_unanswered_witness :
  ∃ k, wp total (run_events 20 demo_poll 77 (mjoin (replicate k [Readable; Writable])))
    (demo (concat (frame <$> [(hello, [x63]); ([x61], [x64])])) []) (λ _ e',
      kv_sock (kview (m_world (e_m e'))) !! 5 =
        Some (SockView (concat (frame <$> [(hello, [x63]); ([x61], [x64])])) [] hello)).
Proof.
  apply (endpoint_smaller_request_unanswered 20 demo_poll 77 5 hello [x63] [x61] [x64]).
  - apply demo_accepted.
  - repeat constructor; simpl; lia.
  - simpl. lia.
  - apply Nat.ltb_lt. reflexivity.
Defined.
