(* ===== verification/BwApp.v ===== *)
(** bw_app.{h,cc}: the messages of the bandwidth benchmark, their protobuf
    counterparts, and the loop of the client. *)
From S2P Require Import Prelude CInt Meter.

Local Open Scope Z_scope.

(** * The messages *)

(** A [std::string] is a list of bytes. *)
Record BwHeader := mkBwHeader { field1 : Z; field2 : bool; field3 : list byte }.
Record BwMessage := mkBwMessage { header : BwHeader; data : list byte }.

(** An acknowledgement is filled in by [PushData]; a member that has not been
    assigned is [None]. *)
Record BwAck := mkBwAck { ack_header : option BwHeader; ack_success : option bool }.
Definition BwAck_uninit : BwAck := mkBwAck None None.

#[export] Instance BwHeader_eq_dec : EqDecision BwHeader.
Proof. solve_decision. Defined.

Definition BwHeader_Size (h : BwHeader) : Z := u64 (4 + 1 + Z.of_nat (length (field3 h))).
Definition BwMessage_Size (m : BwMessage) : Z :=
  u64 (BwHeader_Size (header m) + Z.of_nat (length (data m))).

(** protos/bw_app.proto *)
Record PbBwHeader := mkPbBwHeader { pb_field1 : Z; pb_field2 : bool; pb_field3 : list byte }.
Record PbBwMessage := mkPbBwMessage { pb_header : option PbBwHeader; pb_data : list byte }.

#[export] Instance PbBwHeader_eq_dec : EqDecision PbBwHeader.
Proof. solve_decision. Defined.

Definition PbBwHeader_default : PbBwHeader := mkPbBwHeader 0 false [].
Definition PbBwMessage_default : PbBwMessage := mkPbBwMessage None [].

(** [field1] is a uint32_t in the program and an int32 in the message. *)
Definition PackPbBwHeader (h : BwHeader) (pb : PbBwHeader) : PbBwHeader :=
  let pb := mkPbBwHeader (i32 (field1 h)) (pb_field2 pb) (pb_field3 pb) in
  let pb := mkPbBwHeader (pb_field1 pb) (field2 h) (pb_field3 pb) in
  mkPbBwHeader (pb_field1 pb) (pb_field2 pb) (field3 h).

Definition UnpackPbBwHeader (h : BwHeader) (pb : PbBwHeader) : BwHeader :=
  let h := mkBwHeader (u32 (pb_field1 pb)) (field2 h) (field3 h) in
  let h := mkBwHeader (field1 h) (pb_field2 pb) (field3 h) in
  mkBwHeader (field1 h) (field2 h) (pb_field3 pb).

(** [mutable_header()] creates the header when it is not there. *)
Definition PackPbBwMessage (m : BwMessage) (pb : PbBwMessage) : PbBwMessage :=
  mkPbBwMessage (Some (PackPbBwHeader (header m) (default PbBwHeader_default (pb_header pb))))
    (data m).

(** * The serialization of headers by the protobuf library *)
Class BwProtobuf := {
  SerializeHeader : PbBwHeader → list byte;
  ParseHeader : list byte → bool * PbBwHeader;
}.

(** A string field must hold UTF-8; 7-bit bytes always are. *)
Definition ascii (s : list byte) : Prop := Forall (λ b, byte_to_Z b < 128) s.

#[export] Instance ascii_dec s : Decision (ascii s).
Proof. unfold ascii. apply _. Defined.

Class BwProtobufLaws `{!BwProtobuf} := {
  parse_serialize h :
    INT_MIN ≤ pb_field1 h ≤ INT_MAX → ascii (pb_field3 h) →
    ParseHeader (SerializeHeader h) = (true, h)
}.

(** [ParseFromArray] overwrites the message, also when it fails. *)
Definition ParseFromArray `{BwProtobuf} (bs : list byte) : bool * PbBwHeader := ParseHeader bs.
Definition ByteSizeLong `{BwProtobuf} (pb : PbBwHeader) : Z := Z.of_nat (length (SerializeHeader pb)).

(** Packing and unpacking a header loses nothing. *)
Lemma Unpack_Pack h h0 pb0 :
  0 ≤ field1 h < 2 ^ 32 → UnpackPbBwHeader h0 (PackPbBwHeader h pb0) = h.
Proof.
  intros. destruct h as [f1 f2 f3]. unfold UnpackPbBwHeader, PackPbBwHeader. simpl in *.
  by rewrite u32_i32, u32_small.
Qed.

Lemma Pack_range h pb : INT_MIN ≤ pb_field1 (PackPbBwHeader h pb) ≤ INT_MAX.
Proof. apply i32_range. Qed.

(** A serialization to test with: four bytes, one byte, the string. *)
Module ToyProtobuf.
#[export] Instance toy : BwProtobuf := {|
  SerializeHeader h :=
    le32 (pb_field1 h) ++ [if pb_field2 h then Byte.x01 else Byte.x00] ++ pb_field3 h;
  ParseHeader bs :=
    match drop 4 bs with
    | b :: s => (true, mkPbBwHeader (i32 (of_le32 bs)) (bool_decide (b = Byte.x01)) s)
    | [] => (false, PbBwHeader_default)
    end;
|}.

#[export] Instance toy_laws : BwProtobufLaws.
Proof.
  split. intros [f1 f2 f3] Hr _. cbn [ParseHeader SerializeHeader toy pb_field1 pb_field2 pb_field3] in *.
  rewrite drop_app_length' by done. rewrite of_le32_le32. simpl. rewrite i32_u32.
  rewrite i32_small by done. by destruct f2.
Qed.
End ToyProtobuf.

(** * BwClientApp::Run *)

(** The state of the client's process: the derived application, the meter, its
    output and the clock. *)
Record run_state (T C : Type) := RunState { rs_app : T; rs_meter : mstate C }.
Arguments RunState {T C} _ _.
Arguments rs_app {T C} _.
Arguments rs_meter {T C} _.

Section run.
Context {T C : Type} (now : C → Z * C).
(** The methods of the derived class. *)
Context (Init : M T unit) (PushData : BwMessage → M T BwAck).
(** The environment variable that disables the meter. *)
Context (meter_env : Z).

Definition in_app {A} (c : M T A) : M (run_state T C) A :=
  zoom rs_app (λ a s, RunState a (rs_meter s)) c.
Definition in_meter {A} (c : M (mstate C) A) : M (run_state T C) A :=
  zoom rs_meter (λ m s, RunState (rs_app s) m) c.
Definition make_meter : M (mstate C) unit :=
  m ← zoom ms_clock (λ c s, MState (ms_meter s) (ms_log s) c) (Meter_make now 1000 1 meter_env);
  set_meter m.

(** "stuff" *)
Definition stuff : list byte := [Byte.x73; Byte.x74; Byte.x75; Byte.x66; Byte.x66].
Definition bw_msg (data_size : Z) : BwMessage :=
  mkBwMessage (mkBwHeader 1 true stuff) (replicate (Z.to_nat data_size) Byte.x00).

(** The while loop; the result is what the final line prints: the bytes and
    the nanoseconds. *)
Fixpoint Run_loop (fuel : nat) (msg : BwMessage) (start time_dura_us total_bytes : Z)
  : M (run_state T C) (Z * Z) :=
  match fuel with
  | O => nofuel
  | S fuel =>
    ack ← in_app (PushData msg);
    success ← deref (ack_success ack);
    total_bytes ←
      (if success : bool then
         _ ← in_meter (AddBytes now (i64 (BwMessage_Size msg)));
         mret (u64 (total_bytes + BwMessage_Size msg))
       else mret total_bytes);
    t ← in_meter (read_clock now);
    if time_dura_us * 1000 <? t - start then mret (total_bytes, t - start)
    else Run_loop fuel msg start time_dura_us total_bytes
  end.

Definition Run (fuel : nat) (data_size time_dura_us : Z) : M (run_state T C) (Z * Z) :=
  _ ← in_app Init;
  _ ← (if LONG_MAX <? data_size then throw length_error else mret tt); (* resize *)
  start ← in_meter (read_clock now);
  _ ← in_meter make_meter;
  Run_loop fuel (bw_msg data_size) start time_dura_us 0.
End run.

(** ** The loop *)

Section run_spec.
Context {T C : Type} (now : C → Z * C).
Context (Init : M T unit) (PushData : BwMessage → M T BwAck) (meter_env data_size : Z).
(** What may stop the methods. *)
Context {E : stop → Prop}.

(** [I p n] holds of the application after [p] pushes, of which [n] have been
    successful; [P] pushes are the most it is asked for. *)
Context (P : nat) (Pre : T → Prop) (I : nat → nat → T → Prop).
Hypothesis (Init_ok : ∀ t, Pre t → wp E Init t (λ _ t', I 0 0 t')).
Hypothesis (PushData_ok : ∀ p n t, (p < P)%nat → I p n t →
  wp E (PushData (bw_msg data_size)) t (λ ack t',
    ∃ b : bool, ack_success ack = Some b ∧ I (S p) (if b then S n else n) t')).

(** Between two readings of the clock at least [tick] nanoseconds pass. *)
Context (tick : Z).
Hypothesis (tick_pos : 0 < tick).
Hypothesis (now_tick : ∀ c, (now c).1 + tick ≤ (now (now c).2).1).

Local Abbreviation size := (BwMessage_Size (bw_msg data_size)).

(** The meter has room for [n] more calls. *)
Definition meter_room (n : nat) (m : Meter) : Prop :=
  disable m ≠ 0 ∨
  INT_MIN ≤ cnt m ∧ cnt m + Z.of_nat n ≤ INT_MAX ∧ 0 ≤ bytes m ∧
  bytes m + Z.of_nat n * size ≤ LONG_MAX.

Lemma size_range : 0 ≤ size < 2 ^ 64.
Proof. apply u64_range. Qed.

Lemma wp_AddBytes_room n (s : mstate C) (Q : unit → mstate C → Prop) :
  meter_room (S n) (ms_meter s) →
  (∀ s', (ms_clock s' = ms_clock s ∨ ms_clock s' = (now (ms_clock s)).2) →
   meter_room n (ms_meter s') → Q tt s') →
  wp E (AddBytes now (i64 size)) s Q.
Proof.
  intros Hroom HQ. pose proof size_range.
  assert (Hi : disable (ms_meter s) = 0 → i64 size = size).
  { intros Hd. destruct Hroom as [|(? & ? & ? & Hb)]; [done|]. apply i64_small.
    unfold LONG_MIN, LONG_MAX in *. nia. }
  destruct (decide (disable (ms_meter s) = 0)) as [Hd|Hd].
  - rewrite Hi by done. destruct Hroom as [|(? & ? & ? & ?)]; [done|].
    eapply wp_mono; [eapply wp_weaken; [apply wp_AddBytes; [right; nia|lia]|by intros r []]|].
    simpl. intros [] s' (? & ? & ? & ?). apply HQ; [done|]. right. nia.
  - unfold AddBytes. wp_steps. rewrite (proj2 (Z.eqb_neq _ _) Hd). simpl.
    wp_steps. apply HQ; [by left|by left].
Qed.

(** The next reading of a clock that may have been read once more. *)
Lemma now_advance c c' : (c' = c ∨ c' = (now c).2) → (now c).1 ≤ (now c').1.
Proof using now_tick tick_pos. intros [->| ->]; [lia|]. pose proof (now_tick c). lia. Qed.

Lemma wp_Run_loop fuel start limit p n (s : run_state T C) :
  I p n (rs_app s) → (p + fuel ≤ P)%nat → meter_room fuel (ms_meter (rs_meter s)) →
  start ≤ (now (ms_clock (rs_meter s))).1 →
  limit * 1000 - ((now (ms_clock (rs_meter s))).1 - start) < (Z.of_nat fuel - 1) * tick →
  (0 < fuel)%nat →
  wp E (Run_loop now PushData fuel (bw_msg data_size) start limit (u64 (Z.of_nat n * size))) s
  (λ res s', ∃ p' n', (p < p' ≤ p + fuel)%nat ∧ I p' n' (rs_app s') ∧
     res.1 = u64 (Z.of_nat n' * size) ∧ limit * 1000 < res.2).
Proof using PushData_ok now_tick tick_pos.
  revert p n s. induction fuel as [|fuel IH]; intros p n s HI HP Hroom Hstart Hfuel Hpos; [lia|].
  cbn [Run_loop]. unfold in_app, in_meter, read_clock. wp_steps.
  eapply wp_mono; [by apply (PushData_ok p n); [lia|]|]. simpl. intros ack t' (b & Hb & HI'). wp_steps.
  eapply wp_deref; [done|]. wp_step.
  assert (Hcont : ∀ m, (ms_clock m = ms_clock (rs_meter s) ∨
    ms_clock m = (now (ms_clock (rs_meter s))).2) →
    meter_room fuel (ms_meter m) →
    wp E (t ← zoom rs_meter (λ m s, RunState (rs_app s) m)
             (zoom ms_clock (λ c s, MState (ms_meter s) (ms_log s) c) (lift now));
           if limit * 1000 <? t - start
           then mret (u64 (Z.of_nat (if b then S n else n) * size), t - start)
           else Run_loop now PushData fuel (bw_msg data_size) start limit
                  (u64 (Z.of_nat (if b then S n else n) * size))) (RunState t' m)
    (λ res s', ∃ p' n', (p < p' ≤ p + S fuel)%nat ∧ I p' n' (rs_app s') ∧
       res.1 = u64 (Z.of_nat n' * size) ∧ limit * 1000 < res.2)).
  { intros m Hclk Hroom'. apply now_advance in Hclk as Hadv. wp_steps.
    apply wp_lift. intros t c Ht. wp_steps. rewrite Ht in Hadv. simpl in Hadv.
    pose proof (now_tick (ms_clock m)) as Htick. rewrite Ht in Htick. simpl in Htick.
    destruct (Z.ltb_spec (limit * 1000) (t - start));
      [wp_steps; exists (S p), (if b then S n else n); split_and!; [lia|lia|done|done|simpl; lia]|].
    rewrite Nat2Z.inj_succ in Hfuel.
    eapply wp_mono; [apply (IH (S p)); simpl; try done; [lia|lia|nia|destruct fuel; simpl in *; lia]|].
    intros res s' (p' & n' & Hp' & HI1 & Hres). exists p', n'. split; [lia|done]. }
  destruct b.
  - do 2 wp_step. apply (wp_AddBytes_room fuel); [done|]. intros m Hclk Hroom'. wp_step. simpl.
    rewrite u64_add_l. replace (Z.of_nat n * size + size) with (Z.of_nat (S n) * size) by lia.
    by apply Hcont.
  - wp_step. destruct s as [t0 m0]. apply (Hcont m0); [by left|]. simpl in *.
    destruct Hroom as [|(? & ? & ? & ?)]; [by left|right]. pose proof size_range. nia.
Qed.

(** [Run]: the loop from the initial state. *)
Lemma wp_Run fuel limit (s : run_state T C) :
  Pre (rs_app s) → 0 ≤ data_size ≤ LONG_MAX → 0 ≤ limit →
  limit * 1000 < (Z.of_nat fuel - 1) * tick → (fuel ≤ P)%nat →
  Z.of_nat fuel ≤ INT_MAX → Z.of_nat fuel * BwMessage_Size (bw_msg data_size) ≤ LONG_MAX →
  wp E (Run now Init PushData meter_env fuel data_size limit) s (λ res s',
    ∃ p n, (0 < p ≤ fuel)%nat ∧ I p n (rs_app s') ∧
      res.1 = u64 (Z.of_nat n * BwMessage_Size (bw_msg data_size)) ∧ limit * 1000 < res.2).
Proof using Init_ok PushData_ok now_tick tick_pos.
  intros HPre Hsize Hlim Hfuel HP Hcnt Hbytes. unfold Run, in_app, in_meter, read_clock, make_meter.
  wp_steps. eapply wp_mono; [by apply Init_ok|]. simpl. intros _ t' HI. wp_steps.
  rewrite (proj2 (Z.ltb_ge _ _)) by lia. wp_steps. apply wp_lift. intros start c Hc.
  wp_steps. apply wp_Meter_make; [done|].
  unfold set_meter. wp_steps. pose proof (now_tick (ms_clock (rs_meter s))) as Ht1.
  rewrite Hc in Ht1. simpl in Ht1.
  pose proof (now_tick c) as Ht2.
  apply (wp_Run_loop fuel start limit 0 0); simpl; [done|done| |lia|lia|nia].
  right. simpl. unfold INT_MIN. lia.
Qed.

End run_spec.

Section run_total.
Context {T C : Type} (now : C → Z * C).
Context (Init : M T unit) (PushData : BwMessage → M T BwAck) (meter_env data_size : Z).
Context (P : nat) (Pre : T → Prop) (I : nat → nat → T → Prop).
Hypothesis (Init_ok : ∀ t, Pre t → wp total Init t (λ _ t', I 0 0 t')).
Hypothesis (PushData_ok : ∀ p n t, (p < P)%nat → I p n t →
  wp total (PushData (bw_msg data_size)) t (λ ack t',
    ∃ b : bool, ack_success ack = Some b ∧ I (S p) (if b then S n else n) t')).
Context (tick : Z).
Hypothesis (tick_pos : 0 < tick).
Hypothesis (now_tick : ∀ c, (now c).1 + tick ≤ (now (now c).2).1).

(** C16. The bandwidth client terminates and reports what was transferred.
    For any derived class whose [PushData] always returns, with or without
    success, and any clock that advances, [Run] ends after the configured
    time, after one push or more but at most as many as ticks of the clock allow, and the
    number of bytes it prints is the number of successful pushes times the size of
    a message (modulo 2^64). *)
Theorem BwClientApp_Run fuel limit (s : run_state T C) :
  Pre (rs_app s) → 0 ≤ data_size ≤ LONG_MAX → 0 ≤ limit →
  limit * 1000 < (Z.of_nat fuel - 1) * tick → (fuel ≤ P)%nat →
  Z.of_nat fuel ≤ INT_MAX → Z.of_nat fuel * BwMessage_Size (bw_msg data_size) ≤ LONG_MAX →
  wp total (Run now Init PushData meter_env fuel data_size limit) s (λ res s',
    ∃ p n, (0 < p ≤ fuel)%nat ∧ I p n (rs_app s') ∧
      res.1 = u64 (Z.of_nat n * BwMessage_Size (bw_msg data_size)) ∧ limit * 1000 < res.2).
Proof using Init_ok PushData_ok now_tick tick_pos. by eapply wp_Run. Qed.
End run_total.

(** * Examples *)

(** An application whose pushes fail once in a while. *)
Definition demo_push (msg : BwMessage) : M nat BwAck := λ n,
  Ret (mkBwAck (Some (header msg)) (Some (negb (n =? 2)%nat)), S n).

Lemma BwClientApp_Run_witness :
  wp total (Run demo_now (mret tt) demo_push 0 3 10 1000000)
    (RunState 0%nat (MState (fresh_meter 1 0 1000) [] 0)) (λ res s',
      ∃ p n, (0 < p ≤ 3)%nat ∧ ((n ≤ p)%nat ∧ rs_app s' = p) ∧
        res.1 = u64 (Z.of_nat n * BwMessage_Size (bw_msg 10)) ∧ 1000000 * 1000 < res.2).
Proof.
  assert (BwMessage_Size (bw_msg 10) = 20) as Hsize by reflexivity.
  refine (BwClientApp_Run demo_now (mret tt) demo_push 0 10 3 (λ t, t = 0%nat)
    (λ p n t, (n ≤ p)%nat ∧ t = p) _ _ 600000000 _ _ 3 1000000 _ _ _ _ _ _ _ _);
    rewrite ?Hsize; unfold LONG_MAX, INT_MAX; simpl; try lia; try done.
  intros p n k _ [Hk ->]. unfold demo_push, wp. simpl. eexists. split; [reflexivity|].
  destruct (negb _); split; lia.
Defined.
