(* ===== verification/SocketBwClient.v ===== *)
(** socket/socket_bw_app.{h,cc}, class [SocketBwClientApp]: the client of the
    bandwidth benchmark over a TCP socket, and its conversation with a
    [BwServerEndpoint]. *)
From S2P Require Import Prelude CInt Kernel SimKernel Buffer Socket EndpointSpec BwApp.

Local Open Scope Z_scope.

Record SocketBwClientApp := mkClient {
  cl_sock : Z;
  cl_send_buffer : list byte;
  cl_recv_buffer : list byte;
}.

(** The application and the world below it. *)
Record cl_state (W : Type) := ClState { cl_app : SocketBwClientApp; cl_world : W }.
Arguments ClState {W} _ _.
Arguments cl_app {W} _.
Arguments cl_world {W} _.

Definition kDefaultBufferSize : Z := 4194304.

(** Storing into a [std::vector<uint8_t>]; outside of it is undefined. *)
Definition vec_write {S} (off : Z) (bs v : list byte) : M S (list byte) :=
  if off + Z.of_nat (length bs) <=? Z.of_nat (length v)
  then mret (overwrite (Z.to_nat off) bs v) else undef.
Definition vec_read {S} (len : Z) (v : list byte) : M S (list byte) :=
  if len <=? Z.of_nat (length v) then mret (take (Z.to_nat len) v) else undef.

(** [resize(n)]: new elements are zero. *)
Definition vec_resize (n : Z) (v : list byte) : list byte :=
  take (Z.to_nat n) v ++ replicate (Z.to_nat n - length v) Byte.x00.

Section client.
Context {W : Type} `{!Kernel W, !BwProtobuf}.
(** The fuel of the loops of [SendAll], [RecvAll] and [Init]. *)
Context (io_fuel : nat).

Abbreviation CM := (M (cl_state W)).
Definition cl_sys {A} (c : M W A) : CM A := zoom cl_world (λ w s, ClState (cl_app s) w) c.
Definition set_app (a : SocketBwClientApp) : CM unit := modify (λ s, ClState a (cl_world s)).

(** The constructor *)
Definition client_make : SocketBwClientApp := mkClient INVALID_SOCKET [] [].
(** The destructor *)
Definition client_destroy : CM unit :=
  a ← gets cl_app;
  fd ← cl_sys (Close (cl_sock a));
  set_app (mkClient fd (cl_send_buffer a) (cl_recv_buffer a)).

(** [while (!sock_.Connect(ai))], one second of sleep in between. *)
Fixpoint connect_loop (fuel : nat) (fd : Z) (ai : addrinfo) : M W unit :=
  match fuel with
  | O => nofuel
  | S fuel =>
    ok ← Connect fd ai;
    if ok : bool then mret tt
    else _ ← GetLastError; connect_loop fuel fd ai
  end.

Definition client_Init (host : option string) (port : Z) : CM unit :=
  host ← value host;
  ai ← cl_sys (AddrInfo_host host (u16 port) SOCK_STREAM false);
  _ ← cl_sys (AddrInfo_AddrStr (ai_addr ai) (ai_socktype ai));
  fd ← cl_sys (Create_ai ai);
  a ← gets cl_app;
  _ ← set_app (mkClient fd (cl_send_buffer a) (cl_recv_buffer a));
  _ ← cl_sys (connect_loop io_fuel fd ai);
  _ ← cl_sys (SetNonBlock fd true);
  _ ← cl_sys (AddrInfo_AddrStr (ai_addr ai) (ai_socktype ai));
  set_app (mkClient fd (vec_resize kDefaultBufferSize (cl_send_buffer a))
           (vec_resize kDefaultBufferSize (cl_recv_buffer a))).

(** [SerializeToArray] refuses what is longer than an [int]. *)
Definition SerializeToArray (pb : PbBwHeader) (off : Z) (v : list byte) : CM (list byte) :=
  if ByteSizeLong pb <=? INT_MAX then vec_write off (SerializeHeader pb) v else mret v.

(** The part of [PushData] that writes the two sizes and the header. *)
Definition write_request_header (pb_header : PbBwHeader) (data_size : Z) : CM unit :=
  a ← gets cl_app;
  v ← vec_write 0 (le32 (ByteSizeLong pb_header)) (cl_send_buffer a);
  v ← vec_write 4 (le32 data_size) v;
  v ← SerializeToArray pb_header 8 v;
  set_app (mkClient (cl_sock a) v (cl_recv_buffer a)).

Definition PushData (bw_msg : BwMessage) : CM BwAck :=
  let pb_header := PackPbBwHeader (header bw_msg) PbBwHeader_default in
  let header_size := ByteSizeLong pb_header in
  let data_size := Z.of_nat (length (data bw_msg)) in
  let meta_size := 8 in
  _ ← write_request_header pb_header data_size;
  a ← gets cl_app;
  out ← vec_read (header_size + meta_size) (cl_send_buffer a);
  n ← cl_sys (SendAll io_fuel (cl_sock a) out 0);
  _ ← check (header_size + meta_size =? n);
  n ← cl_sys (SendAll io_fuel (cl_sock a) (data bw_msg) 0);
  _ ← check (data_size =? n);
  r ← cl_sys (RecvAll io_fuel (cl_sock a) header_size 0);
  v ← vec_write 0 r (cl_recv_buffer a);
  _ ← set_app (mkClient (cl_sock a) (cl_send_buffer a) v);
  if Z.of_nat (length r) <? header_size then mret (mkBwAck None (Some false))
  else
    bs ← vec_read header_size v;
    let pb_header := (ParseFromArray bs).2 in
    mret (mkBwAck (Some (UnpackPbBwHeader (mkBwHeader 0 false []) pb_header)) (Some true)).

(** A sequence of pushes. *)
Fixpoint PushAll (msgs : list BwMessage) : CM (list BwAck) :=
  match msgs with
  | [] => mret []
  | m :: msgs => ack ← PushData m; acks ← PushAll msgs; mret (ack :: acks)
  end.
End client.

(** * What a push does *)

Lemma wp_vec_write {S} E off bs v (s : S) (Q : list byte → S → Prop) :
  off + Z.of_nat (length bs) ≤ Z.of_nat (length v) →
  Q (overwrite (Z.to_nat off) bs v) s → wp E (vec_write off bs v) s Q.
Proof. intros Hle HQ. unfold vec_write. by rewrite (proj2 (Z.leb_le _ _) Hle). Qed.
Lemma wp_vec_read {S} E len v (s : S) (Q : list byte → S → Prop) :
  len ≤ Z.of_nat (length v) → Q (take (Z.to_nat len) v) s → wp E (vec_read len v) s Q.
Proof. intros Hle HQ. unfold vec_read. by rewrite (proj2 (Z.leb_le _ _) Hle). Qed.

Section client_spec.
Context {W : Type} `{!Kernel W, !BwProtobuf, !KernelLaws W, !KernelReliable W}.
Implicit Types (s : cl_state W) (m : BwMessage).

(** The header and the request a message becomes on the wire. *)
Definition header_bytes (m : BwMessage) : list byte :=
  SerializeHeader (PackPbBwHeader (header m) PbBwHeader_default).
Definition request (m : BwMessage) : list byte * list byte := (header_bytes m, data m).

(** A client after [Init]: connected on [fd], with its two buffers. *)
Definition client_ok (fd : Z) (a : SocketBwClientApp) : Prop :=
  cl_sock a = fd ∧ Z.of_nat (length (cl_send_buffer a)) = kDefaultBufferSize ∧
  Z.of_nat (length (cl_recv_buffer a)) = kDefaultBufferSize.

(** New buffers. *)
Lemma client_ok_fresh fd :
  client_ok fd (mkClient fd (vec_resize kDefaultBufferSize []) (vec_resize kDefaultBufferSize [])).
Proof.
  assert (Z.of_nat (length (vec_resize kDefaultBufferSize [])) = kDefaultBufferSize) as Hlen.
  { unfold vec_resize. rewrite firstn_nil. cbn [app length].
    rewrite length_replicate, Nat.sub_0_r, Z2Nat.id; [done|]. unfold kDefaultBufferSize. lia. }
  by split_and!.
Qed.

(** The header fits the buffer behind the two sizes. *)
Definition fits (m : BwMessage) : Prop :=
  Z.of_nat (length (header_bytes m)) + 8 ≤ kDefaultBufferSize.

#[local] Arguments le32 : simpl never.

Lemma wp_write_request_header fd m s (Q : unit → cl_state W → Prop) :
  client_ok fd (cl_app s) → fits m →
  (∀ v, Z.of_nat (length v) = kDefaultBufferSize →
   take (length (header_bytes m) + 8) v =
     le32 (Z.of_nat (length (header_bytes m))) ++ le32 (Z.of_nat (length (data m))) ++
     header_bytes m →
   Q tt (ClState (mkClient fd v (cl_recv_buffer (cl_app s))) (cl_world s))) →
  wp total (write_request_header (PackPbBwHeader (header m) PbBwHeader_default)
            (Z.of_nat (length (data m)))) s Q.
Proof.
  intros (Hfd & Hsb & Hrb) Hfit HQ. destruct s as [[fd' sb rb] w]. simpl in *. subst fd'.
  unfold fits, kDefaultBufferSize, header_bytes in *.
  unfold write_request_header, ByteSizeLong, SerializeToArray, set_app.
  set (hb := SerializeHeader _) in *. wp_step. wp_step. cbn [cl_app cl_send_buffer].
  wp_step. apply wp_vec_write; [rewrite length_le32; simpl; lia|].
  wp_step. apply wp_vec_write;
    [rewrite length_le32, length_overwrite by (rewrite length_le32; simpl; lia); simpl; lia|].
  wp_step. unfold ByteSizeLong. rewrite (proj2 (Z.leb_le _ _)) by (unfold INT_MAX, hb in *; lia).
  assert (Hlen1 : length (overwrite (Z.to_nat 0) (le32 (Z.of_nat (length hb))) sb) = length sb)
    by (apply length_overwrite; rewrite length_le32; simpl; lia).
  assert (Hlen2 : length (overwrite (Z.to_nat 4) (le32 (Z.of_nat (length (data m))))
    (overwrite (Z.to_nat 0) (le32 (Z.of_nat (length hb))) sb)) = length sb)
    by (rewrite length_overwrite; [exact Hlen1|rewrite Hlen1, length_le32; simpl; lia]).
  apply wp_vec_write; [fold hb; lia|]. wp_steps. apply HQ.
  - rewrite length_overwrite; [by rewrite Hlen2|]. fold hb. rewrite Hlen2. lia.
  - fold hb. change (Z.to_nat 8) with 8%nat. change (Z.to_nat 4) with 4%nat in *.
    change (Z.to_nat 0) with 0%nat in *.
    rewrite (Nat.add_comm _ 8), take_overwrite by lia.
    change 8%nat with (4 + length (le32 (Z.of_nat (length (data m)))))%nat.
    rewrite take_overwrite by lia.
    change 4%nat with (0 + length (le32 (Z.of_nat (length hb))))%nat.
    rewrite take_overwrite by lia. by rewrite <- app_assoc.
Qed.

(** The acknowledgement made from what the peer sent back. *)
Definition ack_of (n : nat) (rx : list byte) : BwAck :=
  if (length rx <? n)%nat then mkBwAck None (Some false)
  else mkBwAck (Some (UnpackPbBwHeader (mkBwHeader 0 false []) (ParseFromArray (take n rx)).2))
       (Some true).

(** A push, from what its three transfers do. *)
Lemma wp_PushData_calls fuel fd m got (Q1 Q2 Q3 : W → Prop) s :
  client_ok fd (cl_app s) → fits m → (length got ≤ length (header_bytes m))%nat →
  (∀ out, out ++ data m = frame (request m) →
   wp total (SendAll fuel fd out 0) (cl_world s) (λ n w, n = Z.of_nat (length out) ∧ Q1 w)) →
  (∀ w, Q1 w → wp total (SendAll fuel fd (data m) 0) w (λ n w', n = Z.of_nat (length (data m)) ∧ Q2 w')) →
  (∀ w, Q2 w → wp total (RecvAll fuel fd (Z.of_nat (length (header_bytes m))) 0) w (λ bs w', bs = got ∧ Q3 w')) →
  wp total (PushData fuel m) s (λ ack s',
  client_ok fd (cl_app s') ∧ ack = ack_of (length (header_bytes m)) got ∧ Q3 (cl_world s')).
Proof.
  intros Hok Hfit Hgot H1 H2 H3. unfold PushData, ByteSizeLong. fold (header_bytes m). wp_step.
  apply (wp_write_request_header fd); [done|done|]. intros v Hv Htake.
  destruct s as [a w]. cbn [cl_app cl_world] in *. wp_steps.
  apply wp_vec_read; [unfold fits in Hfit; lia|].
  replace (Z.to_nat (Z.of_nat (length (header_bytes m)) + 8))
    with (length (header_bytes m) + 8)%nat by lia. rewrite Htake.
  set (out := le32 _ ++ _) in *.
  assert (Hout : length out = (8 + length (header_bytes m))%nat)
    by (unfold out; rewrite !length_app, !length_le32; lia).
  assert (Hframe : out ++ data m = frame (request m))
    by (unfold frame, request, out; cbn [fst snd]; by rewrite <- !app_assoc).
  unfold cl_sys, set_app. wp_steps. eapply wp_mono; [by apply (H1 out)|]. simpl. intros n w1 (-> & HQ1). wp_step.
  apply wp_check; [intros ?%Z.eqb_neq; exfalso; lia|]. intros _. wp_steps.
  eapply wp_mono; [by apply H2|]. simpl. intros n w2 (-> & HQ2). wp_step.
  apply wp_check; [intros ?%Z.eqb_neq; exfalso; lia|]. intros _. wp_steps.
  eapply wp_mono; [by apply H3|]. simpl. intros bs w3 (-> & HQ3). wp_steps.
  destruct Hok as (_ & _ & Hrb). unfold fits in Hfit.
  apply wp_vec_write; [lia|]. wp_steps. change (Z.to_nat 0) with 0%nat.
  assert (Hlen : Z.of_nat (length (overwrite 0 got (cl_recv_buffer a))) = kDefaultBufferSize)
    by (rewrite length_overwrite; [done|lia]).
  unfold ack_of. destruct (Nat.ltb_spec (length got) (length (header_bytes m))) as [Hlt|Hge].
  - rewrite (proj2 (Z.ltb_lt _ _)) by lia. by wp_steps.
  - assert (Hfull : length got = length (header_bytes m)) by lia.
    rewrite (proj2 (Z.ltb_ge _ _)) by lia. wp_step. apply wp_vec_read; [lia|]. wp_steps. rewrite Nat2Z.id.
    split_and!; [done..| |done].
    pose proof (take_overwrite 0 got (cl_recv_buffer a) ltac:(lia)) as Hto.
    rewrite Hfull in Hto. simpl in Hto. by rewrite Hto, take_ge by lia.
Qed.

Lemma ack_of_take n rx : ack_of n (take n rx) = ack_of n rx.
Proof.
  unfold ack_of. rewrite length_take, take_take, Nat.min_id.
  by destruct (Nat.ltb_spec (n `min` length rx) n), (Nat.ltb_spec (length rx) n); try lia.
Qed.

(** [T] is an invariant of the world that the transfers of this push preserve; the
    parts of the request are sent in order. *)
Lemma wp_PushData_tracked fuel fd m rd rx tx (T : W → Prop) s :
  client_ok fd (cl_app s) → fits m →
  kv_sock (kview (cl_world s)) !! fd = Some (SockView rd rx tx) →
  (8 + length (header_bytes m) + length (data m) + k_patience (cl_world s) < fuel)%nat →
  (∀ bs1 bs2 bs3 w, bs1 ++ bs2 ++ bs3 = frame (request m) → T w →
   kv_sock (kview w) !! fd = Some (SockView rd rx (tx ++ bs1)) →
   wp (λ _, True) (SendAll fuel fd bs2 0) w (λ _ w', T w')) →
  (∀ w, T w → kv_sock (kview w) !! fd = Some (SockView rd rx (tx ++ frame (request m))) →
   wp (λ _, True) (RecvAll fuel fd (Z.of_nat (length (header_bytes m))) 0) w (λ _ w', T w')) →
  T (cl_world s) →
  wp total (PushData fuel m) s (λ ack s',
  (client_ok fd (cl_app s') ∧ ack = ack_of (length (header_bytes m)) rx ∧
   kview (cl_world s') = kv_set_sock fd
     (SockView (rd ++ take (length (header_bytes m)) rx) (drop (length (header_bytes m)) rx)
        (tx ++ frame (request m)))
     (kview (cl_world s)) ∧
   (k_patience (cl_world s') ≤ k_patience (cl_world s))%nat) ∧ T (cl_world s')).
Proof.
  intros Hok Hfit Hs Hfuel Hsend Hrecv HT.
  set (at_ := λ rd' rx' tx' w, kview w = kv_set_sock fd (SockView rd' rx' tx') (kview (cl_world s)) ∧
    (k_patience w ≤ k_patience (cl_world s))%nat ∧ T w).
  assert (Hat : ∀ rd' rx' tx' w, at_ rd' rx' tx' w → kv_sock (kview w) !! fd = Some (SockView rd' rx' tx')).
  { intros ???? [-> _]. apply kv_set_sock_lookup. }
  eapply wp_mono.
  { apply (wp_PushData_calls fuel fd m (take (length (header_bytes m)) rx)
      (λ w, ∃ out, out ++ data m = frame (request m) ∧ at_ rd rx (tx ++ out) w)
      (at_ rd rx (tx ++ frame (request m)))
      (at_ (rd ++ take (length (header_bytes m)) rx) (drop (length (header_bytes m)) rx) (tx ++ frame (request m))));
      [done|done|rewrite length_take; lia|..].
    - intros out Hout. eapply wp_mono.
      { eapply wp_and; [apply (SendAll_total _ fd out); [exact Hs|]|apply (Hsend [] out (data m)); [done|done|]].
        - apply (f_equal length) in Hout. unfold frame in Hout. cbn [request fst snd] in Hout.
          rewrite !length_app, !length_le32 in Hout. lia.
        - by rewrite app_nil_r. }
      simpl. intros n w1 ((-> & Hsent & Hp) & HT1). split; [done|]. exists out. split; [done|]. by split_and!.
    - intros w (out & Hout & Hw). pose proof Hw as (Hv & Hp & HTw). eapply wp_mono.
      { eapply wp_and; [apply (SendAll_total _ fd (data m)); [by apply Hat|lia]|].
        apply (Hsend out (data m) []); [by rewrite app_nil_r|done|by apply Hat]. }
      simpl. intros n w1 ((-> & Hsent & Hp1) & HT1). split; [done|]. unfold sent in Hsent. simpl in Hsent.
      rewrite Hv, kv_set_sock_set, <- app_assoc, Hout in Hsent. split_and!; [done|lia|done].
    - intros w Hw. pose proof Hw as (Hv & Hp & HTw). eapply wp_mono.
      { eapply wp_and; [eapply RecvAll_total; [lia|by apply Hat|lia]|by apply Hrecv, Hat]. }
      simpl. rewrite Nat2Z.id. intros bs w1 ((-> & Hv1 & Hp1 & _) & HT1). split; [done|].
      rewrite Hv, kv_set_sock_set in Hv1. split_and!; [done|lia|done]. }
  simpl. intros ack s' (Hok' & -> & Hv & Hp & HT'). rewrite ack_of_take. by split_and!.
Qed.

Lemma wp_PushData fuel fd m rd rx tx s :
  client_ok fd (cl_app s) → fits m →
  kv_sock (kview (cl_world s)) !! fd = Some (SockView rd rx tx) →
  (8 + length (header_bytes m) + length (data m) + k_patience (cl_world s) < fuel)%nat →
  wp total (PushData fuel m) s (λ ack s',
  client_ok fd (cl_app s') ∧ ack = ack_of (length (header_bytes m)) rx ∧
  kview (cl_world s') = kv_set_sock fd
    (SockView (rd ++ take (length (header_bytes m)) rx) (drop (length (header_bytes m)) rx)
       (tx ++ frame (request m)))
    (kview (cl_world s)) ∧
  (k_patience (cl_world s') ≤ k_patience (cl_world s))%nat).
Proof.
  intros. eapply wp_mono; [eapply (wp_PushData_tracked _ _ _ _ _ _ (λ _, True)); try done|].
  - intros. by apply wp_any.
  - intros. by apply wp_any.
  - by intros ack s' [? _].
Qed.

(** ** The conversation with the server *)

Context {PL : BwProtobufLaws}.

(** A header the protobuf message can carry. *)
Definition header_ok (m : BwMessage) : Prop :=
  0 ≤ field1 (header m) < 2 ^ 32 ∧ ascii (field3 (header m)).

#[export] Instance header_ok_dec m : Decision (header_ok m).
Proof. unfold header_ok. apply _. Defined.

(** The bytes of a header that come back make an acknowledgement with it. *)
Lemma ack_of_echo m rest :
  header_ok m →
  ack_of (length (header_bytes m)) (header_bytes m ++ rest) =
  mkBwAck (Some (header m)) (Some true).
Proof using PL.
  intros [Hf1 Hf3]. unfold ack_of. rewrite (proj2 (Nat.ltb_ge _ _)) by (rewrite length_app; lia).
  rewrite take_app_length. unfold ParseFromArray, header_bytes.
  rewrite parse_serialize by (apply Pack_range || done). simpl. by rewrite Unpack_Pack.
Qed.

Lemma wp_PushAll fuel fd msgs rd rx tx s :
  client_ok fd (cl_app s) → Forall fits msgs → Forall header_ok msgs →
  kv_sock (kview (cl_world s)) !! fd =
    Some (SockView rd (concat (header_bytes <$> msgs) ++ rx) tx) →
  Forall (λ m, 8 + length (header_bytes m) + length (data m) + k_patience (cl_world s) < fuel)%nat
  msgs →
  wp total (PushAll fuel msgs) s (λ acks s',
  acks = (λ m, mkBwAck (Some (header m)) (Some true)) <$> msgs ∧
  kv_sock (kview (cl_world s')) !! fd =
    Some (SockView (rd ++ concat (header_bytes <$> msgs)) rx
      (tx ++ concat (frame <$> (request <$> msgs))))).
Proof using PL.
  revert rd tx s. induction msgs as [|m msgs IH]; intros rd tx s Hok Hfit Hhdr Hs Hfuel.
  - apply wp_ret. rewrite !app_nil_r. by split.
  - rewrite !Forall_cons_iff in *. destruct Hfit, Hhdr, Hfuel as [? Hfuel].
    cbn [PushAll]. wp_step. eapply wp_mono; [by eapply wp_PushData|]. simpl.
    rewrite fmap_cons in Hs. simpl in Hs. rewrite <- !app_assoc in Hs |- *.
    rewrite take_app_length, drop_app_length, ack_of_echo by done.
    intros ack s' (Hok' & -> & Hv & Hp). wp_step. eapply wp_mono; [eapply IH; try done|].
    + rewrite Hv. apply kv_set_sock_lookup.
    + revert Hfuel. apply Forall_impl. simpl. intros; lia.
    + simpl. intros acks s'' (-> & Hs''). wp_steps. split; [done|].
      by rewrite Hs'', <- (app_assoc rd), <- (app_assoc tx).
Qed.

(** C14. Client and server understand each other.  A client pushes messages
    whose headers and data do not get smaller; what its peer sends is what a
    [BwServerEndpoint] answers ([answer 0 0], see [EndpointProps]) to what the
    client sends in this conversation.  Then every push returns, succeeds and
    acknowledges exactly its header, every request is on the wire, and nothing
    is left over in either direction, however the kernel splits the streams. *)
Theorem PushAll_conversation fuel fd msgs s :
  client_ok fd (cl_app s) → Forall fits msgs → Forall header_ok msgs →
  nondecreasing 0 0 (request <$> msgs) →
  kv_sock (kview (cl_world s)) !! fd =
  Some (SockView [] (answer 0 0 (concat (frame <$> (request <$> msgs)))) []) →
  Forall (λ m, 8 + length (header_bytes m) + length (data m) + k_patience (cl_world s) < fuel)%nat
  msgs →
  wp total (PushAll fuel msgs) s (λ acks s',
  acks = (λ m, mkBwAck (Some (header m)) (Some true)) <$> msgs ∧
  kv_sock (kview (cl_world s')) !! fd =
    Some (SockView (concat (header_bytes <$> msgs)) [] (concat (frame <$> (request <$> msgs))))).
Proof using PL.
  intros Hok Hfit Hhdr Hmono Hs Hfuel. rewrite answer_frames in Hs by done.
  apply (wp_PushAll fuel fd msgs [] [] [] s); try done.
  rewrite app_nil_r, Hs. do 3 f_equal. by rewrite <- list_fmap_compose.
Qed.

(** A server that closes the connection early.  When fewer bytes than the
    header come back, the push still returns, reports failure and leaves the
    header of the acknowledgement unset. *)
Lemma PushData_peer_closed fuel fd m rd rx tx s :
  client_ok fd (cl_app s) → fits m →
  kv_sock (kview (cl_world s)) !! fd = Some (SockView rd rx tx) →
  (length rx < length (header_bytes m))%nat →
  (8 + length (header_bytes m) + length (data m) + k_patience (cl_world s) < fuel)%nat →
  wp total (PushData fuel m) s (λ ack s',
  ack = mkBwAck None (Some false) ∧
  kv_sock (kview (cl_world s')) !! fd = Some (SockView (rd ++ rx) [] (tx ++ frame (request m)))).
Proof.
  intros Hok Hfit Hs Hrx Hfuel. eapply wp_mono; [by eapply wp_PushData|]. simpl.
  intros ack s' (_ & -> & -> & _). unfold ack_of. rewrite (proj2 (Nat.ltb_lt _ _)) by done.
  split; [done|]. by rewrite take_ge, drop_ge, kv_set_sock_lookup by lia.
Qed.
End client_spec.

(** * Examples *)

Import ToyProtobuf.

(** A client connected on socket 6, its peer about to send [rx]. *)
Definition demo_client (rx : list byte) : cl_state sim :=
  ClState (mkClient 6 (vec_resize kDefaultBufferSize []) (vec_resize kDefaultBufferSize []))
    (Sim {[ 6 := SockView [] rx [] ]} ∅ [Chunk 7; Block; Chunk 2] 0 [] []).

Lemma demo_client_ok rx : client_ok 6 (cl_app (demo_client rx)).
Proof. apply client_ok_fresh. Qed.

Definition demo_msgs : list BwMessage :=
  [bw_msg 2; mkBwMessage (mkBwHeader 4294967295 false stuff) [x00; x01; x02]].

Lemma PushAll_conversation_witness :
  let s := demo_client (answer 0 0 (concat (frame <$> (request <$> demo_msgs)))) in
  wp total (PushAll 40 demo_msgs) s (λ acks s',
    acks = [mkBwAck (Some (mkBwHeader 1 true stuff)) (Some true);
            mkBwAck (Some (mkBwHeader 4294967295 false stuff)) (Some true)] ∧
    kv_sock (kview (cl_world s')) !! 6 =
      Some (SockView (concat (header_bytes <$> demo_msgs)) []
        (concat (frame <$> (request <$> demo_msgs))))).
Proof.
  intros s. refine (PushAll_conversation 40 6 demo_msgs s _ _ _ _ _ _).
  - apply demo_client_ok.
  - repeat constructor; apply Z.leb_le; reflexivity.
  - apply (bool_decide_unpack _). reflexivity.
  - repeat split; apply Z.ltb_lt || apply Nat.leb_le; reflexivity.
  - reflexivity.
  - repeat constructor; apply Nat.ltb_lt; reflexivity.
Defined.

Example early_close :
  wp total (PushData 40 (bw_msg 2)) (demo_client [x01; x02]) (λ ack s',
    ack = mkBwAck None (Some false) ∧
    kv_sock (kview (cl_world s')) !! 6 =
      Some (SockView ([] ++ [x01; x02]) [] ([] ++ frame (request (bw_msg 2))))).
Proof.
  refine (PushData_peer_closed 40 6 (bw_msg 2) [] [x01; x02] [] (demo_client [x01; x02]) _ _ _ _ _).
  - apply demo_client_ok.
  - apply Z.leb_le. reflexivity.
  - reflexivity.
  - apply Nat.ltb_lt. reflexivity.
  - apply Nat.ltb_lt. reflexivity.
Qed.
