(* ===== verification/SocketBwServer.v ===== *)
(** socket/socket_bw_app.{h,cc}, class [SocketBwServerApp]: the event loop, the
    table of connections and the life of the endpoint objects. *)
From S2P Require Import Prelude CInt Utils Kernel Poll Buffer Socket Endpoint.

Local Open Scope Z_scope.

(** The application object; [endpoints_] maps descriptors to shared pointers,
    that is to the addresses of endpoint objects. *)
Record SocketBwServerApp := mkServer {
  listener_ : Z;
  poll_ : Poll.Poll;
  endpoints_ : gmap Z Z;
}.

(** The process: the application, the live endpoint objects by address, the
    heap of their buffers and the world. *)
Record srv_state (W : Type) := Srv {
  sv_app : SocketBwServerApp;
  sv_objs : gmap Z BwServerEndpoint;
  sv_m : machine W;
}.
Arguments Srv {W} _ _ _.
Arguments sv_app {W} _.
Arguments sv_objs {W} _.
Arguments sv_m {W} _.

Section server.
Context {W : Type} `{!Kernel W}.
(** The fuel of the blocking receive of the endpoints. *)
Context (io_fuel : nat).

Abbreviation SM := (M (srv_state W)).
Definition sv_w {A} (c : M W A) : SM A :=
  zoom (λ s, m_world (sv_m s)) (λ w s, Srv (sv_app s) (sv_objs s) (set_world w (sv_m s))) c.
Definition app {A} (f : SocketBwServerApp → A) : SM A := gets (λ s, f (sv_app s)).
Definition set_endpoints (m : gmap Z Z) : SM unit :=
  modify (λ s, Srv (mkServer (listener_ (sv_app s)) (poll_ (sv_app s)) m) (sv_objs s) (sv_m s)).
Definition set_listener (fd : Z) : SM unit :=
  modify (λ s, Srv (mkServer fd (poll_ (sv_app s)) (endpoints_ (sv_app s))) (sv_objs s) (sv_m s)).
Definition set_objs (o : gmap Z BwServerEndpoint) : SM unit :=
  modify (λ s, Srv (sv_app s) o (sv_m s)).

(** A method of the endpoint at an address; there must be one. *)
Definition at_endpoint {A} (this : Z) (c : Poll.Poll → M (ep_state W) A) : SM A := λ s,
  match sv_objs s !! this with
  | None => Stop Undef
  | Some ep =>
    match c (poll_ (sv_app s)) (EpState ep (sv_m s)) with
    | Ret (a, e) => Ret (a, Srv (sv_app s) (<[this := e_ep e]> (sv_objs s)) (e_m e))
    | Stop r => Stop r
    end
  end.

(** The last [shared_ptr] to an endpoint goes away. *)
Definition delete_endpoint (this : Z) : SM unit :=
  _ ← at_endpoint this (λ _, destroy);
  o ← gets sv_objs;
  set_objs (delete this o).

(** [endpoints_.erase(fd)] *)
Definition erase (fd : Z) : SM unit :=
  m ← app endpoints_;
  match m !! fd with
  | None => mret tt
  | Some this => _ ← set_endpoints (delete fd m); delete_endpoint this
  end.

(** [endpoints_[fd] = endpoint]: the object that was there is released. *)
Definition assign_endpoint (fd this : Z) : SM unit :=
  m ← app endpoints_;
  _ ← set_endpoints (<[fd := this]> m);
  match m !! fd with
  | None => mret tt
  | Some old => if old =? this then mret tt else delete_endpoint old
  end.

(** [std::make_shared<BwServerEndpoint>(new_sock, this)]: an address where no
    object lives, and which is not the number of the listening descriptor. *)
Definition make_endpoint (new_sock : Z) : SM Z :=
  ep ← sv_w (Endpoint.make new_sock);
  o ← gets sv_objs;
  l ← app listener_;
  let this := fresh (dom o ∪ {[u64 l]}) in
  _ ← set_objs (<[this := ep]> o);
  mret this.

Definition HandleNewConnection : SM unit :=
  l ← app listener_;
  new_sock ← sv_w (Accept l);
  this ← make_endpoint new_sock;
  _ ← at_endpoint this (λ p, OnAccepted p this);
  fd ← at_endpoint this (λ _, field sock_);
  assign_endpoint fd this.

(** The body of the for loop of [Run]. *)
Definition handle_event (ev : epoll_event) : SM unit :=
  l ← app listener_;
  if Event.token ev =? u64 l then
    _ ← check (Event.IsReadable ev);
    HandleNewConnection
  else
    let endpoint := Event.token ev in
    _ ← (if Event.IsReadable ev
         then at_endpoint endpoint (λ p, OnRecvReady io_fuel p endpoint) else mret tt);
    _ ← (if Event.IsWritable ev
         then at_endpoint endpoint (λ p, OnSendReady p endpoint) else mret tt);
    if Event.IsError ev || Event.IsReadClosed ev || Event.IsWriteClosed ev then
      _ ← at_endpoint endpoint (λ p, OnError p);
      fd ← at_endpoint endpoint (λ _, field sock_);
      erase fd
    else mret tt.

Fixpoint handle_events (evs : list epoll_event) : SM unit :=
  match evs with
  | [] => mret tt
  | ev :: evs => _ ← handle_event ev; handle_events evs
  end.

(** One round of the while loop. *)
Definition round (max_events timeout_ms : Z) : SM unit :=
  p ← app poll_;
  nevents ← sv_w (Poll.PollUntil p max_events (Some timeout_ms));
  match nevents with
  | None => fatal
  | Some evs => handle_events evs
  end.

(** The while loop never ends: [n] rounds of it. *)
Fixpoint rounds (n : nat) (max_events timeout_ms : Z) : SM unit :=
  match n with
  | O => mret tt
  | S n => _ ← round max_events timeout_ms; rounds n max_events timeout_ms
  end.

Definition server_Init (port : Z) : SM unit :=
  ai ← sv_w (AddrInfo_passive (u16 port) SOCK_STREAM);
  fd ← sv_w (Create_ai ai);
  _ ← set_listener fd;
  _ ← sv_w (SetReuseAddr fd true);
  _ ← sv_w (SetNonBlock fd true);
  _ ← sv_w (Bind fd ai);
  _ ← sv_w (Listen fd 128);
  p ← app poll_;
  i ← Interest.make Interest.READABLE;
  _ ← sv_w (Poll.Register p fd (u64 fd) i);
  _ ← sv_w (AddrInfo_AddrStr (ai_addr ai) (ai_socktype ai));
  mret tt.

(** The part of [Run] after the settings: the vector of events needs a size that is
    not negative, and [&events[0]] an element; then [n] rounds. *)
Definition event_loop (n : nat) (timeout_ms max_events : Z) : SM unit :=
  if max_events <? 0 then throw length_error
  else if max_events =? 0 then undef
  else rounds n max_events timeout_ms.

(** [Run] with given values of EPOLL_TIMEOUT_MS and EPOLL_MAX_EVENTS. *)
Definition server_Run (n : nat) (port timeout_ms max_events : Z) : SM unit :=
  _ ← server_Init port;
  event_loop n timeout_ms max_events.

(** [Run] in an environment. *)
Definition Run (e : environ) (n : nat) (port : Z) : SM unit :=
  _ ← server_Init port;
  timeout_ms ← GetEnvOrDefault_int e "EPOLL_TIMEOUT_MS" 1000;
  max_events ← GetEnvOrDefault_int e "EPOLL_MAX_EVENTS" 1024;
  event_loop n timeout_ms max_events.

(** The constructor *)
Definition server_make : M W SocketBwServerApp :=
  p ← Poll.Create; mret (mkServer INVALID_SOCKET p ∅).
End server.
