(* ===== verification/ServerProofs.v ===== *)
(** The invariant of the event loop: every registered descriptor leads to a
    live object, and the endpoints do not interfere with each other. *)
From S2P Require Import Prelude CInt Kernel Poll Buffer Socket Endpoint EndpointSpec IOMode EndpointProofs EndpointProps SocketBwServer.

Local Open Scope Z_scope.

(** * The blocks of an endpoint *)

Definition locs (o : option blk) : gset Z := match o with Some (l, _) => {[ l ]} | None => ∅ end.

Definition buf_locs (o : option Buffer) : gset Z :=
  match o with
  | Some b => match ptr_ b with Some p => {[ p_blk p ]} | None => ∅ end
  | None => ∅
  end.

(** The blocks an object owns. *)
Definition ep_locs (ep : BwServerEndpoint) : gset Z :=
  buf_locs (header_buffer_owner_ ep) ∪ buf_locs (data_buffer_owner_ ep).

Lemma buf_locs_owner o : buf_locs (owner o) = locs o.
Proof. by destruct o as [[l b]|]. Qed.

Lemma ep_rep_locs fd ep H D ph : ep_rep fd ep H D ph → ep_locs ep = locs H ∪ locs D.
Proof. intros Hep. unfold ep_locs. by inversion Hep; subst; simpl; rewrite ?buf_locs_owner. Qed.

Lemma ep_rep_sock fd ep H D ph : ep_rep fd ep H D ph → sock_ ep = fd.
Proof. by inversion 1. Qed.

Definition owns (o : option blk) (h : heap) : Prop :=
  match o with Some (l, b) => h !! l = Some b ∧ Z.of_nat (length b) < 2 ^ 32 | None => True end.
Definition del (o : option blk) (h : heap) : heap :=
  match o with Some (l, _) => delete l h | None => h end.

Lemma locs_Some l' b l : l ∈ locs (Some (l', b)) ↔ l = l'.
Proof. simpl. set_solver. Qed.

Lemma ins_owns o h : fresh_in o h → owns o (ins o h).
Proof. destruct o as [[l b]|]; [|done]. simpl. intros [_ ?]. by rewrite lookup_insert_eq. Qed.
Lemma ins_lookup_ne o h l : l ∉ locs o → ins o h !! l = h !! l.
Proof.
  destruct o as [[l' b]|]; [|done]. rewrite locs_Some. intros ?. by apply lookup_insert_ne.
Qed.
Lemma fresh_locs o h l : fresh_in o h → l ∈ locs o → h !! l = None.
Proof. destruct o as [[l' b]|]; [|done]. rewrite locs_Some. by intros [? _] ->. Qed.
Lemma owns_locs o h l : owns o h → l ∈ locs o → is_Some (h !! l).
Proof. destruct o as [[l' b]|]; [|done]. rewrite locs_Some. intros [? _] ->. by eexists. Qed.
Lemma owns_same o h h' : owns o h → (∀ l, l ∈ locs o → h' !! l = h !! l) → owns o h'.
Proof.
  destruct o as [[l b]|]; [|done]. intros [? ?] Hsame. simpl.
  by rewrite Hsame by by apply locs_Some.
Qed.
Lemma ins_del o h : owns o h → ins o (del o h) = h.
Proof. destruct o as [[l b]|]; [|done]. intros [? _]. by apply insert_delete_id. Qed.
Lemma del_lookup o h l : l ∈ locs o → del o h !! l = None.
Proof. destruct o as [[l' b]|]; [|done]. rewrite locs_Some. intros ->. apply lookup_delete_eq. Qed.
Lemma del_lookup_ne o h l : l ∉ locs o → del o h !! l = h !! l.
Proof.
  destruct o as [[l' b]|]; [|done]. rewrite locs_Some. intros ?. by apply lookup_delete_ne.
Qed.
Lemma fresh_del o h h' : owns o h → (∀ l, l ∈ locs o → h' !! l = None) → fresh_in o h'.
Proof. destruct o as [[l b]|]; [|done]. intros [_ ?] Hn. split; [|done]. apply Hn. by apply locs_Some. Qed.

(** [mem_rep] is the same as owning two different blocks. *)
Lemma mem_rep_owns base H D h :
  mem_rep base H D h →
  owns H h ∧ owns D h ∧ locs H ## locs D ∧ base ⊆ h ∧ (∀ l, l ∈ locs H ∪ locs D → base !! l = None).
Proof.
  intros (-> & HfD & HfH).
  assert (Hdisj : locs H ## locs D).
  { intros l Hl HlD. apply (fresh_locs _ _ _ HfH) in Hl.
    destruct (owns_locs D (ins D base) l) as [? Heq]; [by apply ins_owns|done|congruence]. }
  split_and!; [by apply ins_owns| |done|by etrans; apply ins_subseteq|].
  - eapply owns_same; [by apply (ins_owns D)|]. intros l Hl. apply ins_lookup_ne. set_solver.
  - intros l [Hl|Hl]%elem_of_union; [|by eapply fresh_locs].
    apply (fresh_locs _ _ _ HfH) in Hl as Hn. rewrite ins_lookup_ne in Hn; [done|set_solver].
Qed.

Lemma owns_mem_rep H D h :
  owns H h → owns D h → locs H ## locs D → mem_rep (del D (del H h)) H D h.
Proof.
  intros HH HD Hdisj.
  assert (owns D (del H h)).
  { eapply owns_same; [exact HD|]. intros l Hl. apply del_lookup_ne. set_solver. }
  split_and!.
  - by rewrite !ins_del.
  - eapply fresh_del; [done|]. intros. by apply del_lookup.
  - rewrite ins_del by done. eapply fresh_del; [done|]. intros. by apply del_lookup.
Qed.

(** An object keeps its representation when its blocks do. *)
Lemma mem_rep_frame base H D h h' :
  mem_rep base H D h → (∀ l, l ∈ locs H ∪ locs D → h' !! l = h !! l) →
  mem_rep (del D (del H h')) H D h'.
Proof.
  intros (HH & HD & Hdisj & _)%mem_rep_owns Hsame.
  apply owns_mem_rep; [| |done]; eapply owns_same; try done; intros; apply Hsame; set_solver.
Qed.

(** * One endpoint among others *)

Section endpoint.
Context {W : Type} `{!Kernel W, !KernelLaws W}.
Context (fuel : nat) (poll : Poll.Poll).
Implicit Types (m : machine W) (ep : BwServerEndpoint).

Abbreviation socks m := (kv_sock (kview (m_world m))).
Abbreviation regs m := (kv_epoll (kview (m_world m))).

(** What running a method of one endpoint may change. *)
Record step_frame ep m ep' m' : Prop := {
  sf_heap l : is_Some (m_heap m !! l) → l ∉ ep_locs ep → m_heap m' !! l = m_heap m !! l;
  sf_locs l : l ∈ ep_locs ep' → l ∈ ep_locs ep ∨ m_heap m !! l = None;
  sf_sock fd : fd ≠ sock_ ep → socks m' !! fd = socks m !! fd;
  sf_reg key : key ≠ (Poll.epfd poll, sock_ ep) →
  regs m' !! key = regs m !! key ∨ key.2 = sock_ ep ∧ regs m' !! key = None;
}.

(** ** What the invariant of an endpoint says of its surroundings *)

Section live.
Context {E : stop → Prop} `{!IOMode W E fuel}.
Local Abbreviation EInv := (Inv (E := E) (fuel := fuel) poll).

Lemma Inv_locs tok fd base S0 E0 O n s ep m :
  EInv tok fd base S0 E0 O n s (EpState ep m) →
  sock_ ep = fd ∧ base ⊆ m_heap m ∧
  (∀ l, l ∈ ep_locs ep → base !! l = None ∧ is_Some (m_heap m !! l)).
Proof.
  intros (H & D & ph & [Hep Hmem _ _ _] & _). simpl in *.
  rewrite (ep_rep_locs _ _ _ _ _ Hep), (ep_rep_sock _ _ _ _ _ Hep).
  apply mem_rep_owns in Hmem as (HH & HD & _ & Hbase & Hnone). split_and!; [done|done|].
  intros l Hl. split; [by apply Hnone|].
  apply elem_of_union in Hl as [?|?]; [by apply (owns_locs H)|by apply (owns_locs D)].
Qed.

(** The invariant holds whenever the endpoint's blocks, socket and registration
    are the same, relative to what the others have then. *)
Lemma Inv_rebase tok fd base S0 E0 O n s ep m m' :
  EInv tok fd base S0 E0 O n s (EpState ep m) →
  (∀ l, l ∈ ep_locs ep → m_heap m' !! l = m_heap m !! l) →
  socks m' !! fd = socks m !! fd →
  regs m' !! (Poll.epfd poll, fd) = regs m !! (Poll.epfd poll, fd) →
  io_ok (m_world m') → (io_patience (m_world m') ≤ io_patience (m_world m))%nat →
  ∃ base', EInv tok fd base' (socks m') (regs m') O n s (EpState ep m').
Proof.
  intros (H & D & ph & [Hep Hmem (Hv & Hwf & _) Hst Hwk] & Harm & Hrest) Hheap Hsock Hreg Hok Hp.
  cbn [e_ep e_m] in *. rewrite Hv in Hsock, Hreg. cbn [kv_sock kv_epoll] in *.
  rewrite lookup_insert_eq in Hsock. rewrite lookup_insert_eq in Hreg. rewrite (ep_rep_locs _ _ _ _ _ Hep) in Hheap.
  exists (del D (del H (m_heap m'))), H, D, ph. split_and!; [|done|done].
  split; [done|by eapply mem_rep_frame| |done|].
  - split_and!; [|done|done|intros s0; rewrite Hsock; by intros [= <-]].
    cbn [e_m]. rewrite !insert_id by done. by destruct (kview (m_world m')).
  - intros Hx. specialize (Hwk Hx). cbn [e_m] in *. lia.
Qed.

(** The object serves its connection at the address [tok]: its streams are [s], it will have
    sent [O] when its peer has been served, and [n] bounds the work left. *)
Definition live (tok : Z) (O : goal) (n : nat) (s : sock_view) ep m : Prop :=
  ∃ base, EInv tok (sock_ ep) base (socks m) (regs m) O n s (EpState ep m).

(** It stays what it is as long as its blocks, its socket and its registration do. *)
Lemma live_frame tok O n s ep m m' :
  live tok O n s ep m →
  (∀ l, l ∈ ep_locs ep → m_heap m' !! l = m_heap m !! l) →
  socks m' !! sock_ ep = socks m !! sock_ ep →
  regs m' !! (Poll.epfd poll, sock_ ep) = regs m !! (Poll.epfd poll, sock_ ep) →
  io_ok (m_world m') → (io_patience (m_world m') ≤ io_patience (m_world m))%nat →
  live tok O n s ep m'.
Proof. intros [base HI] ?????. by eapply Inv_rebase. Qed.

Lemma live_sock tok O n s ep m : live tok O n s ep m → socks m !! sock_ ep = Some s.
Proof. intros [base HI]. exact (Inv_sock _ _ _ _ _ _ _ _ _ _ HI). Qed.

Lemma live_reg tok O n s ep m :
  live tok O n s ep m →
  ∃ i, regs m !! (Poll.epfd poll, sock_ ep) = Some (EpollEvent (InterestToEpoll i) tok).
Proof.
  intros (base & H & D & ph & [_ _ (Hv & _) _ _] & _). simpl in Hv.
  exists (interest_ ep). rewrite Hv at 1. simpl. by rewrite lookup_insert_eq.
Qed.

(** The start of a connection. *)
Lemma accepted_live tok fd rx ep m :
  accepted poll tok fd rx (EpState ep m) → io_ok (m_world m) →
  live tok (echo rx) (length rx + io_patience (m_world m)) (SockView [] rx []) ep m.
Proof.
  intros Hacc Hok. pose proof (accepted_Inv _ _ _ _ _ Hacc Hok) as HI.
  destruct (Inv_locs _ _ _ _ _ _ _ _ _ _ HI) as [Hfd _].
  exists (m_heap m). by rewrite Hfd.
Qed.

Lemma base_lookup tok fd base S0 E0 O n s ep m l :
  EInv tok fd base S0 E0 O n s (EpState ep m) → is_Some (m_heap m !! l) → l ∉ ep_locs ep →
  base !! l = m_heap m !! l.
Proof.
  intros (H & D & ph & [Hep (Hh & _) _ _] & _) _ Hl. simpl in *.
  rewrite (ep_rep_locs _ _ _ _ _ Hep) in Hl. rewrite Hh.
  rewrite !ins_lookup_ne; [done|set_solver|set_solver].
Qed.

Lemma Inv_step_frame tok fd base S0 E0 O n s n' s' ep m ep' m' :
  EInv tok fd base S0 E0 O n s (EpState ep m) → EInv tok fd base S0 E0 O n' s' (EpState ep' m') →
  step_frame ep m ep' m'.
Proof.
  intros HI HI'. destruct (Inv_locs _ _ _ _ _ _ _ _ _ _ HI) as (Hs & Hbase & Hlocs).
  destruct (Inv_locs _ _ _ _ _ _ _ _ _ _ HI') as (Hs' & Hbase' & Hlocs').
  destruct (Inv_frame _ _ _ _ _ _ _ _ _ _ HI) as (_ & Hf1 & Hf2).
  destruct (Inv_frame _ _ _ _ _ _ _ _ _ _ HI') as (_ & Hf1' & Hf2'). simpl in *.
  split.
  - intros l Hl Hnl. pose proof (base_lookup _ _ _ _ _ _ _ _ _ _ l HI Hl Hnl) as Hb.
    destruct Hl as [b Hl]. rewrite Hl in *. by eapply lookup_weaken.
  - intros l Hl. destruct (decide (l ∈ ep_locs ep)) as [|Hn]; [by left|right].
    destruct (m_heap m !! l) eqn:Hm; [|done].
    pose proof (base_lookup _ _ _ _ _ _ _ _ _ _ l HI ltac:(by eexists) Hn).
    destruct (Hlocs' _ Hl) as [Hnone _]. congruence.
  - intros fd' Hne. rewrite Hs in Hne. by rewrite Hf1, Hf1'.
  - intros key Hne. rewrite Hs in Hne. left. by rewrite Hf2, Hf2'.
Qed.

(** Running handlers from one invariant to another: the frame is kept and nothing
    sent is taken back. *)
Lemma live_step tok O n s n' s' ep m ep' m' base :
  EInv tok (sock_ ep) base (socks m) (regs m) O n s (EpState ep m) →
  EInv tok (sock_ ep) base (socks m) (regs m) O n' s' (EpState ep' m') →
  live tok O n' s' ep' m' ∧ sock_ ep' = sock_ ep ∧ step_frame ep m ep' m' ∧
  sv_tx s `prefix_of` sv_tx s'.
Proof.
  intros HI HI'. pose proof (Inv_sock _ _ _ _ _ _ _ _ _ _ HI) as Hs. cbn [e_m] in Hs.
  destruct (Inv_locs _ _ _ _ _ _ _ _ _ _ HI') as (Hs' & _).
  split_and!; [|done|by eapply Inv_step_frame|].
  - unfold live. rewrite Hs'. destruct HI' as (H & D & ph & [? ? Hw ? ?] & ? & ?).
    eapply (Inv_rebase _ _ base (socks m) (regs m)); [|done|done|done|apply Hw|done].
    exists H, D, ph. split_and!; [by split|done|done].
  - destruct HI' as (H & D & ph & [_ _ (_ & _ & _ & Hsent) _ _] & _). by apply Hsent.
Qed.

(** Any events keep it, within its frame. *)
Lemma run_events_live `{!IOMeta W E fuel} tok O n s ep m rs :
  live tok O n s ep m →
  wp E (run_events fuel poll tok rs) (EpState ep m) (λ _ e', ∃ n' s',
  live tok O n' s' (e_ep e') (e_m e') ∧ sock_ (e_ep e') = sock_ ep ∧
  step_frame ep m (e_ep e') (e_m e') ∧ (n' ≤ n)%nat ∧
  (sv_rx s = [] → sv_rx s' = []) ∧ sv_tx s `prefix_of` sv_tx s').
Proof.
  intros [base HI]. eapply wp_mono; [by eapply run_events_Inv|].
  intros _ [ep' m'] (n' & s' & HI' & ? & ?). exists n', s'.
  by destruct (live_step _ _ _ _ _ _ _ _ _ _ _ HI HI') as (? & ? & ? & ?).
Qed.

End live.

(** An open connection, whatever it has sent. *)
Definition open_ep (tok : Z) ep m : Prop :=
  0 ≤ sock_ ep ∧ ∃ s, live (E := safe) tok (echo []) 0 s ep m.

(** An object whose connection has been closed. *)
Definition closed_ep ep m : Prop :=
  sock_ ep = -1 ∧ ∃ H D ph base, ep_rep (-1) ep H D ph ∧ mem_rep base H D (m_heap m).

(** What [open_ep] says of the kernel. *)
Lemma open_ep_world tok ep m :
  open_ep tok ep m →
  is_Some (socks m !! sock_ ep) ∧
  ∃ i, regs m !! (Poll.epfd poll, sock_ ep) = Some (EpollEvent (InterestToEpoll i) tok).
Proof. intros (_ & s & Hl). split; [by rewrite (live_sock _ _ _ _ _ _ Hl)|by eapply live_reg]. Qed.

(** It stays open as long as its blocks, its socket and its registration do. *)
Lemma open_ep_frame tok ep m m' :
  open_ep tok ep m →
  (∀ l, l ∈ ep_locs ep → m_heap m' !! l = m_heap m !! l) →
  socks m' !! sock_ ep = socks m !! sock_ ep →
  regs m' !! (Poll.epfd poll, sock_ ep) = regs m !! (Poll.epfd poll, sock_ ep) →
  open_ep tok ep m'.
Proof. intros (? & s & Hl) ???. split; [done|]. exists s. by eapply live_frame. Qed.

Lemma closed_ep_frame ep m m' :
  closed_ep ep m → (∀ l, l ∈ ep_locs ep → m_heap m' !! l = m_heap m !! l) → closed_ep ep m'.
Proof.
  intros (Hs & H & D & ph & base & Hep & Hmem) Hheap. split; [done|].
  rewrite (ep_rep_locs _ _ _ _ _ Hep) in Hheap.
  eexists H, D, ph, _. split; [done|]. by eapply mem_rep_frame.
Qed.

(** Any event handler keeps an open endpoint open, within its frame. *)
Lemma on_ready_open tok ep m r :
  open_ep tok ep m →
  wp safe (on_ready fuel poll tok r) (EpState ep m) (λ _ e',
  open_ep tok (e_ep e') (e_m e') ∧ sock_ (e_ep e') = sock_ ep ∧
  step_frame ep m (e_ep e') (e_m e')).
Proof.
  intros (Hpos & s & base & HI). eapply wp_mono; [eapply on_ready_Inv; [apply _|exact HI]|].
  intros _ [ep' m'] (n' & s' & HI' & ? & _). assert (n' = 0%nat) as -> by lia.
  destruct (live_step (E := safe) _ _ _ _ _ _ _ _ _ _ _ HI HI') as (? & Hs & ? & _).
  cbn [e_ep e_m]. split_and!; [split; [by rewrite Hs|by exists s']|done|done].
Qed.

(** ** The end of a connection *)

Lemma wp_SockAddr_AddrStr a w (Q : string → W → Prop) :
  (∀ x w', kview w' = kview w → Q x w') → wp safe (SockAddr_AddrStr a) w Q.
Proof.
  intros HQ. unfold SockAddr_AddrStr, AddrInfo_AddrStr. wp_step. apply wp_lift.
  intros [[h sv]|] w' Hr; apply getnameinfo_view in Hr; [|by left]. wp_steps. by apply HQ.
Qed.

Lemma ep_rep_set_sock fd fd' ep H D ph :
  ep_rep fd ep H D ph → ep_rep fd' (set_sock fd' ep) H D ph.
Proof. inversion 1; subst; simpl; by constructor. Qed.

(** [OnError] closes the socket; the object keeps its buffers. *)
Lemma OnError_closed tok ep m :
  open_ep tok ep m →
  wp safe (OnError poll) (EpState ep m) (λ _ e',
  closed_ep (e_ep e') (e_m e') ∧ sock_ (e_ep e') = -1 ∧
  regs (e_m e') !! (Poll.epfd poll, sock_ ep) = None ∧
  step_frame ep m (e_ep e') (e_m e')).
Proof.
  intros (Hpos & s & base & H & D & ph & [Hep Hmem _ _ _] & _). cbn [e_ep e_m] in *.
  unfold OnError. ep_steps. apply wp_GetSockError; [by left|]. intros err w1 Hv1. ep_steps.
  apply wp_SockAddr_AddrStr. intros str w2 Hv2. ep_steps.
  unfold Poll.Deregister, Selector.Deregister, Selector.EpollCtl.
  apply wp_bind, wp_lift. intros r w3 Hr. apply wp_check; [by left|]. intros ->%Z.eqb_eq.
  apply epoll_ctl_del in Hr as Hv3. ep_steps. unfold Close. wp_step.
  apply wp_check; [by left|]. intros _. wp_step. apply wp_lift. intros r' w4 Hc.
  apply close_view in Hc. wp_steps. ep_steps.
  rewrite Hv3, Hv2, Hv1 in Hc. unfold kv_close, kv_set_epoll in Hc. simpl in Hc.
  assert (Hlocs : ep_locs (set_sock INVALID_SOCKET ep) = ep_locs ep) by by destruct ep.
  cbn [e_ep e_m m_world m_heap set_world]. split_and!.
  - split; [by destruct ep|]. exists H, D, ph, base. split; [by eapply ep_rep_set_sock|done].
  - by destruct ep.
  - rewrite Hc. apply map_lookup_filter_None. right. intros x _. by intros [].
  - split; cbn [m_heap m_world set_world]; try done.
    + intros l. rewrite Hlocs. by left.
    + intros fd' Hne. rewrite Hc. by apply lookup_delete_ne.
    + intros [ep' fd'] Hne. rewrite Hc. cbn [kv_epoll fst snd].
      destruct (decide (fd' = sock_ ep)) as [->|Hfd].
      * right. split; [done|]. apply map_lookup_filter_None. right. by intros x _ [].
      * left. rewrite map_lookup_filter, lookup_delete_ne by congruence.
        destruct (regs m !! (ep', fd')); [|done]. simpl. by rewrite option_guard_True.
Qed.

Lemma wp_destroy_owner o R (e : ep_state W) (Q : unit → ep_state W → Prop) :
  m_heap (e_m e) = ins o R → fresh_in o R →
  Q tt (EpState (e_ep e) (Machine R (m_world (e_m e)))) →
  wp safe (destroy_unique (owner o)) e Q.
Proof.
  intros Hh Hf HQ. destruct e as [ep [h w]]. simpl in *. subst h.
  destruct o as [[l b]|]; simpl; [|done]. apply wp_on_m. unfold Buffer.destroy. simpl.
  apply wp_heap_free; simpl; [by rewrite lookup_insert_eq|].
  unfold set_heap. simpl. by rewrite delete_insert_id by apply Hf.
Qed.

Lemma wp_destroy_view o (e : ep_state W) (Q : unit → ep_state W → Prop) :
  non_owner o → Q tt e → wp safe (destroy_unique o) e Q.
Proof.
  intros Hno HQ. destruct o as [b|]; [|done]. simpl in *. apply wp_on_m.
  unfold Buffer.destroy. rewrite Hno. by destruct e as [? []].
Qed.

Lemma wp_destroy_queue q (e : ep_state W) (Q : unit → ep_state W → Prop) :
  Forall non_owner q → Q tt e →
  wp safe (foldr (λ b k, _ ← destroy_unique b; k) (mret tt) q) e Q.
Proof.
  intros Hq HQ. induction Hq; simpl; [done|]. apply wp_bind. by apply wp_destroy_view.
Qed.

Lemma ep_rep_members fd ep H D ph :
  ep_rep fd ep H D ph →
  header_buffer_owner_ ep = owner H ∧ data_buffer_owner_ ep = owner D ∧
  non_owner (reply_buffer_ ep) ∧ non_owner (data_buffer_ ep) ∧ non_owner (header_buffer_ ep) ∧
  Forall non_owner (tx_queue_ ep).
Proof. inversion 1; subst; simpl; split_and!; try done; by repeat constructor. Qed.

(** Destroying a closed endpoint frees its two blocks and nothing else. *)
Lemma destroy_closed ep m :
  closed_ep ep m →
  wp safe destroy (EpState ep m) (λ _ e',
  m_world (e_m e') = m_world m ∧
  ∀ l, l ∉ ep_locs ep → m_heap (e_m e') !! l = m_heap m !! l).
Proof.
  intros (Hs & H & D & ph & base & Hep & Hmem).
  destruct (mem_rep_owns _ _ _ _ Hmem) as (_ & _ & Hdisj & _).
  destruct Hmem as (Hh & HfD & HfH).
  destruct (ep_rep_members _ _ _ _ _ Hep) as (Eh & Ed & Hr & Hdv & Hhv & Hq).
  unfold destroy. ep_step. ep_step. rewrite Hs. cbn [IsClosed Z.eqb].
  ep_step. apply wp_ret. ep_step. ep_step. ep_step. apply wp_destroy_view; [done|].
  ep_step. ep_step. ep_step. apply wp_destroy_view; [done|].
  ep_step. ep_step. ep_step. apply wp_destroy_view; [done|].
  ep_step. ep_step. ep_step. rewrite Ed.
  apply (wp_destroy_owner D (ins H base)); cbn [e_m m_heap].
  { rewrite Hh. symmetry. by apply ins_comm. }
  { by apply fresh_in_swap. }
  ep_step. ep_step. ep_step. rewrite Eh.
  apply (wp_destroy_owner H base); [done|by eapply fresh_in_weaken|].
  ep_step. ep_step. apply wp_destroy_queue; [done|]. split; [done|].
  intros l. rewrite (ep_rep_locs _ _ _ _ _ Hep), Hh. intros Hl. simpl.
  rewrite !ins_lookup_ne; [done|set_solver|set_solver].
Qed.

(** ** The start of a connection *)

Definition new_endpoint (fd : Z) (a : SockAddr) : BwServerEndpoint :=
  mkEndpoint fd a (Interest.mk 3) [] None None None None None NEW_RPC.

Lemma wp_SetNonBlock fd b w (Q : unit → W → Prop) :
  (∀ w', kview w' = kview w → Q tt w') → wp safe (SetNonBlock fd b) w Q.
Proof.
  intros HQ. unfold SetNonBlock. wp_step. apply wp_lift. intros r w1 H1%call_view.
  wp_step. apply wp_lift. intros r' w2 H2%call_view. apply wp_check; [by left|]. intros _.
  apply HQ. congruence.
Qed.

Lemma OnAccepted_open tok n rx m :
  0 ≤ n → socks m !! n = Some (SockView [] rx []) →
  wp safe (OnAccepted poll tok) (EpState (new_endpoint n SockAddr_empty) m) (λ _ e',
  accepted poll tok n rx e' ∧ open_ep tok (e_ep e') (e_m e') ∧
  (∃ a, e_ep e' = new_endpoint n a) ∧ m_heap (e_m e') = m_heap m ∧
  kview (m_world (e_m e')) = kv_set_epoll
    (<[(Poll.epfd poll, n) := EpollEvent (InterestToEpoll (Interest.mk 3)) tok]> (regs m))
    (kview (m_world m))).
Proof.
  intros Hn Hs. unfold OnAccepted, GetPeerAddr, new_endpoint. ep_steps.
  apply wp_lift. intros r w1 Hr. apply getpeername_view in Hr as H1. ep_step.
  apply wp_check; [by left|]. intros [bs ->]%bool_decide_eq_true.
  apply getpeername_size in Hr as Hsz.
  unfold SockAddr_make. ep_step. ep_step. apply wp_check; [by left|]. intros _.
  rewrite (proj2 (Z.leb_le _ _)) by (unfold sizeof_sockaddr_storage; lia). ep_steps.
  cbn [set_sock_addr]. apply wp_SetNonBlock. intros w2 H2. ep_steps.
  unfold Poll.Register, Selector.Register, Selector.EpollCtl. apply wp_bind, wp_lift.
  intros r w3 Hr3. apply wp_check; [by left|]. intros ->%Z.eqb_eq.
  apply epoll_ctl_set in Hr3 as H3; [|by left]. ep_steps.
  apply wp_SockAddr_AddrStr. intros str w4 H4. ep_steps.
  set (e' := EpState _ _).
  assert (Hv : kview w4 = kv_set_epoll (<[(Poll.epfd poll, n) :=
    EpollEvent (InterestToEpoll (Interest.mk 3)) tok]> (regs m)) (kview (m_world m)))
    by by rewrite H4, H3, H2, H1.
  assert (Hacc : accepted poll tok n rx e').
  { unfold accepted, e'. cbn [e_ep e_m m_world set_world]. rewrite Hv. split_and!.
    - by eexists.
    - exact Hs.
    - apply lookup_insert_eq. }
  split_and!; [exact Hacc| |by eexists|done|exact Hv].
  pose proof (accepted_live (E := safe) tok n rx (e_ep e') (e_m e')) as Hlive.
  destruct Hlive as (base & H & D & ph & [? ? ? _ _] & ? & ?); [exact Hacc|done|].
  split; [exact Hn|].
  exists (SockView [] rx []), base, H, D, ph. split_and!; [|done|done]. by split.
Qed.
End endpoint.

(** * The invariant of the server *)

Section server.
Context {W : Type} `{!Kernel W, !KernelLaws W}.
Context (fuel : nat).
Implicit Types (st : srv_state W) (ep : BwServerEndpoint).

Abbreviation socks m := (kv_sock (kview (m_world m))).
Abbreviation regs m := (kv_epoll (kview (m_world m))).
Abbreviation listener st := (listener_ (sv_app st)).
Abbreviation poll st := (poll_ (sv_app st)).
Abbreviation table st := (endpoints_ (sv_app st)).

(** Every object is open or closed and owns its own blocks; a registered
    descriptor is the listener or that of a live object; the table refers to
    every object, by the descriptor it has or had.  [orphan] is an object that
    has just been taken out of the table. *)
Record SInv (orphan : option Z) st : Prop := {
  si_objs tok ep : sv_objs st !! tok = Some ep →
  open_ep fuel (poll st) tok ep (sv_m st) ∨ closed_ep ep (sv_m st);
  si_disj t1 t2 e1 e2 : sv_objs st !! t1 = Some e1 → sv_objs st !! t2 = Some e2 → t1 ≠ t2 →
  ep_locs e1 ## ep_locs e2;
  si_reg fd r : regs (sv_m st) !! (Poll.epfd (poll st), fd) = Some r →
  fd = listener st ∧ ev_data r = u64 (listener st) ∨
  ∃ ep, sv_objs st !! ev_data r = Some ep ∧ sock_ ep = fd ∧ 0 ≤ fd;
  si_listener : sv_objs st !! u64 (listener st) = None;
  si_tab tok ep : sv_objs st !! tok = Some ep →
  orphan = Some tok ∨
  ∃ fd, table st !! fd = Some tok ∧ (sock_ ep = fd ∨ sock_ ep = -1);
  si_ends fd tok : table st !! fd = Some tok →
  0 ≤ fd ∧ is_Some (sv_objs st !! tok) ∧ orphan ≠ Some tok;
  si_inj fd1 fd2 tok : table st !! fd1 = Some tok → table st !! fd2 = Some tok → fd1 = fd2;
}.

(** The blocks of every object are allocated. *)
Lemma SInv_locs o st tok ep l :
  SInv o st → sv_objs st !! tok = Some ep → l ∈ ep_locs ep → is_Some (m_heap (sv_m st) !! l).
Proof.
  intros HI Hep Hl. destruct (si_objs _ _ HI _ _ Hep) as [Ho|(_ & H & D & ph & base & Hr & Hm)].
  - destruct Ho as (_ & s & base & HInv). by apply (Inv_locs _ _ _ _ _ _ _ _ _ _ _ _ HInv).
  - rewrite (ep_rep_locs _ _ _ _ _ Hr) in Hl.
    apply mem_rep_owns in Hm as (HH & HD & _).
    apply elem_of_union in Hl as [?|?]; [by apply (owns_locs H)|by apply (owns_locs D)].
Qed.

(** Two open objects have different descriptors. *)
Lemma SInv_sock_ne o st t1 t2 e1 e2 :
  SInv o st → open_ep fuel (poll st) t1 e1 (sv_m st) → open_ep fuel (poll st) t2 e2 (sv_m st) →
  t1 ≠ t2 → sock_ e1 ≠ sock_ e2.
Proof.
  intros _ (_ & i1 & H1)%open_ep_world (_ & i2 & H2)%open_ep_world Hne Heq.
  rewrite Heq, H2 in H1. injection H1 as _ ?. congruence.
Qed.

(** A method ran on one object, which is open or has just been closed. *)
Lemma SInv_update o st tok ep ep' m' :
  SInv o st → sv_objs st !! tok = Some ep → open_ep fuel (poll st) tok ep (sv_m st) →
  open_ep fuel (poll st) tok ep' m' ∧ sock_ ep' = sock_ ep ∨
  closed_ep ep' m' ∧ regs m' !! (Poll.epfd (poll st), sock_ ep) = None →
  step_frame (poll st) ep (sv_m st) ep' m' →
  SInv o (Srv (sv_app st) (<[tok := ep']> (sv_objs st)) m') ∧
  ∀ t2 e2, sv_objs st !! t2 = Some e2 → t2 ≠ tok →
  (∀ l, l ∈ ep_locs e2 → m_heap m' !! l = m_heap (sv_m st) !! l) ∧
  (open_ep fuel (poll st) t2 e2 (sv_m st) →
    socks m' !! sock_ e2 = socks (sv_m st) !! sock_ e2 ∧
    regs m' !! (Poll.epfd (poll st), sock_ e2) =
      regs (sv_m st) !! (Poll.epfd (poll st), sock_ e2)).
Proof.
  intros HI Hep Hopen Hnew [Fh Fl Fs Fr].
  assert (Hother : ∀ t2 e2, sv_objs st !! t2 = Some e2 → t2 ≠ tok →
    (∀ l, l ∈ ep_locs e2 → m_heap m' !! l = m_heap (sv_m st) !! l) ∧
    (open_ep fuel (poll st) t2 e2 (sv_m st) →
    socks m' !! sock_ e2 = socks (sv_m st) !! sock_ e2 ∧
    regs m' !! (Poll.epfd (poll st), sock_ e2) =
      regs (sv_m st) !! (Poll.epfd (poll st), sock_ e2))).
  { intros t2 e2 H2 Hne. split.
    - intros l Hl. apply Fh; [by eapply SInv_locs|].
      pose proof (si_disj _ _ HI _ _ _ _ H2 Hep Hne) as Hdj.
      rewrite elem_of_disjoint in Hdj. by intros ?%(Hdj l Hl).
    - intros Ho2. assert (sock_ e2 ≠ sock_ ep) by (by eapply SInv_sock_ne).
      split; [by apply Fs|]. destruct (Fr (Poll.epfd (poll st), sock_ e2)) as [|[? _]];
        [congruence|done|done]. }
  split; [|exact Hother].
  assert (Hsock : sock_ ep' = sock_ ep ∨ sock_ ep' = -1)
    by (destruct Hnew as [[_ ?]|[[? _] _]]; auto).
  split; cbn [sv_app sv_objs sv_m].
  - intros t e. destruct (decide (t = tok)) as [->|Hne].
    + rewrite lookup_insert_eq. intros [= <-]. destruct Hnew as [[? _]|[? _]]; auto.
    + rewrite lookup_insert_ne by done. intros He. destruct (Hother _ _ He Hne) as [Hh Ho].
      destruct (si_objs _ _ HI _ _ He) as [Ho2|Hc2].
      * left. destruct (Ho Ho2). by eapply open_ep_frame.
      * right. by eapply closed_ep_frame.
  - assert (Hd : ∀ t e, sv_objs st !! t = Some e → t ≠ tok → ep_locs e ## ep_locs ep').
    { intros t e He Hne l Hl Hl'. destruct (Fl l Hl') as [Hin|Hn].
      - by apply (si_disj _ _ HI _ _ _ _ He Hep Hne l).
      - destruct (SInv_locs _ _ _ _ l HI He Hl). congruence. }
    intros t1 t2 e1 e2 H1 H2 Hne.
    destruct (decide (t1 = tok)) as [->|], (decide (t2 = tok)) as [->|]; [done| | |].
    + rewrite lookup_insert_eq in H1. rewrite lookup_insert_ne in H2 by done. injection H1 as <-.
      symmetry. by eapply Hd.
    + rewrite lookup_insert_eq in H2. rewrite lookup_insert_ne in H1 by done. injection H2 as <-.
      by eapply Hd.
    + rewrite lookup_insert_ne in H1, H2 by done. by eapply si_disj.
  - intros fd r Hr. destruct (decide (fd = sock_ ep)) as [->|Hne].
    + destruct Hnew as [[Ho Heq]|[_ Hnone]]; [|congruence].
      destruct (open_ep_world _ _ _ _ _ Ho) as (_ & i & Hi). rewrite Heq, Hr in Hi. simplify_eq.
      right. exists ep'. simpl. rewrite lookup_insert_eq, <- Heq. split_and!; [done|done|apply Ho].
    + destruct (Fr (Poll.epfd (poll st), fd)) as [Heq|[? _]]; [congruence| |done].
      rewrite Heq in Hr. destruct (si_reg _ _ HI _ _ Hr) as [|(e & He & Hs & Hp)]; [by left|right].
      exists e. rewrite lookup_insert_ne; [done|]. intros Htok. rewrite <- Htok in He. congruence.
  - rewrite lookup_insert_ne; [apply (si_listener _ _ HI)|].
    intros ->. pose proof (si_listener _ _ HI). congruence.
  - intros t e. destruct (decide (t = tok)) as [->|Hne].
    + rewrite lookup_insert_eq. intros [= <-].
      destruct (si_tab _ _ HI _ _ Hep) as [|(fd & Hfd & Hs)]; [by left|right].
      exists fd. split; [done|]. destruct Hsock as [->| ->]; auto.
    + rewrite lookup_insert_ne by done. apply (si_tab _ _ HI).
  - intros fd t Ht. destruct (si_ends _ _ HI _ _ Ht) as (? & Hin & ?). split_and!; [done| |done].
    destruct (decide (t = tok)) as [->|]; [by rewrite lookup_insert_eq; eexists|].
    by rewrite lookup_insert_ne.
  - apply (si_inj _ _ HI).
Qed.

Lemma wp_at_endpoint {A} E tok ep (c : Poll.Poll → M (ep_state W) A) st
  (Q : A → srv_state W → Prop) :
  sv_objs st !! tok = Some ep →
  wp E (c (poll st)) (EpState ep (sv_m st)) (λ a e,
  Q a (Srv (sv_app st) (<[tok := e_ep e]> (sv_objs st)) (e_m e))) →
  wp E (at_endpoint tok c) st Q.
Proof. intros Hep. unfold wp, at_endpoint. rewrite Hep. by destruct (c _ _) as [[]|]. Qed.

(** The other objects and all that is theirs. *)
Definition undisturbed st (tok : Z) ep st' : Prop :=
  sv_objs st' !! tok = Some ep ∧
  (∀ l, l ∈ ep_locs ep → m_heap (sv_m st') !! l = m_heap (sv_m st) !! l) ∧
  socks (sv_m st') !! sock_ ep = socks (sv_m st) !! sock_ ep ∧
  regs (sv_m st') !! (Poll.epfd (poll st), sock_ ep) =
  regs (sv_m st) !! (Poll.epfd (poll st), sock_ ep).

Lemma undisturbed_refl st tok ep : sv_objs st !! tok = Some ep → undisturbed st tok ep st.
Proof. intros. by split_and!. Qed.

Lemma undisturbed_trans st1 st2 st3 tok ep :
  poll st2 = poll st1 →
  undisturbed st1 tok ep st2 → undisturbed st2 tok ep st3 → undisturbed st1 tok ep st3.
Proof.
  unfold undisturbed. intros -> (_ & H1 & H2 & H3) (? & H1' & H2' & H3').
  split_and!; [done|intros; rewrite H1'; auto|congruence|congruence].
Qed.

(** Releasing a closed object that is not in the table. *)
Lemma delete_endpoint_SInv st tok ep :
  SInv (Some tok) st → sv_objs st !! tok = Some ep → closed_ep ep (sv_m st) →
  wp safe (delete_endpoint tok) st (λ _ st',
  SInv None st' ∧ sv_app st' = sv_app st ∧ m_world (sv_m st') = m_world (sv_m st) ∧
  ∀ t e, sv_objs st !! t = Some e → t ≠ tok → undisturbed st t e st').
Proof.
  intros HI Hep Hcl. unfold delete_endpoint. wp_step. eapply wp_at_endpoint; [done|].
  eapply wp_mono; [by apply destroy_closed|]. simpl. intros _ [ep' m'] [Hw Hh]. simpl in Hw, Hh.
  unfold set_objs. wp_steps. rewrite delete_insert_eq.
  assert (Hother : ∀ t e, sv_objs st !! t = Some e → t ≠ tok →
    ∀ l, l ∈ ep_locs e → m_heap m' !! l = m_heap (sv_m st) !! l).
  { intros t e He Hne l Hl. apply Hh.
    pose proof (si_disj _ _ HI _ _ _ _ He Hep Hne) as Hdj.
    rewrite elem_of_disjoint in Hdj. by intros ?%(Hdj l Hl). }
  split_and!; [|done|done|].
  - split; cbn [sv_app sv_objs sv_m].
    + intros t e [Hne He]%lookup_delete_Some.
      destruct (si_objs _ _ HI _ _ He) as [Ho|Hc].
      * left. eapply open_ep_frame; [done|by eapply Hother|by rewrite Hw..].
      * right. eapply closed_ep_frame; [done|by eapply Hother].
    + intros t1 t2 e1 e2 [_ H1]%lookup_delete_Some [_ H2]%lookup_delete_Some.
      by eapply si_disj.
    + intros fd r. rewrite Hw. intros Hr.
      destruct (si_reg _ _ HI _ _ Hr) as [|(e & He & Hs & Hp)]; [by left|right].
      exists e. split; [|done]. apply lookup_delete_Some. split; [|done].
      intros Heq. rewrite <- Heq, Hep in He. injection He as <-. destruct Hcl. lia.
    + apply lookup_delete_None. right. apply (si_listener _ _ HI).
    + intros t e [Hne He]%lookup_delete_Some.
      destruct (si_tab _ _ HI _ _ He) as [[= ->]|]; [done|by right].
    + intros fd t Ht. destruct (si_ends _ _ HI _ _ Ht) as (? & Hin & Hne). split_and!; [done| |done].
      rewrite lookup_delete_ne by congruence. done.
    + apply (si_inj _ _ HI).
  - intros t e He Hne. split_and!; cbn [sv_objs sv_m]; [by rewrite lookup_delete_ne| |by rewrite Hw..].
    by eapply Hother.
Qed.

(** ** A new connection *)

(** Objects and their surroundings are not affected by new descriptors. *)
Lemma SInv_insert st fd tok ep m' :
  SInv None st → sv_objs st !! tok = None → tok ≠ u64 (listener st) → 0 ≤ fd → sock_ ep = fd →
  ep_locs ep = ∅ → open_ep fuel (poll st) tok ep m' → m_heap m' = m_heap (sv_m st) →
  socks (sv_m st) !! fd = None →
  (∀ fd', fd' ≠ fd → socks m' !! fd' = socks (sv_m st) !! fd') →
  (∀ key, key ≠ (Poll.epfd (poll st), fd) → regs m' !! key = regs (sv_m st) !! key) →
  let st' := Srv (mkServer (listener st) (poll st) (<[fd := tok]> (table st)))
             (<[tok := ep]> (sv_objs st)) m' in
  SInv (table st !! fd) st' ∧
  (∀ old, table st !! fd = Some old → ∃ e, sv_objs st' !! old = Some e ∧ closed_ep e m') ∧
  ∀ t e, sv_objs st !! t = Some e → t ≠ tok ∧
  (sock_ e ≠ -1 → undisturbed st t e st').
Proof.
  intros HI Hnew Hnl Hpos Hsk Hlocs Hopen Hheap Hfree Hs Hr st'.
  assert (Hold : ∀ t e, sv_objs st !! t = Some e → t ≠ tok ∧ (sock_ e ≠ -1 → undisturbed st t e st')).
  { intros t e He. assert (t ≠ tok) as Hne by congruence. split; [done|]. intros Ho.
    assert (sock_ e ≠ fd).
    { destruct (si_objs _ _ HI _ _ He) as [Hoe|[? _]]; [|done].
      destruct (open_ep_world _ _ _ _ _ Hoe) as [[s Hse] _]. congruence. }
    split_and!; cbn [sv_objs sv_m st'].
    - by rewrite lookup_insert_ne.
    - by rewrite Hheap.
    - by apply Hs.
    - apply Hr. congruence. }
  assert (Hobjs : ∀ t e, sv_objs st !! t = Some e →
    open_ep fuel (poll st) t e m' ∨ closed_ep e m').
  { intros t e He. destruct (si_objs _ _ HI _ _ He) as [Ho|Hc].
    - left. destruct (Hold _ _ He) as [_ (_ & ? & ? & ?)]; [destruct Ho; lia|].
      by eapply open_ep_frame.
    - right. eapply closed_ep_frame; [done|]. by rewrite Hheap. }
  split_and!; [|intros old Hold'|exact Hold].
  2:{ destruct (si_ends _ _ HI _ _ Hold') as (_ & [e He] & _). exists e. split.
  - simpl. rewrite lookup_insert_ne; congruence.
  - destruct (si_objs _ _ HI _ _ He) as [Ho|[Hc1 Hc2]].
    + destruct (si_tab _ _ HI _ _ He) as [|(fd' & Hfd' & Hs')]; [done|].
      rewrite (si_inj _ _ HI _ _ _ Hfd' Hold') in Hs'.
      destruct (open_ep_world _ _ _ _ _ Ho) as [[s Hse] _]. destruct Ho as [? _].
      destruct Hs' as [Heq|Heq]; [congruence|lia].
    + destruct (Hobjs _ _ He) as [[? _]|]; [lia|done]. }
      split; cbn [sv_app sv_objs sv_m listener_ poll_ endpoints_ st'].
  - intros t e [[<- <-]|[Hne He]]%lookup_insert_Some; [by left|by apply Hobjs].
  - intros t1 t2 e1 e2 [[<- <-]|[? H1]]%lookup_insert_Some [[<- <-]|[? H2]]%lookup_insert_Some Hne;
    [done|rewrite Hlocs; set_solver|rewrite Hlocs; set_solver|by eapply si_disj].
  - intros fd' r Hfd'. destruct (decide (fd' = fd)) as [->|Hne].
    + destruct (open_ep_world _ _ _ _ _ Hopen) as (_ & i & Hi). rewrite Hsk, Hfd' in Hi.
      injection Hi as ->. right. exists ep. simpl. by rewrite lookup_insert_eq.
    + rewrite Hr in Hfd' by congruence.
      destruct (si_reg _ _ HI _ _ Hfd') as [|(e & He & Hse)]; [by left|right].
      exists e. split; [|done]. apply lookup_insert_Some. right. split; [|done]. congruence.
  - apply lookup_insert_None. split; [apply (si_listener _ _ HI)|done].
  - intros t e [[<- <-]|[Hne He]]%lookup_insert_Some.
    + right. exists fd. rewrite lookup_insert_eq. auto.
    + destruct (si_tab _ _ HI _ _ He) as [|(fd' & Hfd' & Hse)]; [done|].
      destruct (decide (fd' = fd)) as [->|]; [by left|right]. exists fd'.
      by rewrite lookup_insert_ne.
  - intros fd' t [[<- <-]|[Hne Ht]]%lookup_insert_Some.
    + split_and!; [done|by rewrite lookup_insert_eq|]. intros Ht.
      destruct (si_ends _ _ HI _ _ Ht) as (_ & [? ?] & _). congruence.
    + destruct (si_ends _ _ HI _ _ Ht) as (? & [e He] & _). split_and!; [done| |].
      * exists e. rewrite lookup_insert_ne; [done|congruence].
      * intros Ho. by apply Hne, (si_inj _ _ HI _ _ _ Ho Ht).
  - intros fd1 fd2 t [[<- <-]|[? H1]]%lookup_insert_Some [[<- ?]|[? H2]]%lookup_insert_Some;
    try done; subst.
    + destruct (si_ends _ _ HI _ _ H2) as (_ & [? ?] & _). congruence.
    + destruct (si_ends _ _ HI _ _ H1) as (_ & [? ?] & _). congruence.
    + by eapply si_inj.
Qed.

Definition same_app st st' : Prop := listener st' = listener st ∧ poll st' = poll st.

(** What accepting a connection does: a new endpoint in the state the
    properties of [EndpointProps] start from, and nothing else changes. *)
Definition connected st st' : Prop :=
  (∃ tok fd rx ep, sv_objs st !! tok = None ∧ sv_objs st' !! tok = Some ep ∧
   table st' !! fd = Some tok ∧ accepted (poll st) tok fd rx (EpState ep (sv_m st'))) ∧
  (∀ t e, sv_objs st !! t = Some e → sock_ e ≠ -1 → undisturbed st t e st') ∧
  ∀ key r, regs (sv_m st) !! key = Some r → regs (sv_m st') !! key = Some r.

Lemma assign_endpoint_SInv st fd tok ep m' :
  let st0 := Srv (sv_app st) (<[tok := ep]> (sv_objs st)) m' in
  let st1 := Srv (mkServer (listener st) (poll st) (<[fd := tok]> (table st)))
             (<[tok := ep]> (sv_objs st)) m' in
  SInv (table st !! fd) st1 → sv_objs st !! tok = None →
  (∀ old, table st !! fd = Some old → ∃ e, sv_objs st1 !! old = Some e ∧ closed_ep e m') →
  (∀ old, table st !! fd = Some old → is_Some (sv_objs st !! old)) →
  wp safe (assign_endpoint fd tok) st0 (λ _ st',
  SInv None st' ∧ sv_app st' = sv_app st1 ∧ m_world (sv_m st') = m_world m' ∧
  ∀ t e, sv_objs st1 !! t = Some e → table st !! fd ≠ Some t → undisturbed st1 t e st').
Proof.
  intros st0 st1 HI Hnew Hcl Hin. unfold assign_endpoint, app, set_endpoints.
  wp_step. apply wp_gets. wp_step. apply wp_modify. cbn [sv_app sv_objs sv_m st0].
  change (Srv (mkServer _ _ _) _ _) with st1.
  destruct (table st !! fd) as [old|] eqn:Hold.
  - destruct (Hcl old eq_refl) as (e & He & Hce). destruct (Hin old eq_refl) as [? ?].
    rewrite (proj2 (Z.eqb_neq old tok)) by congruence.
    eapply wp_mono; [by eapply delete_endpoint_SInv|]. simpl.
    intros _ st' (? & ? & ? & Hu). split_and!; [done|done|done|]. intros t e' He' Hne.
    apply Hu; [done|congruence].
  - apply wp_ret. split_and!; [done|done|done|]. intros. by apply undisturbed_refl.
Qed.

(** An accepted socket changes nothing for the others. *)
Lemma kv_set_sock_others fd s v v' :
  v' = kv_set_sock fd s v →
  kv_epoll v' = kv_epoll v ∧ ∀ fd', fd' ≠ fd → kv_sock v' !! fd' = kv_sock v !! fd'.
Proof. intros ->. split; [done|]. intros. by apply kv_set_sock_lookup_ne. Qed.

Lemma HandleNewConnection_SInv st :
  SInv None st →
  wp safe HandleNewConnection st (λ _ st', SInv None st' ∧ same_app st st' ∧ connected st st').
Proof.
  intros HI. unfold HandleNewConnection, make_endpoint, Endpoint.make, Accept, sv_w, app, set_objs.
  wp_steps.
  apply wp_lift. intros n w1 Hacc. wp_step. apply wp_check; [by left|]. intros Hn. wp_steps.
  assert (n ≠ -1) as Hn1 by (intros ->; done).
  destruct (accept_fresh _ _ _ _ Hacc Hn1) as (Hpos & Hnl & Hfree & Hnoreg & rx & Hv1).
  apply Interest.wp_make; [done|]. wp_steps. set (tok := fresh _).
  assert (Htok : tok ∉ dom (sv_objs st) ∪ {[u64 (listener st)]}) by apply is_fresh.
  apply not_elem_of_union in Htok as [Hnew%not_elem_of_dom Hntok%not_elem_of_singleton].
  eapply wp_at_endpoint; [apply lookup_insert_eq|]. cbn [sv_objs sv_app sv_m].
  change (mkEndpoint _ _ _ _ _ _ _ _ _ _) with (new_endpoint n SockAddr_empty).
  eapply wp_mono; [eapply (OnAccepted_open fuel (poll st) tok n rx); [done|]|].
  { cbn [m_world set_world]. rewrite Hv1. apply kv_set_sock_lookup. }
  simpl. intros _ [ep m2] (Hacc' & Hopen & (a & Hep) & Hh & Hv2). cbn [e_ep e_m] in *. subst ep.
  wp_step. eapply wp_at_endpoint; [apply lookup_insert_eq|].
  cbn [sv_objs sv_app sv_m]. unfold field. wp_step. cbn [sv_objs sv_app sv_m e_ep e_m].
  rewrite !insert_insert_eq. change (sock_ (new_endpoint n a)) with n.
  destruct (kv_set_sock_others _ _ _ _ Hv1) as [He1 Hs1].
  pose proof (SInv_insert st n tok (new_endpoint n a) m2 HI Hnew Hntok Hpos eq_refl) as Hins.
  destruct Hins as (HI1 & Hcl & Hold); [done|done|by rewrite Hh|done| | |].
  { intros fd' Hne. rewrite Hv2. by apply Hs1. }
  { intros key Hne. rewrite Hv2. cbn [kv_epoll kv_set_epoll].
    rewrite lookup_insert_ne by done. simpl. by rewrite He1. }
  eapply wp_mono; [eapply (assign_endpoint_SInv st n tok); [exact HI1|done|exact Hcl|]|].
  { intros old Hold'. by apply (si_ends _ _ HI _ _ Hold'). }
  simpl. intros _ st' (HI' & Happ & Hw & Hu). split_and!; [done|split; by rewrite Happ|].
  split.
  - exists tok, n, rx, (new_endpoint n a).
    destruct (Hu tok (new_endpoint n a)) as (Hobj & _); [by rewrite lookup_insert_eq| |].
    { intros Heq. destruct (si_ends _ _ HI _ _ Heq) as (_ & [? ?] & _). congruence. }
    split_and!; [done|done|by rewrite Happ; simpl; rewrite lookup_insert_eq|].
    unfold accepted in *. cbn [e_ep e_m] in *. rewrite Hw. exact Hacc'.
  - split; cycle 1.
    { intros [epfd fd'] r Hr. rewrite Hw, Hv2. cbn [kv_epoll kv_set_epoll].
      rewrite lookup_insert_ne; [by rewrite He1|]. intros [= _ <-].
      by rewrite Hnoreg in Hr. }
    intros t e He Hne. destruct (Hold t e He) as [Hnt Hund]. specialize (Hund Hne).
    eapply undisturbed_trans; [|exact Hund|]; [done|]. apply Hu; [by apply Hund|].
    intros Heq. destruct (Hcl _ Heq) as (e' & He' & [Hc _]).
    destruct Hund as [Hlk _]. simpl in *. congruence.
Qed.

(** ** One event of a connection *)

Record only_touched (tok fd : Z) st st' : Prop := {
  ot_app : sv_app st' = sv_app st;
  ot_objs t : t ≠ tok → sv_objs st' !! t = sv_objs st !! t;
  ot_others t e : sv_objs st !! t = Some e → sock_ e ≠ -1 → t ≠ tok → undisturbed st t e st';
  ot_regs fd' r : fd' ≠ fd → regs (sv_m st) !! (Poll.epfd (poll st), fd') = Some r →
  regs (sv_m st') !! (Poll.epfd (poll st), fd') = Some r;
}.

Lemma only_touched_refl tok fd st : only_touched tok fd st st.
Proof. split; try done. Qed.

Lemma only_touched_trans tok fd st1 st2 st3 :
  only_touched tok fd st1 st2 → only_touched tok fd st2 st3 → only_touched tok fd st1 st3.
Proof.
  intros [Ha Ho Hu Hr] [Ha' Ho' Hu' Hr']. split.
  - congruence.
  - intros t Ht. by rewrite Ho', Ho.
  - intros t e He Hne Ht. specialize (Hu t e He Hne Ht).
    eapply undisturbed_trans; [by rewrite Ha|done|]. apply Hu'; [apply Hu|done|done].
  - rewrite Ha in Hr'. auto.
Qed.

(** A method of an open object, which stays open or is closed by it. *)
Lemma at_endpoint_touched {A} st tok ep (c : Poll.Poll → M (ep_state W) A) (P : BwServerEndpoint → machine W → Prop) :
  SInv None st → sv_objs st !! tok = Some ep → open_ep fuel (poll st) tok ep (sv_m st) →
  wp safe (c (poll st)) (EpState ep (sv_m st)) (λ _ e',
  P (e_ep e') (e_m e') ∧
  (open_ep fuel (poll st) tok (e_ep e') (e_m e') ∧ sock_ (e_ep e') = sock_ ep ∨
   closed_ep (e_ep e') (e_m e') ∧
     regs (e_m e') !! (Poll.epfd (poll st), sock_ ep) = None) ∧
  step_frame (poll st) ep (sv_m st) (e_ep e') (e_m e')) →
  wp safe (at_endpoint tok c) st (λ _ st',
  SInv None st' ∧ only_touched tok (sock_ ep) st st' ∧
  ∃ ep', sv_objs st' !! tok = Some ep' ∧ P ep' (sv_m st')).
Proof.
  intros HI Hep Hopen Hc. eapply wp_at_endpoint; [done|]. eapply wp_mono; [exact Hc|].
  simpl. intros _ [ep' m'] (HP & Hnew & Hf). cbn [e_ep e_m] in *.
  destruct (SInv_update _ _ _ _ _ _ HI Hep Hopen Hnew Hf) as [HI' Hu].
  split_and!; [done| |exists ep'; by rewrite lookup_insert_eq].
  split; cbn [sv_app sv_objs sv_m]; [done| | |].
  - intros t Ht. by rewrite lookup_insert_ne.
  - intros t e He Hne Ht. destruct (Hu t e He Ht) as [Hl Hk].
    destruct (si_objs _ _ HI _ _ He) as [Ho|[? _]]; [|done]. destruct (Hk Ho).
    split_and!; cbn [sv_objs sv_m]; [by rewrite lookup_insert_ne|done..].
  - intros fd' r Hne Hr. destruct (sf_reg _ _ _ _ _ Hf (Poll.epfd (poll st), fd'))
    as [Heq|[Heq _]]; [congruence|congruence|by simpl in Heq].
Qed.

Lemma on_ready_touched st tok ep b r :
  SInv None st → sv_objs st !! tok = Some ep → open_ep fuel (poll st) tok ep (sv_m st) →
  wp safe (if b : bool then at_endpoint tok (λ p, on_ready fuel p tok r) else mret tt) st
  (λ _ st', SInv None st' ∧ only_touched tok (sock_ ep) st st' ∧
    ∃ ep', sv_objs st' !! tok = Some ep' ∧
      open_ep fuel (poll st) tok ep' (sv_m st') ∧ sock_ ep' = sock_ ep).
Proof.
  intros HI Hep Ho. destruct b.
  - eapply (at_endpoint_touched _ _ _ _ (λ ep' m', open_ep fuel (poll st) tok ep' m' ∧ sock_ ep' = sock_ ep));
    [done..|]. eapply wp_mono; [by apply on_ready_open|]. simpl. intros _ e' (? & ? & ?). auto.
  - apply wp_ret. split_and!; [done|apply only_touched_refl|]. eauto.
Qed.

(** The event asks for the end of the connection. *)
Definition closes (ev : epoll_event) : bool :=
  Event.IsError ev || Event.IsReadClosed ev || Event.IsWriteClosed ev.

Lemma handle_conn_event st ev ep :
  SInv None st → sv_objs st !! ev_data ev = Some ep → open_ep fuel (poll st) (ev_data ev) ep (sv_m st) →
  wp safe (handle_event fuel ev) st (λ _ st',
  SInv None st' ∧ only_touched (ev_data ev) (sock_ ep) st st' ∧
  ∃ ep', sv_objs st' !! ev_data ev = Some ep' ∧
    if closes ev then sock_ ep' = -1 else sock_ ep' = sock_ ep).
Proof.
  intros HI Hep Ho. unfold handle_event, app. wp_step. apply wp_gets.
  rewrite (proj2 (Z.eqb_neq _ _)); cycle 1.
  { intros Heq. pose proof (si_listener _ _ HI) as Hl. unfold Event.token in Heq. congruence. }
  change (Event.token ev) with (ev_data ev).
  wp_step. eapply wp_mono; [by apply (on_ready_touched st (ev_data ev) ep _ Readable)|].
  simpl. intros _ st1 (HI1 & Ht1 & ep1 & Hep1 & Ho1 & Hs1).
  rewrite <- (ot_app _ _ _ _ Ht1) in Ho1.
  wp_step. eapply wp_mono; [by apply (on_ready_touched st1 (ev_data ev) ep1 _ Writable)|].
  simpl. intros _ st2 (HI2 & Ht2 & ep2 & Hep2 & Ho2 & Hs2).
  rewrite <- (ot_app _ _ _ _ Ht2) in Ho2. rewrite Hs1 in Ht2, Hs2.
  pose proof (only_touched_trans _ _ _ _ _ Ht1 Ht2) as Ht12. fold (closes ev).
  destruct (closes ev); cycle 1.
  { apply wp_ret. split_and!; [done|done|]. eauto. }
  wp_step. eapply wp_mono.
  { eapply (at_endpoint_touched st2 (ev_data ev) ep2 _ (λ ep' _, sock_ ep' = -1)); [done..|].
    eapply wp_mono; [by eapply OnError_closed|]. simpl. intros _ e' (? & ? & ? & ?).
    split_and!; [done|right; by split|done]. }
  simpl. intros _ st3 (HI3 & Ht3 & ep3 & Hep3 & Hs3). rewrite Hs2 in Ht3.
  pose proof (only_touched_trans _ _ _ _ _ Ht12 Ht3) as Ht13.
  wp_step. eapply wp_at_endpoint; [done|]. unfold field. wp_step. cbn [e_ep e_m]. rewrite Hs3.
  rewrite insert_id by done. destruct st3 as [a3 o3 m3]. cbn [sv_app sv_objs sv_m] in *.
  unfold erase, app. wp_step. apply wp_gets.
  assert (endpoints_ a3 !! (-1) = None) as Ht.
  { apply eq_None_not_Some. intros [t Ht]. destruct (si_ends _ _ HI3 _ _ Ht) as [? _]. lia. }
  cbn [sv_app]. rewrite Ht. apply wp_ret. split_and!; [done|done|]. eauto.
Qed.

(** ** The loop *)

(** The descriptor [fd] is registered, and [ev] reports it. *)
Definition reported st (fd : Z) (ev : epoll_event) : Prop :=
  ∃ r, regs (sv_m st) !! (Poll.epfd (poll st), fd) = Some r ∧ ev_data ev = ev_data r.

Lemma reported_cases st fd ev :
  SInv None st → reported st fd ev →
  ev_data ev = u64 (listener st) ∨
  ∃ ep, sv_objs st !! ev_data ev = Some ep ∧ sock_ ep = fd ∧
  open_ep fuel (poll st) (ev_data ev) ep (sv_m st).
Proof.
  intros HI (r & Hr & ->). destruct (si_reg _ _ HI _ _ Hr) as [[_ ?]|(ep & Hep & Hs & ?)];
    [by left|right]. exists ep. split_and!; [done|done|].
  destruct (si_objs _ _ HI _ _ Hep) as [|[? _]]; [done|lia].
Qed.

Lemma handle_event_SInv st fd ev :
  SInv None st → reported st fd ev →
  wp safe (handle_event fuel ev) st (λ _ st',
  SInv None st' ∧ same_app st st' ∧
  ∀ fd' r, fd' ≠ fd → regs (sv_m st) !! (Poll.epfd (poll st), fd') = Some r →
    regs (sv_m st') !! (Poll.epfd (poll st), fd') = Some r).
Proof.
  intros HI Hrep. destruct (reported_cases _ _ _ HI Hrep) as [Hl|(ep & Hep & Hs & Ho)].
  - unfold handle_event, app. wp_step. apply wp_gets.
    rewrite (proj2 (Z.eqb_eq _ _)) by exact Hl. wp_step. apply wp_check; [by left|]. intros _.
    eapply wp_mono; [by apply HandleNewConnection_SInv|]. simpl.
    intros _ st' (? & ? & _ & _ & Hk). split_and!; [done|done|]. intros. by apply Hk.
  - eapply wp_mono; [by apply (handle_conn_event st ev ep)|]. simpl.
    intros _ st' (? & [Ha _ _ Hr] & _). rewrite Hs in Hr. split_and!; [done| |done].
    split; by rewrite Ha.
Qed.

(** The event of one connection does not disturb the others. *)
Lemma handle_event_undisturbed st fd ev tok ep :
  SInv None st → reported st fd ev → sv_objs st !! tok = Some ep → sock_ ep ≠ -1 →
  tok ≠ ev_data ev → wp safe (handle_event fuel ev) st (λ _ st', undisturbed st tok ep st').
Proof.
  intros HI Hrep Hep Hsk Hne.
  destruct (reported_cases _ _ _ HI Hrep) as [Hl|(ep' & Hep' & Hs & Ho)].
  - unfold handle_event, app. wp_step. apply wp_gets.
    rewrite (proj2 (Z.eqb_eq _ _)) by exact Hl. wp_step. apply wp_check; [by left|]. intros _.
    eapply wp_mono; [by eapply HandleNewConnection_SInv|]. simpl.
    intros _ st' (_ & _ & _ & Hu & _). by apply Hu.
  - eapply wp_mono; [by eapply (handle_conn_event st ev ep')|]. simpl.
    intros _ st' (_ & [_ _ Hu _] & _). by apply Hu.
Qed.

Lemma handle_events_SInv st fds evs :
  SInv None st → NoDup fds → Forall2 (reported st) fds evs →
  wp safe (handle_events fuel evs) st (λ _ st', SInv None st' ∧ same_app st st').
Proof.
  intros HI Hnd Hrep. revert st HI Hrep Hnd. revert fds.
  induction evs as [|ev evs IH]; intros fds st HI Hrep Hnd.
  { apply wp_ret. by split_and!. }
  apply Forall2_cons_inv_r in Hrep as (fd & fds' & Hr & Hrep & ->).
  inversion Hnd as [|? ? Hnin Hnd']; subst. clear Hnd. cbn [handle_events]. wp_step.
  eapply wp_mono; [by apply (handle_event_SInv st fd ev)|]. simpl.
  intros _ st1 (HI1 & [Hl Hp] & Hk). eapply wp_mono; [eapply (IH fds'); [done| |done]|].
  - clear IH Hnd'. revert Hnin. induction Hrep as [|fd' ev' fds' evs (r & Hr' & Hd) _ IHrep];
    [constructor|]. intros [Hne Hnin]%not_elem_of_cons. constructor.
    + exists r. rewrite Hp. split; [|done]. by apply Hk.
    + by apply IHrep.
  - simpl. intros _ st2 (? & Hl2 & Hp2). split; [done|]. split; congruence.
Qed.

Lemma SInv_world o st w' :
  SInv o st → kview w' = kview (m_world (sv_m st)) →
  SInv o (Srv (sv_app st) (sv_objs st) (set_world w' (sv_m st))).
Proof.
  intros [Ho Hd Hr Hl Ht He Hi] Hv. split; cbn [sv_app sv_objs sv_m]; try done.
  - intros tok ep Hep. destruct (Ho _ _ Hep) as [|].
    + left. eapply open_ep_frame; [done|done|..]; simpl; by rewrite Hv.
    + right. by eapply closed_ep_frame.
  - intros fd r. simpl. rewrite Hv. apply Hr.
Qed.

Lemma round_SInv st max_events timeout_ms :
  SInv None st →
  wp safe (round fuel max_events timeout_ms) st (λ _ st', SInv None st' ∧ same_app st st').
Proof.
  intros HI. unfold round, app, sv_w, Poll.PollUntil, Selector.Select. wp_steps.
  apply wp_lift. intros r w' Hw. apply epoll_wait_view in Hw as Hv.
  destruct r as [evs|]; [|by left].
  destruct (epoll_wait_events _ _ _ _ _ _ Hw) as (_ & fds & Hnd & Hrep).
  eapply wp_mono; [eapply (handle_events_SInv _ fds); [by apply SInv_world|done|]|].
  - revert Hrep. apply Forall2_impl. intros fd ev (r & Hr & Hd). exists r.
    cbn [sv_app sv_m m_world set_world]. by rewrite Hv.
  - simpl. intros _ st' (? & ? & ?). by split_and!.
Qed.

Lemma rounds_SInv n st max_events timeout_ms :
  SInv None st →
  wp safe (rounds fuel n max_events timeout_ms) st (λ _ st', SInv None st' ∧ same_app st st').
Proof.
  revert st. induction n as [|n IH]; intros st HI; cbn [rounds].
  - apply wp_ret. by split_and!.
  - wp_step. eapply wp_mono; [by apply round_SInv|]. simpl. intros _ st1 (? & Hl & Hp).
    eapply wp_mono; [by apply IH|]. simpl. intros _ st2 (? & Hl2 & Hp2).
    split; [done|]. split; congruence.
Qed.

(** ** The start *)

(** A server as constructed, in a world where nothing is registered. *)
Definition server_start (p : Poll.Poll) (w : W) : srv_state W :=
  Srv (mkServer INVALID_SOCKET p ∅) ∅ (Machine ∅ w).

Lemma wp_sys_status c w (Q : unit → W → Prop) (ok : Z * Z → bool) :
  (∀ w', kview w' = kview w → Q tt w') →
  wp safe (r ← lift (sys_call c); check (ok r)) w Q.
Proof.
  intros HQ. wp_step. apply wp_lift. intros r w' Hv%call_view. apply wp_check; [by left|].
  intros _. by apply HQ.
Qed.

Lemma server_Init_SInv port p w :
  kv_epoll (kview w) = ∅ →
  wp safe (server_Init port) (server_start p w) (λ _ st', SInv None st' ∧ poll st' = p).
Proof.
  intros Hempty. unfold server_Init, server_start, sv_w, app, set_listener, AddrInfo_passive, Create_ai.
  wp_steps. apply wp_lift. intros [ai|] w1 H1; apply getaddrinfo_view in H1; [|by left].
  wp_steps. apply wp_lift. intros fd w2 H2%socket_view. wp_step.
  apply wp_check; [by left|]. intros _. wp_steps.
  apply wp_sys_status. intros w3 H3. wp_steps. apply wp_SetNonBlock. intros w4 H4. wp_steps.
  apply wp_sys_status. intros w5 H5. wp_steps. apply wp_sys_status. intros w6 H6. wp_steps.
  apply Interest.wp_make; [done|]. wp_steps.
  unfold Poll.Register, Selector.Register, Selector.EpollCtl. apply wp_bind, wp_lift.
  intros r w7 H7. apply wp_check; [by left|]. intros ->%Z.eqb_eq.
  apply epoll_ctl_set in H7; [|by left]. wp_steps.
  unfold AddrInfo_AddrStr. wp_step. apply wp_lift.
  intros [[h sv]|] w8 H8; apply getnameinfo_view in H8; [|by left]. wp_steps.
  split; [|done]. simpl in H7. rewrite H6, H5, H4, H3, H2, H1 in H7.
  split; cbn [sv_app sv_objs sv_m listener_ poll_ endpoints_]; try done.
  intros fd' r. cbn [m_world set_world]. rewrite H8, H7. cbn [kv_epoll kv_set_epoll].
  rewrite Hempty, lookup_insert_Some. intros [[[= <-] <-]|[_ ?]]; [by left|done].
Qed.

Lemma event_loop_SInv n st timeout_ms max_events :
  SInv None st → 0 < max_events →
  wp safe (event_loop fuel n timeout_ms max_events) st (λ _ st', SInv None st' ∧ same_app st st').
Proof.
  intros HI Hmax. unfold event_loop.
  rewrite (proj2 (Z.ltb_ge _ _)), (proj2 (Z.eqb_neq _ _)) by lia. by apply rounds_SInv.
Qed.

Lemma server_Run_SInv n port timeout_ms max_events p w :
  kv_epoll (kview w) = ∅ → 0 < max_events →
  wp safe (server_Run fuel n port timeout_ms max_events) (server_start p w)
  (λ _ st', SInv None st' ∧ poll st' = p).
Proof.
  intros Hempty Hmax. unfold server_Run. wp_step.
  eapply wp_mono; [by apply server_Init_SInv|]. simpl. intros _ st1 [HI Hp].
  eapply wp_mono; [by apply event_loop_SInv|]. simpl. intros _ st2 (? & _ & ?).
  split; [done|congruence].
Qed.
End server.
