(* ===== verification/ServerProps.v ===== *)
(** The properties of [SocketBwServerApp]: any number of connections, against
    any kernel. *)
From S2P Require Import Prelude CInt Utils Kernel SimKernel Poll Buffer Socket Endpoint EndpointSpec IOMode EndpointProofs EndpointProps SocketBwServer ServerProofs.

Local Open Scope Z_scope.

Section theorems.
Context {W : Type} `{!Kernel W, !KernelLaws W}.
Context (fuel n : nat) (port timeout_ms max_events : Z) (p : Poll.Poll) (w : W).

(** The server has been started and has gone through [n] rounds of its loop. *)
Definition reached (st : srv_state W) : Prop :=
  kv_epoll (kview w) = ∅ ∧ 0 < max_events ∧
  server_Run fuel n port timeout_ms max_events (server_start p w) = Ret (tt, st).

Lemma reached_SInv st : reached st → SInv fuel None st ∧ poll_ (sv_app st) = p.
Proof.
  intros (He & Hm & Hrun).
  pose proof (server_Run_SInv fuel n port timeout_ms max_events p w He Hm) as Hwp.
  unfold wp in Hwp. by rewrite Hrun in Hwp.
Qed.

(** Every registered descriptor is the listener, or belongs to a live endpoint at
    the address of its token. *)
Definition registrations_live (st : srv_state W) : Prop :=
  ∀ fd r, kv_epoll (kview (m_world (sv_m st))) !! (Poll.epfd p, fd) = Some r →
  fd = listener_ (sv_app st) ∧ ev_data r = u64 (listener_ (sv_app st)) ∨
  ∃ ep, sv_objs st !! ev_data r = Some ep ∧ sock_ ep = fd ∧ 0 ≤ fd.

(** C4. The server is safe.  Started where nothing is registered with its
    epoll instance, whatever the clients send, whichever calls fail and
    however events are reported, the event loop meets no undefined behaviour:
    in particular no event is dispatched to an object that does not exist, no
    object or buffer is freed twice, and no endpoint reads or writes outside
    its buffers.  After any number of rounds every registered descriptor is
    the listener or belongs to a live endpoint at the address of its token. *)
Theorem server_safe :
  kv_epoll (kview w) = ∅ → 0 < max_events →
  wp safe (server_Run fuel n port timeout_ms max_events) (server_start p w)
  (λ _ st, registrations_live st).
Proof.
  intros. eapply wp_mono; [by apply server_Run_SInv|]. simpl. intros _ st [HI Hp] fd r Hr.
  apply (si_reg _ _ _ HI). by rewrite Hp.
Qed.

(** C34. The settings of the event loop.  [Run] takes them from the environment: an
    unset variable has its default, a text counts as the number it starts with, a
    text without one as 0.  With at least one event the server is as safe as above;
    with fewer it does not come to its first round: a negative number throws
    [length_error], and 0 makes [&events[0]] undefined. *)
Theorem Run_environment (e : environ) :
  kv_epoll (kview w) = ∅ →
  setting e "EPOLL_TIMEOUT_MS" 1000 timeout_ms → setting e "EPOLL_MAX_EVENTS" 1024 max_events →
  wp (λ r, safe r ∨ (max_events < 0 ∧ r = Throw length_error) ∨ (max_events = 0 ∧ r = Undef))
  (Run fuel e n port) (server_start p w) (λ _ st, 0 < max_events ∧ registrations_live st).
Proof.
  intros Hempty Ht Hm. unfold Run. wp_step. apply (wp_weaken _ safe); [|by left].
  eapply wp_mono; [by apply server_Init_SInv|]. simpl. intros _ st [HI Hp].
  do 2 (wp_step; eapply wp_GetEnvOrDefault_int; [done|]).
  destruct (decide (0 < max_events)) as [Hpos|Hneg].
  - apply (wp_weaken _ safe); [|by left]. eapply wp_mono; [by apply event_loop_SInv|].
    simpl. intros _ st' (HI' & _ & Hp'). split; [done|]. intros fd r Hr.
    apply (si_reg _ _ _ HI'). by rewrite Hp', Hp.
  - unfold event_loop. destruct (Z.ltb_spec max_events 0) as [Hlt|Hge].
    + right; left. done.
    + rewrite (proj2 (Z.eqb_eq _ _)) by lia. right; right. split; [lia|done].
Qed.

(** C13. Connections are isolated.  In any state the server reaches, handling a
    reported event (of another connection, or a new connection) leaves an open
    endpoint, the contents of its buffers, its socket and its registration
    exactly as they were. *)
Theorem server_isolation st fd ev tok ep :
  reached st → reported st fd ev →
  sv_objs st !! tok = Some ep → sock_ ep ≠ -1 → tok ≠ ev_data ev →
  wp safe (handle_event fuel ev) st (λ _ st', undisturbed st tok ep st').
Proof.
  intros [HI Hp]%reached_SInv Hrep Hep Hsk Hne. by eapply handle_event_undisturbed.
Qed.

(** Every accepted connection starts right.  Handling a new connection
    creates an endpoint at an address where none was, registered for reading
    and writing under its address, in the table under its descriptor, with no
    byte sent: the state the properties of [EndpointProps] start from.  The endpoints
    there were are not disturbed and every registration stays. *)
Lemma server_accepts st :
  reached st → wp safe HandleNewConnection st (λ _ st', connected st st').
Proof.
  intros [HI Hp]%reached_SInv. eapply wp_mono; [by eapply HandleNewConnection_SInv|].
  simpl. by intros _ st' (_ & _ & ?).
Qed.

(** C36. Closed endpoints are not released.  On an event that ends a
    connection [OnError] closes the socket, which sets its descriptor to -1,
    and then [endpoints_.erase(endpoint->fd())] looks for -1: the table keeps
    the object, the object keeps its buffers, and nothing is freed. *)
Theorem server_error_keeps_endpoint st fd ev ep :
  reached st → reported st fd ev → sv_objs st !! ev_data ev = Some ep → closes ev = true →
  wp safe (handle_event fuel ev) st (λ _ st',
  endpoints_ (sv_app st') = endpoints_ (sv_app st) ∧
  ∃ ep', sv_objs st' !! ev_data ev = Some ep' ∧ sock_ ep' = -1 ∧
    ∀ l, l ∈ ep_locs ep' → is_Some (m_heap (sv_m st') !! l)).
Proof.
  intros [HI Hp]%reached_SInv Hrep Hep Hcl.
  destruct (reported_cases _ _ _ _ HI Hrep) as [Hl|(ep' & Hep' & Hs & Ho)].
  { pose proof (si_listener _ _ _ HI). congruence. }
  eapply wp_mono; [by eapply (handle_conn_event fuel st ev ep')|]. simpl. rewrite Hcl.
  intros _ st' (HI' & [Ha _ _ _] & ep2 & Hep2 & Hs2). split; [by rewrite Ha|].
  exists ep2. split_and!; [done|done|]. intros l. by eapply SInv_locs.
Qed.
End theorems.

(** * Examples *)

(** Two clients connect; the first has sent a request when the second is accepted. *)
Definition demo_epoll : Poll.Poll := Poll.mk (Poll.mkRegistry (Selector.mk 100)).
Definition demo_world : sim :=
  Sim ∅ ∅ [] 0 [frame (hello, [x01]); frame ([x61], [])]
    [[(3, EPOLLIN)]; [(3, EPOLLIN); (4, Z.lor EPOLLIN EPOLLOUT)]].
Definition demo_run (n : nat) : outcome (unit * srv_state sim) :=
  server_Run 100 n 18000 1000 1024 (server_start demo_epoll demo_world).
Definition demo_at (n : nat) : srv_state sim :=
  match demo_run n with Ret (_, st) => st | Stop _ => server_start demo_epoll demo_world end.
Definition demo_st : srv_state sim := demo_at 2.
(** The addresses of the two endpoints. *)
Definition demo_tok (fd : Z) : Z := default 0 (endpoints_ (sv_app demo_st) !! fd).
Definition demo_ep (fd : Z) : BwServerEndpoint :=
  default (new_endpoint 0 SockAddr_empty) (sv_objs demo_st !! demo_tok fd).

(** The first client has its answer, the second is waiting. *)
Example demo_server :
  kv_sock (kview (m_world (sv_m demo_st))) !! 4 = Some (SockView (frame (hello, [x01])) [] hello) ∧
  kv_sock (kview (m_world (sv_m demo_st))) !! 5 = Some (SockView [] (frame ([x61], [])) []).
Proof. split; vm_compute; reflexivity. Qed.

Lemma demo_reached : reached 100 2 18000 1000 1024 demo_epoll demo_world demo_st.
Proof. split_and!; [reflexivity|reflexivity|vm_compute; reflexivity]. Qed.

Lemma server_safe_witness :
  wp safe (server_Run 100 2 18000 1000 1024) (server_start demo_epoll demo_world) (λ _ st,
    ∀ fd r, kv_epoll (kview (m_world (sv_m st))) !! (Poll.epfd demo_epoll, fd) = Some r →
      fd = listener_ (sv_app st) ∧ ev_data r = u64 (listener_ (sv_app st)) ∨
      ∃ ep, sv_objs st !! ev_data r = Some ep ∧ sock_ ep = fd ∧ 0 ≤ fd).
Proof. apply server_safe; reflexivity. Defined.

Lemma server_isolation_witness :
  wp safe (handle_event 100 (EpollEvent EPOLLIN (demo_tok 5))) demo_st
    (λ _ st', undisturbed demo_st (demo_tok 4) (demo_ep 4) st').
Proof.
  apply (server_isolation 100 2 18000 1000 1024 demo_epoll demo_world demo_st 5).
  - apply demo_reached.
  - eexists. split; vm_compute; reflexivity.
  - vm_compute. reflexivity.
  - vm_compute. discriminate.
  - vm_compute. discriminate.
Defined.

Example accepts_example :
  wp safe HandleNewConnection (demo_at 1) (λ _ st', connected (demo_at 1) st').
Proof.
  apply (server_accepts 100 1 18000 1000 1024 demo_epoll demo_world).
  split_and!; [reflexivity|reflexivity|vm_compute; reflexivity].
Qed.

Lemma server_error_keeps_endpoint_witness :
  wp safe (handle_event 100 (EpollEvent EPOLLHUP (demo_tok 4))) demo_st (λ _ st',
    endpoints_ (sv_app st') = endpoints_ (sv_app demo_st) ∧
    ∃ ep', sv_objs st' !! demo_tok 4 = Some ep' ∧ sock_ ep' = -1 ∧
      ∀ l, l ∈ ep_locs ep' → is_Some (m_heap (sv_m st') !! l)).
Proof.
  apply (server_error_keeps_endpoint 100 2 18000 1000 1024 demo_epoll demo_world demo_st 4
    (EpollEvent EPOLLHUP (demo_tok 4)) (demo_ep 4)).
  - apply demo_reached.
  - eexists. split; vm_compute; reflexivity.
  - vm_compute. reflexivity.
  - reflexivity.
Defined.

(** Room for two events, in words. *)
Lemma Run_environment_witness :
  wp (λ r, safe r ∨ (2 < 0 ∧ r = Throw length_error) ∨ (2 = 0 ∧ r = Undef))
    (Run 100 {["EPOLL_MAX_EVENTS" := "2 events"]} 2 18000) (server_start demo_epoll demo_world)
    (λ _ st, 0 < 2 ∧ registrations_live demo_epoll st).
Proof. apply (Run_environment 100 2 18000 1000 2 demo_epoll demo_world); by vm_compute. Defined.
