(* ===== verification/Keeps.v ===== *)
(** Code that moves the world only along a preorder: from the system calls of
    the server to its whole event loop. *)
From S2P Require Import Prelude CInt Kernel Poll Buffer Socket Endpoint IOMode SocketBwServer.

Local Open Scope Z_scope.
#[local] Set Default Proof Using "Type*".

(** [Keeps R w m]: when [m] returns, the worlds [w] before and after are in [R]. *)
Definition Keeps {S W A} (R : relation W) (w : S → W) (m : M S A) : Prop :=
  ∀ s a s', m s = Ret (a, s') → R (w s) (w s').

(** What the calls of the server have to do for that; what it waits for is left out. *)
Class SysKeeps {W} `{!Kernel W} (R : relation W) : Prop := {
  sk_pre : PreOrder R;
  sk_recv fd len flags w : R w (sys_recv fd len flags w).2;
  sk_send fd bs flags w : R w (sys_send fd bs flags w).2;
  sk_epoll_ctl epfd op fd ev w : R w (sys_epoll_ctl epfd op fd ev w).2;
  sk_accept fd w : R w (sys_accept fd w).2;
  sk_close fd w : R w (sys_close fd w).2;
  sk_getpeername fd w : R w (sys_getpeername fd w).2;
  sk_getnameinfo addr flags w : R w (sys_getnameinfo addr flags w).2;
  sk_call c w : R w (sys_call c w).2;
  sk_memalign al size w : R w (sys_memalign al size w).2;
}.
#[export] Existing Instance sk_pre.

Lemma SysKeeps_weaken {W} `{!Kernel W} (R R' : relation W) :
  SysKeeps R → PreOrder R' → (∀ w w', R w w' → R' w w') → SysKeeps R'.
Proof. intros [] ? Hle. split; eauto. Qed.

(** ** Rules *)
Section rules.
Context {S W : Type} (R : relation W) `{!PreOrder R} (w : S → W).

Lemma keeps_ret {A} (a : A) : Keeps R w (mret a).
Proof. intros s b s' Heq. unfold mret, M_ret in Heq. simplify_eq. reflexivity. Qed.
Lemma keeps_bind {A B} (m : M S A) (k : A → M S B) :
  Keeps R w m → (∀ a, Keeps R w (k a)) → Keeps R w (m ≫= k).
Proof.
  intros Hm Hk s b s' Heq. unfold mbind, M_bind in Heq.
  destruct (m s) as [[a s1]|] eqn:H1; [|done].
  transitivity (w s1); [by eapply Hm|by eapply Hk].
Qed.
Lemma keeps_stop {A} r : Keeps R w (λ _, Stop (A := A * S) r).
Proof. by intros s a s'. Qed.
Lemma keeps_gets {A} (f : S → A) : Keeps R w (gets f).
Proof. intros s a s' Heq. unfold gets in Heq. simplify_eq. reflexivity. Qed.
Lemma keeps_modify f : (∀ s, w (f s) = w s) → Keeps R w (modify f).
Proof. intros Hf s a s' Heq. unfold modify in Heq. simplify_eq. by rewrite Hf. Qed.
Lemma keeps_check b : Keeps R w (check b).
Proof. destruct b; [apply keeps_ret|apply keeps_stop]. Qed.
Lemma keeps_deref {A} (o : option A) : Keeps R w (deref o).
Proof. destruct o; [apply keeps_ret|apply keeps_stop]. Qed.
Lemma keeps_lift {A} (f : S → A * S) : (∀ s, R (w s) (w (f s).2)) → Keeps R w (lift f).
Proof. intros Hf s a s' Heq. unfold lift in Heq. injection Heq as Heq. specialize (Hf s). by rewrite Heq in Hf. Qed.
Lemma keeps_zoom {T A} (g : T → S) (p : S → T → T) (m : M S A) :
  (∀ s t, g (p s t) = s) → Keeps R w m → Keeps R (λ t, w (g t)) (zoom g p m).
Proof.
  intros Hgp Hm t a t' Heq. unfold zoom in Heq. destruct (m (g t)) as [[b s]|] eqn:H1; [|done].
  simplify_eq. rewrite Hgp. by eapply Hm.
Qed.
End rules.

Create HintDb keeps.
#[export] Hint Resolve keeps_ret keeps_gets keeps_check keeps_deref keeps_stop : keeps.
#[export] Hint Extern 0 (PreOrder _) => apply _ : keeps.
#[export] Hint Extern 0 (SysKeeps _) => apply _ : keeps.
#[export] Hint Extern 5 (Keeps _ _ (modify _)) => apply keeps_modify; [|by intros []] : keeps.
#[export] Hint Extern 5 (Keeps _ _ (λ _, Stop _)) => apply keeps_stop : keeps.
#[export] Hint Extern 6 (Keeps _ _ _) => progress unfold fatal, undef, nofuel, throw : keeps.

(** Code built from code that keeps [R]. *)
Ltac keeps :=
  intros; repeat first
    [ solve [auto 3 with keeps]
    | apply keeps_bind; [apply _| |intros]
    | case_match ].

(** ** The calls of the kernel *)
Section world.
Context {W : Type} `{!Kernel W} (R : relation W) `{!SysKeeps R}.
Abbreviation KW := (Keeps R (λ w : W, w)).

Lemma keeps_sys_recv fd len flags : KW (lift (sys_recv fd len flags)).
Proof. apply keeps_lift; [apply _|apply sk_recv]. Qed.
Lemma keeps_sys_send fd bs flags : KW (lift (sys_send fd bs flags)).
Proof. apply keeps_lift; [apply _|apply sk_send]. Qed.
Lemma keeps_sys_epoll_ctl epfd op fd ev : KW (lift (sys_epoll_ctl epfd op fd ev)).
Proof. apply keeps_lift; [apply _|apply sk_epoll_ctl]. Qed.
Lemma keeps_sys_accept fd : KW (lift (sys_accept fd)).
Proof. apply keeps_lift; [apply _|apply sk_accept]. Qed.
Lemma keeps_sys_close fd : KW (lift (sys_close fd)).
Proof. apply keeps_lift; [apply _|apply sk_close]. Qed.
Lemma keeps_sys_getpeername fd : KW (lift (sys_getpeername fd)).
Proof. apply keeps_lift; [apply _|apply sk_getpeername]. Qed.
Lemma keeps_sys_getnameinfo addr flags : KW (lift (sys_getnameinfo addr flags)).
Proof. apply keeps_lift; [apply _|apply sk_getnameinfo]. Qed.
Lemma keeps_sys_call c : KW (lift (sys_call c)).
Proof. apply keeps_lift; [apply _|apply sk_call]. Qed.
Lemma keeps_sys_memalign al size : KW (lift (sys_memalign al size)).
Proof. apply keeps_lift; [apply _|apply sk_memalign]. Qed.
End world.

#[export] Hint Resolve keeps_sys_recv keeps_sys_send keeps_sys_epoll_ctl
  keeps_sys_accept keeps_sys_close keeps_sys_getpeername keeps_sys_getnameinfo keeps_sys_call
  keeps_sys_memalign : keeps.

(** ** socket.h and poll.h *)
Section socket.
Context {W : Type} `{!Kernel W} (R : relation W) `{!SysKeeps R}.
Abbreviation KW := (Keeps R (λ w : W, w)).

Lemma keeps_LastErrorWouldBlock : KW LastErrorWouldBlock.
Proof. unfold LastErrorWouldBlock, GetLastError. keeps. Qed.
Lemma keeps_GetSockError fd : KW (GetSockError fd).
Proof. unfold GetSockError. keeps. Qed.
Lemma keeps_SetNonBlock fd b : KW (SetNonBlock fd b).
Proof. unfold SetNonBlock. keeps. Qed.
Lemma keeps_Close fd : KW (Close fd).
Proof. unfold Close. keeps. Qed.
Lemma keeps_Accept fd : KW (Accept fd).
Proof. unfold Accept. keeps. Qed.
Lemma keeps_Recv fd len flags : KW (Recv fd len flags).
Proof. unfold Recv. keeps. Qed.
Lemma keeps_Send fd bs flags : KW (Send fd bs flags).
Proof. unfold Send. keeps. Qed.
Lemma keeps_AddrStr a : KW (SockAddr_AddrStr a).
Proof. unfold SockAddr_AddrStr, AddrInfo_AddrStr. keeps. Qed.
#[local] Hint Resolve keeps_LastErrorWouldBlock keeps_GetSockError keeps_Recv : keeps.
Lemma keeps_RecvAll fuel fd len flags : KW (RecvAll fuel fd len flags).
Proof.
  unfold RecvAll. generalize (@nil byte). induction fuel as [|fuel IH]; intros acc; cbn [RecvAll_loop]; keeps.
Qed.
Lemma keeps_Register p fd tok i : KW (Poll.Register p fd tok i).
Proof. unfold Poll.Register, Selector.Register, Selector.EpollCtl. keeps. Qed.
Lemma keeps_Reregister p fd tok i : KW (Poll.Reregister p fd tok i).
Proof. unfold Poll.Reregister, Selector.Reregister, Selector.EpollCtl. keeps. Qed.
Lemma keeps_Deregister p fd : KW (Poll.Deregister p fd).
Proof. unfold Poll.Deregister, Selector.Deregister, Selector.EpollCtl. keeps. Qed.
Lemma keeps_PollUntil p maxev timeout :
  (∀ epfd maxev timeout w, R w (sys_epoll_wait epfd maxev timeout w).2) →
  KW (Poll.PollUntil p maxev timeout).
Proof. intros Hw. unfold Poll.PollUntil, Selector.Select. apply keeps_lift; [apply _|apply Hw]. Qed.
End socket.

Lemma keeps_Interest_make {S W} (R : relation W) `{!PreOrder R} (w : S → W) i :
  Keeps R w (Interest.make i).
Proof. unfold Interest.make. keeps. Qed.
Lemma keeps_SockAddr_make {S W} (R : relation W) `{!PreOrder R} (w : S → W) a :
  Keeps R w (SockAddr_make a).
Proof. unfold SockAddr_make. keeps. Qed.

#[export] Hint Resolve keeps_LastErrorWouldBlock keeps_GetSockError keeps_SetNonBlock keeps_Close
  keeps_Accept keeps_Recv keeps_Send keeps_AddrStr keeps_RecvAll keeps_Register keeps_Reregister
  keeps_Deregister keeps_Interest_make keeps_SockAddr_make : keeps.

(** ** buffer.h and the endpoint *)
Lemma keeps_field {W A} (R : relation W) `{!PreOrder R} (f : BwServerEndpoint → A) :
  Keeps R (λ e : ep_state W, m_world (e_m e)) (field f).
Proof. unfold field. keeps. Qed.
Lemma keeps_make {W} (R : relation W) `{!PreOrder R} fd :
  Keeps R (λ w : W, w) (Endpoint.make fd).
Proof. unfold Endpoint.make. keeps. Qed.
#[export] Hint Resolve keeps_field keeps_make : keeps.

Section endpoint.
Context {W : Type} `{!Kernel W} (R : relation W) `{!SysKeeps R}.
Abbreviation KM := (Keeps R (λ m : machine W, m_world m)).
Abbreviation KE := (Keeps R (λ e : ep_state W, m_world (e_m e))).

Lemma keeps_sys {A} (c : M W A) : Keeps R (λ w, w) c → KM (sys c).
Proof. by apply (keeps_zoom R (λ w, w) m_world). Qed.
Lemma keeps_heap_read p len : KM (heap_read p len).
Proof. unfold heap_read. keeps. Qed.
Lemma keeps_heap_write p bs : KM (heap_write p bs).
Proof. unfold heap_write. keeps. Qed.
Lemma keeps_heap_free p : KM (heap_free p).
Proof. unfold heap_free. keeps. Qed.
#[local] Hint Resolve keeps_sys keeps_heap_free : keeps.
Lemma keeps_alloc size : KM (Buffer.alloc size).
Proof. unfold Buffer.alloc. keeps. Qed.
Lemma keeps_destroy b : KM (Buffer.destroy b).
Proof. unfold Buffer.destroy. keeps. Qed.

Lemma keeps_on_m {A} (c : M (machine W) A) : KM c → KE (on_m c).
Proof. by apply (keeps_zoom R (λ m, m_world m) e_m). Qed.
Lemma keeps_on_w {A} (c : M W A) : Keeps R (λ w, w) c → KE (on_w c).
Proof. intros. by apply keeps_on_m, keeps_sys. Qed.
Lemma keeps_upd f : KE (upd f).
Proof. unfold upd. keeps. Qed.
#[local] Hint Resolve keeps_heap_read keeps_heap_write keeps_alloc keeps_destroy
  keeps_on_m keeps_on_w keeps_upd : keeps.

Lemma keeps_assign rd wr b : KE (assign rd wr b).
Proof. unfold assign. keeps. Qed.
#[local] Hint Resolve keeps_assign : keeps.
Lemma keeps_ensure_buffer rd wr size : KE (ensure_buffer rd wr size).
Proof. unfold ensure_buffer. keeps. Qed.
#[local] Hint Resolve keeps_ensure_buffer : keeps.
Lemma keeps_ReceiveMeta fuel : KE (ReceiveMeta fuel).
Proof. unfold ReceiveMeta. keeps. Qed.
Lemma keeps_recv_into b : KE (recv_into b).
Proof. unfold recv_into. keeps. Qed.
#[local] Hint Resolve keeps_recv_into : keeps.
Lemma keeps_ReceiveHeader : KE ReceiveHeader.
Proof. unfold ReceiveHeader. keeps. Qed.
Lemma keeps_data_received : KE data_received.
Proof. unfold data_received. keeps. Qed.
#[local] Hint Resolve keeps_data_received : keeps.
Lemma keeps_ReceiveData : KE ReceiveData.
Proof. unfold ReceiveData. keeps. Qed.
Lemma keeps_OnSendReady_loop poll this f : KE (OnSendReady_loop poll this f).
Proof. induction f; cbn [OnSendReady_loop]; keeps. Qed.
#[local] Hint Resolve keeps_OnSendReady_loop : keeps.
Lemma keeps_OnSendReady poll this : KE (OnSendReady poll this).
Proof. unfold OnSendReady. keeps. Qed.
#[local] Hint Resolve keeps_OnSendReady : keeps.
Lemma keeps_Reply poll this : KE (Reply poll this).
Proof. unfold Reply. keeps. Qed.
#[local] Hint Resolve keeps_ReceiveMeta keeps_ReceiveHeader keeps_ReceiveData keeps_Reply : keeps.
Lemma keeps_OnRecvReady fuel poll this : KE (OnRecvReady fuel poll this).
Proof. unfold OnRecvReady, and_then. keeps. Qed.

Lemma keeps_OnAccepted poll this : KE (OnAccepted poll this).
Proof. unfold OnAccepted, GetPeerAddr. keeps. Qed.
Lemma keeps_OnError poll : KE (OnError poll).
Proof. unfold OnError. keeps. Qed.
Lemma keeps_destroy_unique o : KE (destroy_unique o).
Proof. unfold destroy_unique. keeps. Qed.
#[local] Hint Resolve keeps_destroy_unique : keeps.
Lemma keeps_destroy_queue q : KE (foldr (λ b k, _ ← destroy_unique b; k) (mret tt) q).
Proof. induction q; cbn [foldr]; keeps. Qed.
#[local] Hint Resolve keeps_destroy_queue : keeps.
Lemma keeps_endpoint_destroy : KE Endpoint.destroy.
Proof. unfold Endpoint.destroy. keeps. Qed.
End endpoint.

#[export] Hint Resolve keeps_on_w keeps_OnRecvReady keeps_OnSendReady keeps_OnAccepted
  keeps_OnError keeps_endpoint_destroy : keeps.

(** ** The event loop *)
Section server.
Context {W : Type} `{!Kernel W} (R : relation W) `{!SysKeeps R} (fuel : nat).
Abbreviation KS := (Keeps R (λ st : srv_state W, m_world (sv_m st))).

Lemma keeps_sv_w {A} (c : M W A) : Keeps R (λ w, w) c → KS (sv_w c).
Proof. by apply (keeps_zoom R (λ w, w) (λ st, m_world (sv_m st))). Qed.
Lemma keeps_at_endpoint {A} this (c : Poll.Poll → M (ep_state W) A) :
  (∀ p, Keeps R (λ e : ep_state W, m_world (e_m e)) (c p)) → KS (at_endpoint this c).
Proof.
  intros Hc st a st' Heq. unfold at_endpoint in Heq.
  destruct (sv_objs st !! this) as [ep|]; [|done].
  destruct (c _ _) as [[b e]|] eqn:H1; [|done]. simplify_eq. apply (Hc _ _ _ _ H1).
Qed.
#[local] Hint Resolve keeps_sv_w keeps_at_endpoint : keeps.

Lemma keeps_delete_endpoint this : KS (delete_endpoint this).
Proof. unfold delete_endpoint, set_objs. keeps. Qed.
#[local] Hint Resolve keeps_delete_endpoint : keeps.
Lemma keeps_erase fd : KS (erase fd).
Proof. unfold erase, app, set_endpoints. keeps. Qed.
Lemma keeps_assign_endpoint fd this : KS (assign_endpoint fd this).
Proof. unfold assign_endpoint, app, set_endpoints. keeps. Qed.
Lemma keeps_make_endpoint fd : KS (make_endpoint fd).
Proof. unfold make_endpoint, app, set_objs. keeps. Qed.
#[local] Hint Resolve keeps_erase keeps_assign_endpoint keeps_make_endpoint : keeps.
Lemma keeps_HandleNewConnection : KS HandleNewConnection.
Proof. unfold HandleNewConnection, app. keeps. Qed.
#[local] Hint Resolve keeps_HandleNewConnection : keeps.
Lemma keeps_handle_event ev : KS (handle_event fuel ev).
Proof. unfold handle_event, app. keeps. Qed.
#[local] Hint Resolve keeps_handle_event : keeps.
Lemma keeps_handle_events evs : KS (handle_events fuel evs).
Proof. induction evs; cbn [handle_events]; keeps. Qed.
End server.

(** What a mode of verification relies on is kept by every call, so by the handling of
    other connections too. *)
Definition io_kept_by {W} `{!Kernel W, !KernelLaws W} {E fuel} `{!IOMode W E fuel} : relation W :=
  λ w w', (io_ok w → io_ok w') ∧ (io_patience w' ≤ io_patience w)%nat.

Class IOKept (W : Type) `{!Kernel W, !KernelLaws W} (E : stop → Prop) (fuel : nat)
    `{!IOMode W E fuel} : Prop := {
  io_kept_calls :: SysKeeps io_kept_by;
  io_kept_wait epfd maxev timeout w : io_kept_by w (sys_epoll_wait epfd maxev timeout w).2;
}.

(** Of a world of finite patience this holds. *)
#[export] Instance io_total_kept `{KernelPatience W} fuel : IOKept W total fuel.
Proof.
  assert (Hle : ∀ w w', (k_patience w' ≤ k_patience w)%nat →
    io_kept_by (E := total) (fuel := fuel) w w')
    by (intros w w' ?; split; simpl; lia).
  assert (PreOrder (io_kept_by (W := W) (E := total) (fuel := fuel))).
  { split; [by intros w; split|]. intros w1 w2 w3 [? ?] [? ?]. split; [auto|lia]. }
  split; [split; [done|..]|]; intros; apply Hle; first
    [ apply patience_recv | apply patience_send | apply patience_epoll_ctl
    | apply patience_accept | apply patience_close | apply patience_getpeername
    | apply patience_getnameinfo | apply patience_call | apply patience_memalign
    | apply patience_epoll_wait ].
Qed.
