(* ===== verification/ServerTypes.v ===== *)
(** The types of the objects of the socket server: what its members point to, and how
    far their positions are, in every state of the event loop. *)
From S2P Require Import Prelude CInt Kernel SimKernel Poll Buffer Socket Endpoint EndpointSpec IOMode EndpointProofs EndpointProps SocketBwServer ServerProofs ServerProps.

Local Open Scope Z_scope.

(** A [Buffer] on the block [l]: it starts where the block starts and is as long, its
    position is inside, and its sizes fit their uint32_t. *)
Record typed_buffer (h : heap) (owner : bool) (l : Z) (b : Buffer) : Prop := {
  tb_ptr : ptr_ b = Some (Ptr l 0);
  tb_block : ∃ blk, h !! l = Some blk ∧ size_ b = Z.of_nat (length blk);
  tb_range : 0 ≤ bytes_handled_ b ≤ msg_length_ b ∧ msg_length_ b = size_ b ∧ size_ b < 2 ^ 32;
  tb_owner : is_owner_ b = owner;
}.

(** A member that owns its block, or is null. *)
Definition typed_owner (h : heap) (o : option Buffer) : Prop :=
  match o with Some b => ∃ l, typed_buffer h true l b | None => True end.

(** A member that borrows the block of an owning one. *)
Definition typed_view (h : heap) (owner view : option Buffer) : Prop :=
  ∃ o v l, owner = Some o ∧ view = Some v ∧ typed_buffer h true l o ∧ typed_buffer h false l v.

(** An endpoint: which members are set depends on its state. *)
Record typed_endpoint (h : heap) (ep : BwServerEndpoint) : Prop := {
  te_header : typed_owner h (header_buffer_owner_ ep);
  te_data : typed_owner h (data_buffer_owner_ ep);
  te_reply : is_Some (reply_buffer_ ep) ↔ state_ ep = DATA_RECVED;
  te_queue : tx_queue_ ep ≠ [] ↔ state_ ep = REPLYING;
  te_state :
    match state_ ep with
    | NEW_RPC => True
    | META_RECVED | HEADER_RECVED =>
        typed_view h (header_buffer_owner_ ep) (header_buffer_ ep) ∧
        typed_view h (data_buffer_owner_ ep) (data_buffer_ ep)
    | DATA_RECVED => typed_view h (header_buffer_owner_ ep) (reply_buffer_ ep)
    | REPLYING =>
        ∃ v, tx_queue_ ep = [v] ∧ typed_view h (header_buffer_owner_ ep) v
    end;
}.

Lemma typed_owner_block h l blk :
  h !! l = Some blk → Z.of_nat (length blk) < 2 ^ 32 → typed_buffer h true l (ownerb l (length blk)).
Proof. intros. split; [done|by exists blk|simpl; lia|done]. Qed.

Lemma typed_view_block h l blk k :
  h !! l = Some blk → Z.of_nat (length blk) < 2 ^ 32 → (k ≤ length blk)%nat →
  typed_view h (owner (Some (l, blk))) (Some (viewb l (length blk) k)).
Proof.
  intros Hl Hlen Hk. eexists _, _, l. split_and!; [done|done|by apply typed_owner_block|].
  split; [done|by exists blk|simpl; lia|done].
Qed.

(** The representation of EndpointProofs.v is typed. *)
Lemma rep_typed fd ep H D ph h :
  ep_rep fd ep H D ph → owns H h → owns D h → typed_endpoint h ep.
Proof.
  assert (Hown : ∀ X, owns X h → typed_owner h (owner X)).
  { intros [[l b]|]; simpl; [|done]. intros [? ?]. exists l. by apply typed_owner_block. }
  intros Hep HH HD. pose proof (Hown _ HH) as HtH. pose proof (Hown _ HD) as HtD.
  assert (Hview : ∀ l b k, owns (Some (l, b)) h → (k ≤ length b)%nat →
    typed_view h (owner (Some (l, b))) (Some (viewb l (length b) k))).
  { intros l b k [? ?] ?. by apply typed_view_block. }
  inversion Hep as [|? ? lh hb ld db k j ? Hk Hj ? [->|[-> _]]|? ? lh hb|? ? lh hb ? ? ? j]; subst;
    (split; [exact HtH|exact HtD|simpl; split; try done; by intros []|simpl; by split|]).
  - exact I.
  - split; apply Hview; [done|done|done|]. destruct Hj as [?|[-> ->]]; [lia|done].
  - split; apply Hview; [done|done|done|]. destruct Hj as [?|[-> ->]]; [lia|done].
  - apply Hview; [done|lia].
  - eexists. split; [done|]. by apply Hview.
Qed.

Section server.
Context {W : Type} `{!Kernel W, !KernelLaws W}.
Context (fuel n : nat) (port timeout_ms max_events : Z) (p : Poll.Poll) (w : W).

(** C10. The objects of the server are well typed.  After any number of rounds, whatever
    the clients send and the kernel does, every endpoint has exactly the members of its
    state: each is a buffer as long as its live block, with its position inside and its
    sizes in 32 bits; the views borrow the blocks of the owning members of the same
    object; and no two endpoints share a block. *)
Theorem server_well_typed st :
  reached fuel n port timeout_ms max_events p w st →
  (∀ tok ep, sv_objs st !! tok = Some ep → typed_endpoint (m_heap (sv_m st)) ep) ∧
  ∀ tok1 tok2 ep1 ep2, sv_objs st !! tok1 = Some ep1 → sv_objs st !! tok2 = Some ep2 →
  tok1 ≠ tok2 → ep_locs ep1 ## ep_locs ep2.
Proof.
  intros [HI Hp]%reached_SInv. split; [|apply (si_disj _ _ _ HI)].
  intros tok ep Hep. destruct (si_objs _ _ _ HI _ _ Hep) as [Ho|(_ & H & D & ph & base & Hr & Hm)].
  - destruct Ho as (_ & s & base & H & D & ph & [Hr Hm _ _ _] & _).
    apply mem_rep_owns in Hm as (HH & HD & _). by eapply rep_typed.
  - apply mem_rep_owns in Hm as (HH & HD & _). by eapply rep_typed.
Qed.
End server.

(** Two endpoints: one has answered a request, the other one has read nothing. *)
Lemma server_well_typed_witness :
  (∀ tok ep, sv_objs demo_st !! tok = Some ep → typed_endpoint (m_heap (sv_m demo_st)) ep) ∧
  ∀ tok1 tok2 ep1 ep2, sv_objs demo_st !! tok1 = Some ep1 → sv_objs demo_st !! tok2 = Some ep2 →
  tok1 ≠ tok2 → ep_locs ep1 ## ep_locs ep2.
Proof. apply (server_well_typed 100 2 18000 1000 1024 demo_epoll demo_world), demo_reached. Defined.
