(* ===== verification/ServerLive.v ===== *)
(** The server over a reliable kernel: whatever the other connections do, each one
    is answered. *)
From S2P Require Import Prelude CInt Kernel SimKernel Poll Buffer Socket Endpoint EndpointSpec IOMode EndpointProofs EndpointProps SocketBwServer ServerProofs ServerProps Keeps.

Local Open Scope Z_scope.
#[local] Set Default Proof Using "Type*".

(** ** One event of a connection is a run of its handlers *)

Definition readiness_of (ev : epoll_event) : list readiness :=
  (if Event.IsReadable ev then [Readable] else []) ++
  (if Event.IsWritable ev then [Writable] else []).

(** The event says that the connection [tok] can be read and written. *)
Definition ready_for (tok : Z) (ev : epoll_event) : bool :=
  (ev_data ev =? tok) && Event.IsReadable ev && Event.IsWritable ev.

(** ** Runs of the event loop *)

Section runs.
Context {W : Type} `{!Kernel W, !KernelLaws W} (fuel : nat).
Implicit Types (st : srv_state W) (ep : BwServerEndpoint).

Abbreviation socks m := (kv_sock (kview (m_world m))).
Abbreviation poll st := (poll_ (sv_app st)).
Abbreviation world st := (m_world (sv_m st)).

(** [served st evs st']: from [st] the loop has waited for events and handled the
    events [evs], each of a descriptor that was registered when it was handled. *)
Inductive served : srv_state W → list epoll_event → srv_state W → Prop :=
  | served_nil st : served st [] st
  | served_wait st max_events timeout_ms r st1 evs st' :
      sv_w (Poll.PollUntil (poll st) max_events timeout_ms) st = Ret (r, st1) →
      served st1 evs st' → served st evs st'
  | served_event st fd ev st1 evs st' :
      reported st fd ev → handle_event fuel ev st = Ret (tt, st1) →
      served st1 evs st' → served st (ev :: evs) st'.

Lemma wait_SInv st max_events timeout_ms r st1 :
  sv_w (Poll.PollUntil (poll st) max_events timeout_ms) st = Ret (r, st1) →
  SInv fuel None st →
  SInv fuel None st1 ∧ sv_app st1 = sv_app st ∧
  kview (world st1) = kview (world st) ∧ (∀ tok ep, sv_objs st !! tok = Some ep → undisturbed st tok ep st1).
Proof.
  intros Hrun HI.
  unfold sv_w, zoom, Poll.PollUntil, Selector.Select, lift in Hrun.
  destruct (sys_epoll_wait _ _ _ _) as [r' w'] eqn:Hw. simplify_eq.
  apply epoll_wait_view in Hw as Hv. cbn [sv_m sv_app sv_objs m_world set_world] in *.
  split_and!; [by apply SInv_world|done|done|].
  intros tok ep Hep. unfold undisturbed. cbn [sv_objs sv_m m_heap m_world set_world].
  by rewrite Hv.
Qed.

Lemma event_SInv st fd ev st1 :
  SInv fuel None st → reported st fd ev → handle_event fuel ev st = Ret (tt, st1) →
  SInv fuel None st1 ∧ poll st1 = poll st.
Proof.
  intros HI Hrep Hrun. pose proof (handle_event_SInv _ _ _ _ HI Hrep) as Hwp.
  by destruct (wp_elim _ _ _ _ _ _ Hwp Hrun) as (? & [_ ?] & _).
Qed.

Lemma served_SInv st evs st' :
  served st evs st' → SInv fuel None st → SInv fuel None st' ∧ poll st' = poll st.
Proof.
  induction 1 as [|st ? ? ? st1 evs st' Hrun _ IH|st fd ev st1 evs st' Hrep Hrun _ IH]; intros HI.
  - done.
  - destruct (wait_SInv _ _ _ _ _ Hrun HI) as (HI1 & Ha & _). rewrite <- Ha. by apply IH.
  - destruct (event_SInv _ _ _ _ HI Hrep Hrun) as [HI1 Hp]. rewrite <- Hp. by apply IH.
Qed.

(** The events reported in the rounds of the loop. *)
Fixpoint reports (n : nat) (max_events timeout_ms : Z) st : list epoll_event :=
  match n with
  | O => []
  | S n =>
      match sv_w (Poll.PollUntil (poll st) max_events (Some timeout_ms)) st with
      | Ret (Some evs, st1) =>
          match handle_events fuel evs st1 with
          | Ret (_, st2) => evs ++ reports n max_events timeout_ms st2
          | Stop _ => []
          end
      | _ => []
      end
  end.

Lemma served_app st1 evs1 st2 evs2 st3 :
  served st1 evs1 st2 → served st2 evs2 st3 → served st1 (evs1 ++ evs2) st3.
Proof. induction 1; intros; simpl; [done|by eapply served_wait; eauto|by eapply served_event; eauto]. Qed.

(** The events of a wait that have not been handled yet. *)
Definition due st (evs : list epoll_event) : Prop :=
  ∃ fds, NoDup fds ∧ Forall2 (reported st) fds evs.

Lemma due_nil st : due st [].
Proof. exists []. split; constructor. Qed.

Lemma wait_due st max_events timeout_ms evs st1 :
  sv_w (Poll.PollUntil (poll st) max_events timeout_ms) st = Ret (Some evs, st1) →
  SInv fuel None st → due st1 evs.
Proof.
  intros Hwait HI. destruct (wait_SInv _ _ _ _ _ Hwait HI) as (_ & Ha & Hv & _).
  unfold sv_w, zoom, Poll.PollUntil, Selector.Select, lift in Hwait.
  destruct (sys_epoll_wait _ _ _ _) as [r' w'] eqn:Hw. simplify_eq.
  destruct (epoll_wait_events _ _ _ _ _ _ Hw) as (_ & fds & Hnd & Hrep).
  exists fds. split; [done|]. revert Hrep. apply Forall2_impl. intros fd ev (r & Hr & Hd).
  exists r. cbn [sv_app sv_m m_world set_world] in *. by rewrite Hv.
Qed.

Lemma event_due st ev evs st1 :
  SInv fuel None st → due st (ev :: evs) → handle_event fuel ev st = Ret (tt, st1) →
  (∃ fd, reported st fd ev) ∧ due st1 evs.
Proof.
  intros HI (fds & Hnd & Hrep) Hrun.
  apply Forall2_cons_inv_r in Hrep as (fd & fds' & Hr & Hrep & ->). split; [by exists fd|].
  inversion_clear Hnd as [|? ? Hnin Hnd']. exists fds'. split; [done|].
  pose proof (handle_event_SInv _ _ _ _ HI Hr) as Hwp.
  destruct (wp_elim _ _ _ _ _ _ Hwp Hrun) as (HI1 & [_ Hp] & Hk).
  clear Hnd'. revert Hnin. induction Hrep as [|fd' ev' fds' evs (r & Hr' & Hd) _ IHrep];
    [constructor|]. intros [Hne Hnin]%not_elem_of_cons. constructor.
  - exists r. rewrite Hp. split; [|done]. by apply Hk.
  - by apply IHrep.
Qed.

Lemma handle_events_served evs st st' :
  SInv fuel None st → due st evs → handle_events fuel evs st = Ret (tt, st') →
  served st evs st'.
Proof.
  revert st. induction evs as [|ev evs IH]; intros st HI Hdue Hrun; cbn [handle_events] in Hrun.
  { unfold mret, M_ret in Hrun. simplify_eq. constructor. }
  unfold mbind, M_bind in Hrun.
  destruct (handle_event fuel ev st) as [[[] st1]|] eqn:Hrun1; [|done].
  destruct (event_due _ _ _ _ HI Hdue Hrun1) as [[fd Hr] Hdue1].
  eapply served_event; [exact Hr|exact Hrun1|]. apply IH; [|done|done].
  by eapply event_SInv.
Qed.

(** The loop of [Run] is such a run. *)
Lemma rounds_served n max_events timeout_ms st st' :
  SInv fuel None st → rounds fuel n max_events timeout_ms st = Ret (tt, st') →
  served st (reports n max_events timeout_ms st) st'.
Proof.
  revert st. induction n as [|n IH]; intros st HI Hrun; cbn [rounds reports] in *.
  { unfold mret, M_ret in Hrun. simplify_eq. constructor. }
  unfold round, app, mbind, M_bind, gets in Hrun. cbn [sv_app] in Hrun.
  destruct (sv_w _ st) as [[[evs|] st1]|] eqn:Hwait; [|done|done].
  destruct (handle_events fuel evs st1) as [[[] st2]|] eqn:Hev; [|done].
  destruct (wait_SInv _ _ _ _ _ Hwait HI) as (HI1 & Ha & Hv & _).
  eapply served_wait; [exact Hwait|].
  assert (served st1 evs st2) as Hs1
    by (apply handle_events_served; [done|by eapply wait_due|done]).
  eapply served_app; [exact Hs1|]. apply IH; [|done]. by apply (served_SInv _ _ _ Hs1).
Qed.
End runs.

(** ** A connection of the server, in any mode of verification *)

Section conn.
Context {W : Type} `{!Kernel W, !KernelLaws W} {E : stop → Prop} (fuel : nat)
  `{!IOMode W E fuel, !IOMeta W E fuel, !IOKept W E fuel}.
Implicit Types (st : srv_state W) (ep : BwServerEndpoint).

Abbreviation socks m := (kv_sock (kview (m_world m))).
Abbreviation poll st := (poll_ (sv_app st)).
Abbreviation world st := (m_world (sv_m st)).

Lemma handle_event_run st ev ep :
  sv_objs st !! ev_data ev = Some ep → ev_data ev ≠ u64 (listener_ (sv_app st)) →
  closes ev = false →
  handle_event fuel ev st =
  at_endpoint (ev_data ev) (λ p, run_events fuel p (ev_data ev) (readiness_of ev)) st.
Proof using Type.
  unfold closes. intros Hep Hl%Z.eqb_neq Hcl. destruct st as [a o m]. cbn [sv_objs sv_app] in *.
  unfold handle_event, app, mbind, M_bind, gets. cbn [sv_app]. unfold Event.token.
  rewrite Hl, Hcl. unfold readiness_of.
  destruct (Event.IsReadable ev), (Event.IsWritable ev); unfold at_endpoint, mret, M_ret;
    cbn [sv_objs sv_app sv_m run_events on_ready Datatypes.app]; rewrite ?Hep;
    unfold mbind, M_bind, mret, M_ret.
  - destruct (OnRecvReady _ _ _ _) as [[[] e1]|]; [|done]. cbn [sv_objs sv_app sv_m].
    rewrite lookup_insert_eq. destruct e1 as [ep1 m1]. cbn [e_ep e_m].
    destruct (OnSendReady _ _ _) as [[[] e2]|]; [|done]. by rewrite insert_insert_eq.
  - by destruct (OnRecvReady _ _ _ _) as [[[] e1]|].
  - by destruct (OnSendReady _ _ _) as [[[] e2]|].
  - cbn [e_ep e_m]. by rewrite insert_id.
Qed.

(** ** A connection in the server *)

(** The endpoint at [tok] serves its connection on [fd]; it has the streams [s], is there
    for [O], and at most [n] events with something to do are left. *)
Definition conn (tok fd : Z) (O : goal) (n : nat) (s : sock_view) st : Prop :=
  0 ≤ fd ∧ ∃ ep, sv_objs st !! tok = Some ep ∧ sock_ ep = fd ∧
  live (E := E) fuel (poll st) tok O n s ep (sv_m st).

Lemma conn_sock tok fd O n s st : conn tok fd O n s st → socks (sv_m st) !! fd = Some s.
Proof. intros (_ & ep & _ & <- & Hl). by eapply (live_sock _ _ (E := E)). Qed.

Lemma live_stream tok O n s ep m p :
  live (E := E) fuel p tok O n s ep m → io_exact → ∃ H D ph, stream_ok O s H D ph.
Proof. intros (base & H & D & ph & [_ _ _ Hst _] & _) Hx. exists H, D, ph. by apply Hst. Qed.

Lemma live_sent tok O n s ep m p :
  live (E := E) fuel p tok O n s ep m → io_exact → sv_tx s `prefix_of` g_all O.
Proof.
  intros Hl Hx. destruct (live_stream _ _ _ _ _ _ _ Hl Hx) as (H & D & ph & HO%stream_ok_all).
  eexists. symmetry. exact HO.
Qed.

Lemma live_read tok O n s ep m p :
  live (E := E) fuel p tok O n s ep m → io_exact → g_in O = sv_read s ++ sv_rx s.
Proof. intros Hl Hx. by destruct (live_stream _ _ _ _ _ _ _ Hl Hx) as (H & D & ph & ? & _). Qed.

Lemma conn_sent tok fd O n s st :
  conn tok fd O n s st → io_exact → sv_tx s `prefix_of` g_all O.
Proof. intros (_ & ep & _ & _ & Hl). by eapply live_sent. Qed.

(** A round of both handlers. *)
Lemma live_round tok O n s ep m p :
  live (E := E) fuel p tok O n s ep m →
  wp E (run_events fuel p tok [Readable; Writable]) (EpState ep m) (λ _ e', ∃ n' s',
  live (E := E) fuel p tok O n' s' (e_ep e') (e_m e') ∧ (n' ≤ n)%nat ∧
  (io_live → (n' < n)%nat ∨ s' = done_with O)).
Proof.
  intros [base HI]. eapply wp_mono; [by eapply (round_progress (E := E))|].
  intros _ [ep' m'] (n' & s' & HI' & ? & Hn). exists n', s'. cbn [e_ep e_m].
  destruct (live_step _ _ (E := E) _ _ _ _ _ _ _ _ _ _ _ HI HI') as (? & _).
  split_and!; [done|done|]. intros Hx. destruct (Hn Hx) as [|(Hrx & Hst)]; [by left|right].
  exact (Inv_done _ _ _ _ _ _ _ _ _ _ HI' (io_live_exact Hx) Hrx Hst).
Qed.

(** The same for any event, with progress when it has both flags. *)
Lemma progress_both p tok b rs O n s ep m :
  live (E := E) fuel p tok O n s ep m → (b = true → rs = [Readable; Writable]) →
  wp E (run_events fuel p tok rs) (EpState ep m) (λ _ e', ∃ n' s',
  live (E := E) fuel p tok O n' s' (e_ep e') (e_m e') ∧ (n' ≤ n)%nat ∧
  (b = true → io_live → (n' < n)%nat ∨ s' = done_with O)).
Proof.
  intros Hl Hb. destruct b.
  - rewrite Hb by done. eapply wp_mono; [by eapply live_round|].
    intros _ e' (n' & s' & ? & ? & ?). exists n', s'. by split_and!.
  - eapply wp_mono; [by eapply (run_events_live _ _ (E := E))|].
    intros _ e' (n' & s' & ? & _ & _ & ? & _). by exists n', s'.
Qed.

Lemma conn_accepted st tok fd inp ep :
  SInv fuel None st → sv_objs st !! tok = Some ep →
  accepted (poll st) tok fd inp (EpState ep (sv_m st)) → io_ok (world st) →
  conn tok fd (echo inp) (length inp + io_patience (world st)) (SockView [] inp []) st.
Proof.
  intros HI Hep Hacc Hok. pose proof Hacc as ((addr & Heq) & _ & Hreg). cbn [e_ep e_m] in *.
  assert (sock_ ep = fd) as Hsk by by subst ep. split.
  - destruct (si_reg _ _ _ HI _ _ Hreg) as [[_ Hd]|(_ & _ & _ & ?)]; [|done].
    pose proof (si_listener _ _ _ HI). cbn [ev_data] in Hd. congruence.
  - exists ep. split_and!; [done|done|].
    exact (accepted_live fuel (poll st) (E := E) tok fd inp ep (sv_m st) Hacc Hok).
Qed.

(** What does not disturb the connection leaves it as it is. *)
Lemma conn_frame tok fd O n s st st' :
  conn tok fd O n s st → poll st' = poll st →
  (∀ ep, sv_objs st !! tok = Some ep → sock_ ep ≠ -1 → undisturbed st tok ep st') →
  io_kept_by (world st) (world st') → conn tok fd O n s st'.
Proof.
  intros (Hpos & ep & Hep & Hsk & Hl) Hp Hu [Hok Hpat].
  destruct (Hu ep Hep ltac:(lia)) as (Hep' & Hh & Hs & Hr).
  split; [done|]. exists ep. split_and!; [done|done|]. rewrite Hp.
  pose proof Hl as (base & H & D & ph & [_ _ (_ & _ & Hok' & _) _ _] & _).
  eapply (live_frame _ _ (E := E)); [exact Hl|done..|by apply Hok|exact Hpat].
Qed.

(** ** One event *)

Lemma own_event_run st ev ep Q :
  SInv fuel None st → sv_objs st !! ev_data ev = Some ep → closes ev = false →
  wp E (run_events fuel (poll st) (ev_data ev) (readiness_of ev)) (EpState ep (sv_m st))
    (λ a e', Q a (Srv (sv_app st) (<[ev_data ev := e_ep e']> (sv_objs st)) (e_m e'))) →
  wp E (handle_event fuel ev) st Q.
Proof using Type.
  intros HI Hep Hcl HQ.
  assert (ev_data ev ≠ u64 (listener_ (sv_app st))) as Hnl.
  { intros Heq. pose proof (si_listener _ _ _ HI). congruence. }
  unfold wp. rewrite (handle_event_run _ _ _ Hep Hnl Hcl). by eapply wp_at_endpoint.
Qed.

(** An event of the connection itself: the handlers keep it, and make progress. *)
Lemma own_event tok fd O n s st ev :
  SInv fuel None st → conn tok fd O n s st → ev_data ev = tok → closes ev = false →
  wp E (handle_event fuel ev) st (λ _ st', ∃ n' s',
  conn tok fd O n' s' st' ∧ (n' ≤ n)%nat ∧
  (io_exact → s = done_with O → s' = done_with O) ∧
  (io_live → ready_for tok ev = true → (n' < n)%nat ∨ s' = done_with O)).
Proof.
  intros HI (Hpos & ep & Hep & Hsk & Hl) Hev Hcl. subst tok. eapply own_event_run; [done|done|done|].
  eapply wp_mono.
  { eapply wp_and; [by eapply (run_events_live _ _ (E := E))|].
    apply (progress_both _ _ (ready_for (ev_data ev) ev) _ O n s _ _ Hl).
    unfold ready_for, readiness_of. rewrite Z.eqb_refl.
    by destruct (Event.IsReadable ev), (Event.IsWritable ev). }
  intros _ [ep' m'] [(n1 & s1 & Hl1 & Hs1 & _ & ? & Hrx & Htx) (n2 & s2 & Hl2 & ? & Hn2)].
  cbn [e_ep e_m] in *. exists n2, s2.
  assert (s1 = s2) as -> by (apply live_sock in Hl1, Hl2; congruence).
  split_and!; [|done| |].
  - split; [done|]. exists ep'. cbn [sv_objs sv_m sv_app].
    split_and!; [by rewrite lookup_insert_eq|congruence|done].
  - intros Hx ->. cbn [sv_rx sv_tx] in *. pose proof (live_sent _ _ _ _ _ _ _ Hl2 Hx) as Hpre.
    apply done_with_eq; [by eapply live_read|by apply Hrx|]. by apply (anti_symm prefix).
  - intros Hx Hr. by apply Hn2.
Qed.

(** An event of another connection, or a new connection. *)
Lemma other_event tok fd O n s st fd' ev st' :
  SInv fuel None st → conn tok fd O n s st → reported st fd' ev → tok ≠ ev_data ev →
  handle_event fuel ev st = Ret (tt, st') → poll st' = poll st → conn tok fd O n s st'.
Proof.
  intros HI Hc Hrep Hne Hrun Hp. eapply conn_frame; [done|done| |].
  - intros ep Hep Hsk. pose proof (handle_event_undisturbed _ _ _ _ _ _ HI Hrep Hep Hsk Hne) as Hu.
    by eapply wp_elim in Hu.
  - by eapply (keeps_handle_event io_kept_by).
Qed.

(** ** A connection through a run *)

Lemma wait_kept st max_events timeout_ms r st1 :
  sv_w (Poll.PollUntil (poll st) max_events timeout_ms) st = Ret (r, st1) →
  io_kept_by (world st) (world st1).
Proof.
  intros Hrun. eapply (keeps_sv_w io_kept_by); [|exact Hrun].
  apply (keeps_PollUntil io_kept_by). intros. apply io_kept_wait.
Qed.

(** A connection through a run: it is served as long as nothing asks for its end, and
    every event that finds it ready brings it nearer to its end. *)
Lemma served_conn tok fd O n s st evs st' :
  served fuel st evs st' → SInv fuel None st → conn tok fd O n s st →
  Forall (λ ev, ev_data ev = tok → closes ev = false) evs →
  ∃ n' s', conn tok fd O n' s' st' ∧ (io_exact → s = done_with O → s' = done_with O) ∧
  (io_live → n' + length (filter (ready_for tok) evs) ≤ n ∨ s' = done_with O)%nat.
Proof.
  intros Hrun. revert n s.
  induction Hrun as [st|st ? ? ? st1 evs st' Hrun _ IH|st fd' ev st1 evs st' Hrep Hrun _ IH];
    intros n s HI Hc Hcl.
  - exists n, s. split_and!; [done|done|left; simpl; lia].
  - destruct (wait_SInv _ _ _ _ _ _ Hrun HI) as (HI1 & Ha & _ & Hu).
    apply IH; [done| |done].
    eapply conn_frame; [done|by rewrite Ha|auto|by eapply wait_kept].
  - apply Forall_cons_iff in Hcl as [Hcl1 Hcl].
    destruct (event_SInv _ _ _ _ _ HI Hrep Hrun) as [HI1 Hp].
    rewrite filter_cons. destruct (decide (ev_data ev = tok)) as [Hev|Hne].
    + pose proof (own_event _ _ _ _ _ _ _ HI Hc Hev (Hcl1 Hev)) as Hown.
      destruct (wp_elim _ _ _ _ _ _ Hown Hrun) as (n1 & s1 & Hc1 & ? & Hd1 & Hn1).
      destruct (IH n1 s1 HI1 Hc1 Hcl) as (n2 & s2 & Hc2 & Hd2 & Hn2).
      exists n2, s2. split_and!; [done|auto|]. intros Hx. specialize (Hn2 Hx).
      case_decide as Hr; [|destruct Hn2; [left; lia|by right]].
      apply Is_true_true in Hr. destruct (Hn1 Hx Hr) as [|Hd]; [|right; by apply Hd2; [apply io_live_exact|]].
      destruct Hn2; [left; simpl; lia|by right].
    + assert (Hr : ¬ ready_for tok ev).
      { unfold ready_for. rewrite (proj2 (Z.eqb_neq _ _)) by done. by intros []. }
      rewrite decide_False by done. apply IH; [done| |done].
      eapply other_event; [exact HI|exact Hc|exact Hrep|congruence|exact Hrun|exact Hp].
Qed.
End conn.

(** * The properties *)

Section theorems.
Context {W : Type} `{!Kernel W, !KernelLaws W, !KernelReliable W, !KernelPatience W}.
Context (fuel n : nat) (port timeout_ms max_events : Z) (p : Poll.Poll) (w : W).

Abbreviation world st := (m_world (sv_m st)).

(** The server has been started and has run on for a while; then the connection [fd]
    has just been accepted, with the endpoint [tok] and [inp] to come from its peer. *)
Definition joined (st : srv_state W) (tok fd : Z) (inp : list byte) : Prop :=
  (∃ st0 evs0, reached fuel n port timeout_ms max_events p w st0 ∧ served fuel st0 evs0 st) ∧
  (∃ ep, sv_objs st !! tok = Some ep ∧ accepted p tok fd inp (EpState ep (sv_m st))) ∧
  (8 + k_patience (world st) < fuel)%nat.

(** No event asks for the end of the connection. *)
Definition kept_open (tok : Z) (evs : list epoll_event) : Prop :=
  Forall (λ ev, ev_data ev = tok → closes ev = false) evs.

Lemma joined_conn st tok fd inp :
  joined st tok fd inp →
  SInv fuel None st ∧
  conn (E := total) fuel tok fd (echo inp) (length inp + k_patience (world st))
    (SockView [] inp []) st.
Proof.
  intros ((st0 & evs0 & [HI Hp]%reached_SInv & Hserved) & (ep & Hep & Hacc) & Hfuel).
  destruct (served_SInv _ _ _ _ Hserved HI) as [HI1 Hp1]. split; [done|].
  rewrite <- Hp, <- Hp1 in Hacc.
  exact (conn_accepted fuel (E := total) st tok fd inp ep HI1 Hep Hacc Hfuel).
Qed.

(** C8. The server refines the reference function.  Over a kernel without failures,
    take any connection from the moment it is accepted.  However its events and those
    of the other connections, old and new, are interleaved, until one asks for its
    end: what it has sent is a prefix of [answer] of what its peer sends, and the
    handling of its next event returns. *)
Theorem server_refines_answer st tok fd inp evs st' :
  joined st tok fd inp → served fuel st evs st' → kept_open tok evs →
  (∃ s, kv_sock (kview (world st')) !! fd = Some s ∧ sv_tx s `prefix_of` answer 0 0 inp) ∧
  ∀ ev, ev_data ev = tok → closes ev = false →
  wp total (handle_event fuel ev) st' (λ _ _, True).
Proof.
  intros [HI Hc]%joined_conn Hserved Hopen.
  destruct (served_conn _ (E := total) _ _ _ _ _ _ _ _ Hserved HI Hc Hopen) as (n' & s' & Hc' & _).
  split.
  - exists s'. rewrite <- g_all_echo. split; [by eapply (conn_sock _ (E := total))|].
    by eapply (conn_sent _ (E := total)).
  - intros ev Hev Hcl. destruct (served_SInv _ _ _ _ Hserved HI) as [HI' _].
    eapply wp_mono; [by eapply (own_event _ (E := total))|done].
Qed.

(** C7. Every request of every connection is answered.  When the peer sends the
    requests [reqs], none smaller than one before it, then as soon as more events have
    found the connection readable and writable than the peer sends bytes and transfers
    can block, everything has been read and every header has been sent back, in
    order -- whatever happens on the other connections meanwhile. *)
Theorem server_echoes_headers st tok fd reqs evs st' :
  joined st tok fd (concat (frame <$> reqs)) → nondecreasing 0 0 reqs →
  served fuel st evs st' → kept_open tok evs →
  (length (concat (frame <$> reqs)) + k_patience (world st) <
   length (filter (ready_for tok) evs))%nat →
  kv_sock (kview (world st')) !! fd =
  Some (SockView (concat (frame <$> reqs)) [] (concat reqs.*1)).
Proof.
  intros [HI Hc]%joined_conn Hreqs Hserved Hopen Hlen.
  rewrite <- (answer_frames 0 0 reqs Hreqs), <- g_all_echo.
  change (SockView _ [] _) with (done_with (echo (concat (frame <$> reqs)))).
  destruct (served_conn _ (E := total) _ _ _ _ _ _ _ _ Hserved HI Hc Hopen) as (n' & s' & Hc' & _ & Hn).
  destruct (Hn I) as [|Hs]; [lia|]. rewrite <- Hs. by eapply (conn_sock _ (E := total)).
Qed.
End theorems.

(** * Examples *)

(** A client connects and sends two requests; then a second one connects, and their
    events alternate while transfers block or are cut short. *)
Definition duo_world : sim :=
  Sim ∅ ∅ [Block; Chunk 3; Block; Chunk 2; Chunk 1] 0
    [concat (frame <$> demo_reqs); frame ([x61], [])]
    ([(3, EPOLLIN)] :: [(3, EPOLLIN)] ::
     replicate 32 [(5, EPOLLIN); (4, Z.lor EPOLLIN EPOLLOUT)]).
Definition duo_at (n : nat) : srv_state sim :=
  match server_Run 100 n 18000 1000 1024 (server_start demo_epoll duo_world) with
  | Ret (_, st) => st
  | Stop _ => server_start demo_epoll duo_world
  end.
Definition duo_tok : Z := default 0 (endpoints_ (sv_app (duo_at 1)) !! 4).
(** What is reported after the first client has been accepted. *)
Definition duo_events : list epoll_event := reports 100 33 1024 1000 (duo_at 1).

Lemma duo_joined : joined 100 1 18000 1000 1024 demo_epoll duo_world (duo_at 1) duo_tok 4
  (concat (frame <$> demo_reqs)).
Proof.
  split_and!.
  - exists (duo_at 1), []. split; [|constructor].
    split_and!; [reflexivity|reflexivity|vm_compute; reflexivity].
  - eexists. split; [vm_compute; reflexivity|].
    split_and!; [eexists|..]; vm_compute; reflexivity.
  - apply Nat.ltb_lt. vm_compute. reflexivity.
Qed.

Lemma duo_served : served 100 (duo_at 1) duo_events (duo_at 34).
Proof.
  apply rounds_served.
  - destruct (reached_SInv 100 1 18000 1000 1024 demo_epoll duo_world (duo_at 1)) as [HI _];
      [|exact HI].
    split_and!; [reflexivity|reflexivity|vm_compute; reflexivity].
  - vm_compute. reflexivity.
Qed.

Lemma duo_open : kept_open duo_tok duo_events.
Proof. apply (bool_decide_unpack _). vm_compute. exact I. Qed.

Lemma server_refines_answer_witness :
  (∃ s, kv_sock (kview (m_world (sv_m (duo_at 34)))) !! 4 = Some s ∧
   sv_tx s `prefix_of` answer 0 0 (concat (frame <$> demo_reqs))) ∧
  ∀ ev, ev_data ev = duo_tok → closes ev = false →
  wp total (handle_event 100 ev) (duo_at 34) (λ _ _, True).
Proof.
  apply (server_refines_answer 100 1 18000 1000 1024 demo_epoll duo_world (duo_at 1) duo_tok 4
    (concat (frame <$> demo_reqs)) duo_events); [apply duo_joined|apply duo_served|apply duo_open].
Defined.

Lemma server_echoes_headers_witness :
  kv_sock (kview (m_world (sv_m (duo_at 34)))) !! 4 =
  Some (SockView (concat (frame <$> demo_reqs)) [] [x61; x62; x68; x65; x6c; x6c; x6f]).
Proof.
  apply (server_echoes_headers 100 1 18000 1000 1024 demo_epoll duo_world (duo_at 1) duo_tok 4
    demo_reqs duo_events); [apply duo_joined| |apply duo_served|apply duo_open|].
  - repeat (split; [simpl; lia|]). exact I.
  - apply Nat.ltb_lt. vm_compute. reflexivity.
Defined.
