(* ===== verification/Edge.v ===== *)
(** Edge-triggered epoll (epoll(7)), and what the handlers of an endpoint do about it:
    the program registers every descriptor with EPOLLET, so what a handler leaves
    unread or unsent is reported again only after something new has happened. *)
From S2P Require Import Prelude CInt Kernel Poll Buffer Socket Endpoint EndpointSpec IOMode EndpointProofs EndpointProps SocketBwServer ServerProofs Keeps ServerLive.

Local Open Scope Z_scope.
#[local] Set Default Proof Using "Type*".

(** * The kernel *)

(** A kernel whose calls fail only because they would block. *)
Class KernelFaultless (W : Type) `{!Kernel W, !KernelLaws W} := {
  recv_again fd len flags w w' :
    is_Some (kv_sock (kview w) !! fd) → sys_recv fd len flags w = (None, w') →
    sys_errno w' = EAGAIN;
  send_again fd bs flags w w' :
    is_Some (kv_sock (kview w) !! fd) → sys_send fd bs flags w = (None, w') →
    sys_errno w' = EAGAIN;
  epoll_mod_succeeds epfd fd ev w :
    is_Some (kv_epoll (kview w) !! (epfd, fd)) →
    (sys_epoll_ctl epfd EPOLL_CTL_MOD fd (Some ev) w).1 = 0;
  memalign_succeeds al size w : (sys_memalign al size w).1 ≠ None;
}.

(** What happens below the system calls: the bytes that have arrived on a socket and
    have not been read, whether it has room for bytes to send, and whether a
    registration waits to be reported. *)
Class EdgeOps (W : Type) := {
  k_arrived : W → Z → list byte;
  k_room : W → Z → Prop;
  k_pending : W → Z * Z → Prop;
}.

Section watched.
Context {W : Type} `{!Kernel W, !KernelLaws W, !EdgeOps W}.
Implicit Types (w : W).

(** What can be read, or sent, on a registration that asks for it will be reported. *)
Definition watched_in (key : Z * Z) w : Prop :=
  ∀ e, kv_epoll (kview w) !! key = Some e → has_flag (ev_events e) EPOLLIN = true →
  k_arrived w key.2 ≠ [] → k_pending w key.
Definition watched_out (key : Z * Z) w : Prop :=
  ∀ e, kv_epoll (kview w) !! key = Some e → has_flag (ev_events e) EPOLLOUT = true →
  k_room w key.2 → k_pending w key.

(** A pending registration that asks for what [flag] says. *)
Definition expected (flag : Z) (key : Z * Z) w : Prop :=
  k_pending w key ∧ ∃ e, kv_epoll (kview w) !! key = Some e ∧ has_flag (ev_events e) flag = true.
End watched.

(** The rules.  A registration becomes pending by an event that happens while it
    exists, and when it is made or changed and the condition holds already; it is
    pending no more when it has been reported.  A call that would block, or that
    transfers less than it was asked for, shows that the condition does not hold; so
    the next event will be noticed. *)
Class EdgeLaws (W : Type) `{!Kernel W, !KernelLaws W, !EdgeOps W} : Prop := {
  arrived_prefix fd w s :
    kv_sock (kview w) !! fd = Some s → k_arrived w fd `prefix_of` sv_rx s;
  edge_in_kept key : SysKeeps (λ w w', watched_in key w → watched_in key w');
  edge_out_kept key : SysKeeps (λ w w', watched_out key w → watched_out key w');
  edge_drained epfd fd (w : W) : just_drained fd w → watched_in (epfd, fd) w;
  edge_blocked epfd fd (w : W) : just_blocked fd w → watched_out (epfd, fd) w;
  edge_set epfd op fd ev w w' :
    sys_epoll_ctl epfd op fd (Some ev) w = (0, w') → op = EPOLL_CTL_ADD ∨ op = EPOLL_CTL_MOD →
    watched_in (epfd, fd) w' ∧ watched_out (epfd, fd) w';
  edge_wait_in epfd fd maxev timeout w r w' e :
    sys_epoll_wait epfd maxev timeout w = (r, w') →
    kv_epoll (kview w) !! (epfd, fd) = Some e → watched_in (epfd, fd) w →
    watched_in (epfd, fd) w' ∨
    ∃ evs ev, r = Some evs ∧ ev ∈ evs ∧ ev_data ev = ev_data e ∧ Event.IsReadable ev = true;
  edge_wait_out epfd fd maxev timeout w r w' e :
    sys_epoll_wait epfd maxev timeout w = (r, w') →
    kv_epoll (kview w) !! (epfd, fd) = Some e → watched_out (epfd, fd) w →
    watched_out (epfd, fd) w' ∨
    ∃ evs ev, r = Some evs ∧ ev ∈ evs ∧ ev_data ev = ev_data e ∧ Event.IsWritable ev = true;
}.
#[export] Existing Instances edge_in_kept edge_out_kept.

(** A connection goes on: its streams grow, what has arrived stays until it is read, and
    room until it is used. *)
Definition grown (s s' : sock_view) : Prop :=
  sv_read s `prefix_of` sv_read s' ∧ sv_tx s `prefix_of` sv_tx s'.
Definition flows {W} `{!Kernel W, !KernelLaws W, !EdgeOps W} (fd : Z) (w w' : W) : Prop :=
  ∀ s, kv_sock (kview w) !! fd = Some s → ∃ s', kv_sock (kview w') !! fd = Some s' ∧ grown s s' ∧
  sv_read s ++ k_arrived w fd `prefix_of` sv_read s' ++ k_arrived w' fd ∧
  (sv_tx s' = sv_tx s → k_room w fd → k_room w' fd).

#[export] Instance grown_preorder : PreOrder grown.
Proof. split; [by intros s|]. intros s1 s2 s3 [] []. split; by etrans. Qed.
#[export] Instance flows_preorder {W} `{!Kernel W, !KernelLaws W, !EdgeOps W} fd :
  PreOrder (flows (W := W) fd).
Proof.
  split; [intros w s Hs; by exists s|]. intros w1 w2 w3 H12 H23 s1 Hs1.
  destruct (H12 s1 Hs1) as (s2 & Hs2 & Hg & Ha & Hr), (H23 s2 Hs2) as (s3 & Hs3 & Hg' & Ha' & Hr').
  exists s3. split_and!; [done|by etrans|by etrans|]. intros Htx.
  assert (sv_tx s2 = sv_tx s1) as Heq.
  { destruct Hg, Hg'. apply (anti_symm prefix); [rewrite <- Htx|]; done. }
  intros. apply Hr'; [congruence|auto].
Qed.

(** The calls that the handlers make while a connection is open; and a call that finds
    nothing more to read, or no room, tells the truth. *)
Class EdgeFlow (W : Type) `{!Kernel W, !KernelLaws W, !EdgeOps W} : Prop := {
  drained_empty fd (w : W) : just_drained fd w → k_arrived w fd = [];
  blocked_full fd (w : W) : just_blocked fd w → ¬ k_room w fd;
  flow_recv fd fd' len flags (w : W) : flows fd w (sys_recv fd' len flags w).2;
  flow_send fd fd' bs flags (w : W) : flows fd w (sys_send fd' bs flags w).2;
  flow_epoll_ctl fd epfd op fd' ev (w : W) : flows fd w (sys_epoll_ctl epfd op fd' ev w).2;
  flow_memalign fd al size (w : W) : flows fd w (sys_memalign al size w).2;
}.

(** A peer that waits for the answer to what it has sent before it sends more: when a
    byte has arrived, the answers to all that came before it have been sent. *)
Definition closed_loop {W} `{!Kernel W, !KernelLaws W, !EdgeOps W} (fd : Z) (w : W) : Prop :=
  ∀ s p, kv_sock (kview w) !! fd = Some s →
  p `prefix_of` sv_read s ++ k_arrived w fd → p ≠ sv_read s ++ k_arrived w fd →
  answer 0 0 p `prefix_of` sv_tx s.

Class ClosedLoop (W : Type) `{!Kernel W, !KernelLaws W, !EdgeOps W} : Prop := {
  closed_loop_kept fd : SysKeeps (λ w w' : W, closed_loop fd w → closed_loop fd w');
  closed_loop_wait fd epfd maxev timeout (w : W) :
    closed_loop fd w → closed_loop fd (sys_epoll_wait epfd maxev timeout w).2;
}.
#[export] Existing Instance closed_loop_kept.

(** * The handlers over such a kernel *)

(** The code returns, unless it waits in a loop for bytes that do not come. *)
Definition spins : stop → Prop := λ r, r = OutOfFuel.

Section mode.
Context {W : Type} `{!Kernel W, !KernelLaws W, !KernelFaultless W}.
Implicit Types (w : W).

(** A property of the world that the calls of the handlers keep. *)
Record io_keeps (J : W → Prop) : Prop := {
  ik_recv fd len flags w r w' :
    is_Some (kv_sock (kview w) !! fd) → sys_recv fd len flags w = (r, w') → J w → J w';
  ik_send fd bs flags w r w' :
    is_Some (kv_sock (kview w) !! fd) → sys_send fd bs flags w = (r, w') → J w → J w';
  ik_epoll_mod epfd fd ev w r w' :
    sys_epoll_ctl epfd EPOLL_CTL_MOD fd (Some ev) w = (r, w') → J w → J w';
  ik_memalign al size w r w' : sys_memalign al size w = (r, w') → J w → J w';
}.

Context (J : W → Prop) (HJ : io_keeps J).

Lemma RecvAll_loop_spins fuel fd len flags acc w s0 v0 :
  received fd s0 v0 acc (kview w) → Z.of_nat (length acc) ≤ len → J w →
  wp spins (RecvAll_loop fuel fd len flags acc) w
  (λ bs w', received fd s0 v0 bs (kview w') ∧
            (Z.to_nat len = length bs ∨ (bs = sv_rx s0 ∧ length bs ≤ Z.to_nat len)%nat) ∧
            (Z.of_nat (length bs) < len → just_drained fd w') ∧ J w').
Proof.
  revert acc w. induction fuel as [|fuel IH]; intros acc w Hacc Hlen Hok; [done|].
  cbn [RecvAll_loop]. destruct (Z.ltb_spec (Z.of_nat (length acc)) len); cycle 1.
  { wp_steps. split_and!; [done|lia|lia|done]. }
  destruct (received_lookup _ _ _ _ _ Hacc) as (? & ? & Hl).
  wp_step. apply wp_lift. intros [bs|] w' Hr.
  all: assert (J w') by (by eapply (ik_recv J HJ); [by rewrite Hl|exact Hr|]).
  - destruct (recv_received _ _ _ _ _ _ _ _ _ Hr ltac:(lia) Hacc) as (Hacc' & ? & Heof).
    destruct bs as [|b bs]; [|apply IH; [done|rewrite length_app; lia|done]].
    rewrite app_nil_r in Hacc'. wp_steps. split_and!; [done| | |done].
    + right. destruct (Heof eq_refl) as [| ->]; [lia|]. split; [done|lia].
    + intros _. eexists _, _, _, _. split; [exact Hr|simpl; lia].
  - apply recv_None in Hr as Hv. apply recv_again in Hr as Hwb; [|by rewrite Hl].
    rewrite <- Hv in Hacc. wp_step. apply wp_LastErrorWouldBlock. rewrite Hwb. simpl.
    by apply IH.
Qed.

(** A mode of verification: the streams are tracked, the worlds have [J]. *)
#[program] Definition io_faultless (E : stop → Prop) (fuel : nat) : IOMode W E fuel := {|
  io_exact := True;
  io_live := False;
  io_ok := J;
  io_patience _ := 0%nat;
|}.
Next Obligation. done. Qed.
Next Obligation.
  intros E fuel fd len flags w r w' Hs Hr Hok. simpl. split_and!; [|lia| |done].
  - by eapply (ik_recv J HJ).
  - intros ->. right. by eapply recv_again.
Qed.
Next Obligation.
  intros E fuel fd bs flags w r w' Hs Hr Hok. simpl. split_and!; [|lia| |done].
  - by eapply (ik_send J HJ).
  - intros ->. right. by eapply send_again.
Qed.
Next Obligation.
  intros E fuel epfd fd ev w r w' Hs Hr Hok. simpl. split_and!; [|lia|].
  - by eapply (ik_epoll_mod J HJ).
  - pose proof (epoll_mod_succeeds epfd fd ev w Hs) as H0. by rewrite Hr in H0.
Qed.
Next Obligation.
  intros E fuel al size w r w' Hr Hok. simpl. split_and!; [|lia|].
  - by eapply (ik_memalign J HJ).
  - intros ->. pose proof (memalign_succeeds al size w) as H0. by rewrite Hr in H0.
Qed.

(** The sizes are read, unless they do not come. *)
Lemma io_faultless_meta fuel : IOMeta W spins fuel (IOMode0 := io_faultless spins fuel).
Proof.
  split. intros fd w s Hs Hok. unfold meta_read. simpl in *. eapply wp_mono.
  { apply (RecvAll_loop_spins fuel fd 8 0 [] w s (kview w)); [by apply received_nil|simpl; lia|done]. }
  intros bs w' (Hrec & Hn & Hd & ?). destruct (received_take _ _ _ _ _ _ Hrec Hn) as [Hbs _].
  split_and!; [done|lia|done|destruct Hn; lia|done|done].
Qed.
End mode.

(** What the calls keep when every call keeps it. *)
Lemma SysKeeps_io {W} `{!Kernel W, !KernelLaws W} (J : W → Prop) :
  SysKeeps (λ w w', J w → J w') → io_keeps J.
Proof.
  intros HK. split.
  - intros fd len flags w r w' _ Hr. pose proof (sk_recv (SysKeeps := HK) fd len flags w) as Hk.
    by rewrite Hr in Hk.
  - intros fd bs flags w r w' _ Hr. pose proof (sk_send (SysKeeps := HK) fd bs flags w) as Hk.
    by rewrite Hr in Hk.
  - intros epfd fd ev w r w' Hr.
    pose proof (sk_epoll_ctl (SysKeeps := HK) epfd EPOLL_CTL_MOD fd (Some ev) w) as Hk.
    by rewrite Hr in Hk.
  - intros al size w r w' Hr. pose proof (sk_memalign (SysKeeps := HK) al size w) as Hk.
    by rewrite Hr in Hk.
Qed.

Section paced.
Context {W : Type} `{!Kernel W, !KernelLaws W, !KernelFaultless W, !EdgeOps W, !ClosedLoop W}.
Implicit Types (w : W).

(** The peer is in a closed loop. *)
Definition io_paced (fd : Z) (fuel : nat) : IOMode W spins fuel :=
  io_faultless (closed_loop fd) (SysKeeps_io _ (closed_loop_kept fd)) spins fuel.
Definition io_paced_meta (fd : Z) (fuel : nat) : IOMeta W spins fuel (IOMode0 := io_paced fd fuel) :=
  io_faultless_meta _ _ fuel.

#[program] Definition io_paced_kept fd fuel : IOKept W spins fuel (IOMode0 := io_paced fd fuel) := {|
  io_kept_calls := SysKeeps_weaken (λ w w', closed_loop fd w → closed_loop fd w') _ _ _ _;
|}.
Next Obligation. intros fd fuel. split; [by intros w|]. intros w1 w2 w3 [? ?] [? ?]. split; [auto|lia]. Qed.
Next Obligation. intros fd fuel w w' ?. split; [done|simpl; lia]. Qed.
Next Obligation.
  intros fd fuel epfd maxev timeout w. split; [apply closed_loop_wait|simpl; lia].
Qed.
End paced.

(** ** Nothing that a handler leaves undone is forgotten *)

Section endpoint.
Context {W : Type} `{!Kernel W, !KernelLaws W, !KernelFaultless W, !EdgeOps W, !EdgeLaws W,
  !ClosedLoop W}.
Context (fuel : nat) (poll : Poll.Poll) (this fd : Z) (inp : list byte).
(** The first header is not empty, so no reply is. *)
Hypothesis first_header : 0 < of_le32 inp.
#[local] Existing Instances io_paced io_paced_meta.
Local Abbreviation mode := (io_paced fd fuel).
Local Abbreviation key := (Poll.epfd poll, fd).
Local Abbreviation world e := (m_world (e_m e)).

Section fixed.
Context (base : heap) (S0 : gmap Z sock_view) (E0 : gmap (Z * Z) epoll_event).
Local Abbreviation inv := (inv (IOMode0 := mode) poll this fd base S0 E0).
Local Abbreviation Inv := (Inv (IOMode0 := mode) poll this fd base S0 E0).
Implicit Types (e : ep_state W).

(** As long as a reply is owed nothing arrives. *)
Lemma owing_quiet n s e H D ph :
  inv (echo inp) n s e H D ph → ph = PData ∨ busy ph = 1%nat ∧ at_rest H D ph →
  k_arrived (world e) fd = [].
Proof.
  intros [Hep _ Hw Hst _] Hph. pose proof (world_rep_sock _ _ _ _ _ _ _ _ Hw) as Hs.
  destruct (Hst I) as (Hin & Hout & Hcap & _).
  assert (Hcap' : (0 < cap H)%nat ∨ sv_rx s = []).
  { destruct Hcap as [[-> _]|[Hcap|]]; [|left|by right].
    - destruct Hph as [|[??]]; done.
    - unfold echo in Hcap. cbn [g_in] in Hcap. lia. }
  destruct Hcap' as [Hpos|Hnil]; cycle 1.
  { pose proof (arrived_prefix _ _ _ Hs) as Hpre. rewrite Hnil in Hpre. by apply prefix_nil_inv in Hpre. }
  destruct (k_arrived (world e) fd) as [|b l] eqn:Harr; [done|exfalso].
  destruct Hw as (_ & _ & Hcl & _). cbn in Hcl.
  assert (Hsent : answer 0 0 (sv_read s) `prefix_of` sv_tx s).
  { apply (Hcl s); [done|by apply prefix_app_r|]. rewrite Harr.
    intros Heq%(f_equal length). rewrite length_app in Heq. simpl in Heq. lia. }
  specialize (Hout [] (prefix_nil _)). rewrite app_nil_r in Hout. cbn [echo g_out] in Hout.
  rewrite <- Hout in Hsent. apply prefix_length in Hsent. rewrite length_app in Hsent.
  assert (owed H D ph [] = []) as Hnone by (destruct (owed H D ph []); simpl in *; [done|lia]).
  destruct H as [[lh hb]|]; simpl in Hpos; [|lia].
  destruct Hph as [->|[Hb Hrest]].
  - simpl in Hnone. apply app_eq_nil in Hnone as [-> _]. simpl in Hpos. lia.
  - destruct ph as [| | |j]; try done. rewrite (owed_nil fd (e_ep e)) in Hnone by done.
    apply (f_equal length) in Hnone. simpl in Hnone, Hrest. rewrite length_drop in Hnone. lia.
Qed.

Lemma quiet_watched w : k_arrived w fd = [] → watched_in key w.
Proof. by intros Hq e _ _ Hne. Qed.

Lemma waits_watched w : waits (IOMode0 := mode) poll this fd w → watched_out key w.
Proof.
  intros (w0 & Hb & _ & Hw). apply (edge_blocked (Poll.epfd poll)) in Hb.
  destruct Hw as [->|[i Hrun]]; [done|].
  by apply (keeps_Reregister (λ w w', watched_out key w → watched_out key w') _ _ _ _ _ _ _ Hrun).
Qed.

(** After the reading handler what arrives next is reported; what waits to be sent as
    well, unless it was forgotten before. *)
Lemma OnRecvReady_watched n s e :
  Inv (echo inp) n s e →
  wp spins (OnRecvReady fuel poll this) e (λ _ e', watched_in key (world e') ∧
  ((state_ (e_ep e) = REPLYING → watched_out key (world e)) →
   state_ (e_ep e') = REPLYING → watched_out key (world e'))).
Proof.
  intros HI. destruct (decide (state_ (e_ep e) = REPLYING)) as [Hrep|Hnrep].
  - eapply wp_mono; [by apply (OnRecvReady_replying (IOMode0 := mode) _ _ _ base S0 E0 _ _ _ _ HI)|].
    intros _ e' ->. split; [|auto]. apply quiet_watched. destruct HI as (H & D & ph & Hinv & _ & Hrest).
    eapply owing_quiet; [exact Hinv|right]. split; [|done].
    by apply (replying_busy (IOMode0 := mode) poll this fd base S0 E0 (echo inp) n s e H D ph).
  - eapply wp_mono.
    { apply (OnRecvReady_handled (IOMode0 := mode) _ _ _ base S0 E0 _ _ _ _ HI); [done|].
      intros _. by apply (Inv_meta (IOMode0 := mode) _ _ _ _ _ _ _ _ _ _ HI). }
    intros _ e' [_ Hset]. destruct (Hset I) as [Hdr Hwait]. split.
    + destruct Hdr as [Hdr|(n0 & s0 & e0 & H & D & b & Hinv & Hrun)]; [by apply edge_drained|].
      apply (keeps_Reply (λ w w', watched_in key w → watched_in key w') _ _ _ _ _ Hrun).
      apply quiet_watched. eapply owing_quiet; [exact Hinv|by left].
    + intros _ ?. apply waits_watched. auto.
Qed.

(** After the sending handler the rest of a reply waits for room; reading is as before. *)
Lemma OnSendReady_watched n s e :
  Inv (echo inp) n s e →
  wp spins (OnSendReady poll this) e (λ _ e',
  (watched_in key (world e) → watched_in key (world e')) ∧
  (state_ (e_ep e') = REPLYING → watched_out key (world e'))).
Proof.
  intros HI. eapply wp_eq, wp_mono.
  { by apply (OnSendReady_handled (IOMode0 := mode) _ _ _ base S0 E0 _ _ _ _ HI). }
  intros [] e' (n' & s' & _ & _ & _ & Hnop & _ & Hwait) Hrun. split.
  - apply (keeps_OnSendReady (λ w w', watched_in key w → watched_in key w') _ _ _ _ _ Hrun).
  - intros Hrep'. destruct (decide (state_ (e_ep e) = REPLYING)) as [Hrep|Hnrep].
    + apply waits_watched. auto.
    + rewrite Hnop in Hrep' by done. done.
Qed.

(** The handlers of one event: what it reports is dealt with, or will be reported. *)
Lemma run_watched ev n s e :
  Inv (echo inp) n s e →
  wp spins (run_events fuel poll this (readiness_of ev)) e (λ _ e',
  (Event.IsReadable ev = true ∨ watched_in key (world e) → watched_in key (world e')) ∧
  (Event.IsWritable ev = true ∨ (state_ (e_ep e) = REPLYING → watched_out key (world e)) →
   state_ (e_ep e') = REPLYING → watched_out key (world e'))).
Proof.
  intros HI. unfold readiness_of.
  assert (Hboth : wp spins (OnRecvReady fuel poll this) e (λ _ e',
    (∃ n' s', Inv (echo inp) n' s' e') ∧ watched_in key (world e') ∧
    ((state_ (e_ep e) = REPLYING → watched_out key (world e)) →
     state_ (e_ep e') = REPLYING → watched_out key (world e')))).
  { eapply wp_mono.
    - eapply wp_and; [|by eapply OnRecvReady_watched].
      by apply (on_ready_Inv (IOMode0 := mode) poll this fd base S0 E0 Readable _ _ _ _ HI).
    - intros _ e' [(n' & s' & HI' & _) Hwa]. split; [by exists n', s'|exact Hwa]. }
  destruct (Event.IsReadable ev), (Event.IsWritable ev);
    cbn [Datatypes.app run_events on_ready]; repeat wp_step.
  - eapply wp_mono; [exact Hboth|]. intros _ e1 ((n1 & s1 & HI1) & Hin & _). wp_step.
    eapply wp_mono; [by eapply OnSendReady_watched|]. intros _ e2 [Hin2 Hout2]. wp_step. auto.
  - eapply wp_mono; [exact Hboth|]. intros _ e1 (_ & Hin & Hout). wp_step. split; [done|].
    intros [|]; [done|auto].
  - eapply wp_mono; [by eapply OnSendReady_watched|]. intros _ e2 [Hin2 Hout2]. wp_step.
    split; [|auto]. intros [|]; [done|auto].
  - split; [by intros [|]|]. intros [|]; [done|auto].
Qed.

(** So an event is to come when something has arrived, or when the socket has room for
    the rest of an answer. *)
Lemma watched_served n s e :
  Inv (echo inp) n s e → watched_in key (world e) →
  (state_ (e_ep e) = REPLYING → watched_out key (world e)) →
  (k_arrived (world e) fd ≠ [] → expected EPOLLIN key (world e)) ∧
  (sv_tx s = answer 0 0 (sv_read s) ∨ (k_room (world e) fd → expected EPOLLOUT key (world e)) ∧
   sv_tx s `prefix_of` answer 0 0 (sv_read s)).
Proof.
  intros (H & D & ph & [Hep _ (Hv & [Hwf Hrd] & _) Hst _] & Harm & Hrest) Hin Hout.
  destruct (InterestToEpoll_flags _ Hwf) as (_ & _ & HIN & _ & HOUT).
  assert (Hreg : kv_epoll (kview (world e)) !! key =
    Some (EpollEvent (InterestToEpoll (interest_ (e_ep e))) this)).
  { rewrite Hv. apply lookup_insert_eq. }
  assert (Hask : ∀ flag, has_flag (InterestToEpoll (interest_ (e_ep e))) flag = true →
    k_pending (world e) key → expected flag key (world e)).
  { intros flag Hf Hpend. split; [done|]. by eexists. }
  split.
  { intros Harr. apply Hask; [by rewrite HIN|]. apply (Hin _ Hreg); [cbn [ev_events]; by rewrite HIN|done]. }
  destruct (Hst I) as (_ & Hsent & _). specialize (Hsent [] (prefix_nil _)).
  rewrite app_nil_r, (owed_nil fd (e_ep e)) in Hsent by done. cbn [echo g_out] in Hsent.
  rewrite <- Hsent. destruct ph as [| | |j]; try (left; by rewrite app_nil_r).
  right. split; [|by apply prefix_app_r]. intros Hroom.
  assert (Hf : has_flag (InterestToEpoll (interest_ (e_ep e))) EPOLLOUT = true) by (rewrite HOUT; by apply Harm).
  apply Hask; [done|]. refine (Hout _ _ Hreg Hf Hroom). destruct e as [ep m]. cbn [e_ep] in *. by inversion Hep.
Qed.
End fixed.
End endpoint.
