(* ===== verification/EdgeServer.v ===== *)
(** The server over an edge-triggered kernel, with peers that wait for an answer before
    they send more: no wake-up is lost. *)
From S2P Require Import Prelude CInt Kernel Poll Buffer Socket Endpoint EndpointSpec IOMode EndpointProofs EndpointProps SocketBwServer ServerProofs ServerProps Keeps ServerLive Edge.

Local Open Scope Z_scope.
#[local] Set Default Proof Using "Type*".

(** * The event loop, one event at a time *)

Section loop.
Context {W : Type} `{!Kernel W, !KernelLaws W} (fuel : nat).
Implicit Types (st : srv_state W).

(** [looped evs st handled evs' st']: from the state [st], with the events [evs] of the
    last wait still to be handled, the loop has handled the events [handled] and is in
    the state [st'] with [evs'] still to be handled. *)
Inductive looped : list epoll_event → srv_state W → list epoll_event →
    list epoll_event → srv_state W → Prop :=
  | looped_here evs st : looped evs st [] evs st
  | looped_wait st max_events timeout_ms evs st1 handled evs' st' :
      sv_w (Poll.PollUntil (poll_ (sv_app st)) max_events timeout_ms) st = Ret (Some evs, st1) →
      looped evs st1 handled evs' st' → looped [] st handled evs' st'
  | looped_event ev evs st st1 handled evs' st' :
      handle_event fuel ev st = Ret (tt, st1) →
      looped evs st1 handled evs' st' → looped (ev :: evs) st (ev :: handled) evs' st'.

Lemma looped_app evs1 st1 h1 evs2 st2 h2 evs3 st3 :
  looped evs1 st1 h1 evs2 st2 → looped evs2 st2 h2 evs3 st3 →
  looped evs1 st1 (h1 ++ h2) evs3 st3.
Proof. induction 1; intros; simpl; [done|by eapply looped_wait; eauto|by eapply looped_event; eauto]. Qed.

Lemma handle_events_looped evs st st' :
  handle_events fuel evs st = Ret (tt, st') → looped evs st evs [] st'.
Proof.
  revert st. induction evs as [|ev evs IH]; intros st Hrun; cbn [handle_events] in Hrun.
  { unfold mret, M_ret in Hrun. simplify_eq. constructor. }
  unfold mbind, M_bind in Hrun.
  destruct (handle_event fuel ev st) as [[[] st1]|] eqn:Hrun1; [|done].
  eapply looped_event; [exact Hrun1|by apply IH].
Qed.

(** The loop of [Run] is such a run. *)
Lemma rounds_looped n max_events timeout_ms st st' :
  rounds fuel n max_events timeout_ms st = Ret (tt, st') →
  looped [] st (reports fuel n max_events timeout_ms st) [] st'.
Proof.
  revert st. induction n as [|n IH]; intros st Hrun; cbn [rounds reports] in *.
  { unfold mret, M_ret in Hrun. simplify_eq. constructor. }
  unfold round, app, mbind, M_bind, gets in Hrun. cbn [sv_app] in Hrun.
  destruct (sv_w _ st) as [[[evs|] st1]|] eqn:Hwait; [|done|done].
  destruct (handle_events fuel evs st1) as [[[] st2]|] eqn:Hev; [|done].
  eapply looped_wait; [exact Hwait|]. eapply looped_app; [by apply handle_events_looped|by apply IH].
Qed.

Lemma looped_SInv evs st handled evs' st' :
  looped evs st handled evs' st' → SInv fuel None st → due st evs →
  SInv fuel None st' ∧ due st' evs' ∧ poll_ (sv_app st') = poll_ (sv_app st).
Proof.
  induction 1 as [|st ? ? ? st1 ? ? ? Hw _ IH|ev ? st st1 ? ? ? Hrun _ IH]; intros HI Hdue; [done|..].
  - destruct (wait_SInv _ _ _ _ _ _ Hw HI) as (HI1 & <- & _). apply IH; [done|by eapply wait_due].
  - destruct (event_due _ _ _ _ _ HI Hdue Hrun) as [[fd Hrep] Hdue'].
    destruct (event_SInv _ _ _ _ _ HI Hrep Hrun) as [HI1 <-]. by apply IH.
Qed.

(** The invariant of the server all along. *)
Lemma looped_inv (P : list epoll_event → srv_state W → Prop) evs st handled evs' st' :
  (∀ st max_events timeout_ms evs st1,
     sv_w (Poll.PollUntil (poll_ (sv_app st)) max_events timeout_ms) st = Ret (Some evs, st1) →
     SInv fuel None st → P [] st → P evs st1) →
  (∀ ev evs st fd st1,
     handle_event fuel ev st = Ret (tt, st1) → SInv fuel None st → reported st fd ev →
     In ev handled → P (ev :: evs) st → P evs st1) →
  looped evs st handled evs' st' → SInv fuel None st → due st evs → P evs st → P evs' st'.
Proof.
  intros Hwait Hev Hrun. induction Hrun as [|st ? ? ? ? handled ? ? Hw _ IH|ev ? st ? handled ? ? Hrun _ IH];
    intros HI Hdue HP; [done|..].
  - apply IH; [done|by eapply wait_SInv|by eapply wait_due|by eapply Hwait].
  - destruct (event_due _ _ _ _ _ HI Hdue Hrun) as [[fd Hrep] Hdue'].
    apply IH; [|by eapply event_SInv|done|eapply Hev; [done|done|done|by left|done]].
    intros. eapply Hev; [done|done|done|by right|done].
Qed.
End loop.

(** * A connection *)

Section conn.
Context {W : Type} `{!Kernel W, !KernelLaws W, !KernelFaultless W, !EdgeOps W, !EdgeLaws W,
  !ClosedLoop W}.
Context (fuel : nat) (p : Poll.Poll) (tok fd : Z) (inp : list byte).
Hypothesis first_header : 0 < of_le32 inp.
Implicit Types (st : srv_state W) (evs : list epoll_event).

Local Abbreviation mode := (io_paced fd fuel).
Local Abbreviation key := (Poll.epfd p, fd).
Local Abbreviation world st := (m_world (sv_m st)).
Local Abbreviation conn := (conn (IOMode0 := mode) fuel tok fd (echo inp)).
#[local] Existing Instances io_paced io_paced_kept io_paced_meta.

(** There is a reply that has not been sent to its end. *)
Definition replying st : Prop :=
  ∃ ep, sv_objs st !! tok = Some ep ∧ state_ ep = REPLYING.

(** Whatever there is to do for the connection has been reported, or will be. *)
Definition awake evs st : Prop :=
  (watched_in key (world st) ∨
   Exists (λ ev, ev_data ev = tok ∧ Event.IsReadable ev = true) evs) ∧
  ((replying st → watched_out key (world st)) ∨
   Exists (λ ev, ev_data ev = tok ∧ Event.IsWritable ev = true) evs).

Definition attended evs st : Prop :=
  poll_ (sv_app st) = p ∧ (∃ n s, conn n s st) ∧ awake evs st.

Lemma wait_attended st max_events timeout_ms evs st1 :
  sv_w (Poll.PollUntil (poll_ (sv_app st)) max_events timeout_ms) st = Ret (Some evs, st1) →
  SInv fuel None st → attended [] st → attended evs st1.
Proof.
  intros Hrun HI (Hp & (n & s & Hc) & Hin & Hout).
  destruct (wait_SInv _ _ _ _ _ _ Hrun HI) as (HI1 & Ha & Hv & Hu).
  split_and!; [by rewrite Ha| |].
  - exists n, s. eapply (conn_frame fuel (IOMode0 := mode)); [exact Hc|by rewrite Ha|auto|].
    by eapply (wait_kept fuel (IOMode0 := mode)).
  - pose proof Hc as (_ & ep & Hep & Hsk & Hl).
    destruct (live_reg _ _ (IOMode0 := mode) _ _ _ _ _ _ Hl) as [i Hreg]. rewrite Hsk, Hp in Hreg.
    destruct (Hu _ _ Hep) as (Hep1 & _).
    assert (Hobjs : sv_objs st1 = sv_objs st).
    { unfold sv_w, zoom in Hrun. by destruct (Poll.PollUntil _ _ _ _) as [[]|]; simplify_eq. }
    unfold sv_w, zoom, Poll.PollUntil, Selector.Select, lift in Hrun. rewrite Hp in Hrun.
    destruct (sys_epoll_wait _ _ _ _) as [r' w'] eqn:Hw. simplify_eq.
    cbn [sv_m sv_objs m_world set_world] in *. split.
    + destruct Hin as [Hin|Hno]; [|by inversion Hno].
      destruct (edge_wait_in _ _ _ _ _ _ _ _ Hw Hreg Hin) as [|(evs' & ev & [= <-] & ? & ? & ?)];
        [by left|right]. apply Exists_exists. exists ev. by rewrite <- list_elem_of_In.
    + destruct Hout as [Hout|Hno]; [|by inversion Hno].
      destruct (decide (state_ ep = REPLYING)) as [Hrep|Hnrep].
      * assert (replying st) as Hr by by exists ep.
        destruct (edge_wait_out _ _ _ _ _ _ _ _ Hw Hreg (Hout Hr))
          as [|(evs' & ev & [= <-] & ? & ? & ?)]; [by left|right].
        apply Exists_exists. exists ev. by rewrite <- list_elem_of_In.
      * left. intros (ep' & Hep' & Hrep'). cbn [sv_objs] in Hep'. congruence.
Qed.

Lemma event_attended ev evs st fd' st1 :
  handle_event fuel ev st = Ret (tt, st1) → SInv fuel None st → reported st fd' ev →
  (ev_data ev = tok → closes ev = false) → attended (ev :: evs) st → attended evs st1.
Proof.
  intros Hrun HI Hrep Hopen (Hp & (n & s & Hc) & Hin & Hout).
  destruct (event_SInv _ _ _ _ _ HI Hrep Hrun) as [HI1 Hp1].
  split; [congruence|]. destruct (decide (ev_data ev = tok)) as [Hev|Hne].
  - pose proof (own_event fuel (IOMode0 := mode) _ _ _ _ _ _ _ HI Hc Hev (Hopen Hev)) as Hown.
    destruct (wp_elim _ _ _ _ _ _ Hown Hrun) as (n1 & s1 & Hc1 & _). split; [by exists n1, s1|].
    pose proof Hc as (_ & ep & Hep & Hsk & base & HE). rewrite Hsk, Hp in HE.
    pose proof (run_watched fuel p tok fd inp first_header base _ _ ev n s _ HE) as Hwa.
    assert (Hwp : wp spins (handle_event fuel ev) st (λ _ st',
      (Event.IsReadable ev = true ∨ watched_in key (world st) → watched_in key (world st')) ∧
      (Event.IsWritable ev = true ∨ (replying st → watched_out key (world st)) →
       replying st' → watched_out key (world st')))).
    { eapply (own_event_run fuel); [done|by rewrite Hev|by apply Hopen|]. rewrite Hp, Hev.
      eapply wp_mono; [exact Hwa|]. cbn [e_ep e_m sv_m]. intros _ e' [Hwin Hwout].
      split; [exact Hwin|]. intros Hw (ep' & Hep' & Hrep'). cbn [sv_objs] in Hep'.
      rewrite lookup_insert_eq in Hep'. injection Hep' as <-. apply Hwout; [|done].
      destruct Hw as [|Hw]; [by left|right]. intros. apply Hw. by exists ep. }
    destruct (wp_elim _ _ _ _ _ _ Hwp Hrun) as [Hwin Hwout]. split.
    + destruct Hin as [|[[_ ?]|?]%Exists_cons]; [left; auto|left; auto|by right].
    + destruct Hout as [|[[_ ?]|?]%Exists_cons]; [left; auto|left; auto|by right].
  - split; [exists n, s; eapply (other_event fuel (IOMode0 := mode)); [exact HI|exact Hc|exact Hrep|congruence|exact Hrun|congruence]|].
    split.
    + destruct Hin as [Hin|[[? _]|?]%Exists_cons]; [left|done|by right]. revert Hin.
      by apply (keeps_handle_event (λ w w', watched_in key w → watched_in key w') fuel ev st tt st1).
    + destruct Hout as [Hout|[[? _]|?]%Exists_cons]; [left|done|by right].
      intros (ep1 & Hep1 & Hrep1).
      apply (keeps_handle_event (λ w w', watched_out key w → watched_out key w') fuel ev st tt st1 Hrun).
      apply Hout. pose proof Hc as (? & ep & Hep & Hsk & _).
      pose proof (handle_event_undisturbed _ _ _ _ _ _ HI Hrep Hep ltac:(lia) ltac:(congruence)) as Hu.
      destruct (wp_elim _ _ _ _ _ _ Hu Hrun) as (Hep' & _). exists ep. split; [done|].
      unfold replying in *. congruence.
Qed.

Lemma looped_attended evs st handled evs' st' :
  looped fuel evs st handled evs' st' → SInv fuel None st → due st evs →
  Forall (λ ev, ev_data ev = tok → closes ev = false) handled →
  attended evs st → attended evs' st'.
Proof.
  intros Hrun HI Hdue Hopen.
  refine (looped_inv fuel attended evs st handled evs' st' _ _ Hrun HI Hdue).
  - intros. by eapply wait_attended.
  - intros ev evs1 st1 fd1 st2 Hrun1 HI1 Hrep1 Hin. eapply event_attended; [done|done|done|].
    by eapply (proj1 (List.Forall_forall _ _) Hopen).
Qed.
(** With no event left, one is to come as long as there is something to do. *)
Lemma attended_served st :
  attended [] st →
  (k_arrived (world st) fd ≠ [] → expected EPOLLIN key (world st)) ∧
  ∃ s, kv_sock (kview (world st)) !! fd = Some s ∧
  (sv_tx s = answer 0 0 (sv_read s) ∨
   (k_room (world st) fd → expected EPOLLOUT key (world st)) ∧ sv_tx s `prefix_of` answer 0 0 (sv_read s)).
Proof.
  intros (Hp & (m & s & Hc) & Hin & Hout). pose proof (conn_sock _ _ _ _ _ _ _ Hc) as Hs.
  destruct Hc as (_ & ep & Hep & Hsk & base & HE). rewrite Hsk, Hp in HE.
  destruct Hin as [Hin|Hno]; [|by inversion Hno]. destruct Hout as [Hout|Hno]; [|by inversion Hno].
  destruct (watched_served fuel p tok fd inp first_header _ _ _ m s _ HE Hin) as [? ?].
  { intros Hrep. apply Hout. by exists ep. }
  split; [done|]. by exists s.
Qed.

(** Nothing is to come: everything is done, as far as there is room. *)
Lemma attended_done st :
  attended [] st → ¬ k_pending (world st) key →
  k_arrived (world st) fd = [] ∧ ∃ s, kv_sock (kview (world st)) !! fd = Some s ∧
  (sv_tx s = answer 0 0 (sv_read s) ∨
   ¬ k_room (world st) fd ∧ sv_tx s `prefix_of` answer 0 0 (sv_read s)).
Proof.
  intros [Hin (s & Hs & Hout)]%attended_served Hnp. split.
  - destruct (k_arrived (world st) fd); [done|]. by destruct Hnp; apply Hin.
  - exists s. split; [done|]. destruct Hout as [|[Hroom ?]]; [by left|right].
    split; [|done]. by intros [? _]%Hroom.
Qed.
End conn.

(** ** A new connection *)

Section welcome.
Context {W : Type} `{!Kernel W, !KernelLaws W, !EdgeOps W, !EdgeLaws W}.
Implicit Types (st : srv_state W).

Local Abbreviation anyhow := (λ _ : stop, True).
Local Abbreviation watched key w := (watched_in key w ∧ watched_out key w).

(** Where the next endpoint is made. *)
Definition next_tok st : Z := fresh (dom (sv_objs st) ∪ {[u64 (listener_ (sv_app st))]}).

Lemma wp_keeps {S A} (R : relation W) (f : S → W) (m : M S A) s :
  Keeps R f m → wp anyhow m s (λ _ s', R (f s) (f s')).
Proof. intros Hk. unfold wp. destruct (m s) as [[a s']|] eqn:Hrun; [by eapply Hk|done]. Qed.

(** Whatever the server calls, what is watched stays watched. *)
Definition still_watched : relation W := λ w w',
  ∀ key, (watched_in key w → watched_in key w') ∧ (watched_out key w → watched_out key w').

#[local] Instance still_watched_kept : SysKeeps still_watched.
Proof.
  split; [split; [by intros w|]|..].
  { intros w1 w2 w3 H1 H2 key. destruct (H1 key), (H2 key). auto. }
  all: intros; intros key; destruct (edge_in_kept key), (edge_out_kept key); cbv beta in *; auto.
Qed.

Lemma OnAccepted_watched p this (e : ep_state W) :
  wp anyhow (OnAccepted p this) e (λ _ e', sock_ (e_ep e') = sock_ (e_ep e) ∧
  watched (Poll.epfd p, sock_ (e_ep e)) (m_world (e_m e'))).
Proof.
  unfold OnAccepted, GetPeerAddr. ep_steps. apply wp_lift. intros r w1 _. ep_steps.
  apply wp_check; [done|]. intros _. unfold SockAddr_make. ep_steps.
  destruct r as [bs|]; [|done]. ep_steps. apply wp_check; [done|]. intros _.
  destruct (_ <=? _); [|done]. ep_steps.
  eapply wp_mono; [by apply wp_any|].
  intros _ w2 _. ep_steps.
  unfold Poll.Register, Selector.Register, Selector.EpollCtl. apply wp_bind, wp_lift.
  intros r w3 Hr. apply wp_check; [done|]. intros ->%Z.eqb_eq.
  apply edge_set in Hr; [|by left]. ep_steps.
  eapply wp_mono; [apply (wp_keeps still_watched (λ w, w)), keeps_AddrStr, _|].
  intros str w4 Hw. ep_steps. destruct (Hw (Poll.epfd p, sock_ (e_ep e))), e as [[] ?].
  destruct Hr. by split_and!; auto.
Qed.
(** The registration of the object at [tok] is watched; the other objects were there. *)
Definition only_new (old : gmap Z BwServerEndpoint) p tok st' : Prop :=
  ∀ t ep, old !! t = None → sv_objs st' !! t = Some ep →
  t = tok ∧ watched (Poll.epfd p, sock_ ep) (m_world (sv_m st')).

Lemma assign_endpoint_only_new old p tok fd st :
  only_new old p tok st →
  wp anyhow (assign_endpoint fd tok) st (λ _ st', only_new old p tok st').
Proof.
  intros Hnew. unfold assign_endpoint, app, set_endpoints. wp_steps.
  destruct (endpoints_ (sv_app st) !! fd) as [o|]; [|by wp_steps].
  destruct (o =? tok); [by wp_steps|]. unfold delete_endpoint, set_objs. wp_step.
  set (st1 := Srv _ _ _).
  destruct (sv_objs st1 !! o) as [epo|] eqn:Ho; [|by unfold wp, at_endpoint; rewrite Ho].
  eapply wp_at_endpoint; [exact Ho|]. cbn [sv_m st1].
  eapply wp_mono; [apply (wp_keeps still_watched (λ e, m_world (e_m e))), keeps_endpoint_destroy, _|].
  intros [] e' Hw. wp_steps. intros t ep Ht Hep. cbn [sv_objs sv_m] in *.
  rewrite delete_insert_eq in Hep. apply lookup_delete_Some in Hep as [_ Hep].
  destruct (Hnew t ep Ht Hep) as (-> & Hin & Hout). destruct (Hw (Poll.epfd p, sock_ ep)).
  split_and!; auto.
Qed.

Lemma HandleNewConnection_watched st :
  wp anyhow HandleNewConnection st (λ _ st', only_new (sv_objs st) (poll_ (sv_app st)) (next_tok st) st').
Proof.
  unfold HandleNewConnection, make_endpoint, Endpoint.make, sv_w, app, set_objs. wp_steps.
  eapply wp_mono; [by apply wp_any|]. intros n w1 _. wp_steps.
  apply Interest.wp_make; [done|]. wp_steps.
  change (fresh _) with (next_tok st). set (ep0 := mkEndpoint _ _ _ _ _ _ _ _ _ _).
  eapply wp_at_endpoint; [apply lookup_insert_eq|]. cbn [sv_objs sv_app sv_m].
  eapply wp_mono; [apply OnAccepted_watched|]. cbn [e_ep e_m]. intros [] e (Hsk & Hw). wp_step.
  eapply wp_at_endpoint; [apply lookup_insert_eq|]. cbn [sv_objs sv_app sv_m]. unfold field. wp_steps.
  apply assign_endpoint_only_new. intros t ep Ht. cbn [sv_objs sv_m].
  rewrite !insert_insert_eq. intros [[<- <-]|[_ Hep]]%lookup_insert_Some; [|congruence].
  split; [done|]. by rewrite Hsk.
Qed.
End welcome.

(** * The property *)

Section theorems.
Context {W : Type} `{!Kernel W, !KernelLaws W, !KernelFaultless W, !EdgeOps W, !EdgeLaws W,
  !ClosedLoop W}.
Context (fuel n : nat) (port timeout_ms max_events : Z) (p : Poll.Poll) (w : W).
Implicit Types (st : srv_state W).

Local Abbreviation world st := (m_world (sv_m st)).
#[local] Existing Instances io_paced io_paced_kept io_paced_meta.

(** The server has been started and its loop, wherever it is, has just handled an event
    of the listener: the endpoint [tok] is new, on the descriptor [fd], with [inp] to
    come from its peer; [evs] are still to be handled. *)
Definition welcomed (evs : list epoll_event) st (tok fd : Z) (inp : list byte) : Prop :=
  ∃ st0 before ev st1 ep,
  reached fuel n port timeout_ms max_events p w st0 ∧
  looped fuel [] st0 before (ev :: evs) st1 ∧ ev_data ev = u64 (listener_ (sv_app st1)) ∧
  handle_event fuel ev st1 = Ret (tt, st) ∧
  sv_objs st1 !! tok = None ∧ sv_objs st !! tok = Some ep ∧ sock_ ep = fd ∧
  kv_sock (kview (world st)) !! fd = Some (SockView [] inp []).

Lemma welcomed_attended evs st tok fd inp :
  welcomed evs st tok fd inp → closed_loop fd (world st) →
  SInv fuel None st ∧ due st evs ∧ attended fuel p tok fd inp evs st.
Proof.
  intros (st0 & before & ev & st1 & ep & [HI0 Hp0]%reached_SInv & Hloop & Hl & Hrun & Hnew & Hep & Hsk & Hs) Hcl.
  destruct (looped_SInv _ _ _ _ _ _ Hloop HI0 (due_nil _)) as (HI1 & Hdue1 & Hp1).
  destruct (event_due _ _ _ _ _ HI1 Hdue1 Hrun) as [[fd' Hrep] Hdue].
  destruct (event_SInv _ _ _ _ _ HI1 Hrep Hrun) as [HI Hp]. rewrite Hp0 in Hp1. rewrite Hp1 in Hp.
  assert (Hconn : HandleNewConnection st1 = Ret (tt, st)).
  { revert Hrun. unfold handle_event, app, mbind, M_bind, gets, Event.token.
    rewrite Hl, Z.eqb_refl. by destruct (Event.IsReadable ev). }
  destruct (wp_elim _ _ _ _ _ _ (HandleNewConnection_watched st1) Hconn _ _ Hnew Hep)
    as (Htok & Hwin & Hwout).
  destruct (wp_elim _ _ _ _ _ _ (HandleNewConnection_SInv fuel st1 HI1) Hconn)
    as (_ & _ & (tok' & fd2 & rx & ep' & Hnew' & Hep' & _ & Hacc) & _).
  destruct (wp_elim _ _ _ _ _ _ (HandleNewConnection_watched st1) Hconn _ _ Hnew' Hep') as (Htok' & _).
  subst tok tok'. assert (ep' = ep) as -> by congruence.
  pose proof Hacc as ((addr & Hfld) & Hs' & _). cbn [e_ep e_m] in *.
  assert (fd2 = fd) as -> by (by rewrite <- Hsk, Hfld). assert (rx = inp) as -> by congruence.
  rewrite Hp1 in *. split_and!; [done|done|]. split_and!; [done| |].
  - eexists _, _. rewrite <- Hp in Hacc.
    exact (conn_accepted fuel (IOMode0 := io_paced fd fuel) st _ fd inp ep HI Hep Hacc Hcl).
  - rewrite Hsk in *. split; by left.
Qed.

(** C9. No wake-up is lost.  Every registration is edge-triggered: what is left unread
    or unsent is reported again only after something new has happened.  Take a
    connection from the moment it is accepted, with a peer that sends a request only
    when the one before has been answered, and whose first header is not empty.  However
    the kernel splits the streams and other connections interfere: whenever the loop
    has handled all it was told and nothing is going to be reported for the
    connection, all that has arrived has been read, and what has been read is answered,
    or the socket has no room for the rest of the answer. *)
Theorem server_misses_no_wakeup evs st tok fd inp handled st' :
  welcomed evs st tok fd inp → 0 < of_le32 inp → closed_loop fd (world st) →
  looped fuel evs st handled [] st' → kept_open tok handled →
  ¬ k_pending (world st') (Poll.epfd p, fd) →
  k_arrived (world st') fd = [] ∧ ∃ s, kv_sock (kview (world st')) !! fd = Some s ∧
  (sv_tx s = answer 0 0 (sv_read s) ∨
   ¬ k_room (world st') fd ∧ sv_tx s `prefix_of` answer 0 0 (sv_read s)).
Proof.
  intros Hwel Hhdr Hcl Hloop Hopen Hnp.
  destruct (welcomed_attended _ _ _ _ _ Hwel Hcl) as (HI & Hdue & Hatt).
  apply (attended_done fuel p tok fd inp Hhdr); [|done]. by eapply (looped_attended fuel p tok fd inp Hhdr).
Qed.
End theorems.
