(* ===== verification/EdgeLive.v ===== *)
(** The server over an edge-triggered kernel makes progress: on a fair run every request
    of a peer that waits for its answers is answered. *)
From S2P Require Import Prelude CInt Kernel Poll Buffer Socket Endpoint EndpointSpec IOMode EndpointProofs EndpointProps SocketBwServer ServerProofs ServerProps Keeps ServerLive Edge EdgeServer.

Local Open Scope Z_scope.
#[local] Set Default Proof Using "Type*".

(** * The handlers make progress *)

Lemma Reregister_sock {W} `{!Kernel W, !KernelLaws W} p fd this i (w w' : W) :
  Poll.Reregister p fd this i w = Ret (tt, w') → kv_sock (kview w') = kv_sock (kview w).
Proof.
  unfold Poll.Reregister, Selector.Reregister, Selector.EpollCtl, mbind, M_bind, lift, check.
  destruct (sys_epoll_ctl _ _ _ _ _) as [r w1] eqn:Hr.
  destruct (r =? 0) eqn:H0; unfold mret, M_ret; intros; simplify_eq. apply Z.eqb_eq in H0 as ->.
  by rewrite (epoll_ctl_set _ _ _ _ _ _ Hr (or_intror eq_refl)).
Qed.

Section handlers.
Context {W : Type} `{!Kernel W, !KernelLaws W, !KernelFaultless W, !EdgeOps W, !EdgeLaws W,
  !ClosedLoop W, !EdgeFlow W}.
Context (fuel : nat) (poll : Poll.Poll) (this fd : Z) (inp : list byte).
Hypothesis first_header : 0 < of_le32 inp.
Implicit Types (w : W) (e : ep_state W).
Local Abbreviation world e := (m_world (e_m e)).
Local Abbreviation sock e := (kv_sock (kview (world e)) !! fd).

(** The mode of Edge.v, with what has come since the world [w0]. *)
Definition paced_since w0 w : Prop := closed_loop fd w ∧ flows fd w0 w.

Lemma paced_since_keeps w0 : io_keeps (paced_since w0).
Proof.
  pose proof (SysKeeps_io _ (closed_loop_kept fd)) as HK. split.
  - intros fd' len flags w r w' Hs Hr [Hcl Hfl]. split; [by eapply (ik_recv _ HK)|].
    etrans; [exact Hfl|]. pose proof (flow_recv fd fd' len flags w) as Hk. by rewrite Hr in Hk.
  - intros fd' bs flags w r w' Hs Hr [Hcl Hfl]. split; [by eapply (ik_send _ HK)|].
    etrans; [exact Hfl|]. pose proof (flow_send fd fd' bs flags w) as Hk. by rewrite Hr in Hk.
  - intros epfd fd' ev w r w' Hr [Hcl Hfl]. split; [by eapply (ik_epoll_mod _ HK)|].
    etrans; [exact Hfl|]. pose proof (flow_epoll_ctl fd epfd EPOLL_CTL_MOD fd' (Some ev) w) as Hk.
    by rewrite Hr in Hk.
  - intros al size w r w' Hr [Hcl Hfl]. split; [by eapply (ik_memalign _ HK)|].
    etrans; [exact Hfl|]. pose proof (flow_memalign fd al size w) as Hk. by rewrite Hr in Hk.
Qed.

Local Abbreviation paced := (io_paced fd fuel).
Local Abbreviation moded w0 := (io_faultless (paced_since w0) (paced_since_keeps w0) spins fuel).
#[local] Instance moded_meta w0 : IOMeta W spins fuel (IOMode0 := moded w0).
Proof. apply io_faultless_meta. Qed.

Section fixed.
Context (base : heap) (S0 : gmap Z sock_view) (E0 : gmap (Z * Z) epoll_event).
Local Abbreviation inv M := (inv (IOMode0 := M) poll this fd base S0 E0 (echo inp)).
Local Abbreviation Inv M := (Inv (IOMode0 := M) poll this fd base S0 E0 (echo inp)).

(** The invariant does not depend on the mode, but for what it says of the world. *)
Lemma inv_mode E E' J J' HJ HJ' n s e H D ph :
  inv (io_faultless J HJ E fuel) n s e H D ph → J' (world e) →
  inv (io_faultless J' HJ' E' fuel) n s e H D ph.
Proof using Type.
  intros [Hep Hm (Hv & Hr & _ & Hsent) Hst Hwk] Hok. split; [done|done|by split_and!|done|done].
Qed.

Lemma Inv_mode E E' J HJ HJ' n s e :
  Inv (io_faultless J HJ E fuel) n s e → Inv (io_faultless J HJ' E' fuel) n s e.
Proof using Type.
  intros (H & D & ph & Hinv & Harm & Hrest). exists H, D, ph. split_and!; [|done|done].
  eapply inv_mode; [exact Hinv|]. by destruct Hinv as [_ _ (_ & _ & Hok & _) _ _].
Qed.

Lemma Inv_since n s e : Inv paced n s e → Inv (moded (world e)) n s e.
Proof.
  intros (H & D & ph & Hinv & Harm & Hrest). exists H, D, ph. split_and!; [|done|done].
  eapply inv_mode; [exact Hinv|]. split; [|done]. by destruct Hinv as [_ _ (_ & _ & Hok & _) _ _].
Qed.

Lemma Inv_paced w0 n s e : Inv (moded w0) n s e → Inv paced n s e ∧ flows fd w0 (world e).
Proof.
  intros (H & D & ph & Hinv & Harm & Hrest).
  pose proof Hinv as [_ _ (_ & _ & [Hok Hfl] & _) _ _]. split; [|done].
  exists H, D, ph. split_and!; [|done|done]. by eapply inv_mode.
Qed.

Lemma Inv_view n s e : Inv paced n s e → sock e = Some s ∧ inp = sv_read s ++ sv_rx s.
Proof.
  intros HI. split; [exact (Inv_sock (IOMode0 := paced) _ _ _ _ _ _ _ _ _ _ HI)|].
  destruct HI as (H & D & ph & [_ _ _ Hst _] & _). by destruct (Hst I) as [? _].
Qed.

(** What is not answered is being answered. *)
Lemma unanswered_replying n s e :
  Inv paced n s e → sv_tx s ≠ answer 0 0 (sv_read s) → state_ (e_ep e) = REPLYING.
Proof.
  intros (H & D & ph & [Hep _ _ Hst _] & _ & Hrest) Hne.
  destruct (Hst I) as (_ & Hsent & _). specialize (Hsent [] (prefix_nil _)).
  rewrite app_nil_r, (owed_nil fd (e_ep e)) in Hsent by done. cbn [echo g_out] in Hsent.
  destruct ph as [| | |j]; try (by rewrite app_nil_r in Hsent).
  destruct e as [ep m]. cbn [e_ep] in *. by inversion Hep.
Qed.

(** What a run of the handlers does to the streams. *)
Lemma run_grown rs n s e :
  Inv paced n s e →
  wp spins (run_events fuel poll this rs) e (λ _ e', ∃ n' s', Inv paced n' s' e' ∧ grown s s').
Proof.
  intros HI. eapply wp_mono.
  { by apply (run_events_Inv (IOMode0 := moded (world e)) poll this fd base S0 E0 rs (echo inp) n s e),
      Inv_since. }
  intros [] e' (n' & s' & HI' & _). apply Inv_paced in HI' as [HI' Hfl].
  destruct (Inv_view _ _ _ HI) as [Hs _], (Inv_view _ _ _ HI') as [Hs' _].
  exists n', s'. split; [done|]. destruct (Hfl s Hs) as (s1 & Hs1 & Hg & _).
  by assert (s1 = s') as <- by congruence.
Qed.

(** When bytes have arrived the reading handler reads some. *)
Lemma OnRecvReady_reads n s e :
  Inv paced n s e → k_arrived (world e) fd ≠ [] →
  wp spins (OnRecvReady fuel poll this) e (λ _ e', ∃ n' s', Inv paced n' s' e' ∧ grown s s' ∧
  (length (sv_read s) < length (sv_read s'))%nat).
Proof.
  intros HI Harr. pose proof (Inv_since _ _ _ HI) as HI0.
  destruct (Inv_view _ _ _ HI) as [Hs Hin].
  assert (Hstate : state_ (e_ep e) ≠ REPLYING).
  { intros Hrep. destruct HI as (H & D & ph & Hinv & _ & Hrest). apply Harr.
    eapply owing_quiet; [exact first_header|exact Hinv|right].
    split; [by apply (replying_busy (IOMode0 := paced) _ _ _ _ _ _ _ _ _ _ _ _ _ Hinv)|done]. }
  eapply wp_mono.
  { apply (OnRecvReady_handled (IOMode0 := moded (world e)) poll this fd base S0 E0 (echo inp) n s e); [done|done|].
    intros _. by apply (Inv_meta (IOMode0 := moded (world e)) poll this fd base S0 E0 (echo inp) n s e HI0). }
  intros [] e' [(n' & s' & HI' & _) Hset]. apply Inv_paced in HI' as [HI' Hfl].
  destruct (Inv_view _ _ _ HI') as [Hs' Hin']. exists n', s'. split; [done|].
  destruct (Hfl s Hs) as (s1 & Hs1 & Hg & Hread & _).
  assert (s1 = s') as -> by congruence. split; [done|].
  destruct (Hset I) as [[Hdr|(n0 & s0 & e0 & H & D & b & Hinv0 & Hrun)] _].
  - rewrite (drained_empty _ _ Hdr), app_nil_r in Hread. apply prefix_length in Hread.
    rewrite length_app in Hread. destruct (k_arrived (world e) fd); [done|simpl in Hread; lia].
  - assert (HI0' : inv paced n0 s0 e0 H D PData).
    { eapply inv_mode; [exact Hinv0|]. apply Hinv0. }
    assert (Hq : k_arrived (world e0) fd = []) by (eapply owing_quiet; [done|exact HI0'|by left]).
    pose proof Hinv0 as [Hep0 _ Hw0 Hst0 _].
    pose proof (world_rep_sock (IOMode0 := moded (world e)) _ _ _ _ _ _ _ _ Hw0) as Hs0.
    destruct Hw0 as (_ & _ & [_ Hfl0] & _), (Hst0 I) as (Hin0 & _).
    destruct (Hfl0 s Hs) as (s1 & Hs1' & _ & Hread0 & _). assert (s1 = s0) as -> by congruence.
    destruct e0 as [ep0 m0]. cbn [e_ep] in Hep0.
    inversion Hep0 as [| |addr i lh hb D' hv dv ? ?|]; subst.
    pose proof (Reply_inv (IOMode0 := paced) poll this fd base S0 E0 _ _ _ _ _ _ _ HI0') as Hrep.
    destruct (wp_elim _ _ _ _ _ _ Hrep Hrun) as (s2 & ph2 & Hinv2 & _ & _ & Hrx & _).
    pose proof Hinv2 as [_ _ Hw2 Hst2 _].
    pose proof (world_rep_sock (IOMode0 := paced) _ _ _ _ _ _ _ _ Hw2) as Hs2.
    assert (s2 = s') as -> by congruence.
    destruct (Hst2 I) as (Hin2 & _). cbn [echo g_in] in *. rewrite Hq, app_nil_r in Hread0.
    apply prefix_length in Hread0. rewrite length_app in Hread0.
    apply (f_equal length) in Hin0, Hin2. rewrite !length_app in Hin0, Hin2. rewrite Hrx in Hin2.
    destruct (k_arrived (world e) fd); [done|simpl in Hread0; lia].
Qed.

(** When there is room the sending handler sends some of what is not answered. *)
Lemma OnSendReady_sends n s e :
  Inv paced n s e → sv_tx s ≠ answer 0 0 (sv_read s) → k_room (world e) fd →
  wp spins (OnSendReady poll this) e (λ _ e', ∃ n' s', Inv paced n' s' e' ∧ grown s s' ∧
  (length (sv_tx s) < length (sv_tx s'))%nat).
Proof.
  intros HI Hne Hroom. pose proof (Inv_since _ _ _ HI) as HI0.
  pose proof (unanswered_replying _ _ _ HI Hne) as Hstate.
  destruct (Inv_view _ _ _ HI) as [Hs Hin]. eapply wp_mono.
  { by apply (OnSendReady_handled (IOMode0 := moded (world e)) poll this fd base S0 E0 (echo inp) n s e). }
  intros [] e' (n' & s' & HI' & _ & Hrx & _ & _ & Hwait). apply Inv_paced in HI' as [HI' Hfl].
  destruct (Inv_view _ _ _ HI') as [Hs' Hin']. exists n', s'. split; [done|].
  destruct (Hfl s Hs) as (s1 & Hs1 & Hg & _ & _).
  assert (s1 = s') as -> by congruence. split; [done|].
  destruct (Nat.lt_ge_cases (length (sv_tx s)) (length (sv_tx s'))) as [|Hle]; [done|exfalso].
  assert (Htx : sv_tx s' = sv_tx s).
  { destruct Hg as [_ [k Hk]]. rewrite Hk, length_app in Hle. destruct k; [|simpl in Hle; lia].
    by rewrite app_nil_r in Hk. }
  assert (Hrd : sv_read s' = sv_read s).
  { rewrite Hrx in Hin'. rewrite Hin in Hin'. by apply app_inv_tail in Hin'. }
  assert (Hrep : state_ (e_ep e') = REPLYING).
  { apply (unanswered_replying _ _ _ HI'). by rewrite Htx, Hrd. }
  destruct (Hwait Hstate Hrep) as (w1 & Hb & [_ Hfl1] & Hw1).
  apply (blocked_full _ _ Hb). destruct (Hfl1 s Hs) as (s1 & Hs1' & _ & _ & Hr). apply Hr; [|done].
  assert (kv_sock (kview (world e')) = kv_sock (kview w1)) as Hsame.
  { destruct Hw1 as [->|[i Hrun]]; [done|by eapply Reregister_sock]. }
  rewrite Hsame in Hs'. congruence.
Qed.

(** The handlers of an event that tells of something to do. *)
Definition useful ev (s : sock_view) w : Prop :=
  Event.IsReadable ev = true ∧ k_arrived w fd ≠ [] ∨
  Event.IsWritable ev = true ∧ sv_tx s ≠ answer 0 0 (sv_read s) ∧ k_room w fd.

Lemma run_useful ev n s e :
  Inv paced n s e → useful ev s (world e) →
  wp spins (run_events fuel poll this (readiness_of ev)) e
    (λ _ e', ∃ n' s', Inv paced n' s' e' ∧ grown s s' ∧ s' ≠ s).
Proof.
  intros HI [[Hr Harr]|(Hw & Hne & Hroom)]; unfold readiness_of.
  - rewrite Hr. cbn [Datatypes.app run_events on_ready]. wp_step.
    eapply wp_mono; [by eapply OnRecvReady_reads|]. intros [] e1 (n1 & s1 & HI1 & Hg1 & Hlt).
    eapply wp_mono; [by eapply run_grown|]. intros [] e2 (n2 & s2 & HI2 & Hg2). exists n2, s2.
    split_and!; [done|by etrans|]. intros ->. destruct Hg2 as [Hle%prefix_length _]. lia.
  - assert (Hsend : wp spins (run_events fuel poll this [Writable]) e
      (λ _ e', ∃ n' s', Inv paced n' s' e' ∧ grown s s' ∧ s' ≠ s)).
    { cbn [run_events on_ready]. wp_step. eapply wp_mono; [by eapply OnSendReady_sends|].
      intros [] e1 (n1 & s1 & HI1 & Hg1 & Hlt). wp_step. exists n1, s1.
      split_and!; [done|done|]. intros ->. lia. }
    rewrite Hw. destruct (Event.IsReadable ev); [|done]. cbn [Datatypes.app run_events on_ready]. wp_step.
    eapply wp_mono; [apply (OnRecvReady_replying (IOMode0 := paced) poll this fd base S0 E0 _ n s e HI)|].
    { by eapply unanswered_replying. }
    intros [] e1 ->. exact Hsend.
Qed.
End fixed.
End handlers.

(** * Runs *)

#[export] Instance sock_view_eq_dec : EqDecision sock_view.
Proof. solve_decision. Defined.

(** What is left to do for a connection. *)
Definition todo (inp : list byte) (s : sock_view) : nat :=
  length (sv_rx s) + (length (answer 0 0 inp) - length (sv_tx s)).

Lemma grown_todo inp s s' :
  inp = sv_read s ++ sv_rx s → inp = sv_read s' ++ sv_rx s' →
  sv_tx s' `prefix_of` answer 0 0 inp → grown s s' → s' ≠ s → (todo inp s' < todo inp s)%nat.
Proof.
  intros Hin Hin' Htx [Hr Ht] Hm. apply prefix_length in Htx. unfold todo.
  destruct s as [rd rx tx], s' as [rd' rx' tx']. simpl in *. destruct Hr as [k ->], Ht as [k' ->].
  rewrite length_app in Htx. rewrite Hin, <- app_assoc in Hin'. apply app_inv_head in Hin' as ->.
  rewrite !length_app. destruct k, k'; simpl in *; [|lia..]. by rewrite !app_nil_r in Hm.
Qed.

Section runs.
Context {W : Type} `{!Kernel W, !KernelLaws W, !KernelFaultless W, !EdgeOps W, !EdgeLaws W,
  !ClosedLoop W, !EdgeFlow W}.
Context (fuel : nat) (p : Poll.Poll) (tok fd : Z) (inp : list byte).
Hypothesis first_header : 0 < of_le32 inp.
Implicit Types (st : srv_state W) (evs : list epoll_event).
Local Abbreviation world st := (m_world (sv_m st)).
Local Abbreviation sock st := (kv_sock (kview (world st)) !! fd).
Local Abbreviation attended := (attended fuel p tok fd inp).
#[local] Existing Instances io_paced io_paced_kept io_paced_meta.

(** The loop: the events still to be handled, and the state. *)
Local Abbreviation config := (list epoll_event * srv_state W)%type.
Inductive loop_step : config → config → Prop :=
  | loop_wait st max_events timeout_ms evs st1 :
      sv_w (Poll.PollUntil (poll_ (sv_app st)) max_events timeout_ms) st = Ret (Some evs, st1) →
      loop_step ([], st) (evs, st1)
  | loop_event ev evs st st1 :
      handle_event fuel ev st = Ret (tt, st1) → loop_step (ev :: evs, st) (evs, st1).

(** No event asks for the end of the connection. *)
Definition stays_open (c : config) : Prop :=
  match c.1 with ev :: _ => ev_data ev = tok → closes ev = false | [] => True end.

Definition served_well (c : config) : Prop :=
  SInv fuel None c.2 ∧ due c.2 c.1 ∧ attended c.1 c.2.

Lemma loop_step_served c c' : loop_step c c' → stays_open c → served_well c → served_well c'.
Proof.
  intros Hstep Hopen (HI & Hdue & Hatt). unfold served_well.
  assert (∃ handled, looped fuel c.1 c.2 handled c'.1 c'.2 ∧
    Forall (λ ev, ev_data ev = tok → closes ev = false) handled) as (h & Hloop & Hh).
  { destruct Hstep as [st me tm evs st1 Hw|ev evs st st1 Hrun]; simpl.
    - exists []. split; [|constructor]. eapply looped_wait; [exact Hw|constructor].
    - exists [ev]. split; [eapply looped_event; [exact Hrun|constructor]|by repeat constructor]. }
  destruct (looped_SInv _ _ _ _ _ _ Hloop HI Hdue) as (? & ? & _). split_and!; [done|done|].
  by eapply (looped_attended fuel p tok fd inp first_header).
Qed.

(** The streams of the connection. *)
Lemma served_sock c :
  served_well c → ∃ s, sock c.2 = Some s ∧ inp = sv_read s ++ sv_rx s ∧
  sv_tx s `prefix_of` answer 0 0 inp.
Proof.
  intros (_ & _ & _ & (n & s & Hc) & _). exists s. split_and!.
  - exact (conn_sock _ _ _ _ _ _ _ Hc).
  - destruct Hc as (_ & ep & _ & _ & Hl). exact (live_read _ _ _ _ _ _ _ _ Hl I).
  - exact (conn_sent _ _ _ _ _ _ _ Hc I).
Qed.

(** One step: the streams grow, and they do when an event is useful. *)
Lemma loop_step_grown c c' s :
  loop_step c c' → stays_open c → served_well c → sock c.2 = Some s →
  ∃ s', sock c'.2 = Some s' ∧ grown s s' ∧
  (∀ ev evs, c.1 = ev :: evs → ev_data ev = tok → useful fd ev s (world c.2) → s' ≠ s).
Proof.
  intros Hstep Hopen (HI & Hdue & Hp & (n & s0 & Hc) & _) Hs.
  assert (s0 = s) as -> by (pose proof (conn_sock _ _ _ _ _ _ _ Hc); congruence).
  destruct Hstep as [st me tm evs st1 Hw|ev evs st st1 Hrun]; cbn [fst snd] in *.
  - destruct (wait_SInv _ _ _ _ _ _ Hw HI) as (_ & _ & Hv & _). exists s. by rewrite Hv.
  - destruct (event_due _ _ _ _ _ HI Hdue Hrun) as [[fd' Hrep] _].
    destruct (event_SInv _ _ _ _ _ HI Hrep Hrun) as [HI1 Hp1].
    destruct (decide (ev_data ev = tok)) as [Hev|Hne].
    + pose proof Hc as (_ & ep & Hep & Hsk & base & HE). rewrite Hsk, Hp in HE.
      assert (Hcl : closes ev = false) by by apply Hopen.
      assert (Hwp : ∀ P : sock_view → Prop,
        wp spins (run_events fuel p tok (readiness_of ev)) (EpState ep (sv_m st))
          (λ _ e', ∃ n' s', Inv (IOMode0 := io_paced fd fuel) p tok fd base
            (kv_sock (kview (world st))) (kv_epoll (kview (world st))) (echo inp) n' s' e' ∧ P s') →
        ∃ s', sock st1 = Some s' ∧ P s').
      { intros P HP. assert (Hh : wp spins (handle_event fuel ev) st (λ _ st', ∃ s', sock st' = Some s' ∧ P s')).
        { eapply (own_event_run fuel); [done|by rewrite Hev|done|].
          rewrite Hp, Hev. eapply wp_mono; [exact HP|]. intros _ e' (n' & s' & HI' & HPs). exists s'.
          split; [|done]. exact (Inv_sock (IOMode0 := io_paced fd fuel) _ _ _ _ _ _ _ _ _ _ HI'). }
        by destruct (wp_elim _ _ _ _ _ _ Hh Hrun) as (s' & ? & ?); exists s'. }
      destruct (Hwp (grown s)) as (s' & Hs' & Hg); [by eapply (run_grown fuel p tok fd inp first_header)|].
      exists s'. split_and!; [done|done|]. intros ev' evs' [= <- <-] _ Huse.
      destruct (Hwp (λ s', grown s s' ∧ s' ≠ s)) as (s2 & Hs2 & _ & Hne).
      { by eapply (run_useful fuel p tok fd inp first_header). }
      congruence.
    + pose proof (other_event fuel (IOMode0 := io_paced fd fuel) _ _ _ _ _ _ _ _ _ HI Hc Hrep
        (not_eq_sym Hne) Hrun Hp1) as Hc1.
      exists s. split_and!; [exact (conn_sock _ _ _ _ _ _ _ Hc1)|done|]. by intros ev' evs' [= <- <-].
Qed.
End runs.

(** * The property *)

Section theorem.
Context {W : Type} `{!Kernel W, !KernelLaws W, !KernelFaultless W, !EdgeOps W, !EdgeLaws W,
  !ClosedLoop W, !EdgeFlow W}.
Context (fuel n : nat) (port timeout_ms max_events : Z) (p : Poll.Poll) (w0 : W).
Context (run : nat → list epoll_event * srv_state W) (tok fd : Z) (inp : list byte).

Local Abbreviation evs i := (run i).1.
Local Abbreviation world i := (m_world (sv_m (run i).2)).
Local Abbreviation sock i := (kv_sock (kview (world i)) !! fd).
Local Abbreviation key := (Poll.epfd p, fd).

(** The loop is about to handle an event that tells the truth. *)
Definition tells_in (i : nat) : Prop :=
  ∃ ev l, evs i = ev :: l ∧ ev_data ev = tok ∧ Event.IsReadable ev = true ∧ k_arrived (world i) fd ≠ [].
Definition tells_out (i : nat) : Prop :=
  ∃ ev l, evs i = ev :: l ∧ ev_data ev = tok ∧ Event.IsWritable ev = true ∧ k_room (world i) fd.
Definition moved (i j : nat) : Prop := sock j ≠ sock i.

(** What the kernel, the network and the peer owe the connection: what is pending is
    reported; there is room again and again; and when the peer has been answered, and
    has more to send, it arrives. *)
Record fair : Prop := {
  fair_in i : evs i = [] → expected EPOLLIN key (world i) → k_arrived (world i) fd ≠ [] →
    ∃ j, (i ≤ j)%nat ∧ (tells_in j ∨ moved i j);
  fair_out i : evs i = [] → expected EPOLLOUT key (world i) → k_room (world i) fd →
    ∃ j, (i ≤ j)%nat ∧ (tells_out j ∨ moved i j);
  fair_room i : ∃ j, (i ≤ j)%nat ∧ evs j = [] ∧ k_room (world j) fd;
  fair_peer i s : evs i = [] → sock i = Some s → k_arrived (world i) fd = [] →
    sv_rx s ≠ [] → sv_tx s = answer 0 0 (sv_read s) →
    ∃ j, (i ≤ j)%nat ∧ (evs j = [] ∧ k_arrived (world j) fd ≠ [] ∨ moved i j);
}.

Section proof.
Hypothesis first_header : 0 < of_le32 inp.
Hypothesis run_steps : ∀ i, loop_step fuel (run i) (run (S i)).
Hypothesis run_open : ∀ i, stays_open tok (run i).
Hypothesis run_start : served_well fuel p tok fd inp (run 0%nat).
Hypothesis run_fair : fair.

Local Abbreviation done_sock := (SockView inp [] (answer 0 0 inp)).

Lemma run_served i : served_well fuel p tok fd inp (run i).
Proof. induction i as [|i IH]; [done|]. by eapply loop_step_served. Qed.

Lemma run_sock i :
  ∃ s, sock i = Some s ∧ inp = sv_read s ++ sv_rx s ∧ sv_tx s `prefix_of` answer 0 0 inp.
Proof. by eapply served_sock, run_served. Qed.

Lemma sock_grown i j s : (i ≤ j)%nat → sock i = Some s → ∃ s', sock j = Some s' ∧ grown s s'.
Proof.
  intros Hle Hs. induction Hle as [|j _ (s1 & Hs1 & Hg1)]; [by exists s|].
  destruct (loop_step_grown fuel p tok fd inp first_header _ _ s1 (run_steps j) (run_open j)
    (run_served j) Hs1) as (s2 & Hs2 & Hg2 & _). exists s2. split; [done|by etrans].
Qed.

Lemma moved_or i j : moved i j ∨ sock j = sock i.
Proof. unfold moved. destruct (decide (sock j = sock i)); auto. Qed.

(** An event that tells of something to do is handled with success. *)
Lemma tells_moves i s :
  sock i = Some s → tells_in i ∨ tells_out i ∧ sv_tx s ≠ answer 0 0 (sv_read s) → moved i (S i).
Proof.
  intros Hs Htell.
  destruct (loop_step_grown fuel p tok fd inp first_header _ _ s (run_steps i) (run_open i)
    (run_served i) Hs) as (s' & Hs' & _ & Huse). unfold moved. rewrite Hs, Hs'. intros [= Heq].
  destruct Htell as [(ev & l & Hev & Htok & Hr & Ha)|[(ev & l & Hev & Htok & Hr & Ha) Hne]];
    (destruct (Huse ev l Hev Htok); [|done]); [by left|by right].
Qed.

Lemma finds_wait i : ∃ j, (i ≤ j)%nat ∧ evs j = [].
Proof.
  remember (evs i) as l eqn:Hl. revert i Hl. induction l as [|ev l IH]; intros i Hl; [by exists i|].
  pose proof (run_steps i) as Hstep. inversion Hstep as [? ? ? ? ? ? Hi|ev' l' st st1 Hrun Hi Hi'].
  { by rewrite <- Hi in Hl. }
  rewrite <- Hi in Hl. injection Hl as -> ->. destruct (IH (S i)) as (j & ? & ?); [by rewrite <- Hi'|].
  exists j. split; [lia|done].
Qed.

(** Then the connection moves on, if not at once then later. *)
Lemma later_moves i j : sock j = sock i → (∃ k, (j ≤ k)%nat ∧ moved j k) → (i ≤ j)%nat →
  ∃ k, (i ≤ k)%nat ∧ moved i k.
Proof. intros Heq (k & ? & Hm) ?. exists k. split; [lia|]. unfold moved in *. by rewrite <- Heq. Qed.

Lemma arrived_moves i :
  evs i = [] → k_arrived (world i) fd ≠ [] → ∃ j, (i ≤ j)%nat ∧ moved i j.
Proof.
  intros Hi Harr. destruct (run_served i) as (_ & _ & Hatt). rewrite Hi in Hatt.
  apply (attended_served fuel p tok fd inp first_header) in Hatt as [Hpend _].
  destruct (fair_in run_fair i Hi (Hpend Harr) Harr) as (j & Hle & [Htell|Hm]); [|by exists j].
  destruct (moved_or i j) as [|Heq]; [by exists j|]. eapply later_moves; [exact Heq| |done].
  destruct (run_sock j) as (s & Hs & _). exists (S j). split; [lia|]. eapply tells_moves; [done|by left].
Qed.

Lemma unanswered_moves i s :
  sock i = Some s → sv_tx s ≠ answer 0 0 (sv_read s) → ∃ j, (i ≤ j)%nat ∧ moved i j.
Proof.
  intros Hs Hne. destruct (fair_room run_fair i) as (j & Hle & Hj & Hroom).
  destruct (moved_or i j) as [|Heq]; [by exists j|]. eapply later_moves; [exact Heq| |done].
  rewrite <- Heq in Hs. clear Heq Hle.
  destruct (run_served j) as (_ & _ & Hatt). rewrite Hj in Hatt.
  apply (attended_served fuel p tok fd inp first_header) in Hatt as (_ & s1 & Hs1 & Hout).
  assert (s1 = s) as -> by congruence. destruct Hout as [|[Hpend _]]; [done|].
  destruct (fair_out run_fair j Hj (Hpend Hroom) Hroom) as (k & Hle & [Htell|Hm]); [|by exists k].
  destruct (moved_or j k) as [|Heq]; [by exists k|]. eapply later_moves; [exact Heq| |done].
  rewrite <- Heq in Hs. exists (S k). split; [lia|]. eapply tells_moves; [done|by right].
Qed.

Lemma unfinished_moves i s : sock i = Some s → s ≠ done_sock → ∃ j, (i ≤ j)%nat ∧ moved i j.
Proof.
  intros Hs Hne. destruct (decide (sv_tx s = answer 0 0 (sv_read s))) as [Hans|]; [|by eapply unanswered_moves].
  destruct (finds_wait i) as (j & Hle & Hj). destruct (moved_or i j) as [|Heq]; [by exists j|].
  eapply later_moves; [exact Heq| |done]. rewrite <- Heq in Hs.
  destruct (k_arrived (world j) fd) as [|b l] eqn:Harr; [|by apply arrived_moves; [|rewrite Harr]].
  destruct (fair_peer run_fair j s Hj Hs Harr) as (k & Hle' & [[Hk Ha]|Hm]); [|done| |by exists k].
  - intros Hrx. apply Hne. destruct (run_sock j) as (s1 & Hs1 & Hin & _).
    assert (s1 = s) as -> by congruence. rewrite Hrx, app_nil_r in Hin. rewrite <- Hin in Hans.
    destruct s as [rd rx tx]. simpl in *. by subst.
  - destruct (moved_or j k) as [|Heq']; [by exists k|]. eapply later_moves; [exact Heq'| |done].
    by apply arrived_moves.
Qed.

Lemma moved_todo i j s s' :
  (i ≤ j)%nat → sock i = Some s → sock j = Some s' → moved i j → (todo inp s' < todo inp s)%nat.
Proof.
  intros Hle Hs Hs' Hm. destruct (sock_grown i j s Hle Hs) as (s1 & Hs1 & Hg).
  assert (s1 = s') as -> by congruence. clear Hs1.
  destruct (run_sock i) as (s1 & Hs1 & Hin & _). assert (s1 = s) as -> by congruence.
  destruct (run_sock j) as (s1' & Hs1' & Hin' & Htx). assert (s1' = s') as -> by congruence.
  apply grown_todo; [done..|]. unfold moved in Hm. congruence.
Qed.

Lemma finishes i : ∃ j, (i ≤ j)%nat ∧ sock j = Some done_sock.
Proof.
  destruct (run_sock i) as (s & Hs & _). remember (todo inp s) as m eqn:Hm. revert i s Hs Hm.
  induction (lt_wf m) as [m _ IH]. intros i s Hs ->.
  destruct (decide (s = done_sock)) as [->|Hne]; [by exists i|].
  destruct (unfinished_moves i s Hs Hne) as (j & Hle & Hmv). destruct (run_sock j) as (s' & Hs' & _).
  destruct (IH (todo inp s') (moved_todo i j s s' Hle Hs Hs' Hmv) j s' Hs' eq_refl) as (k & ? & ?).
  exists k. split; [lia|done].
Qed.
(** And nothing more happens to it. *)
Lemma finished_stays i j : (i ≤ j)%nat → sock i = Some done_sock → sock j = Some done_sock.
Proof.
  intros Hle Hi. destruct (sock_grown i j _ Hle Hi) as ([r x t] & Hj & [[k Hr] Ht]).
  destruct (run_sock j) as (s & Hs & Hin & Hall). rewrite Hj in Hs. injection Hs as <-. simpl in *.
  rewrite Hj, (anti_symm prefix _ _ Ht Hall). apply (f_equal length) in Hin as Hlen.
  rewrite Hr, !length_app in Hlen. destruct k, x; simpl in Hlen; [|lia..].
  by rewrite Hr, app_nil_r.
Qed.
End proof.

(** C6. Every request is answered in the end.  Take a connection from the moment it is
    accepted, with a peer that sends a request only when the one before has been
    answered, and whose first header is not empty; and let the loop run on for ever over
    the edge-triggered kernel, however the streams are split and other connections
    interfere.  If what is pending is reported at some time, the socket has room again
    and again, and an answered peer's next bytes arrive at some time, then from some
    step on all that the peer has to send has been read and the answer to all of it has
    been sent, to the last byte and no byte more. *)
Theorem server_answers_all :
  welcomed fuel n port timeout_ms max_events p w0 (evs 0%nat) (run 0%nat).2 tok fd inp →
  0 < of_le32 inp → closed_loop fd (world 0%nat) →
  (∀ i, loop_step fuel (run i) (run (S i))) → (∀ i, stays_open tok (run i)) → fair →
  ∃ i, ∀ j, (i ≤ j)%nat → sock j = Some (SockView inp [] (answer 0 0 inp)).
Proof.
  intros Hwel Hhdr Hcl Hsteps Hopen Hfair.
  assert (Hstart : served_well fuel p tok fd inp (run 0%nat)).
  { by eapply welcomed_attended. }
  destruct (finishes Hhdr Hsteps Hopen Hstart Hfair 0) as (i & _ & Hi).
  exists i. intros j Hle. by eapply finished_stays.
Qed.
End theorem.
