(* ===== verification/EdgeTotal.v ===== *)
(** The handlers return.  A handler of an endpoint can only fail to return in the loop
    that reads the two sizes of a request (see IOMode.v); it does return when all eight
    bytes have arrived. *)
From S2P Require Import Prelude CInt Kernel Poll Buffer Socket Endpoint EndpointSpec IOMode EndpointProofs EndpointProps SocketBwServer ServerProofs ServerProps Keeps ServerLive Edge EdgeServer EdgeLive.

Local Open Scope Z_scope.
#[local] Set Default Proof Using "Type*".

(** * Reading what has arrived *)

Section read.
Context {W : Type} `{!Kernel W, !KernelLaws W, !KernelFaultless W, !EdgeOps W, !EdgeFlow W}.
Context (J : W → Prop) (HJ : io_keeps J).
Implicit Types (w : W).

(** One call brings all that was asked for. *)
Lemma recv_arrived fd len flags w r w' s :
  kv_sock (kview w) !! fd = Some s → 0 < len ≤ Z.of_nat (length (k_arrived w fd)) →
  sys_recv fd len flags w = (r, w') → ∃ bs, r = Some bs ∧ Z.of_nat (length bs) = len.
Proof.
  intros Hs Hlen Hr. pose proof (flow_recv fd fd len flags w s Hs) as (s' & Hs' & _ & Hp & _).
  rewrite Hr in Hs', Hp. simpl in *. apply prefix_length in Hp. rewrite !length_app in Hp.
  assert (Hdr : ∀ r', r = r' → match r' with None => True | Some bs => Z.of_nat (length bs) < len end →
    k_arrived w' fd = []).
  { intros r' <- Hm. apply drained_empty. exists len, flags, w, r. split; [exact Hr|done]. }
  destruct r as [bs|].
  - destruct (recv_Some _ _ _ _ _ _ _ Hr ltac:(lia) Hs) as (Hle & _ & rest & _ & Hv).
    rewrite Hv, kv_set_sock_lookup in Hs'. injection Hs' as <-. simpl in Hp. rewrite length_app in Hp.
    exists bs. split; [done|]. destruct (decide (Z.of_nat (length bs) < len)) as [Hlt|]; [|lia].
    rewrite (Hdr (Some bs)) in Hp by done. simpl in Hp. lia.
  - apply recv_None in Hr as Hv. rewrite Hv in Hs'. assert (s' = s) as -> by congruence.
    rewrite (Hdr None) in Hp by done. simpl in Hp. lia.
Qed.

(** So the sizes are read when they have arrived. *)
Lemma meta_arrived fuel fd s w :
  kv_sock (kview w) !! fd = Some s → (8 ≤ length (k_arrived w fd))%nat → J w → (2 ≤ fuel)%nat →
  meta_read (IOMode0 := io_faultless J HJ total fuel) fd s w.
Proof.
  intros Hs Hlen Hok Hfuel. unfold meta_read, RecvAll. destruct fuel as [|[|fuel]]; [lia..|].
  cbn [RecvAll_loop]. rewrite (proj2 (Z.ltb_lt _ _)) by (simpl; lia). wp_step. apply wp_lift. intros r w' Hr.
  change (8 - Z.of_nat (length [])) with 8 in Hr.
  destruct (recv_arrived fd 8 0 w r w' s Hs ltac:(lia) Hr) as (bs & -> & Hbs).
  destruct (recv_Some fd 8 0 w bs w' s Hr ltac:(lia) Hs) as (_ & _ & rest & Hrx & Hv).
  destruct bs as [|b bs]; [done|]. change ([] ++ b :: bs) with (b :: bs). rewrite (proj2 (Z.ltb_ge _ _)) by lia.
  wp_step. simpl io_ok. simpl io_patience. split_and!; [|done|by exists rest|lia| |].
  - by eapply (ik_recv J HJ); [by rewrite Hs|exact Hr|].
  - intros _. rewrite Hrx. symmetry. apply take_app_length'. lia.
  - intros _ ?. lia.
Qed.
End read.

(** * The handlers *)

Section handlers.
Context {W : Type} `{!Kernel W, !KernelLaws W, !KernelFaultless W, !EdgeOps W, !EdgeLaws W,
  !ClosedLoop W, !EdgeFlow W}.
Context (fuel : nat) (poll : Poll.Poll) (this fd : Z) (inp : list byte).
Hypothesis enough_fuel : (2 ≤ fuel)%nat.
Implicit Types (e : ep_state W).
Local Abbreviation world e := (m_world (e_m e)).
Local Abbreviation paced := (io_paced fd fuel).
Local Abbreviation returning :=
  (io_faultless (closed_loop fd) (SysKeeps_io _ (closed_loop_kept fd)) total fuel).

(** When bytes are reported where a request begins, its sizes are there. *)
Definition sizes_there (ev : epoll_event) (s : sock_view) (w : W) : Prop :=
  Event.IsReadable ev = true → k_arrived w fd ≠ [] ∧
  ∀ hc dc, requests 0 0 (sv_read s) hc dc → (8 ≤ length (k_arrived w fd))%nat.

Section fixed.
Context (base : heap) (S0 : gmap Z sock_view) (E0 : gmap (Z * Z) epoll_event).
Local Abbreviation Inv M := (Inv (IOMode0 := M) poll this fd base S0 E0 (echo inp)).

Lemma Inv_meta_read n s e :
  Inv returning n s e → state_ (e_ep e) = NEW_RPC → k_arrived (world e) fd ≠ [] →
  (∀ hc dc, requests 0 0 (sv_read s) hc dc → (8 ≤ length (k_arrived (world e) fd))%nat) →
  meta_read (IOMode0 := returning) fd s (world e).
Proof.
  intros (H & D & ph & [Hep _ Hw Hst _] & _) Hnew Harr H8.
  pose proof (world_rep_sock _ _ _ _ _ _ _ _ Hw) as Hs.
  apply meta_arrived; [done| |apply Hw|done]. destruct (Hst I) as (_ & _ & _ & [Hnil|Hcut]).
  - destruct Harr. pose proof (arrived_prefix _ _ _ Hs) as Hp. rewrite Hnil in Hp.
    by apply prefix_nil_inv in Hp.
  - destruct e as [ep m]. cbn [e_ep] in *. inversion Hep as [|? ? ? ? ? ? ? ? ? ? ? ? Hstate| |]; subst; try done.
    + by apply (H8 (cap H) (cap D)).
    + by destruct Hstate as [->|[-> _]].
Qed.

Lemma run_events_returns ev n s e :
  Inv paced n s e → sizes_there ev s (world e) →
  wp total (run_events fuel poll this (readiness_of ev)) e (λ _ e', ∃ n' s', Inv paced n' s' e').
Proof.
  intros HI Hthere. apply (wp_mono _ _ _ (λ _ e', ∃ n' s', Inv returning n' s' e')); cycle 1.
  { intros _ e' (n' & s' & HI'). exists n', s'. exact (Inv_mode fuel poll this fd inp base S0 E0 total spins _ _ _ n' s' e' HI'). }
  apply (Inv_mode fuel poll this fd inp base S0 E0 spins total _ _ (SysKeeps_io _ (closed_loop_kept fd))) in HI.
  assert (Hsend : ∀ n s e, Inv returning n s e →
    wp total (run_events fuel poll this [Writable]) e (λ _ e', ∃ n' s', Inv returning n' s' e')).
  { clear. intros n s e HI. cbn [run_events on_ready]. wp_step. eapply wp_mono.
    { exact (OnSendReady_handled (IOMode0 := returning) poll this fd base S0 E0 _ n s e HI). }
    intros _ e' (n' & s' & HI' & _). wp_step. by exists n', s'. }
  assert (Hrecv : Event.IsReadable ev = true →
    wp total (OnRecvReady fuel poll this) e (λ _ e', ∃ n' s', Inv returning n' s' e')).
  { intros Hr. destruct (Hthere Hr) as [Harr H8]. destruct (decide (state_ (e_ep e) = REPLYING)) as [Hrep|Hnrep].
    - eapply wp_mono; [exact (OnRecvReady_replying (IOMode0 := returning) poll this fd base S0 E0 _ n s e HI Hrep)|].
      intros _ e' ->. by exists n, s.
    - eapply wp_mono.
      { apply (OnRecvReady_handled (IOMode0 := returning) poll this fd base S0 E0 _ n s e HI Hnrep).
        intros Hnew. by eapply Inv_meta_read. }
      intros _ e' [(n' & s' & HI' & _) _]. by exists n', s'. }
  unfold readiness_of.
  destruct (Event.IsReadable ev), (Event.IsWritable ev); cbn [Datatypes.app].
  - cbn [run_events on_ready]. wp_step. eapply wp_mono; [by apply Hrecv|].
    intros _ e1 (n1 & s1 & HI1). exact (Hsend n1 s1 e1 HI1).
  - cbn [run_events on_ready]. wp_step. eapply wp_mono; [by apply Hrecv|].
    intros _ e1 (n1 & s1 & HI1). wp_step. by exists n1, s1.
  - exact (Hsend n s e HI).
  - cbn [run_events]. wp_step. by exists n, s.
Qed.
End fixed.
End handlers.

(** * The server *)

Section server.
Context {W : Type} `{!Kernel W, !KernelLaws W, !KernelFaultless W, !EdgeOps W, !EdgeLaws W,
  !ClosedLoop W, !EdgeFlow W}.
Context (fuel : nat) (p : Poll.Poll) (tok fd : Z) (inp : list byte).
Hypothesis enough_fuel : (2 ≤ fuel)%nat.
Implicit Types (st : srv_state W).
Local Abbreviation world st := (m_world (sv_m st)).

(** So the server returns from an event of the connection; it has changed no other
    registration. *)
Lemma handle_event_returns n s ev st :
  SInv fuel None st → poll_ (sv_app st) = p →
  conn (IOMode0 := io_paced fd fuel) fuel tok fd (echo inp) n s st →
  ev_data ev = tok → closes ev = false → sizes_there fd ev s (world st) →
  ∃ st1, handle_event fuel ev st = Ret (tt, st1) ∧
  ∀ key, key ≠ (Poll.epfd p, fd) →
    kv_epoll (kview (world st1)) !! key = kv_epoll (kview (world st)) !! key.
Proof.
  intros HI Hp (_ & ep & Hep & Hsk & base & HE) Hev Hcl Hthere. rewrite Hsk, Hp in HE.
  assert (Hwp : wp total (handle_event fuel ev) st (λ _ st1, ∀ key, key ≠ (Poll.epfd p, fd) →
    kv_epoll (kview (world st1)) !! key = kv_epoll (kview (world st)) !! key)).
  { eapply (own_event_run fuel); [done|by rewrite Hev|done|]. rewrite Hp, Hev. eapply wp_mono.
    { by eapply (run_events_returns fuel p tok fd inp enough_fuel base). }
    intros _ e' (n' & s' & HI') key Hne. cbn [sv_m]. by eapply (Inv_frame (IOMode0 := io_paced fd fuel)). }
  unfold wp in Hwp. destruct (handle_event fuel ev st) as [[[] st1]|]; [|done]. by exists st1.
Qed.
End server.
