(* ===== verification/EdgeSim.v ===== *)
(** A concrete edge-triggered kernel that satisfies the laws of Edge.v: bytes arrive and
    room appears on sockets at scheduled moments, and a registration is reported only
    when it is pending.  What the server does over it, with a peer that waits for its
    answers and with one that does not. *)
From S2P Require Import Prelude CInt Kernel SimKernel Poll Buffer Socket Endpoint EndpointSpec IOMode EndpointProofs EndpointProps SocketBwServer ServerProofs ServerProps Keeps ServerLive Edge EdgeServer EdgeLive.

Local Open Scope Z_scope.

(** * The kernel *)

(** A socket: what has been read, what has arrived, what the peer still sends, what has
    been sent, and the room for more. *)
Record esock := ESock {
  es_read : list byte;
  es_arrived : list byte;
  es_coming : list byte;
  es_tx : list byte;
  es_room : nat;
}.

Definition es_view (s : esock) : sock_view :=
  SockView (es_read s) (es_arrived s ++ es_coming s) (es_tx s).

(** What happens between two calls: some bytes of a stream arrive, a socket gets room,
    or a client connects, with the stream it will send. *)
Inductive env_action :=
  | EnvArrive (fd : Z) (n : nat)
  | EnvRoom (fd : Z) (n : nat)
  | EnvConnect (stream : list byte).

(** [paced]: the peers wait for the answer to what they have sent. *)
Record edge (paced : bool) := Edge {
  eg_sock : gmap Z esock;
  eg_reg : gmap (Z * Z) (epoll_event * bool); (* and whether it is pending *)
  eg_env : list (list env_action);
  eg_backlog : list (list byte);
}.
Arguments Edge {paced} _ _ _ _.
Arguments eg_sock {paced} _.
Arguments eg_reg {paced} _.
Arguments eg_env {paced} _.
Arguments eg_backlog {paced} _.

Section kernel.
Context {paced : bool}.
Implicit Types (w : edge paced) (s : esock).

Definition eg_set_sock (fd : Z) s w : edge paced :=
  Edge (<[fd := s]> (eg_sock w)) (eg_reg w) (eg_env w) (eg_backlog w).
Definition eg_set_reg m w : edge paced := Edge (eg_sock w) m (eg_env w) (eg_backlog w).

(** Something happens on a descriptor: its registrations become pending. *)
Definition eg_notify (fd : Z) w : edge paced :=
  eg_set_reg (map_imap (λ key r, Some (r.1, r.2 || bool_decide (key.2 = fd))) (eg_reg w)) w.

(** A peer that waits sends one byte after the other, each when what came before
    it has been answered. *)
Fixpoint deliver (n : nat) s : esock :=
  match n, es_coming s with
  | S n, b :: coming =>
      if negb paced || bool_decide (answer 0 0 (es_read s ++ es_arrived s) `prefix_of` es_tx s)
      then deliver n (ESock (es_read s) (es_arrived s ++ [b]) coming (es_tx s) (es_room s))
      else s
  | _, _ => s
  end.

Definition env_act (a : env_action) w : edge paced :=
  match a with
  | EnvArrive fd n =>
      match eg_sock w !! fd with
      | Some s =>
          if bool_decide (es_arrived (deliver n s) = es_arrived s) then w
          else eg_notify fd (eg_set_sock fd (deliver n s) w)
      | None => w
      end
  | EnvRoom fd n =>
      match eg_sock w !! fd with
      | Some s =>
          eg_notify fd (eg_set_sock fd
            (ESock (es_read s) (es_arrived s) (es_coming s) (es_tx s) (es_room s + n)) w)
      | None => w
      end
  | EnvConnect stream =>
      eg_set_reg (map_imap (λ key r, Some (r.1, r.2 || bool_decide (eg_sock w !! key.2 = None)))
        (eg_reg w)) (Edge (eg_sock w) (eg_reg w) (eg_env w) (eg_backlog w ++ [stream]))
  end.

Definition env_step w : edge paced :=
  match eg_env w with
  | [] => w
  | acts :: env => foldl (λ w a, env_act a w) (Edge (eg_sock w) (eg_reg w) env (eg_backlog w)) acts
  end.

(** A call that would block gives the others time first. *)
Definition tick (ready : bool) w : edge paced := if ready then w else env_step w.

Definition eg_arrived w (fd : Z) : list byte :=
  match eg_sock w !! fd with Some s => es_arrived s | None => [] end.
Definition eg_room w (fd : Z) : nat :=
  match eg_sock w !! fd with Some s => es_room s | None => O end.

Definition eg_take (fd len : Z) w : option (list byte) * edge paced :=
  match eg_sock w !! fd, eg_arrived w fd with
  | Some s, _ :: _ =>
      let n := Z.to_nat len in
      (Some (take n (es_arrived s)), eg_set_sock fd
        (ESock (es_read s ++ take n (es_arrived s)) (drop n (es_arrived s)) (es_coming s)
          (es_tx s) (es_room s)) w)
  | _, _ => (None, w)
  end.
Definition eg_recv (fd len flags : Z) w : option (list byte) * edge paced :=
  eg_take fd len (tick (bool_decide (eg_arrived w fd ≠ [])) w).

Definition eg_put (fd : Z) (bs : list byte) w : option Z * edge paced :=
  match eg_sock w !! fd, eg_room w fd with
  | Some s, S _ =>
      let n := (es_room s `min` length bs)%nat in
      (Some (Z.of_nat n), eg_set_sock fd
        (ESock (es_read s) (es_arrived s) (es_coming s) (es_tx s ++ take n bs) (es_room s - n)) w)
  | _, _ => (None, w)
  end.
Definition eg_send (fd : Z) (bs : list byte) (flags : Z) w : option Z * edge paced :=
  eg_put fd bs (tick (0 <? eg_room w fd)%nat w).

Definition eg_epoll_ctl (epfd op fd : Z) (ev : option epoll_event) w : Z * edge paced :=
  match decide (op = EPOLL_CTL_ADD), decide (op = EPOLL_CTL_MOD), decide (op = EPOLL_CTL_DEL),
        ev, eg_reg w !! (epfd, fd) with
  | left _, _, _, Some e, None => (0, eg_set_reg (<[(epfd, fd) := (e, true)]> (eg_reg w)) w)
  | _, left _, _, Some e, Some _ => (0, eg_set_reg (<[(epfd, fd) := (e, true)]> (eg_reg w)) w)
  | _, _, left _, _, Some _ => (0, eg_set_reg (delete (epfd, fd) (eg_reg w)) w)
  | _, _, _, _, _ => (-1, w)
  end.

(** What of its interests a registration finds now; a listener can be read when there
    is a connection to accept. *)
Definition in_ready w (fd : Z) : bool :=
  match eg_sock w !! fd with
  | Some s => bool_decide (es_arrived s ≠ [])
  | None => bool_decide (eg_backlog w ≠ [])
  end.
Definition out_ready w (fd : Z) : bool := (0 <? eg_room w fd)%nat.
Definition found w (fd : Z) (e : epoll_event) : Z :=
  (if in_ready w fd && has_flag (ev_events e) EPOLLIN then EPOLLIN else 0) +
  (if out_ready w fd && has_flag (ev_events e) EPOLLOUT then EPOLLOUT else 0).

(** The registrations that are pending and find something, with what they report. *)
Definition eg_item w (epfd : Z) (p : (Z * Z) * (epoll_event * bool)) : option ((Z * Z) * epoll_event) :=
  if bool_decide (p.1.1 = epfd) && p.2.2 && negb (found w p.1.2 p.2.1 =? 0)
  then Some (p.1, EpollEvent (found w p.1.2 p.2.1) (ev_data p.2.1)) else None.
Definition eg_report w (epfd : Z) : list ((Z * Z) * epoll_event) :=
  omap (eg_item w epfd) (map_to_list (eg_reg w)).

(** What is reported is not pending any more. *)
Definition eg_epoll_wait (epfd maxev timeout : Z) w : option (list epoll_event) * edge paced :=
  let w := env_step w in
  let evs := take (Z.to_nat maxev) (eg_report w epfd) in
  (Some evs.*2, eg_set_reg
    (map_imap (λ key r, Some (r.1, r.2 && bool_decide (key ∉ evs.*1))) (eg_reg w)) w).

Definition eg_fresh_fd w : Z :=
  1 + foldr Z.max 2 (elements (dom (eg_sock w)) ++ (elements (dom (eg_reg w))).*2).

Definition eg_accept (fd : Z) w : Z * edge paced :=
  match eg_backlog w with
  | [] => (-1, w)
  | rx :: l =>
      let n := Z.max (fd + 1) (eg_fresh_fd w) in
      (n, Edge (<[n := ESock [] [] rx [] 64]> (eg_sock w)) (eg_reg w) (eg_env w) l)
  end.

Definition eg_close (fd : Z) w : Z * edge paced :=
  (0, Edge (delete fd (eg_sock w)) (filter (λ p, p.1.2 ≠ fd) (eg_reg w)) (eg_env w) (eg_backlog w)).

#[export] Instance edge_kernel : Kernel (edge paced) := {|
  sys_errno _ := EAGAIN;
  sys_recv := eg_recv;
  sys_send := eg_send;
  sys_epoll_ctl := eg_epoll_ctl;
  sys_epoll_wait := eg_epoll_wait;
  sys_epoll_create flags w := (3, w);
  sys_dup fd w := (fd, w);
  sys_accept := eg_accept;
  sys_close := eg_close;
  sys_socket _ _ _ w := (eg_fresh_fd w, w);
  sys_connect fd addr len w := (-1, w);
  sys_getpeername fd w := (Some (replicate 16 Byte.x00), w);
  sys_getaddrinfo host port socktype flags w :=
    (Some (MkAddrinfo 2 socktype 0 (replicate 16 Byte.x00)), w);
  sys_getnameinfo addr flags w := (Some ("127.0.0.1", "18000"), w);
  sys_call c w := ((0, 0), w);
  sys_memalign al size w := (Some (replicate (Z.to_nat size) Byte.x00), w);
|}.

Definition eg_view w : kernel_view :=
  KView (es_view <$> eg_sock w) (fst <$> eg_reg w).

(** ** The laws of a kernel *)

Lemma sock_view_lookup w fd : kv_sock (eg_view w) !! fd = es_view <$> eg_sock w !! fd.
Proof. apply lookup_fmap. Qed.

Lemma reg_view_lookup w key : kv_epoll (eg_view w) !! key = fst <$> eg_reg w !! key.
Proof. apply lookup_fmap. Qed.

Lemma eg_view_set_sock fd s w : eg_view (eg_set_sock fd s w) = kv_set_sock fd (es_view s) (eg_view w).
Proof. unfold eg_view, kv_set_sock. simpl. by rewrite fmap_insert. Qed.

Lemma fst_imap (f : Z * Z → epoll_event * bool → bool) (m : gmap (Z * Z) (epoll_event * bool)) :
  fst <$> map_imap (λ key r, Some (r.1, f key r)) m = fst <$> m.
Proof.
  apply map_eq. intros key. rewrite !lookup_fmap, map_lookup_imap.
  by destruct (m !! key) as [[]|].
Qed.

Lemma es_view_deliver n s : es_view (deliver n s) = es_view s.
Proof.
  revert s. induction n as [|n IH]; intros [rd arr [|b com] tx room]; simpl; try done.
  case_match; [|done]. rewrite IH. unfold es_view. simpl. by rewrite <- app_assoc.
Qed.

Lemma eg_view_sock_id w fd s s' :
  eg_sock w !! fd = Some s → es_view s' = es_view s → eg_view (eg_set_sock fd s' w) = eg_view w.
Proof. intros Hs Hv. rewrite eg_view_set_sock, Hv. apply kv_set_sock_id. by rewrite sock_view_lookup, Hs. Qed.

Lemma eg_view_notify fd w : eg_view (eg_notify fd w) = eg_view w.
Proof. unfold eg_view. simpl. by rewrite fst_imap. Qed.

Lemma eg_view_act a w : eg_view (env_act a w) = eg_view w.
Proof.
  destruct a as [fd n|fd n|rx]; simpl.
  - destruct (eg_sock w !! fd) as [s|] eqn:Hs; [|done]. case_match; [done|].
    rewrite eg_view_notify. eapply eg_view_sock_id; [done|apply es_view_deliver].
  - destruct (eg_sock w !! fd) as [s|] eqn:Hs; [|done].
    rewrite eg_view_notify. by eapply eg_view_sock_id.
  - unfold eg_view. simpl. by rewrite fst_imap.
Qed.

Lemma env_step_ind (P : edge paced → Prop) w :
  (∀ a w, P w → P (env_act a w)) → (∀ env, P (Edge (eg_sock w) (eg_reg w) env (eg_backlog w))) →
  P (env_step w).
Proof.
  intros Hact Hw. unfold env_step. destruct (eg_env w) as [|acts env] eqn:Henv.
  { specialize (Hw (eg_env w)). by destruct w. }
  specialize (Hw env). clear Henv. revert Hw. generalize (Edge (paced := paced) (eg_sock w) (eg_reg w) env (eg_backlog w)).
  induction acts as [|a acts IH]; intros w1 Hw1; simpl; [done|]. by apply IH, Hact.
Qed.

Lemma eg_view_step w : eg_view (env_step w) = eg_view w.
Proof. apply env_step_ind; [|done]. intros a w1 <-. apply eg_view_act. Qed.

Lemma eg_view_tick b w : eg_view (tick b w) = eg_view w.
Proof. destruct b; [done|apply eg_view_step]. Qed.

(** What a read, or a write, may have done. *)
Lemma eg_take_cases fd len w r w' :
  eg_take fd len w = (r, w') →
  r = None ∧ w' = w ∧ eg_arrived w fd = [] ∨
  ∃ s, eg_sock w !! fd = Some s ∧ es_arrived s ≠ [] ∧ r = Some (take (Z.to_nat len) (es_arrived s)) ∧
  w' = eg_set_sock fd (ESock (es_read s ++ take (Z.to_nat len) (es_arrived s))
    (drop (Z.to_nat len) (es_arrived s)) (es_coming s) (es_tx s) (es_room s)) w.
Proof.
  unfold eg_take, eg_arrived. destruct (eg_sock w !! fd) as [s|]; [|intros [= <- <-]; by left].
  destruct (es_arrived s) eqn:Ha; intros [= <- <-]; [by left|right]. exists s. by rewrite Ha.
Qed.

Lemma eg_put_cases fd bs w r w' :
  eg_put fd bs w = (r, w') →
  r = None ∧ w' = w ∧ eg_room w fd = O ∨
  ∃ s, eg_sock w !! fd = Some s ∧ (0 < es_room s)%nat ∧
  let n := (es_room s `min` length bs)%nat in r = Some (Z.of_nat n) ∧
  w' = eg_set_sock fd
    (ESock (es_read s) (es_arrived s) (es_coming s) (es_tx s ++ take n bs) (es_room s - n)) w.
Proof.
  unfold eg_put, eg_room. destruct (eg_sock w !! fd) as [s|]; [|intros [= <- <-]; by left].
  destruct (es_room s) eqn:Ha; intros [= <- <-]; [by left|right]. exists s. rewrite Ha.
  split_and!; [done|lia|done|done].
Qed.

Lemma eg_recv_Some fd len flags w bs w' sv :
  eg_recv fd len flags w = (Some bs, w') → 0 ≤ len → kv_sock (eg_view w) !! fd = Some sv →
  Z.of_nat (length bs) ≤ len ∧ (bs = [] → len = 0 ∨ sv_rx sv = []) ∧
  ∃ rest, sv_rx sv = bs ++ rest ∧
  eg_view w' = kv_set_sock fd (SockView (sv_read sv ++ bs) rest (sv_tx sv)) (eg_view w).
Proof.
  intros Hr Hlen. rewrite <- (eg_view_tick (bool_decide (eg_arrived w fd ≠ [])) w).
  revert Hr. unfold eg_recv. generalize (tick (bool_decide (eg_arrived w fd ≠ [])) w) as w1.
  intros w1 [[? _]|(s & Hs & Hne & [= ->] & ->)]%eg_take_cases; [done|].
  rewrite sock_view_lookup, Hs. intros [= <-]. rewrite length_take. split_and!; [lia| |].
  - intros Hnil%(f_equal length). rewrite length_take in Hnil. simpl in Hnil. left.
    destruct (es_arrived s); simpl in *; [done|lia].
  - exists (drop (Z.to_nat len) (es_arrived s) ++ es_coming s). split.
    + simpl. by rewrite app_assoc, take_drop.
    + by rewrite eg_view_set_sock.
Qed.

Lemma eg_recv_None fd len flags w w' :
  eg_recv fd len flags w = (None, w') → eg_view w' = eg_view w.
Proof.
  intros [(_ & -> & _)|(s & _ & _ & [=] & _)]%eg_take_cases. apply eg_view_tick.
Qed.

Lemma eg_send_Some fd bs flags w n w' sv :
  eg_send fd bs flags w = (Some n, w') → kv_sock (eg_view w) !! fd = Some sv →
  0 ≤ n ≤ Z.of_nat (length bs) ∧ (bs ≠ [] → 0 < n) ∧
  eg_view w' =
  kv_set_sock fd (SockView (sv_read sv) (sv_rx sv) (sv_tx sv ++ take (Z.to_nat n) bs)) (eg_view w).
Proof.
  intros Hr. rewrite <- (eg_view_tick (0 <? eg_room w fd)%nat w).
  revert Hr. unfold eg_send. generalize (tick (0 <? eg_room w fd)%nat w) as w1.
  intros w1 [[? _]|(s & Hs & Hpos & [= ->] & ->)]%eg_put_cases; [done|].
  rewrite sock_view_lookup, Hs. intros [= <-]. rewrite Nat2Z.id. split_and!; [lia|lia| |].
  - intros. destruct bs; [done|]. cbn [length]. lia.
  - by rewrite eg_view_set_sock.
Qed.

Lemma eg_send_None fd bs flags w w' :
  eg_send fd bs flags w = (None, w') → eg_view w' = eg_view w.
Proof.
  intros [(_ & -> & _)|(s & _ & _ & [=] & _)]%eg_put_cases. apply eg_view_tick.
Qed.

(** What [epoll_ctl] may have done. *)
Lemma eg_epoll_ctl_cases epfd op fd ev w r w' :
  eg_epoll_ctl epfd op fd ev w = (r, w') →
  r = -1 ∧ w' = w ∨
  r = 0 ∧ (op = EPOLL_CTL_ADD ∨ op = EPOLL_CTL_MOD) ∧
    (∃ e, ev = Some e ∧ w' = eg_set_reg (<[(epfd, fd) := (e, true)]> (eg_reg w)) w) ∨
  r = 0 ∧ op = EPOLL_CTL_DEL ∧ w' = eg_set_reg (delete (epfd, fd) (eg_reg w)) w.
Proof.
  unfold eg_epoll_ctl.
  destruct (decide (op = EPOLL_CTL_ADD)), (decide (op = EPOLL_CTL_MOD)), (decide (op = EPOLL_CTL_DEL));
    repeat case_match; intros; simplify_eq; naive_solver.
Qed.

(** The reported registrations. *)
Lemma eg_item_Some w epfd p q :
  eg_item w epfd p = Some q →
  p.2.2 = true ∧ p.1.1 = epfd ∧ q = (p.1, EpollEvent (found w p.1.2 p.2.1) (ev_data p.2.1)).
Proof.
  unfold eg_item. destruct (_ && _ && _) eqn:Hc; intros; simplify_eq.
  apply andb_true_iff in Hc as [[?%bool_decide_eq_true ?]%andb_true_iff _]. by split_and!.
Qed.

Lemma eg_report_keys w epfd : NoDup (eg_report w epfd).*1.
Proof.
  unfold eg_report. pose proof (NoDup_fst_map_to_list (eg_reg w)) as Hnd.
  induction (map_to_list (eg_reg w)) as [|p l IH]; [constructor|].
  inversion_clear Hnd as [|? ? Hnin Hnd']. cbn [omap list_omap].
  destruct (eg_item w epfd p) as [q|] eqn:Hq; [|by apply IH].
  apply eg_item_Some in Hq as (_ & _ & ->). rewrite fmap_cons.
  constructor; [|by apply IH]. contradict Hnin.
  apply list_elem_of_fmap in Hnin as (q & Heq & Hq).
  apply list_elem_of_omap in Hq as (p' & Hp' & (_ & _ & ->)%eg_item_Some).
  apply list_elem_of_fmap. by exists p'.
Qed.

Lemma eg_report_elem w epfd key ev :
  (key, ev) ∈ eg_report w epfd →
  key.1 = epfd ∧ ∃ e, eg_reg w !! key = Some (e, true) ∧ ev = EpollEvent (found w key.2 e) (ev_data e).
Proof.
  intros ([k [e b]] & Hin%elem_of_map_to_list & (Hb & He & Hq)%eg_item_Some)%list_elem_of_omap.
  simpl in *. simplify_eq. split; [done|]. by exists e.
Qed.

Lemma eg_report_complete w epfd fd e :
  eg_reg w !! (epfd, fd) = Some (e, true) → found w fd e ≠ 0 →
  ((epfd, fd), EpollEvent (found w fd e) (ev_data e)) ∈ eg_report w epfd.
Proof.
  intros Hreg Hf. apply list_elem_of_omap. exists ((epfd, fd), (e, true)).
  split; [by apply elem_of_map_to_list|]. unfold eg_item. simpl.
  by rewrite bool_decide_true, (proj2 (Z.eqb_neq _ _)).
Qed.

Lemma eg_epoll_wait_view epfd maxev timeout w r w' :
  eg_epoll_wait epfd maxev timeout w = (r, w') → eg_view w' = eg_view w.
Proof.
  unfold eg_epoll_wait. intros. simplify_eq. rewrite <- (eg_view_step w). unfold eg_view. simpl.
  by rewrite fst_imap.
Qed.

Lemma eg_epoll_wait_events epfd maxev timeout w evs w' :
  eg_epoll_wait epfd maxev timeout w = (Some evs, w') →
  (length evs ≤ Z.to_nat maxev)%nat ∧
  ∃ fds, NoDup fds ∧ Forall2 (λ fd e, ∃ r, kv_epoll (eg_view w) !! (epfd, fd) = Some r ∧
  ev_data e = ev_data r) fds evs.
Proof.
  unfold eg_epoll_wait. intros. simplify_eq. rewrite <- (eg_view_step w).
  generalize (env_step w) as w1. intros w1.
  pose proof (eg_report_keys w1 epfd) as Hnd. pose proof (eg_report_elem w1 epfd) as Hall.
  set (l := eg_report w1 epfd) in *.
  split; [rewrite length_fmap, length_take; lia|].
  exists (take (Z.to_nat maxev) l).*1.*2. split.
  - assert (Hnd2 : NoDup l.*1.*2).
    { apply NoDup_fmap_2_strong; [|done]. intros [k1 f1] [k2 f2] H1 H2 Heq. simpl in Heq. subst f2.
      f_equal. apply list_elem_of_fmap in H1 as ([? ?] & Hq1 & H1), H2 as ([? ?] & Hq2 & H2).
      apply Hall in H1 as [? _], H2 as [? _]. simpl in *. by simplify_eq. }
    rewrite !fmap_take. eapply sublist_NoDup; [exact Hnd2|]. apply sublist_take.
  - rewrite <- list_fmap_compose. apply Forall2_fmap, Forall_Forall2_diag, Forall_take, Forall_forall.
    intros [[k f] ev] (<- & e & Hreg & ->)%list_elem_of_In%Hall.
    exists e. cbn [fst snd compose]. rewrite reg_view_lookup. change (_, _) with (k, f). by rewrite Hreg.
Qed.

Lemma eg_fresh_sock w n : eg_fresh_fd w ≤ n → eg_sock w !! n = None.
Proof.
  intros Hn. apply not_elem_of_dom. intros Hin.
  assert (n ≤ foldr Z.max 2 (elements (dom (eg_sock w)) ++ (elements (dom (eg_reg w))).*2)).
  { apply foldr_max_ge, elem_of_app. left. by apply elem_of_elements. }
  unfold eg_fresh_fd in *. lia.
Qed.

Lemma eg_fresh_reg w n epfd : eg_fresh_fd w ≤ n → eg_reg w !! (epfd, n) = None.
Proof.
  intros Hn. apply not_elem_of_dom. intros Hin.
  assert (n ≤ foldr Z.max 2 (elements (dom (eg_sock w)) ++ (elements (dom (eg_reg w))).*2)).
  { apply foldr_max_ge, elem_of_app. right.
    apply list_elem_of_fmap. exists (epfd, n). split; [done|]. by apply elem_of_elements. }
  unfold eg_fresh_fd in *. lia.
Qed.

Lemma eg_fresh_pos w : 2 < eg_fresh_fd w.
Proof.
  unfold eg_fresh_fd. pose proof (foldr_max_ge_d
    (elements (dom (eg_sock w)) ++ (elements (dom (eg_reg w))).*2) 2). lia.
Qed.

Lemma eg_accept_cases fd w n w' :
  eg_accept fd w = (n, w') →
  n = -1 ∧ w' = w ∨
  ∃ rx l, fd < n ∧ eg_fresh_fd w ≤ n ∧ eg_backlog w = rx :: l ∧
  w' = Edge (<[n := ESock [] [] rx [] 64]> (eg_sock w)) (eg_reg w) (eg_env w) l.
Proof.
  unfold eg_accept. destruct (eg_backlog w) as [|rx l]; intros; simplify_eq; [by left|right].
  exists rx, l. split_and!; [lia|lia|done|done].
Qed.
End kernel.

#[export] Program Instance edge_laws paced : KernelLaws (edge paced) := {|
  kview := eg_view;
  recv_Some := eg_recv_Some; recv_None := eg_recv_None;
  send_Some := eg_send_Some; send_None := eg_send_None;
  epoll_wait_view := eg_epoll_wait_view; epoll_wait_events := eg_epoll_wait_events;
|}.
Next Obligation.
  intros paced epfd op fd ev w r w' [[_ ->]|[(-> & _)|(-> & _)]]%eg_epoll_ctl_cases ?; done.
Qed.
Next Obligation.
  intros paced epfd op fd ev w w' [[? _]|[(_ & _ & e & [= <-] & ->)|(_ & -> & _)]]%eg_epoll_ctl_cases Hop;
    [done| |by destruct Hop].
  unfold eg_view, kv_set_epoll. simpl. by rewrite fmap_insert.
Qed.
Next Obligation.
  intros paced epfd fd ev w w' [[? _]|[(_ & Hop & _)|(_ & _ & ->)]]%eg_epoll_ctl_cases;
    [done|by destruct Hop|].
  unfold eg_view, kv_set_epoll. simpl. by rewrite fmap_delete.
Qed.
Next Obligation.
  intros paced fd w n w' [[-> _]|(rx & l & ? & ? & _ & ->)]%eg_accept_cases Hn; [done|].
  pose proof (eg_fresh_pos w). split_and!; [lia|lia|..].
  - by rewrite sock_view_lookup, eg_fresh_sock.
  - intros epfd. by rewrite reg_view_lookup, eg_fresh_reg.
  - exists rx. unfold eg_view, kv_set_sock. simpl. by rewrite fmap_insert.
Qed.
Next Obligation.
  intros paced fd w w' [[_ ->]|(rx & l & ? & ? & _ & _)]%eg_accept_cases; [done|].
  pose proof (eg_fresh_pos w). lia.
Qed.
Next Obligation.
  intros paced fd w r w'. simpl. unfold eg_close. intros. simplify_eq. unfold eg_view, kv_close. simpl.
  rewrite fmap_delete. f_equal. apply map_eq. intros key.
  rewrite lookup_fmap. apply option_eq. intros e.
  rewrite map_lookup_filter_Some, lookup_fmap, !fmap_Some.
  setoid_rewrite map_lookup_filter_Some. simpl.
  split; [intros ([] & [? ?] & ?)|intros [([] & ? & ?) ?]]; simplify_eq/=; eauto.
Qed.
Next Obligation. intros; by simplify_eq/=. Qed.
Next Obligation. intros; by simplify_eq/=. Qed.
Next Obligation. intros; simplify_eq/=; lia. Qed.
Next Obligation. intros; by simplify_eq/=. Qed.
Next Obligation. intros; by simplify_eq/=. Qed.
Next Obligation. intros; by simplify_eq/=. Qed.
Next Obligation. intros; simplify_eq/=. by rewrite length_replicate. Qed.
Next Obligation. intros; by simplify_eq/=. Qed.

Lemma edge_sock {paced} (w : edge paced) fd : kv_sock (kview w) !! fd = es_view <$> eg_sock w !! fd.
Proof. apply sock_view_lookup. Qed.
Lemma edge_reg {paced} (w : edge paced) key : kv_epoll (kview w) !! key = fst <$> eg_reg w !! key.
Proof. apply reg_view_lookup. Qed.

(** ** The laws of edge-triggered epoll *)

#[export] Instance edge_ops paced : EdgeOps (edge paced) := {|
  k_arrived := eg_arrived;
  k_room w fd := out_ready w fd = true;
  k_pending w key := snd <$> eg_reg w !! key = Some true;
|}.

#[export] Program Instance edge_faultless paced : KernelFaultless (edge paced).
Next Obligation. done. Qed.
Next Obligation. done. Qed.
Next Obligation.
  intros paced epfd fd ev w [e He]. rewrite edge_reg in He. simpl.
  unfold eg_epoll_ctl. destruct (eg_reg w !! (epfd, fd)); [|done].
  by destruct (decide (EPOLL_CTL_MOD = EPOLL_CTL_ADD)), (decide (EPOLL_CTL_MOD = EPOLL_CTL_MOD)),
    (decide (EPOLL_CTL_MOD = EPOLL_CTL_DEL)).
Qed.
Next Obligation. done. Qed.

Section edge_laws.
Context {paced : bool}.
Implicit Types (w : edge paced) (s : esock).

(** Nothing new has happened on a registration, unless it is pending. *)
Definition calmer (key : Z * Z) w w' : Prop :=
  ∀ e b, eg_reg w' !! key = Some (e, b) → b = true ∨
  ∃ b0, eg_reg w !! key = Some (e, b0) ∧ (b0 = true → b = true) ∧
  (k_arrived w' key.2 ≠ [] → k_arrived w key.2 ≠ []) ∧ (k_room w' key.2 → k_room w key.2).

Lemma calmer_in key w w' : calmer key w w' → watched_in key w → watched_in key w'.
Proof.
  intros Hc Hin e He Hf Ha. rewrite edge_reg in He.
  change (snd <$> eg_reg w' !! key = Some true).
  destruct (eg_reg w' !! key) as [[e' b]|] eqn:Hr; simplify_eq/=.
  destruct (Hc _ _ Hr) as [->|(b0 & Hr0 & Hb & Ha0 & _)]; [done|].
  f_equal. apply Hb. specialize (Hin e). rewrite edge_reg, Hr0 in Hin.
  specialize (Hin eq_refl Hf (Ha0 Ha)). change (snd <$> eg_reg w !! key = Some true) in Hin.
  rewrite Hr0 in Hin. by injection Hin.
Qed.

Lemma calmer_out key w w' : calmer key w w' → watched_out key w → watched_out key w'.
Proof.
  intros Hc Hout e He Hf Ha. rewrite edge_reg in He.
  change (snd <$> eg_reg w' !! key = Some true).
  destruct (eg_reg w' !! key) as [[e' b]|] eqn:Hr; simplify_eq/=.
  destruct (Hc _ _ Hr) as [->|(b0 & Hr0 & Hb & _ & Ha0)]; [done|].
  f_equal. apply Hb. specialize (Hout e). rewrite edge_reg, Hr0 in Hout.
  specialize (Hout eq_refl Hf (Ha0 Ha)). change (snd <$> eg_reg w !! key = Some true) in Hout.
  rewrite Hr0 in Hout. by injection Hout.
Qed.

Lemma calmer_refl key w : calmer key w w.
Proof. intros e b Hr. right. exists b. by split_and!. Qed.

Lemma calmer_trans key w1 w2 w3 : calmer key w1 w2 → calmer key w2 w3 → calmer key w1 w3.
Proof.
  intros H1 H2 e b Hr. destruct (H2 _ _ Hr) as [|(b2 & Hr2 & Hb2 & ? & ?)]; [by left|].
  destruct (H1 _ _ Hr2) as [->|(b1 & Hr1 & ? & ? & ?)]; [left; auto|right].
  exists b1. split_and!; auto.
Qed.

Lemma calmer_set_sock key fd s s' w :
  eg_sock w !! fd = Some s → (es_arrived s' ≠ [] → es_arrived s ≠ []) →
  (0 < es_room s' → 0 < es_room s)%nat → calmer key w (eg_set_sock fd s' w).
Proof.
  intros Hs Ha Hroom e b Hr. right. exists b. split_and!; [done|done|..];
    simpl; unfold out_ready, eg_room, eg_arrived; simpl; (destruct (decide (key.2 = fd)) as [->|];
    [rewrite lookup_insert_eq, Hs|by rewrite lookup_insert_ne]); [done|].
  rewrite !Nat.ltb_lt. auto.
Qed.

(** What is notified may change. *)
Lemma calmer_notify key fd s' w : calmer key w (eg_notify fd (eg_set_sock fd s' w)).
Proof.
  intros e b. unfold eg_notify. cbn [eg_set_reg eg_reg eg_set_sock]. rewrite map_lookup_imap.
  destruct (eg_reg w !! key) as [[e0 b0]|] eqn:Hr; [|done]. intros [= <- <-].
  destruct (decide (key.2 = fd)) as [->|Hne].
  - left. rewrite bool_decide_true by done. apply orb_true_r.
  - right. exists b0. simpl. unfold out_ready, eg_room, eg_arrived. simpl. rewrite lookup_insert_ne by done.
    rewrite bool_decide_false by done. split_and!; [done|by intros ->|done|done].
Qed.

Lemma calmer_act key a w : calmer key w (env_act a w).
Proof.
  destruct a as [fd n|fd n|rx]; simpl.
  - destruct (eg_sock w !! fd); [|apply calmer_refl]. case_match; [apply calmer_refl|apply calmer_notify].
  - destruct (eg_sock w !! fd); [apply calmer_notify|apply calmer_refl].
  - intros e b. cbn [eg_set_reg eg_reg]. rewrite map_lookup_imap.
    destruct (eg_reg w !! key) as [[e0 b0]|] eqn:Hr; [|done]. intros [= <- <-]. right.
    exists b0. split_and!; [done|by intros ->|done|done].
Qed.

Lemma calmer_step key w : calmer key w (env_step w).
Proof.
  apply env_step_ind; [|intros; exact (calmer_refl key w)].
  intros a w1 Hw1. eapply calmer_trans; [exact Hw1|apply calmer_act].
Qed.

Lemma calmer_tick key b w : calmer key w (tick b w).
Proof. destruct b; [apply calmer_refl|apply calmer_step]. Qed.

Lemma calmer_recv key fd len flags w : calmer key w (eg_recv fd len flags w).2.
Proof.
  unfold eg_recv. eapply calmer_trans; [apply (calmer_tick _ (bool_decide (eg_arrived w fd ≠ [])))|].
  generalize (tick (bool_decide (eg_arrived w fd ≠ [])) w) as w1. intros w1.
  destruct (eg_take fd len w1) as [r w'] eqn:Hr.
  apply eg_take_cases in Hr as [(_ & -> & _)|(s & Hs & Hne & _ & ->)]; [apply calmer_refl|].
  by eapply calmer_set_sock.
Qed.

Lemma calmer_send key fd bs flags w : calmer key w (eg_send fd bs flags w).2.
Proof.
  unfold eg_send. eapply calmer_trans; [apply (calmer_tick _ (0 <? eg_room w fd)%nat)|].
  generalize (tick (0 <? eg_room w fd)%nat w) as w1. intros w1.
  destruct (eg_put fd bs w1) as [r w'] eqn:Hr.
  apply eg_put_cases in Hr as [(_ & -> & _)|(s & Hs & Hne & _ & ->)]; [apply calmer_refl|].
  by eapply calmer_set_sock.
Qed.

Lemma calmer_epoll_ctl key epfd op fd ev w : calmer key w (eg_epoll_ctl epfd op fd ev w).2.
Proof.
  destruct (eg_epoll_ctl epfd op fd ev w) as [r w'] eqn:Hc.
  apply eg_epoll_ctl_cases in Hc as [[_ ->]|[(_ & _ & e & _ & ->)|(_ & _ & ->)]]; simpl.
  - apply calmer_refl.
  - intros e' b. cbn [eg_set_reg eg_reg].
    intros [[_ [= <- <-]]|[_ Hr]]%lookup_insert_Some; [by left|exact (calmer_refl key w e' b Hr)].
  - intros e' b. cbn [eg_set_reg eg_reg].
    intros [_ Hr]%lookup_delete_Some. exact (calmer_refl key w e' b Hr).
Qed.

Lemma calmer_accept key fd w : calmer key w (eg_accept fd w).2.
Proof.
  destruct (eg_accept fd w) as [n w'] eqn:Hc.
  apply eg_accept_cases in Hc as [[_ ->]|(rx & l & _ & Hn & _ & ->)]; simpl; [apply calmer_refl|].
  intros e b Hr. right. exists b. simpl in *. unfold out_ready, eg_room, eg_arrived. simpl.
  rewrite lookup_insert_ne; [by split_and!|]. intros ->. destruct key as [epfd n].
  by rewrite eg_fresh_reg in Hr.
Qed.

Lemma calmer_close key fd w : calmer key w (eg_close fd w).2.
Proof.
  intros e b [Hr Hne]%map_lookup_filter_Some. simpl in Hne. right. exists b.
  simpl. unfold out_ready, eg_room, eg_arrived. simpl. by rewrite lookup_delete_ne.
Qed.

(** ** What a report finds *)

Lemma found_in w fd e :
  in_ready w fd = true → has_flag (ev_events e) EPOLLIN = true →
  found w fd e ≠ 0 ∧ has_flag (found w fd e) EPOLLIN = true.
Proof. unfold found. intros -> ->. by destruct (out_ready w fd && _). Qed.

Lemma found_out w fd e :
  out_ready w fd = true → has_flag (ev_events e) EPOLLOUT = true →
  found w fd e ≠ 0 ∧ has_flag (found w fd e) EPOLLOUT = true.
Proof. unfold found. intros -> ->. by destruct (in_ready w fd && _). Qed.

Lemma in_ready_arrived w fd : k_arrived w fd ≠ [] → in_ready w fd = true.
Proof. simpl. unfold in_ready, eg_arrived. destruct (eg_sock w !! fd); [|done]. intros. by apply bool_decide_true. Qed.

(** A registration after a wait: it is as it was, or it has been reported. *)
Lemma eg_wait_reg epfd fd maxev timeout w r w' e b :
  eg_epoll_wait epfd maxev timeout w = (r, w') → eg_reg (env_step w) !! (epfd, fd) = Some (e, b) →
  (∀ fd, k_arrived w' fd = k_arrived (env_step w) fd) ∧
  (∀ fd, k_room w' fd ↔ k_room (env_step w) fd) ∧
  (eg_reg w' !! (epfd, fd) = Some (e, b) ∨
   ∃ evs, r = Some evs ∧ EpollEvent (found (env_step w) fd e) (ev_data e) ∈ evs).
Proof.
  unfold eg_epoll_wait. intros Hw Hr. simplify_eq. split_and!; [done|done|].
  cbn [eg_set_reg eg_reg]. rewrite map_lookup_imap, Hr. simpl.
  destruct (decide ((epfd, fd) ∈ (take (Z.to_nat maxev) (eg_report (env_step w) epfd)).*1)) as [Hin|Hnin];
    [right|left; by rewrite bool_decide_true, andb_true_r].
  eexists. split; [done|]. apply list_elem_of_fmap in Hin as ([key ev] & Heq & Hin). simpl in Heq. subst key.
  apply list_elem_of_fmap. eexists. split; [|exact Hin].
  apply elem_of_take in Hin as (i & Hin%list_elem_of_lookup_2 & _).
  apply eg_report_elem in Hin as (_ & e' & Hr' & ->). by simplify_eq/=.
Qed.

Lemma eg_step_reg w key e :
  kv_epoll (kview w) !! key = Some e → ∃ b, eg_reg (env_step w) !! key = Some (e, b).
Proof.
  intros He. change (kview w) with (eg_view w) in He. rewrite <- eg_view_step in He.
  rewrite reg_view_lookup in He. destruct (eg_reg _ !! _) as [[e' b]|]; [|done]. simplify_eq/=. by exists b.
Qed.

Lemma calmer_same key w w' e b :
  eg_reg w !! key = Some (e, b) → eg_reg w' !! key = Some (e, b) →
  (∀ fd, k_arrived w' fd = k_arrived w fd) → (∀ fd, k_room w' fd ↔ k_room w fd) → calmer key w w'.
Proof.
  intros Hr Hr' Ha Hroom e' b' Hr''. rewrite Hr' in Hr''. injection Hr'' as <- <-. right. exists b.
  split_and!; [done|done|by rewrite Ha|by rewrite Hroom].
Qed.

(** A call that would have to wait has found nothing. *)
Lemma recv_short fd w : just_drained fd w → k_arrived w fd = [].
Proof.
  intros (len & flags & w0 & r & Hr & Hshort).
  apply eg_take_cases in Hr as [(_ & -> & Ha)|(s & Hs & _ & -> & ->)]; [done|].
  simpl. unfold eg_arrived. simpl. rewrite lookup_insert_eq. simpl.
  apply drop_ge. rewrite length_take in Hshort. lia.
Qed.

Lemma send_short fd w : just_blocked fd w → ¬ k_room w fd.
Proof.
  intros (bs & flags & w0 & Hr).
  apply eg_put_cases in Hr as [(_ & -> & Ha)|(s & _ & _ & [=] & _)].
  simpl. unfold out_ready. by rewrite Ha.
Qed.
End edge_laws.

#[export] Program Instance edge_edge paced : EdgeLaws (edge paced).
Next Obligation.
  intros paced fd w sv Hs. rewrite edge_sock in Hs. simpl. unfold eg_arrived.
  destruct (eg_sock w !! fd) as [s|]; [|done]. simplify_eq/=. by apply prefix_app_r.
Qed.
Next Obligation.
  intros paced key. split; [by split; [by intros w|intros w1 w2 w3; auto]|..]; intros; try done;
    (eapply calmer_in; [|eassumption]);
    first [apply calmer_recv|apply calmer_send|apply calmer_epoll_ctl|apply calmer_accept|apply calmer_close].
Qed.
Next Obligation.
  intros paced key. split; [by split; [by intros w|intros w1 w2 w3; auto]|..]; intros; try done;
    (eapply calmer_out; [|eassumption]);
    first [apply calmer_recv|apply calmer_send|apply calmer_epoll_ctl|apply calmer_accept|apply calmer_close].
Qed.
Next Obligation. by intros paced epfd fd w Hd e _ _ []; apply recv_short. Qed.
Next Obligation. by intros paced epfd fd w Hb e _ _ []%send_short. Qed.
Next Obligation.
  intros paced epfd op fd ev w w' [[? _]|[(_ & _ & e & [= <-] & ->)|(_ & -> & _)]]%eg_epoll_ctl_cases Hop;
    [done| |by destruct Hop].
  split; intros e' _ _ _; simpl; by rewrite lookup_insert_eq.
Qed.
Next Obligation.
  intros paced epfd fd maxev timeout w r w' e Hw He Hin.
  apply (calmer_in _ _ _ (calmer_step (epfd, fd) w)) in Hin. destruct (eg_step_reg _ _ _ He) as [b Hr].
  destruct (eg_wait_reg epfd fd maxev timeout w r w' e b Hw Hr) as (Ha & Hroom & [Hr'|(evs & -> & Hev)]).
  - left. eapply calmer_in; [|exact Hin]. by eapply calmer_same.
  - destruct (has_flag (ev_events e) EPOLLIN) eqn:Hf, (k_arrived (env_step w) fd) as [|x l] eqn:Hx.
    2:{ right. eexists _, _. split_and!; [done|exact Hev|done|]. apply found_in; [|done].
      apply in_ready_arrived. by rewrite Hx. }
    all: left; intros e' He' Hf' Hne; rewrite (epoll_wait_view _ _ _ _ _ _ Hw) in He'.
    all: cbn [snd] in Hne; rewrite Ha in Hne.
    all: congruence.
Qed.
Next Obligation.
  intros paced epfd fd maxev timeout w r w' e Hw He Hout.
  apply (calmer_out _ _ _ (calmer_step (epfd, fd) w)) in Hout. destruct (eg_step_reg _ _ _ He) as [b Hr].
  destruct (eg_wait_reg epfd fd maxev timeout w r w' e b Hw Hr) as (Ha & Hroom & [Hr'|(evs & -> & Hev)]).
  - left. eapply calmer_out; [|exact Hout]. by eapply calmer_same.
  - destruct (has_flag (ev_events e) EPOLLOUT) eqn:Hf, (out_ready (env_step w) fd) eqn:Hx.
    { right. eexists _, _. split_and!; [done|exact Hev|done|]. by apply found_out. }
    all: left; intros e' He' Hf' Hne; rewrite (epoll_wait_view _ _ _ _ _ _ Hw) in He'.
    all: cbn [snd] in Hne; apply Hroom in Hne.
    all: simpl in Hne; congruence.
Qed.

(** ** Open connections go on *)

Section flow.
Context {paced : bool}.
Implicit Types (w : edge paced) (s : esock).

Definition flowed s s' : Prop :=
  es_read s `prefix_of` es_read s' ∧ es_tx s `prefix_of` es_tx s' ∧
  es_read s ++ es_arrived s `prefix_of` es_read s' ++ es_arrived s' ∧
  (es_tx s' = es_tx s → 0 < es_room s → 0 < es_room s')%nat.

Lemma flowed_refl s : flowed s s.
Proof. by split_and!. Qed.

Lemma flowed_flows fd w w' :
  (∀ s, eg_sock w !! fd = Some s → ∃ s', eg_sock w' !! fd = Some s' ∧ flowed s s') → flows fd w w'.
Proof.
  intros Hf sv Hsv. rewrite edge_sock in Hsv.
  destruct (eg_sock w !! fd) as [s|] eqn:Hs; [|done]. injection Hsv as <-.
  destruct (Hf s eq_refl) as (s' & Hs' & ? & ? & ? & Hroom). exists (es_view s').
  rewrite edge_sock, Hs'. simpl. unfold eg_arrived, out_ready, eg_room. rewrite Hs, Hs'.
  split_and!; [done|done|done|]. by rewrite !Nat.ltb_lt.
Qed.

Lemma flows_set_sock fd fd' s s' w :
  eg_sock w !! fd' = Some s → flowed s s' → flows fd w (eg_set_sock fd' s' w).
Proof.
  intros Hs Hf. apply flowed_flows. intros s0 Hs0. simpl. destruct (decide (fd = fd')) as [<-|].
  - rewrite lookup_insert_eq. exists s'. split; [done|congruence].
  - rewrite lookup_insert_ne by done. exists s0. split; [done|apply flowed_refl].
Qed.

Lemma flowed_deliver n s : flowed s (deliver (paced := paced) n s).
Proof.
  revert s. induction n as [|n IH]; intros [rd arr [|b com] tx room]; simpl; try apply flowed_refl.
  case_match; [|apply flowed_refl]. destruct (IH (ESock rd (arr ++ [b]) com tx room)) as (? & ? & Ha & ?).
  split_and!; try done. simpl in *. etrans; [|exact Ha]. rewrite app_assoc. by apply prefix_app_r.
Qed.

Lemma flows_act fd a w : flows fd w (env_act a w).
Proof.
  destruct a as [fd' n|fd' n|rx]; simpl.
  - destruct (eg_sock w !! fd') as [s|] eqn:Hs; [|done]. case_match; [done|].
    exact (flows_set_sock fd fd' _ _ w Hs (flowed_deliver n s)).
  - destruct (eg_sock w !! fd') as [s|] eqn:Hs; [|done].
    refine (flows_set_sock fd fd' _ _ w Hs _). split_and!; simpl; [done..|lia].
  - apply flowed_flows. intros s Hs. exists s. split; [done|apply flowed_refl].
Qed.

Lemma flows_tick fd b w : flows fd w (tick b w).
Proof.
  destruct b; [done|]. simpl. apply env_step_ind; [|intros env; exact (reflexivity (R := flows fd) w)].
  intros a w1 Hw1. etrans; [exact Hw1|apply flows_act].
Qed.
End flow.

#[export] Program Instance edge_flow paced : EdgeFlow (edge paced).
Next Obligation. intros. by apply recv_short. Qed.
Next Obligation. intros. by apply send_short. Qed.
Next Obligation.
  intros paced fd fd' len flags w. simpl. unfold eg_recv. etrans; [apply (flows_tick _ (bool_decide (eg_arrived w fd' ≠ [])))|].
  destruct (eg_take fd' len _) as [r w'] eqn:Hr.
  apply eg_take_cases in Hr as [(_ & -> & _)|(s & Hs & _ & _ & ->)]; [done|].
  eapply flows_set_sock; [exact Hs|]. split_and!; simpl; [by apply prefix_app_r|done| |done].
  by rewrite <- app_assoc, take_drop.
Qed.
Next Obligation.
  intros paced fd fd' bs flags w. simpl. unfold eg_send. etrans; [apply (flows_tick _ (0 <? eg_room w fd')%nat)|].
  destruct (eg_put fd' bs _) as [r w'] eqn:Hr.
  apply eg_put_cases in Hr as [(_ & -> & _)|(s & Hs & Hpos & _ & ->)]; [done|].
  eapply flows_set_sock; [exact Hs|]. split_and!; simpl; [done|by apply prefix_app_r|done|].
  intros Heq%(f_equal length). rewrite length_app, length_take in Heq. lia.
Qed.
Next Obligation.
  intros paced fd epfd op fd' ev w. simpl. destruct (eg_epoll_ctl epfd op fd' ev w) as [r w'] eqn:Hc.
  apply flowed_flows. intros s Hs. exists s. split; [|apply flowed_refl].
  by apply eg_epoll_ctl_cases in Hc as [[_ ->]|[(_ & _ & e & _ & ->)|(_ & _ & ->)]].
Qed.
Next Obligation. done. Qed.

(** ** Peers that wait *)

Lemma deliver_paced n s :
  (∀ p, p `prefix_of` es_read s ++ es_arrived s → p ≠ es_read s ++ es_arrived s →
   answer 0 0 p `prefix_of` es_tx s) →
  let s' := deliver (paced := true) n s in
  es_read s' = es_read s ∧ es_tx s' = es_tx s ∧
  ∀ p, p `prefix_of` es_read s' ++ es_arrived s' → p ≠ es_read s' ++ es_arrived s' →
  answer 0 0 p `prefix_of` es_tx s'.
Proof.
  revert s. induction n as [|n IH]; intros [rd arr [|b com] tx room] Hs; simpl in *; try done.
  case_bool_decide as Hans; [|done]. simpl. apply IH. simpl. intros q [k Hk] Hne.
  induction k as [|x k _] using rev_ind; [by rewrite app_nil_r in Hk|].
  rewrite !app_assoc in Hk. apply app_inj_tail in Hk as [Hk _].
  destruct (decide (q = rd ++ arr)) as [->|]; [done|]. apply Hs; [|done]. by exists k.
Qed.

(** Code that leaves what has come on a socket, and takes nothing back. *)
Lemma closed_loop_at fd (w : edge true) s :
  eg_sock w !! fd = Some s → closed_loop fd w →
  ∀ p, p `prefix_of` es_read s ++ es_arrived s → p ≠ es_read s ++ es_arrived s →
  answer 0 0 p `prefix_of` es_tx s.
Proof.
  intros Hs Hcl p Hp Hne. apply (Hcl (es_view s)); [by rewrite edge_sock, Hs|..];
    simpl; unfold eg_arrived; by rewrite Hs.
Qed.

Lemma closed_loop_mono fd (w w' : edge true) :
  (∀ s', eg_sock w' !! fd = Some s' →
    es_read s' ++ es_arrived s' = [] ∨
    ∃ s, eg_sock w !! fd = Some s ∧ es_read s' ++ es_arrived s' = es_read s ++ es_arrived s ∧
      es_tx s `prefix_of` es_tx s') →
  closed_loop fd w → closed_loop fd w'.
Proof.
  intros Hs Hcl sv q Hsv. rewrite edge_sock in Hsv. simpl. unfold eg_arrived.
  destruct (eg_sock w' !! fd) as [s'|] eqn:Hs'; [|done]. injection Hsv as <-. simpl.
  destruct (Hs _ eq_refl) as [->|(s & Hw & -> & Htx)]; [by intros ->%prefix_nil_inv|]. intros Hq Hne.
  etrans; [|exact Htx]. by eapply closed_loop_at.
Qed.

Lemma closed_loop_act fd a (w : edge true) : closed_loop fd w → closed_loop fd (env_act a w).
Proof.
  destruct a as [fd' n|fd' n|rx]; simpl.
  - destruct (eg_sock w !! fd') as [s|] eqn:Hs; [|done]. case_match; [done|]. intros Hcl sv q Hsv.
    destruct (decide (fd = fd')) as [<-|Hne].
    + destruct (deliver_paced n s (closed_loop_at _ _ _ Hs Hcl)) as (Hr & Htx & Hall).
      rewrite edge_sock in Hsv. simpl in *. unfold eg_arrived. simpl.
      rewrite lookup_insert_eq in *. simplify_eq/=. apply Hall.
    + revert Hsv. rewrite edge_sock. simpl. unfold eg_arrived. simpl.
      rewrite lookup_insert_ne by done. intros Hsv. apply (Hcl sv). by rewrite edge_sock.
  - destruct (eg_sock w !! fd') as [s|] eqn:Hs; [|done].
    apply closed_loop_mono. intros s'. simpl. intros [[<- <-]|[_ ?]]%lookup_insert_Some; right; [by exists s|by exists s'].
  - apply closed_loop_mono. intros s'. simpl. intros. right. by exists s'.
Qed.

Lemma closed_loop_step fd (w : edge true) : closed_loop fd w → closed_loop fd (env_step w).
Proof.
  intros Hcl. apply env_step_ind; [intros; by apply closed_loop_act|]. intros env. exact Hcl.
Qed.

Lemma closed_loop_tick fd b (w : edge true) : closed_loop fd w → closed_loop fd (tick b w).
Proof. destruct b; [done|apply closed_loop_step]. Qed.

#[export] Program Instance edge_paced : ClosedLoop (edge true).
Next Obligation.
  intros fd. split; [by split; [by intros w|intros w1 w2 w3; auto]|..]; try done.
  - intros fd' len flags w Hcl. simpl. unfold eg_recv.
    apply (closed_loop_tick _ (bool_decide (eg_arrived w fd' ≠ []))) in Hcl. revert Hcl.
    generalize (tick (bool_decide (eg_arrived w fd' ≠ [])) w) as w1. intros w1.
    destruct (eg_take fd' len w1) as [r w'] eqn:Hr.
    apply eg_take_cases in Hr as [(_ & -> & _)|(s & Hs & Hne & _ & ->)]; [done|].
    apply closed_loop_mono. intros s'. simpl.
    intros [[<- <-]|[_ ?]]%lookup_insert_Some; right; [exists s|by exists s'].
    split_and!; [done| |done]. simpl. by rewrite <- app_assoc, take_drop.
  - intros fd' bs flags w Hcl. simpl. unfold eg_send.
    apply (closed_loop_tick _ (0 <? eg_room w fd')%nat) in Hcl. revert Hcl.
    generalize (tick (0 <? eg_room w fd')%nat w) as w1. intros w1.
    destruct (eg_put fd' bs w1) as [r w'] eqn:Hr.
    apply eg_put_cases in Hr as [(_ & -> & _)|(s & Hs & Hne & _ & ->)]; [done|].
    apply closed_loop_mono. intros s'. simpl.
    intros [[<- <-]|[_ ?]]%lookup_insert_Some; right; [exists s|by exists s'].
    split_and!; [done|done|by apply prefix_app_r].
  - intros epfd op fd' ev w. simpl. destruct (eg_epoll_ctl epfd op fd' ev w) as [r w'] eqn:Hc.
    by apply eg_epoll_ctl_cases in Hc as [[_ ->]|[(_ & _ & e & _ & ->)|(_ & _ & ->)]].
  - intros fd' w. simpl. destruct (eg_accept fd' w) as [n w'] eqn:Hc.
    apply eg_accept_cases in Hc as [[_ ->]|(rx & l & _ & _ & _ & ->)]; [done|].
    apply closed_loop_mono. intros s'. simpl.
    intros [[<- <-]|[_ ?]]%lookup_insert_Some; [by left|right; by exists s'].
  - intros fd' w. apply closed_loop_mono. intros s'. simpl.
    intros [_ ?]%lookup_delete_Some. right. by exists s'.
Qed.
Next Obligation.
  intros fd epfd maxev timeout w Hcl. exact (closed_loop_step fd w Hcl).
Qed.

(** * Examples *)

(** Three requests, and a second client at the same moment as the first. *)
Definition edge_reqs : list (list byte * list byte) := demo_reqs ++ [(hello, [x66; x67])].
Definition edge_world (paced : bool) : edge paced :=
  Edge ∅ ∅ ([EnvConnect (concat (frame <$> edge_reqs)); EnvConnect [x61]] ::
            replicate 4 [EnvArrive 4 100]) [].
Definition edge_start (paced : bool) : srv_state (edge paced) :=
  server_start demo_epoll (edge_world paced).
Definition edge_at (paced : bool) (n : nat) : srv_state (edge paced) :=
  match server_Run 100 n 18000 1000 1024 (edge_start paced) with
  | Ret (_, st) => st
  | Stop _ => edge_start paced
  end.
(** In the round that accepts the client. *)
Definition edge_waited : srv_state (edge true) :=
  match sv_w (Poll.PollUntil demo_epoll 1024 (Some 1000)) (edge_at true 0) with
  | Ret (_, st) => st
  | Stop _ => edge_start true
  end.
Definition edge_tok : Z := default 0 (endpoints_ (sv_app (edge_at true 1)) !! 4).

Lemma edge_welcomed :
  welcomed 100 0 18000 1000 1024 demo_epoll (edge_world true) [] (edge_at true 1) edge_tok 4
    (concat (frame <$> edge_reqs)).
Proof.
  exists (edge_at true 0), [], (EpollEvent EPOLLIN 3), edge_waited,
    (default (new_endpoint 0 SockAddr_empty) (sv_objs (edge_at true 1) !! edge_tok)).
  split_and!.
  - split_and!; [reflexivity|reflexivity|vm_compute; reflexivity].
  - apply (looped_wait 100 _ 1024 (Some 1000) [EpollEvent EPOLLIN 3] edge_waited);
      [vm_compute; reflexivity|apply looped_here].
  - vm_compute. reflexivity.
  - vm_compute. reflexivity.
  - vm_compute. reflexivity.
  - vm_compute. reflexivity.
  - vm_compute. reflexivity.
  - vm_compute. reflexivity.
Qed.

Definition edge_events : list epoll_event := reports 100 4 1024 1000 (edge_at true 1).

Lemma edge_looped : looped 100 [] (edge_at true 1) edge_events [] (edge_at true 5).
Proof. apply rounds_looped. vm_compute. reflexivity. Qed.

Lemma edge_open : kept_open edge_tok edge_events.
Proof. apply (bool_decide_unpack _). vm_compute. exact I. Qed.

Lemma edge_closed_loop : closed_loop 4 (m_world (sv_m (edge_at true 1))).
Proof.
  intros sv q Hsv. rewrite edge_sock in Hsv. vm_compute in Hsv. injection Hsv as <-.
  intros Hq Hne. destruct Hne. by apply prefix_nil_inv in Hq.
Qed.

Lemma server_misses_no_wakeup_witness :
  k_arrived (m_world (sv_m (edge_at true 5))) 4 = [] ∧
  ∃ s, kv_sock (kview (m_world (sv_m (edge_at true 5)))) !! 4 = Some s ∧
  (sv_tx s = answer 0 0 (sv_read s) ∨
   ¬ k_room (m_world (sv_m (edge_at true 5))) 4 ∧ sv_tx s `prefix_of` answer 0 0 (sv_read s)).
Proof.
  apply (server_misses_no_wakeup 100 0 18000 1000 1024 demo_epoll (edge_world true) []
    (edge_at true 1) edge_tok 4 (concat (frame <$> edge_reqs)) edge_events).
  - apply edge_welcomed.
  - vm_compute. reflexivity.
  - apply edge_closed_loop.
  - apply edge_looped.
  - apply edge_open.
  - vm_compute. discriminate.
Defined.

(** The peer has its three answers, but the second client has not been accepted: the
    event of the listener told of both, one was accepted, and nothing is pending. *)
Example edge_all_answered :
  kv_sock (kview (m_world (sv_m (edge_at true 5)))) !! 4 =
    Some (SockView (concat (frame <$> edge_reqs)) [] (concat edge_reqs.*1)) ∧
  eg_backlog (m_world (sv_m (edge_at true 5))) = [[x61]] ∧
  ¬ k_pending (m_world (sv_m (edge_at true 5))) (100, 3).
Proof. split_and!; [vm_compute; reflexivity|vm_compute; reflexivity|vm_compute; discriminate]. Qed.

(** A peer that sends its requests without waiting: two are answered, the third one has
    arrived, and nothing is pending. *)
Example edge_pipelined_stalls :
  kv_sock (kview (m_world (sv_m (edge_at false 5)))) !! 4 =
    Some (SockView (concat (frame <$> demo_reqs)) (frame (hello, [x66; x67])) (concat demo_reqs.*1)) ∧
  k_arrived (m_world (sv_m (edge_at false 5))) 4 = frame (hello, [x66; x67]) ∧
  ¬ k_pending (m_world (sv_m (edge_at false 5))) (100, 4).
Proof. split_and!; [vm_compute; reflexivity|vm_compute; reflexivity|vm_compute; discriminate]. Qed.

(** ** The loop running on for ever *)

(** The next step of the loop, and the run it makes from the moment the client is
    accepted. *)
Definition loop_next (c : list epoll_event * srv_state (edge true)) :
    option (list epoll_event * srv_state (edge true)) :=
  match c with
  | ([], st) =>
      match sv_w (Poll.PollUntil (poll_ (sv_app st)) 1024 (Some 1000)) st with
      | Ret (Some evs, st1) => Some (evs, st1)
      | _ => None
      end
  | (ev :: evs, st) =>
      match handle_event 100 ev st with Ret (_, st1) => Some (evs, st1) | Stop _ => None end
  end.
Definition loop_once (c : list epoll_event * srv_state (edge true)) := default c (loop_next c).
Definition edge_run (i : nat) : list epoll_event * srv_state (edge true) :=
  Nat.iter i loop_once ([], edge_at true 1).

(** After seven steps it only waits. *)
Lemma edge_run_rests i : (7 ≤ i)%nat → edge_run i = edge_run 7.
Proof.
  induction 1 as [|i _ IH]; [done|]. change (edge_run (S i)) with (loop_once (edge_run i)).
  rewrite IH. vm_compute. reflexivity.
Qed.

Lemma edge_run_all (P : list epoll_event * srv_state (edge true) → bool) i :
  forallb P (edge_run <$> seq 0 8) = true → P (edge_run i) = true.
Proof.
  rewrite forallb_forall. intros HP. apply HP, list_elem_of_In, list_elem_of_fmap.
  exists (i `min` 7)%nat. rewrite elem_of_seq. split; [|lia].
  destruct (decide (7 ≤ i)%nat); [rewrite edge_run_rests by done|]; f_equal; lia.
Qed.

Lemma loop_next_step c : is_Some (loop_next c) → loop_step 100 c (loop_once c).
Proof.
  destruct c as [[|ev evs] st]; unfold loop_once; cbn [loop_next].
  - destruct (sv_w _ st) as [[[evs|] st1]|] eqn:Hw; intros [c' [=]]. by eapply loop_wait.
  - destruct (handle_event 100 ev st) as [[[] st1]|] eqn:Hh; intros [c' [=]]. by apply loop_event.
Qed.

Lemma edge_run_steps i : loop_step 100 (edge_run i) (edge_run (S i)).
Proof.
  apply loop_next_step. apply (bool_decide_eq_true_1 _).
  refine (edge_run_all (λ c, bool_decide (is_Some (loop_next c))) i _). vm_compute. reflexivity.
Qed.

Lemma edge_run_open i : stays_open edge_tok (edge_run i).
Proof.
  assert (Hall : negb (existsb closes (edge_run i).1) = true).
  { refine (edge_run_all (λ c, negb (existsb closes c.1)) i _). vm_compute. reflexivity. }
  unfold stays_open. destruct (edge_run i).1 as [|ev l]; [done|]. simpl in Hall.
  by destruct (closes ev).
Qed.

Local Abbreviation run_sock i := (kv_sock (kview (m_world (sv_m (edge_run i).2))) !! 4).
Local Abbreviation asks_out c :=
  (from_option (λ r, has_flag (ev_events r.1) EPOLLOUT) false
    (eg_reg (m_world (sv_m c.2)) !! (100, 4))).

(** The connection has not come to its end, or it wants nothing more. *)
Lemma edge_run_ends i :
  moved edge_run 4 i (i `max` 7) ∨
  run_sock i = Some (SockView (concat (frame <$> edge_reqs)) [] (concat edge_reqs.*1)) ∧
  asks_out (edge_run i) = false.
Proof.
  assert (Hend : ∀ j, (7 ≤ j)%nat → run_sock j =
    Some (SockView (concat (frame <$> edge_reqs)) [] (concat edge_reqs.*1))).
  { intros j Hj. rewrite edge_run_rests by done. vm_compute. reflexivity. }
  unfold moved. rewrite (Hend (i `max` 7)%nat) by lia.
  destruct (decide (run_sock i =
    Some (SockView (concat (frame <$> edge_reqs)) [] (concat edge_reqs.*1)))) as [Heq|]; [right|by left].
  split; [done|]. revert Heq. apply (bool_decide_eq_true_1 _).
  refine (edge_run_all (λ c, bool_decide (kv_sock (kview (m_world (sv_m c.2))) !! 4 =
    Some (SockView (concat (frame <$> edge_reqs)) [] (concat edge_reqs.*1)) →
    asks_out c = false)) i _). vm_compute. reflexivity.
Qed.

Lemma edge_run_fair : fair demo_epoll edge_run edge_tok 4.
Proof.
  split.
  - intros i _ _ Harr. exists (i `max` 7)%nat. split; [lia|right].
    destruct (edge_run_ends i) as [|[Hs _]]; [done|]. destruct Harr.
    by apply (arrived_prefix _ _ _) in Hs as Hp%prefix_nil_inv.
  - intros i _ [_ (e & He & Hf)] _. exists (i `max` 7)%nat. split; [lia|right].
    destruct (edge_run_ends i) as [|[_ Hout]]; [done|]. rewrite edge_reg in He.
    change (Poll.epfd demo_epoll, 4) with (100, 4) in He.
    destruct (eg_reg _ !! (100, 4)) as [r|]; [|done]. simplify_eq/=. congruence.
  - intros i. exists (i `max` 7)%nat. split; [lia|]. rewrite edge_run_rests by lia.
    split; vm_compute; reflexivity.
  - intros i s _ Hs _ Hrx _. exists (i `max` 7)%nat. split; [lia|right].
    destruct (edge_run_ends i) as [|[Hs' _]]; [done|]. destruct Hrx.
    rewrite Hs in Hs'. by injection Hs' as ->.
Qed.

Lemma server_answers_all_witness :
  ∃ i, ∀ j, (i ≤ j)%nat → run_sock j =
  Some (SockView (concat (frame <$> edge_reqs)) [] (answer 0 0 (concat (frame <$> edge_reqs)))).
Proof.
  apply (server_answers_all 100 0 18000 1000 1024 demo_epoll (edge_world true) edge_run edge_tok 4
    (concat (frame <$> edge_reqs))).
  - exact edge_welcomed.
  - vm_compute. reflexivity.
  - exact edge_closed_loop.
  - exact edge_run_steps.
  - exact edge_run_open.
  - exact edge_run_fair.
Defined.
