(* ===== verification/Pacing.v ===== *)
(** The bandwidth client is a peer that waits (see Edge.v): at every system call it
    makes, no request but the one it is sending is unanswered, and what it waits for is
    the answer to what it has sent.  To say so about every moment of a run, the calls
    are written into a log. *)
From S2P Require Import Prelude CInt Kernel SimKernel Poll Buffer Socket Endpoint EndpointSpec BwApp SocketBwServer SocketBwClient Edge EdgeServer.

Local Open Scope Z_scope.
#[local] Set Default Proof Using "Type*".

(** * A kernel with a log *)

Inductive io_call :=
  | CallRecv (fd len : Z)
  | CallOther.

(** The world, and the calls with what could be observed when they were made. *)
Record logged (W : Type) := Logged { lg_world : W; lg_log : list (io_call * kernel_view) }.
Arguments Logged {W} _ _.
Arguments lg_world {W} _.
Arguments lg_log {W} _.

Section log.
Context {W : Type} `{!Kernel W, !KernelLaws W}.

Definition log_call {A} (c : io_call) (f : W → A * W) (w : logged W) : A * logged W :=
  ((f (lg_world w)).1, Logged (f (lg_world w)).2 (lg_log w ++ [(c, kview (lg_world w))])).

#[export] Instance logged_kernel : Kernel (logged W) := {|
  sys_errno w := sys_errno (lg_world w);
  sys_recv fd len flags := log_call (CallRecv fd len) (sys_recv fd len flags);
  sys_send fd bs flags := log_call CallOther (sys_send fd bs flags);
  sys_epoll_ctl epfd op fd ev := log_call CallOther (sys_epoll_ctl epfd op fd ev);
  sys_epoll_wait epfd maxev timeout := log_call CallOther (sys_epoll_wait epfd maxev timeout);
  sys_epoll_create flags := log_call CallOther (sys_epoll_create flags);
  sys_dup fd := log_call CallOther (sys_dup fd);
  sys_accept fd := log_call CallOther (sys_accept fd);
  sys_close fd := log_call CallOther (sys_close fd);
  sys_socket domain type protocol := log_call CallOther (sys_socket domain type protocol);
  sys_connect fd addr len := log_call CallOther (sys_connect fd addr len);
  sys_getpeername fd := log_call CallOther (sys_getpeername fd);
  sys_getaddrinfo host port socktype flags :=
    log_call CallOther (sys_getaddrinfo host port socktype flags);
  sys_getnameinfo addr flags := log_call CallOther (sys_getnameinfo addr flags);
  sys_call c := log_call CallOther (sys_call c);
  sys_memalign al size := log_call CallOther (sys_memalign al size);
|}.

Lemma log_call_inv {A} c (f : W → A * W) w r w' :
  log_call c f w = (r, w') →
  f (lg_world w) = (r, lg_world w') ∧ lg_log w' = lg_log w ++ [(c, kview (lg_world w))].
Proof. unfold log_call. intros [= <- <-]. by destruct (f (lg_world w)). Qed.

#[export] Program Instance logged_laws : KernelLaws (logged W) := {| kview w := kview (lg_world w) |}.
Solve All Obligations with
  (intros *; intros [? _]%log_call_inv;
   eauto using recv_Some, recv_None, send_Some, send_None, epoll_ctl_fail, epoll_ctl_set,
     epoll_ctl_del, epoll_wait_view, epoll_wait_events, accept_fresh, accept_fail, close_view,
     socket_view, getpeername_view, getaddrinfo_view, getnameinfo_view,
     call_view, memalign_Some, memalign_None).
Next Obligation. intros * [? _]%log_call_inv. by eapply getpeername_size. Qed.

#[export] Program Instance logged_reliable `{!KernelReliable W} : KernelReliable (logged W) :=
  {| k_patience w := k_patience (lg_world w) |}.
Next Obligation. intros * ? [Hr _]%log_call_inv. by eapply (recv_wouldblock (W := W)) in Hr. Qed.
Next Obligation. intros * [Hr _]%log_call_inv. by apply recv_patience in Hr. Qed.
Next Obligation. intros * ? [Hr _]%log_call_inv. by eapply (send_wouldblock (W := W)) in Hr. Qed.
Next Obligation. intros * [Hr _]%log_call_inv. by apply send_patience in Hr. Qed.
Next Obligation. intros ? epfd fd ev w. exact (epoll_mod_ok epfd fd ev (lg_world w)). Qed.
Next Obligation. intros * [Hr _]%log_call_inv. by apply epoll_ctl_patience in Hr. Qed.
Next Obligation.
  intros ? al size w. destruct (memalign_ok al size (lg_world w)) as (bs & w' & Hr & ?).
  eexists bs, (Logged w' _). split; [|done]. simpl. unfold log_call. by rewrite Hr.
Qed.

(** Every call so far has been made at a moment with [P]. *)
Definition all_calls (P : io_call → kernel_view → Prop) (w : logged W) : Prop :=
  Forall (λ e, P e.1 e.2) (lg_log w).

Lemma all_calls_log P {A} c (f : W → A * W) w r w' :
  log_call c f w = (r, w') → all_calls P w → P c (kview w) → all_calls P w'.
Proof.
  intros [_ Hl]%log_call_inv Hw HP. unfold all_calls. rewrite Hl.
  apply Forall_app_2; [exact Hw|constructor; [exact HP|constructor]].
Qed.

Lemma GetSockError_calls P fd w :
  all_calls P w → P CallOther (kview w) →
  wp (λ _, True) (GetSockError fd) w (λ _ w', all_calls P w').
Proof.
  intros Hw HP. unfold GetSockError. wp_step. apply wp_lift. intros r w' Hr.
  wp_step. apply wp_check; [done|]. intros _. wp_steps.
  by apply (all_calls_log P _ _ _ _ _ Hr).
Qed.

(** [SendAll] makes its calls when it has sent a part of the bytes. *)
Lemma SendAll_calls P fuel fd bs w s0 :
  kv_sock (kview w) !! fd = Some s0 →
  (∀ v k, sent fd s0 (kview w) (take k bs) v → P CallOther v) →
  all_calls P w → wp (λ _, True) (SendAll fuel fd bs 0) w (λ _ w', all_calls P w').
Proof.
  intros Hs HP Hw. unfold SendAll.
  enough (∀ n w1, sent fd s0 (kview w) (take (Z.to_nat n) bs) (kview w1) →
    0 ≤ n ≤ Z.of_nat (length bs) → all_calls P w1 →
    wp (λ _, True) (SendAll_loop fuel fd bs 0 n) w1 (λ _ w', all_calls P w')) as Hloop.
  { apply Hloop; [by apply sent_nil|lia|done]. }
  clear Hw. induction fuel as [|fuel IH]; intros n w1 Hn Hlen Hw1; [done|].
  cbn [SendAll_loop]. destruct (Z.ltb_spec n (Z.of_nat (length bs))); [|by wp_steps].
  wp_step. apply wp_lift. intros r w2 Hr. pose proof (HP _ _ Hn) as HPn.
  assert (Hw2 : all_calls P w2) by by apply (all_calls_log P _ _ _ _ _ Hr). destruct r as [r|].
  - destruct (send_sent _ _ _ _ _ _ _ _ _ Hr ltac:(lia) Hn) as (? & ? & ?). apply IH; [done|lia|done].
  - apply send_None in Hr. rewrite <- Hr in Hn, HPn. wp_step. apply wp_LastErrorWouldBlock.
    case_match; [by apply IH|]. wp_step. eapply wp_mono; [by apply (GetSockError_calls P)|].
    intros e w3 Hw3. by wp_steps.
Qed.

(** [RecvAll] makes its calls when it has taken a part of the bytes, for the rest. *)
Lemma RecvAll_calls P fuel fd len w s0 :
  kv_sock (kview w) !! fd = Some s0 → 0 ≤ len →
  (∀ v acc, received fd s0 (kview w) acc v → Z.of_nat (length acc) ≤ len →
   P (CallRecv fd (len - Z.of_nat (length acc))) v ∧ P CallOther v) →
  all_calls P w → wp (λ _, True) (RecvAll fuel fd len 0) w (λ _ w', all_calls P w').
Proof.
  intros Hs Hlen0 HP Hw. unfold RecvAll.
  enough (∀ acc w1, received fd s0 (kview w) acc (kview w1) → Z.of_nat (length acc) ≤ len →
    all_calls P w1 → wp (λ _, True) (RecvAll_loop fuel fd len 0 acc) w1 (λ _ w', all_calls P w')) as Hloop.
  { apply Hloop; [by apply received_nil|done|done]. }
  clear Hw. induction fuel as [|fuel IH]; intros acc w1 Hacc Hlen Hw1; [done|].
  cbn [RecvAll_loop]. destruct (Z.ltb_spec (Z.of_nat (length acc)) len); [|by wp_steps].
  wp_step. apply wp_lift. intros r w2 Hr. destruct (HP _ _ Hacc Hlen) as [HPr HPo].
  assert (Hw2 : all_calls P w2) by by apply (all_calls_log P _ _ _ _ _ Hr). destruct r as [bs|].
  - destruct (recv_received _ _ _ _ _ _ _ _ _ Hr ltac:(lia) Hacc) as (? & ? & _).
    destruct bs as [|b bs]; [by wp_steps|]. apply IH; [done|rewrite length_app; lia|done].
  - apply recv_None in Hr. rewrite <- Hr in Hacc, HPo. wp_step. apply wp_LastErrorWouldBlock.
    case_match; [by apply IH|]. wp_step. eapply wp_mono; [by apply (GetSockError_calls P)|].
    intros e w3 Hw3. by wp_steps.
Qed.
End log.

(** * The client waits *)

(** All but the last bytes that were sent have been answered, and the answer read. *)
Definition paced (c : sock_view) : Prop :=
  ∀ p, p `prefix_of` sv_tx c → p ≠ sv_tx c → answer 0 0 p `prefix_of` sv_read c.
(** The next [len] bytes of the stream are in the answer to what has been sent. *)
Definition promised (len : Z) (c : sock_view) : Prop :=
  sv_read c ++ take (Z.to_nat len) (sv_rx c) `prefix_of` answer 0 0 (sv_tx c).

(** A moment at which a call may be made. *)
Definition waiting (fd : Z) (call : io_call) (v : kernel_view) : Prop :=
  ∀ c, kv_sock v !! fd = Some c → paced c ∧ ∀ len, call = CallRecv fd len → promised len c.

Section client.
Context {W : Type} `{!Kernel W, !BwProtobuf, !KernelLaws W, !KernelReliable W, !BwProtobufLaws}.
Implicit Types (m : BwMessage) (s : cl_state (logged W)).

Local Abbreviation headers msgs := (concat (header_bytes <$> msgs)).
Local Abbreviation frames msgs := (concat (frame <$> (request <$> msgs))).

Lemma headers_requests msgs : concat (request <$> msgs).*1 = headers msgs.
Proof. by rewrite <- list_fmap_compose. Qed.
Lemma frames_app msgs m : frames (msgs ++ [m]) = frames msgs ++ frame (request m).
Proof. by rewrite !fmap_app, concat_app, fmap_cons, fmap_nil; simpl; rewrite app_nil_r. Qed.
Lemma headers_app msgs m : headers (msgs ++ [m]) = headers msgs ++ header_bytes m.
Proof. by rewrite fmap_app, concat_app, fmap_cons, fmap_nil; simpl; rewrite app_nil_r. Qed.

Section push.
Context (before : list BwMessage) (m : BwMessage).
Hypothesis mono : nondecreasing 0 0 (request <$> before ++ [m]).

(** The requests before this one are answered and some bytes of this one are sent, and
    some of its answer read. *)
Lemma paced_push bs rest got rx :
  bs ++ rest = frame (request m) →
  paced (SockView (headers before ++ got) rx (frames before ++ bs)).
Proof.
  intros Hbs p Hp Hne. simpl in *. apply prefix_app_r. rewrite <- headers_requests.
  rewrite fmap_app in mono. refine (answer_before 0 0 _ _ p mono _ _).
  all: change ([request m]) with (request <$> [m]); rewrite <- fmap_app, frames_app, <- Hbs.
  - etrans; [exact Hp|]. apply prefix_app. by exists rest.
  - intros ->. apply Hne. destruct Hp as [k Hk]. rewrite <- !app_assoc in Hk.
    apply app_inv_head in Hk. apply (f_equal length) in Hk as Hlen. rewrite !length_app in Hlen.
    destruct rest; [by rewrite app_nil_r|simpl in Hlen; lia].
Qed.

Lemma promised_push got rx len :
  (length got + Z.to_nat len ≤ length (header_bytes m))%nat →
  got ++ rx = header_bytes m ++ drop (length (header_bytes m)) (got ++ rx) →
  promised len (SockView (headers before ++ got) rx (frames before ++ frame (request m))).
Proof.
  intros Hlen Hrx. unfold promised. simpl. rewrite <- frames_app, answer_frames by done.
  rewrite headers_requests, headers_app, <- app_assoc. apply prefix_app.
  replace (got ++ take (Z.to_nat len) rx) with (take (length got + Z.to_nat len) (got ++ rx))
    by (by rewrite take_app_add). rewrite Hrx, take_app_le by done. apply prefix_take.
Qed.
End push.

(** Every push makes its calls at such moments. *)
Lemma PushData_waiting fuel fd before m rx s :
  client_ok fd (cl_app s) → fits m → nondecreasing 0 0 (request <$> before ++ [m]) →
  kv_sock (kview (cl_world s)) !! fd =
    Some (SockView (headers before) (header_bytes m ++ rx) (frames before)) →
  (8 + length (header_bytes m) + length (data m) + k_patience (cl_world s) < fuel)%nat →
  all_calls (waiting fd) (cl_world s) →
  wp total (PushData fuel m) s (λ _ s',
  client_ok fd (cl_app s') ∧
  kv_sock (kview (cl_world s')) !! fd =
    Some (SockView (headers (before ++ [m])) rx (frames (before ++ [m]))) ∧
  (k_patience (cl_world s') ≤ k_patience (cl_world s))%nat ∧
  all_calls (waiting fd) (cl_world s')).
Proof.
  intros Hok Hfit Hmono Hs Hfuel Hw. eapply wp_mono.
  { apply (wp_PushData_tracked fuel fd m (headers before) (header_bytes m ++ rx) (frames before)
      (all_calls (waiting fd)) s); try done.
    - intros bs1 bs2 bs3 w Hbs Hw' Hs'. eapply SendAll_calls; [exact Hs'| |done].
      intros v k Hv c Hc. rewrite Hv, kv_set_sock_lookup in Hc. injection Hc as <-.
      split; [|done]. simpl. rewrite <- app_assoc, <- (app_nil_r (headers before)).
      apply (paced_push before m Hmono _ (drop k bs2 ++ bs3)).
      by rewrite <- app_assoc, (app_assoc (take k bs2)), take_drop.
    - intros w Hw' Hs'. eapply RecvAll_calls; [exact Hs'|lia| |done].
      intros v acc (rest & Hrx & ->) Hacc. simpl in Hrx.
      assert (paced (SockView (headers before ++ acc) rest (frames before ++ frame (request m)))).
      { apply (paced_push before m Hmono _ []). apply app_nil_r. }
      split; intros c Hc; rewrite kv_set_sock_lookup in Hc; injection Hc as <-; (split; [done|]); [|done].
      intros len [= <-]. apply promised_push; [done|lia|].
      by rewrite <- Hrx, drop_app_length. }
  simpl. intros _ s' ((Hok' & _ & Hv & Hp) & Hw'). split_and!; [done| |done|done].
  rewrite Hv, kv_set_sock_lookup, take_app_length, drop_app_length.
  by rewrite headers_app, frames_app.
Qed.

Lemma PushAll_waiting fuel fd before msgs s :
  client_ok fd (cl_app s) → Forall fits msgs → nondecreasing 0 0 (request <$> before ++ msgs) →
  kv_sock (kview (cl_world s)) !! fd =
    Some (SockView (headers before) (headers msgs) (frames before)) →
  Forall (λ m, 8 + length (header_bytes m) + length (data m) + k_patience (cl_world s) < fuel)%nat
    msgs →
  all_calls (waiting fd) (cl_world s) →
  wp total (PushAll fuel msgs) s (λ _ s', all_calls (waiting fd) (cl_world s')).
Proof.
  revert before s. induction msgs as [|m msgs IH]; intros before s Hok Hfit Hmono Hs Hfuel Hw.
  { by wp_steps. }
  rewrite !Forall_cons_iff in *. destruct Hfit, Hfuel as [? Hfuel]. cbn [PushAll]. wp_step.
  eapply wp_mono; [apply (PushData_waiting fuel fd before m (headers msgs)); try done|].
  { apply (nondecreasing_app_l 0 0 _ (request <$> msgs)). by rewrite <- fmap_app, <- app_assoc. }
  intros ack s' (Hok' & Hs' & Hp & Hw'). wp_step. eapply wp_mono; [eapply (IH (before ++ [m])); try done|].
  - by rewrite <- app_assoc.
  - revert Hfuel. apply Forall_impl. cbv beta. intros; lia.
  - intros acks s'' Hw''. by wp_steps.
Qed.

(** C15. The client of the bandwidth benchmark is a peer that waits.  It pushes messages
    whose headers and data do not get smaller to a peer that answers like [answer].  At
    every system call it makes, however the kernel splits the streams and whichever
    transfers would block: what it has sent but for the request under way has been
    answered, and the answer read; and when it waits for bytes they are the answer to
    what it has sent, so it does not wait for what only a later request would bring. *)
Theorem client_paces fuel fd msgs s :
  client_ok fd (cl_app s) → Forall fits msgs → nondecreasing 0 0 (request <$> msgs) →
  kv_sock (kview (cl_world s)) !! fd = Some (SockView [] (answer 0 0 (frames msgs)) []) →
  Forall (λ m, 8 + length (header_bytes m) + length (data m) + k_patience (cl_world s) < fuel)%nat
    msgs →
  lg_log (cl_world s) = [] →
  wp total (PushAll fuel msgs) s (λ _ s',
  ∀ call v c, (call, v) ∈ lg_log (cl_world s') → kv_sock v !! fd = Some c →
  paced c ∧ ∀ len, call = CallRecv fd len → promised len c).
Proof.
  intros Hok Hfit Hmono Hs Hfuel Hlog. rewrite answer_frames, headers_requests in Hs by done.
  eapply wp_mono; [apply (PushAll_waiting fuel fd [] msgs); try done|].
  - unfold all_calls. by rewrite Hlog.
  - intros acks s' Hall call v c Hin. cbv beta in Hall.
    rewrite list_elem_of_In in Hin. by apply (proj1 (Forall_forall _ _) Hall (call, v) Hin).
Qed.
End client.

(** * Both ends *)

(** The connection between a client's socket and one of a server in an edge-triggered
    world: what has come to one end has been sent at the other. *)
Definition linked {W} `{!Kernel W, !KernelLaws W, !EdgeOps W} (c : sock_view) (fd : Z) (w : W) : Prop :=
  ∃ s, kv_sock (kview w) !! fd = Some s ∧
  sv_read s ++ k_arrived w fd `prefix_of` sv_tx c ∧ sv_read c `prefix_of` sv_tx s.

Section both.
Context {W : Type} `{!Kernel W, !KernelLaws W, !EdgeOps W}.
Implicit Types (w : W) (c s : sock_view).

(** A client that waits is what the server needs. *)
Lemma paced_closed_loop c fd w : paced c → linked c fd w → closed_loop fd w.
Proof.
  intros Hpaced (s & Hs & Harr & Hread) s' p Hs' Hp Hne. assert (s' = s) as -> by congruence.
  etrans; [|exact Hread]. apply Hpaced; [by etrans|]. intros ->. apply Hne.
  by apply (anti_symm prefix).
Qed.

End both.

Section stuck.
Context {W : Type} `{!Kernel W, !KernelLaws W, !KernelFaultless W, !EdgeOps W, !EdgeLaws W,
  !ClosedLoop W}.
Context (fuel : nat) (p : Poll.Poll) (tok fd : Z) (inp : list byte).
Hypothesis first_header : 0 < of_le32 inp.

(** And they do not wait for each other: when all that the client has sent has come to
    the server, the server has nothing to do and its socket has room, what the client
    waits for has been sent. *)
Lemma both_not_stuck len c s (st : srv_state W) :
  promised len c → kv_sock (kview (m_world (sv_m st))) !! fd = Some s →
  sv_read s ++ k_arrived (m_world (sv_m st)) fd = sv_tx c →
  attended fuel p tok fd inp [] st → ¬ k_pending (m_world (sv_m st)) (Poll.epfd p, fd) →
  k_room (m_world (sv_m st)) fd →
  sv_read c ++ take (Z.to_nat len) (sv_rx c) `prefix_of` sv_tx s.
Proof.
  intros Hp Hs Harr Hatt Hnp Hroom.
  destruct (attended_done fuel p tok fd inp first_header st Hatt Hnp) as (Hnil & s' & Hs' & Hans).
  assert (s' = s) as -> by congruence. rewrite Hnil, app_nil_r in Harr.
  destruct Hans as [->|[Hno _]]; [by rewrite Harr|done].
Qed.
End stuck.

(** * Example *)

Import ToyProtobuf.

Definition logged_client : cl_state (logged sim) :=
  let s := demo_client (answer 0 0 (concat (frame <$> (request <$> demo_msgs)))) in
  ClState (cl_app s) (Logged (cl_world s) []).

Lemma client_paces_witness :
  wp total (PushAll 40 demo_msgs) logged_client (λ _ s',
  ∀ call v c, (call, v) ∈ lg_log (cl_world s') → kv_sock v !! 6 = Some c →
  paced c ∧ ∀ len, call = CallRecv 6 len → promised len c).
Proof.
  refine (client_paces 40 6 demo_msgs logged_client _ _ _ _ _ _).
  - apply demo_client_ok.
  - repeat constructor; apply Z.leb_le; reflexivity.
  - repeat split; apply Z.ltb_lt || apply Nat.leb_le; reflexivity.
  - reflexivity.
  - repeat constructor; apply Nat.ltb_lt; reflexivity.
  - reflexivity.
Defined.
