(* ===== verification/System.v ===== *)
(** The two programs of the bandwidth benchmark over a socket as one system: the client
    runs over a kernel in which the server runs.  At every call that the client makes a
    schedule says how many bytes on the way reach the server, how many steps the server's
    loop makes, and how many bytes the call transfers. *)
From S2P Require Import Prelude CInt Kernel SimKernel Poll Buffer Socket Endpoint EndpointSpec IOMode EndpointProofs EndpointProps SocketBwServer ServerProofs ServerProps Keeps ServerLive Edge EdgeServer EdgeLive EdgeSim.

Local Open Scope Z_scope.

(** The descriptors of the connection: the client's own, and the one that the server
    gets when it accepts; and the data the server registers it with. *)
Definition cli_fd : Z := 6.
Definition srv_fd : Z := 4.
Definition srv_tok : Z := 4.

(** What happens at one call of the client. *)
Record plan := Plan { pl_steps : nat; pl_arrive : nat; pl_transfer : nat }.

(** A state of the server's loop (see [loop_step] of EdgeLive.v). *)
Abbreviation server := (list epoll_event * srv_state (edge true))%type.

(** The server; the bytes on the way to it; how many of the bytes it has sent the client
    has read; and the schedule.  [sy_stream] is what the client is going to send: the
    kernel of the server is described with it (see [es_coming] of EdgeSim.v), but nothing
    that happens depends on it. *)
Record system := System {
  sy_srv : server;
  sy_wire : list byte;
  sy_got : nat;
  sy_stream : list byte;
  sy_sched : nat → plan;
}.

Definition srv_world (c : server) : edge true := m_world (sv_m c.2).
Definition on_world (f : edge true → edge true) (c : server) : server :=
  (c.1, Srv (sv_app c.2) (sv_objs c.2) (set_world (f (srv_world c)) (sv_m c.2))).
Definition on_server (f : server → server) (y : system) : system :=
  System (f (sy_srv y)) (sy_wire y) (sy_got y) (sy_stream y) (sy_sched y).

(** The bytes [bs] of the peer reach the socket of the server. *)
Definition arrive (bs : list byte) (w : edge true) : edge true :=
  match eg_sock w !! srv_fd with
  | Some s => eg_notify srv_fd (eg_set_sock srv_fd
      (ESock (es_read s) (es_arrived s ++ bs) (drop (length bs) (es_coming s)) (es_tx s) (es_room s)) w)
  | None => w
  end.
(** The peer has read [n] bytes: there is room for as many. *)
Definition make_room (n : nat) (w : edge true) : edge true := env_act (EnvRoom srv_fd n) w.

(** A segment of the network carries at least the two sizes of a request, or all there is. *)
Definition segment (n : nat) : nat := 8 `max` n.

(** Some of the bytes on the way arrive, when the server has accepted the connection. *)
Definition advance (n : nat) (y : system) : system :=
  match eg_sock (srv_world (sy_srv y)) !! srv_fd, sy_wire y with
  | Some _, _ :: _ =>
      System (on_world (arrive (take (segment n) (sy_wire y))) (sy_srv y))
        (drop (segment n) (sy_wire y)) (sy_got y) (sy_stream y) (sy_sched y)
  | _, _ => y
  end.

(** The others act before a call of the client. *)
Definition turn (y : system) : plan * system :=
  let pl := sy_sched y 0%nat in
  let y := System (sy_srv y) (sy_wire y) (sy_got y) (sy_stream y) (λ n, sy_sched y (S n)) in
  (pl, on_server (Nat.iter (pl_steps pl) loop_once) (advance (pl_arrive pl) y)).

(** What the server has sent and the client has not read. *)
Definition unread (y : system) : list byte :=
  match eg_sock (srv_world (sy_srv y)) !! srv_fd with
  | Some s => drop (sy_got y) (es_tx s)
  | None => []
  end.

(** The calls of the client; one that would block lets the server make a step. *)
Definition sy_recv (fd len flags : Z) (y : system) : option (list byte) * system :=
  let '(pl, y) := turn y in
  match unread y with
  | [] => (None, on_server loop_once y)
  | l =>
      let bs := take (Z.to_nat len `min` S (pl_transfer pl)) l in
      (Some bs, System (on_world (make_room (length bs)) (sy_srv y)) (sy_wire y)
        (sy_got y + length bs) (sy_stream y) (sy_sched y))
  end.

Definition sy_send (fd : Z) (bs : list byte) (flags : Z) (y : system) : option Z * system :=
  let '(pl, y) := turn y in
  let out := take (segment (pl_transfer pl)) bs in
  (Some (Z.of_nat (length out)),
   System (sy_srv y) (sy_wire y ++ out) (sy_got y) (sy_stream y) (sy_sched y)).

(** A connection to the port of the server, which accepts it when it comes to that. *)
Definition sy_connect (fd : Z) (addr : list byte) (len : Z) (y : system) : Z * system :=
  let '(_, y) := turn y in (0, on_server (on_world (env_act (EnvConnect (sy_stream y)))) y).

#[export] Instance system_kernel : Kernel system := {|
  sys_errno _ := EAGAIN;
  sys_recv := sy_recv;
  sys_send := sy_send;
  sys_epoll_ctl epfd op fd ev y := (-1, y);
  sys_epoll_wait epfd maxev timeout y := (None, y);
  sys_epoll_create flags y := (-1, y);
  sys_dup fd y := (fd, y);
  sys_accept fd y := (-1, y);
  sys_close fd y := (0, y);
  sys_socket _ _ _ y := (cli_fd, y);
  sys_connect := sy_connect;
  sys_getpeername fd y := (Some (replicate 16 Byte.x00), y);
  sys_getaddrinfo host port socktype flags y :=
    (Some (MkAddrinfo 2 socktype 0 (replicate 16 Byte.x00)), y);
  sys_getnameinfo addr flags y := (Some ("127.0.0.1", "18000"), y);
  sys_call c y := ((0, 0), y);
  sys_memalign al size y := (Some (replicate (Z.to_nat size) Byte.x00), y);
|}.

(** * The beginning *)

(** The server has been started, nobody has connected. *)
Definition srv_idle : server :=
  ([], match server_Run 100 0 18000 1000 1024 (server_start demo_epoll (Edge ∅ ∅ [] [])) with
       | Ret (_, st) => st
       | Stop _ => server_start demo_epoll (Edge ∅ ∅ [] [])
       end).
Definition system_start (stream : list byte) (sched : nat → plan) : system :=
  System srv_idle [] 0 stream sched.

(** A client with [stream] to send has connected; the listener is reported; the
    connection has been accepted. *)
Definition srv_asked (stream : list byte) : server := on_world (env_act (EnvConnect stream)) srv_idle.
Definition srv_told (stream : list byte) : server := loop_once (srv_asked stream).
Definition srv_accepted (stream : list byte) : server := loop_once (srv_told stream).

(** Until then it waits. *)
Lemma idle_waits : loop_next srv_idle = Some srv_idle.
Proof. vm_compute. reflexivity. Qed.
Lemma idle_iter n : Nat.iter n loop_once srv_idle = srv_idle.
Proof. induction n as [|n IH]; [done|]. cbn [Nat.iter nat_rect]. unfold Nat.iter in IH. by rewrite IH. Qed.

Example asked_next stream : loop_next (srv_asked stream) = Some (srv_told stream).
Proof. vm_compute. reflexivity. Qed.
Example told_next stream : loop_next (srv_told stream) = Some (srv_accepted stream).
Proof. vm_compute. reflexivity. Qed.

(** What there is of the connection then. *)
Lemma asked_new stream : (srv_asked stream).1 = [] ∧ eg_sock (srv_world (srv_asked stream)) !! srv_fd = None.
Proof. split; vm_compute; reflexivity. Qed.
Lemma told_new stream :
  (srv_told stream).1 = [EpollEvent EPOLLIN 3] ∧ eg_sock (srv_world (srv_told stream)) !! srv_fd = None.
Proof. split; vm_compute; reflexivity. Qed.
Lemma accepted_sock stream :
  eg_sock (srv_world (srv_accepted stream)) !! srv_fd = Some (ESock [] [] stream [] 64).
Proof. vm_compute. reflexivity. Qed.
Lemma accepted_reg stream :
  eg_reg (srv_world (srv_accepted stream)) =
  {[ (100, 3) := (EpollEvent 2147491841 3, false); (100, srv_fd) := (EpollEvent 2147491845 srv_tok, true) ]}.
Proof. vm_compute. reflexivity. Qed.

(** The connection is one that the server has welcomed (see EdgeServer.v): it is the same
    as when the client had been known from the beginning. *)
Definition srv_start_with (stream : list byte) : srv_state (edge true) :=
  match server_Run 100 0 18000 1000 1024 (server_start demo_epoll (Edge ∅ ∅ [[EnvConnect stream]] [])) with
  | Ret (_, st) => st
  | Stop _ => (srv_accepted stream).2
  end.
Lemma accepted_welcomed stream :
  welcomed 100 0 18000 1000 1024 demo_epoll (Edge ∅ ∅ [[EnvConnect stream]] []) []
    (srv_accepted stream).2 srv_tok srv_fd stream.
Proof.
  exists (srv_start_with stream), [], (EpollEvent EPOLLIN 3), (srv_told stream).2,
    (default (new_endpoint 0 SockAddr_empty) (sv_objs (srv_accepted stream).2 !! srv_tok)).
  split_and!.
  - split_and!; [reflexivity|reflexivity|vm_compute; reflexivity].
  - apply (looped_wait 100 _ 1024 (Some 1000) [EpollEvent EPOLLIN 3] (srv_told stream).2);
      [vm_compute; reflexivity|apply looped_here].
  - vm_compute. reflexivity.
  - vm_compute. reflexivity.
  - vm_compute. reflexivity.
  - vm_compute. reflexivity.
  - vm_compute. reflexivity.
  - vm_compute. reflexivity.
Qed.
