(* ===== verification/SystemServer.v ===== *)
(** The server in the system of System.v: what it keeps while its loop runs and bytes
    arrive, that its loop does not stop, and that it makes progress when there is
    something to do. *)
From S2P Require Import Prelude CInt Kernel SimKernel Poll Buffer Socket Endpoint EndpointSpec IOMode EndpointProofs EndpointProps SocketBwServer ServerProofs ServerProps Keeps ServerLive Edge EdgeServer EdgeLive EdgeTotal EdgeSim System.

Local Open Scope Z_scope.
#[local] Set Default Proof Using "Type*".

(** * A world in which nobody else acts *)

Definition alone (w : edge true) : Prop := eg_env w = [] ∧ eg_backlog w = [].

(** What the calls of the server then leave as it is: there are no new sockets, and
    on the one of the connection the server reads what has arrived and sends as far as
    there is room. *)
Definition steady (w w' : edge true) : Prop :=
  alone w → alone w' ∧ (∀ fd, eg_sock w !! fd = None → eg_sock w' !! fd = None) ∧
  ∀ s', eg_sock w' !! srv_fd = Some s' → ∃ s, eg_sock w !! srv_fd = Some s ∧
  (es_room s' + length (es_tx s') = es_room s + length (es_tx s))%nat ∧
  es_coming s' = es_coming s ∧ es_read s' ++ es_arrived s' = es_read s ++ es_arrived s.

#[export] Instance steady_preorder : PreOrder steady.
Proof.
  split; [by intros w Hw; split_and!; [|intros|intros s' Hs'; exists s']|].
  intros w1 w2 w3 H12 H23 Hw1. destruct (H12 Hw1) as (Hw2 & Hn2 & Hs2), (H23 Hw2) as (Hw3 & Hn3 & Hs3).
  split_and!; [done|auto|]. intros s3 H3. destruct (Hs3 s3 H3) as (s2 & H2 & Hr & Hc & Ha).
  destruct (Hs2 s2 H2) as (s1 & H1 & Hr' & Hc' & Ha'). exists s1. split_and!; [done|lia|congruence|congruence].
Qed.

Lemma tick_alone b w : alone w → tick b w = w.
Proof. intros [He _]. destruct b; [done|]. simpl. unfold env_step. by rewrite He. Qed.

(** A change of one socket. *)
Lemma steady_set_sock fd s s' (w : edge true) :
  eg_sock w !! fd = Some s →
  (es_room s' + length (es_tx s') = es_room s + length (es_tx s))%nat →
  es_coming s' = es_coming s → es_read s' ++ es_arrived s' = es_read s ++ es_arrived s →
  steady w (eg_set_sock fd s' w).
Proof.
  intros Hs Hr Hc Ha Hw. split_and!; [done| |]; simpl.
  - intros fd' Hn. rewrite lookup_insert_ne; [done|congruence].
  - intros s1 [[<- <-]|[Hne H1]]%lookup_insert_Some; [by exists s|by exists s1].
Qed.

(** Another kernel state with the same sockets. *)
Lemma steady_same_sock (w w' : edge true) :
  eg_sock w' = eg_sock w → eg_env w' = eg_env w → eg_backlog w' = eg_backlog w → steady w w'.
Proof.
  intros Hs He Hb [He0 Hb0]. unfold alone. rewrite Hs, He, Hb. split_and!; [done|done|done|].
  intros s' Hs'. by exists s'.
Qed.

#[export] Instance steady_kept : SysKeeps steady.
Proof.
  split; [apply _|..].
  - intros fd len flags w Hw. simpl. unfold eg_recv. rewrite tick_alone by done.
    destruct (eg_take fd len w) as [r w'] eqn:Hr. revert Hw. change (steady w w').
    apply eg_take_cases in Hr as [(_ & -> & _)|(s & Hs & _ & _ & ->)]; [done|].
    eapply steady_set_sock; [exact Hs|done|done|]. simpl. by rewrite <- app_assoc, take_drop.
  - intros fd bs flags w Hw. simpl. unfold eg_send. rewrite tick_alone by done.
    destruct (eg_put fd bs w) as [r w'] eqn:Hr. revert Hw. change (steady w w').
    apply eg_put_cases in Hr as [(_ & -> & _)|(s & Hs & Hpos & _ & ->)]; [done|].
    eapply steady_set_sock; [exact Hs| |done|done]. simpl. rewrite length_app, length_take. lia.
  - intros epfd op fd ev w. simpl. destruct (eg_epoll_ctl epfd op fd ev w) as [r w'] eqn:Hr. simpl.
    apply steady_same_sock;
      by apply eg_epoll_ctl_cases in Hr as [[_ ->]|[(_ & _ & e & _ & ->)|(_ & _ & ->)]].
  - intros fd w Hw. simpl. unfold eg_accept. destruct Hw as [He Hb]. rewrite Hb. simpl.
    by apply (reflexivity (R := steady) w).
  - intros fd w Hw. split_and!; [done| |]; simpl.
    + intros fd' Hn. apply lookup_delete_None. by right.
    + intros s' [_ Hs']%lookup_delete_Some. by exists s'.
  - intros fd w. simpl. done.
  - intros addr flags w. simpl. done.
  - intros c w. simpl. done.
  - intros al size w. simpl. done.
Qed.

(** * The invariant of the server *)

Local Abbreviation key := (Poll.epfd demo_epoll, srv_fd).
Local Abbreviation arrived c := (eg_arrived (srv_world c) srv_fd).
Local Abbreviation regs c := (kv_epoll (kview (srv_world c))).

(** What a wait finds when nobody else can be heard of. *)
Section report.
Context (w : edge true).
Hypothesis alone_w : alone w.
Hypothesis keys : ∀ k, is_Some (kv_epoll (kview w) !! k) → k = (100, 3) ∨ k = key.
Hypothesis listener : eg_sock w !! 3 = None.

Lemma found_listener e : found w 3 e = 0.
Proof. unfold found, in_ready, out_ready, eg_room. destruct alone_w as [_ ->]. by rewrite listener. Qed.

Lemma report_key q : q ∈ eg_report w 100 → q.1 = key.
Proof.
  intros ([k [e b]] & Hin%elem_of_map_to_list & Hq)%list_elem_of_omap.
  pose proof Hq as (_ & _ & ->)%eg_item_Some. simpl.
  destruct (keys k) as [->|]; [by rewrite edge_reg, Hin| |done].
  unfold eg_item in Hq. simpl in Hq. rewrite found_listener, andb_false_r in Hq. done.
Qed.

Lemma report_cases :
  eg_report w 100 = [] ∨ ∃ e, eg_reg w !! key = Some (e, true) ∧
  eg_report w 100 = [(key, EpollEvent (found w srv_fd e) (ev_data e))].
Proof.
  pose proof (eg_report_keys w 100) as Hnd. pose proof report_key as Hkey.
  pose proof (eg_report_elem w 100) as Helem.
  destruct (eg_report w 100) as [|q l]; [by left|right].
  destruct q as [k ev], (Helem k ev) as (_ & e & He & ->); [left|].
  pose proof (Hkey _ (list_elem_of_here _ _)) as Hk. simpl in Hk. subst k. exists e. split; [done|]. f_equal.
  destruct l as [|q l]; [done|]. exfalso. rewrite !fmap_cons in Hnd.
  inversion_clear Hnd as [|? ? Hnin _]. apply Hnin. simpl.
  rewrite (Hkey q) by (right; left). left.
Qed.

Lemma found_plain fd e d : closes (EpollEvent (found w fd e) d) = false.
Proof using Type. unfold found. by destruct (in_ready w fd && _), (out_ready w fd && _). Qed.

Lemma found_readable e d :
  Event.IsReadable (EpollEvent (found w srv_fd e) d) = true → in_ready w srv_fd = true.
Proof using Type. unfold found. by destruct (in_ready w srv_fd), (_ && has_flag _ EPOLLOUT). Qed.
End report.

Lemma in_ready_sock (w : edge true) fd s :
  eg_sock w !! fd = Some s → in_ready w fd = true → eg_arrived w fd ≠ [].
Proof. unfold in_ready, eg_arrived. intros ->. apply bool_decide_eq_true_1. Qed.

#[local] Existing Instances io_paced io_paced_kept io_paced_meta.

Section serving.
Context (inp : list byte).
Hypothesis first_header : 0 < of_le32 inp.
Implicit Types (c : server).

Record serving c : Prop := {
  se_well : served_well 100 demo_epoll srv_tok srv_fd inp c;
  se_alone : alone (srv_world c);
  se_keys k : is_Some (regs c !! k) → k = (100, 3) ∨ k = key;
  se_listener : eg_sock (srv_world c) !! 3 = None;
  (* there is at most one event, of the connection, and it tells the truth *)
  se_events : c.1 = [] ∨ ∃ ev, c.1 = [ev] ∧ ev_data ev = srv_tok ∧ closes ev = false ∧
    (Event.IsReadable ev = true → arrived c ≠ []);
}.

Lemma serving_sock c :
  serving c → ∃ s, eg_sock (srv_world c) !! srv_fd = Some s ∧ inp = es_read s ++ sv_rx (es_view s) ∧
  es_tx s `prefix_of` answer 0 0 inp.
Proof.
  intros HS. destruct (served_sock 100 demo_epoll srv_tok srv_fd inp first_header c (se_well _ HS)) as (sv & Hs & Hin & Htx).
  change (m_world (sv_m c.2)) with (srv_world c) in Hs. rewrite edge_sock in Hs.
  destruct (eg_sock (srv_world c) !! srv_fd) as [s|]; [|done]. injection Hs as <-. by exists s.
Qed.

(** There is something to do that the server can do now. *)
Definition can_go c : Prop :=
  ∃ s, eg_sock (srv_world c) !! srv_fd = Some s ∧
  (es_arrived s ≠ [] ∨ es_tx s ≠ answer 0 0 (es_read s) ∧ (0 < es_room s)%nat).
(** The next event is about it. *)
Definition telling c : Prop :=
  ∃ s ev, eg_sock (srv_world c) !! srv_fd = Some s ∧ c.1 = [ev] ∧
  useful srv_fd ev (es_view s) (srv_world c).

Lemma serving_reg c : serving c → ∃ i, regs c !! key = Some (EpollEvent i srv_tok).
Proof.
  intros [(_ & _ & Hp & (n & s & _ & ep & Hep & Hsk & Hl) & _) _ _ _ _].
  destruct (live_reg _ _ (IOMode0 := io_paced srv_fd 100) _ _ _ _ _ _ Hl) as [i Hreg].
  rewrite Hsk, Hp in Hreg. by eexists.
Qed.

(** What can be done is reported. *)
Lemma can_go_reported c e b :
  serving c → c.1 = [] → can_go c → eg_reg (srv_world c) !! key = Some (e, b) →
  b = true ∧ found (srv_world c) srv_fd e ≠ 0 ∧ ∃ s, eg_sock (srv_world c) !! srv_fd = Some s ∧
  useful srv_fd (EpollEvent (found (srv_world c) srv_fd e) (ev_data e)) (es_view s) (srv_world c).
Proof.
  intros [(_ & _ & Hatt) _ _ _ _] Hnil (s & Hs & Hgo) Hreg. rewrite Hnil in Hatt.
  apply (attended_served 100 demo_epoll srv_tok srv_fd inp first_header) in Hatt as (Hin & sv & Hsv & Hout).
  change (m_world (sv_m c.2)) with (srv_world c) in *.
  rewrite edge_sock, Hs in Hsv. injection Hsv as <-.
  assert (Hexp : ∀ flag, expected flag key (srv_world c) → b = true ∧ has_flag (ev_events e) flag = true).
  { intros flag [Hpend (e' & He' & Hf)]. rewrite edge_reg, Hreg in He'. injection He' as <-.
    change (snd <$> eg_reg (srv_world c) !! key = Some true) in Hpend. rewrite Hreg in Hpend.
    injection Hpend as ->. by split. }
  destruct Hgo as [Harr|[Hne Hroom]].
  - assert (Ha : eg_arrived (srv_world c) srv_fd ≠ []) by (unfold eg_arrived; by rewrite Hs).
    destruct (Hexp _ (Hin Ha)) as [-> Hf].
    destruct (found_in (srv_world c) srv_fd e) as [Hfd Hfl]; [by apply in_ready_arrived|done|].
    split_and!; [done|done|]. exists s. split; [done|]. by left.
  - assert (Hr : out_ready (srv_world c) srv_fd = true).
    { unfold out_ready, eg_room. rewrite Hs. by apply Nat.ltb_lt. }
    destruct Hout as [|[Hout _]]; [done|]. destruct (Hexp _ (Hout Hr)) as [-> Hf].
    destruct (found_out (srv_world c) srv_fd e) as [Hfd Hfl]; [done|done|].
    split_and!; [done|done|]. exists s. split; [done|]. by right.
Qed.

Lemma serving_wait c :
  serving c → c.1 = [] → ∃ c', loop_next c = Some c' ∧ serving c' ∧
  eg_sock (srv_world c') = eg_sock (srv_world c) ∧ (can_go c → telling c').
Proof.
  intros HS Hnil. pose proof (serving_reg _ HS) as [i Hreg]. rewrite edge_reg in Hreg.
  pose proof (can_go_reported c) as Hgo.
  pose proof HS as [Hwell Hal Hkeys Hlis _]. destruct c as [evs st]. simpl in Hnil. subst evs.
  pose proof Hwell as (_ & _ & Hp & _). cbn [fst snd] in *.
  set (w := srv_world ([], st)) in *.
  assert (Hstep : env_step w = w) by by apply (tick_alone false).
  pose (evs := (take 1024 (eg_report w 100)).*2). pose (w' := (eg_epoll_wait 100 1024 1000 w).2).
  pose (c' := (evs, Srv (sv_app st) (sv_objs st) (set_world w' (sv_m st))) : server).
  assert (Hnext : loop_next ([], st) = Some c').
  { unfold loop_next, sv_w, zoom, Poll.PollUntil, Selector.Select, lift. rewrite Hp. simpl.
    change (m_world (sv_m st)) with w. unfold c', evs, w', eg_epoll_wait. by rewrite Hstep. }
  assert (Hw' : ∃ m, w' = eg_set_reg m w).
  { unfold w', eg_epoll_wait. rewrite Hstep. by eexists. }
  assert (Hview : kview w' = kview w) by exact (epoll_wait_view 100 1024 1000 w _ w' eq_refl).
  assert (Hwell' : served_well 100 demo_epoll srv_tok srv_fd inp c').
  { eapply (loop_step_served 100 demo_epoll srv_tok srv_fd inp first_header ([], st)); [|done|done].
    pose proof (loop_next_step ([], st)) as Hs. unfold loop_once in Hs. rewrite Hnext in Hs.
    exact (Hs (ex_intro _ c' eq_refl)). }
  exists c'. split; [done|].
  assert (Hcase : evs = [] ∧ ¬ can_go ([], st) ∨ ∃ e, eg_reg w !! key = Some (e, true) ∧
    evs = [EpollEvent (found w srv_fd e) (ev_data e)]).
  { unfold evs. destruct (report_cases w Hal Hkeys Hlis) as [Hrep|(e & He & Hrep)]; rewrite Hrep.
    - left. split; [done|]. intros Hcan. pose proof Hreg as ([e b] & He & _)%fmap_Some.
      destruct (Hgo e b HS eq_refl Hcan He) as (-> & Hf & _).
      pose proof (eg_report_complete w 100 srv_fd e He Hf) as Hin. rewrite Hrep in Hin. inversion Hin.
    - right. exists e. split; [exact He|reflexivity]. }
  destruct Hw' as [m Hw']. split_and!.
  - split; [done|..]; change (srv_world c') with w'; rewrite ?Hview; [|done| |].
    + by rewrite Hw'.
    + by rewrite Hw'.
    + change c'.1 with evs. destruct Hcase as [[-> _]|(e & He & ->)]; [by left|right].
      eexists. split_and!; [done| |apply found_plain|].
      * rewrite He in Hreg. by injection Hreg as ->.
      * intros Hr%found_readable. rewrite Hw'. unfold in_ready in Hr. unfold eg_arrived. simpl.
        destruct (eg_sock w !! srv_fd); [by apply bool_decide_eq_true_1 in Hr|].
        destruct Hal as [_ Hb]. rewrite Hb in Hr. done.
  - change (srv_world c') with w'. by rewrite Hw'.
  - intros Hcan. destruct Hcase as [[_ []]|(e & He & Hev)]; [done|].
    destruct (Hgo e true HS eq_refl Hcan He) as (_ & _ & s & Hs & Huse).
    exists s, (EpollEvent (found w srv_fd e) (ev_data e)).
    change (srv_world c') with w'. change c'.1 with evs. rewrite Hw'. split_and!; [done|done|exact Huse].
Qed.

(** What has arrived at the beginning of a request contains its sizes. *)
Definition whole c : Prop :=
  ∀ s, eg_sock (srv_world c) !! srv_fd = Some s → es_arrived s ≠ [] →
  ∀ hc dc, requests 0 0 (es_read s) hc dc → (8 ≤ length (es_arrived s))%nat.

Lemma serving_event c ev :
  serving c → whole c → c.1 = [ev] → ∃ c', loop_next c = Some c' ∧ serving c' ∧ c'.1 = [] ∧
  steady (srv_world c) (srv_world c').
Proof.
  intros HS Hwhole Hev. destruct (serving_sock c HS) as (s & Hs & _).
  pose proof HS as [Hwell Hal Hkeys Hlis [Hnil|(ev' & Hev' & Htok & Hcl & Hr)]]; [congruence|].
  assert (ev' = ev) as -> by congruence. clear Hev'. destruct c as [evs st]. simpl in Hev. subst evs.
  pose proof Hwell as (HI & _ & Hp & (n & sv & Hc) & _). cbn [fst snd] in *.
  pose proof (conn_sock _ _ _ _ _ _ _ Hc) as Hsv. change (m_world (sv_m st)) with (srv_world ([ev], st)) in Hsv.
  rewrite edge_sock, Hs in Hsv. injection Hsv as <-.
  destruct (handle_event_returns 100 demo_epoll srv_tok srv_fd inp ltac:(lia) n (es_view s) ev st HI Hp Hc Htok Hcl)
    as (st1 & Hrun & Hframe).
  { intros Hread. split; [by apply Hr|]. intros hc dc Hreq.
    pose proof (Hwhole s Hs) as Hw. specialize (Hr Hread). unfold eg_arrived in Hr |- *.
    change (m_world (sv_m st)) with (srv_world ([ev], st)). simpl k_arrived. unfold eg_arrived.
    rewrite Hs in Hr |- *. by eapply Hw. }
  assert (Hnext : loop_next ([ev], st) = Some ([], st1)) by (simpl; by rewrite Hrun).
  assert (Hst : steady (srv_world ([ev], st)) (srv_world ([], st1))).
  { exact (keeps_handle_event steady 100 ev st tt st1 Hrun). }
  destruct (Hst Hal) as (Hal' & Hnone & _). exists ([], st1). split_and!; [done| |done|done].
  split; [|done| | |by left].
  - eapply (loop_step_served 100 demo_epoll srv_tok srv_fd inp first_header ([ev], st)); [by constructor|by intros _|done].
  - intros k Hk. destruct (decide (k = key)) as [|Hne]; [by right|]. apply Hkeys.
    by assert (regs ([ev], st) !! k = regs ([], st1) !! k) as -> by (symmetry; exact (Hframe k Hne)).
  - by apply Hnone.
Qed.

(** ** Progress *)

#[export] Instance telling_dec c : Decision (telling c).
Proof.
  destruct (eg_sock (srv_world c) !! srv_fd) as [s|] eqn:Hs; cycle 1.
  { right. intros (s & ev & ? & _). congruence. }
  destruct c.1 as [|ev [|]] eqn:Hev.
  - right. intros (? & ? & _ & ? & _). congruence.
  - destruct (decide (Event.IsReadable ev = true ∧ eg_arrived (srv_world c) srv_fd ≠ [] ∨
      Event.IsWritable ev = true ∧ sv_tx (es_view s) ≠ answer 0 0 (sv_read (es_view s)) ∧
      out_ready (srv_world c) srv_fd = true)) as [Hu|Hu]; [left|right].
    + by exists s, ev.
    + intros (s' & ev' & ? & ? & Hu'). apply Hu. assert (s' = s) as -> by congruence.
      by assert (ev' = ev) as -> by congruence.
  - right. intros (? & ? & _ & ? & _). congruence.
Defined.

(** How much the server has to do, in steps of its loop. *)
Definition phase c : nat := match c.1 with [] => 1 | _ => if decide (telling c) then 0 else 2 end.
Definition work c : nat :=
  match eg_sock (srv_world c) !! srv_fd with Some s => 3 * todo inp (es_view s) + phase c | None => 0 end.

(** A step of the server: on the socket of the connection the streams grow, the rest is
    as it was; and when there is something to do there is less of it then. *)
Lemma serving_step c s :
  serving c → whole c → eg_sock (srv_world c) !! srv_fd = Some s →
  ∃ c' s', loop_next c = Some c' ∧ serving c' ∧ eg_sock (srv_world c') !! srv_fd = Some s' ∧
  (es_room s' + length (es_tx s') = es_room s + length (es_tx s))%nat ∧
  es_coming s' = es_coming s ∧ es_read s' ++ es_arrived s' = es_read s ++ es_arrived s ∧
  grown (es_view s) (es_view s') ∧ (can_go c → (work c' < work c)%nat).
Proof.
  intros HS Hwhole Hs. destruct (se_events c HS) as [Hnil|(ev & Hev & Htok & Hcl & _)].
  - destruct (serving_wait c HS Hnil) as (c' & Hnext & HS' & Hsame & Hgo).
    exists c', s. rewrite Hsame. split_and!; try done. intros Hcan. unfold work, phase. rewrite Hsame, Hs, Hnil.
    specialize (Hgo Hcan). destruct Hgo as (s1 & ev & ? & Hev & ?) eqn:?. rewrite Hev.
    rewrite decide_True by (by exists s1, ev). lia.
  - destruct (serving_event c ev HS Hwhole Hev) as (c' & Hnext & HS' & Hnil & Hst).
    destruct (serving_sock c' HS') as (s' & Hs' & Hin' & Htx').
    destruct (serving_sock c HS) as (s0 & Hs0 & Hin & _). assert (s0 = s) as -> by congruence.
    destruct (Hst (se_alone c HS)) as (_ & _ & Hsock).
    destruct (Hsock s' Hs') as (s0' & Hs0' & Hroom & Hcom & Harr). assert (s0' = s) as -> by congruence.
    assert (Hstep : loop_step 100 c c').
    { pose proof (loop_next_step c) as H. unfold loop_once in H. rewrite Hnext in H. by apply H. }
    destruct (loop_step_grown 100 demo_epoll srv_tok srv_fd inp first_header c c' (es_view s) Hstep)
      as (sv' & Hsv' & Hg & Hmove).
    { unfold stays_open. by rewrite Hev. }
    { by apply HS. }
    { change (m_world (sv_m c.2)) with (srv_world c). by rewrite edge_sock, Hs. }
    change (m_world (sv_m c'.2)) with (srv_world c') in Hsv'. rewrite edge_sock, Hs' in Hsv'.
    injection Hsv' as <-. exists c', s'. split_and!; try done. intros _.
    unfold work, phase. rewrite Hs, Hs', Hnil, Hev. destruct (decide (telling c)) as [(s1 & ev1 & Hs1 & Hev1 & Huse)|].
    + assert (s1 = s) as -> by congruence. assert (ev1 = ev) as -> by congruence.
      specialize (Hmove ev [] Hev Htok Huse).
      pose proof (grown_todo inp _ _ Hin Hin' Htx' Hg Hmove). lia.
    + destruct (decide (es_view s' = es_view s)) as [->|Hne]; [lia|].
      pose proof (grown_todo inp _ _ Hin Hin' Htx' Hg Hne). lia.
Qed.

(** ** What happens to the server from outside *)

(** The socket of the connection changes and the server is told; it finds as much as
    before. *)
Lemma serving_outside c s s' (f : edge true → edge true) :
  serving c → eg_sock (srv_world c) !! srv_fd = Some s →
  f (srv_world c) = eg_notify srv_fd (eg_set_sock srv_fd s' (srv_world c)) →
  es_view s' = es_view s → (es_arrived s ≠ [] → es_arrived s' ≠ []) →
  closed_loop srv_fd (f (srv_world c)) → serving (on_world f c).
Proof.
  intros HS Hs Hf Hsv Harr Hcl. destruct HS as [(HI & Hdue & Hp & (n & sv & Hc) & Hin & Hout) [Hal1 Hal2] Hkeys Hlis Hev].
  destruct c as [evs st]. cbn [fst snd] in *. change (m_world (sv_m st)) with (srv_world (evs, st)) in *.
  set (w := srv_world (evs, st)) in *.
  assert (Hv : kview (f w) = kview w).
  { rewrite Hf. change (eg_view (eg_notify srv_fd (eg_set_sock srv_fd s' w)) = eg_view w).
    rewrite eg_view_notify. by eapply eg_view_sock_id. }
  assert (Hcalm : calmer key w (f w)) by (rewrite Hf; apply calmer_notify).
  set (st' := Srv (sv_app st) (sv_objs st) (set_world (f w) (sv_m st))).
  assert (Hun : ∀ tok ep, sv_objs st !! tok = Some ep → undisturbed st tok ep st').
  { intros tok ep Hep. unfold undisturbed. cbn [st' sv_objs sv_m m_heap m_world set_world]. by rewrite Hv. }
  change (on_world f (evs, st)) with (evs, st').
  split; change (srv_world (evs, st')) with (f w); rewrite ?Hv; [|by rewrite Hf|done|..]; cbn [fst].
  - split_and!; [by apply SInv_world| |]; cbn [fst snd].
    + destruct Hdue as (fds & Hnd & Hrep). exists fds. split; [done|]. revert Hrep. apply Forall2_impl.
      intros fd ev (r & Hr & Hd). exists r. cbn [st' sv_app sv_m m_world set_world]. by rewrite Hv.
    + split_and!; [done| |].
      * exists n, sv. eapply (conn_frame 100 (IOMode0 := io_paced srv_fd 100)); [exact Hc|done|by intros; apply Hun|].
        by split.
      * cbn [st' sv_m m_world set_world]. split.
        -- destruct Hin as [Hin|]; [left|by right]. by eapply calmer_in.
        -- destruct Hout as [Hout|]; [left|by right]. intros Hrep. eapply calmer_out; [exact Hcalm|]. by apply Hout.
  - rewrite Hf. simpl. by rewrite lookup_insert_ne.
  - destruct Hev as [|(ev & ? & ? & ? & Hr)]; [by left|right]. exists ev. split_and!; [done..|].
    intros Hread. specialize (Hr Hread). rewrite Hf. unfold eg_arrived in Hr |- *. simpl.
    rewrite Hs in Hr. rewrite lookup_insert_eq. auto.
Qed.

(** The work left does not grow. *)
Lemma work_outside c s s' (f : edge true → edge true) :
  eg_sock (srv_world c) !! srv_fd = Some s →
  f (srv_world c) = eg_notify srv_fd (eg_set_sock srv_fd s' (srv_world c)) →
  es_view s' = es_view s → (es_arrived s ≠ [] → es_arrived s' ≠ []) → (es_room s ≤ es_room s')%nat →
  (work (on_world f c) ≤ work c)%nat.
Proof.
  intros Hs Hf Hsv Harr Hroom. unfold work, phase. change (srv_world (on_world f c)) with (f (srv_world c)).
  change (on_world f c).1 with c.1. rewrite Hs, Hf. simpl. rewrite lookup_insert_eq, Hsv.
  destruct c.1 as [|ev l] eqn:Hev; [done|]. destruct (decide (telling c)) as [Htell|]; [|by case_decide; lia].
  rewrite decide_True; [done|]. destruct Htell as (s1 & ev1 & Hs1 & Hev1 & Huse).
  assert (s1 = s) as -> by congruence. exists s', ev1.
  change (srv_world (on_world f c)) with (f (srv_world c)). change (on_world f c).1 with c.1.
  rewrite Hf. simpl. rewrite lookup_insert_eq, Hsv. split_and!; [done|done|].
  destruct Huse as [[? Ha]|(? & ? & Hr)]; [left|right]; split_and!; try done.
  - simpl in *. unfold eg_arrived in *. simpl. rewrite lookup_insert_eq. rewrite Hs in Ha. auto.
  - simpl in *. unfold out_ready, eg_room in *. simpl. rewrite lookup_insert_eq. rewrite Hs in Hr.
    apply Nat.ltb_lt. apply Nat.ltb_lt in Hr. lia.
Qed.

(** A loop that has accepted the connection is such a server. *)
Lemma accepted_serving : serving (srv_accepted inp).
Proof.
  split.
  - destruct (welcomed_attended 100 0 18000 1000 1024 demo_epoll _ _ _ _ _ _ (accepted_welcomed inp))
      as (HI & Hdue & Hatt); [|by split_and!].
    intros s p Hs Hp Hne. change (m_world (sv_m (srv_accepted inp).2)) with (srv_world (srv_accepted inp)) in *.
    rewrite edge_sock, accepted_sock in Hs. injection Hs as <-.
    simpl k_arrived in *. unfold eg_arrived in *. rewrite accepted_sock in *. simpl in Hp, Hne.
    by apply prefix_nil_inv in Hp.
  - split; vm_compute; reflexivity.
  - intros k. rewrite edge_reg, accepted_reg. intros [r (r' & Hk & _)%fmap_Some].
    apply lookup_insert_Some in Hk as [[<- _]|[_ [<- _]%lookup_singleton_Some]]; [by left|by right].
  - vm_compute. reflexivity.
  - left. vm_compute. reflexivity.
Qed.
End serving.
