(* ===== verification/SystemProps.v ===== *)
(** Client and server together (System.v): what holds between the two whatever the schedule,
    what keeps it, how long the client may have to wait, and so that every push of the
    client ends with its answer. *)
From S2P Require Import Prelude CInt Kernel SimKernel Poll Buffer Socket Endpoint EndpointSpec IOMode EndpointProofs EndpointProps Meter BwApp SocketBwServer SocketBwClient ServerProofs ServerProps Keeps ServerLive Edge EdgeServer EdgeLive EdgeTotal EdgeSim Pacing System SystemServer.

Local Open Scope Z_scope.
#[local] Set Default Proof Using "Type*".
#[local] Arguments frame : simpl never.

Section system.
Context `{!BwProtobuf, !BwProtobufLaws}.
Implicit Types (y : system) (c : server) (m : BwMessage).

Local Abbreviation headers msgs := (concat (header_bytes <$> msgs)).
Local Abbreviation frames msgs := (concat (frame <$> (request <$> msgs))).
Local Abbreviation sock c := (eg_sock (srv_world c) !! srv_fd).

(** The messages that the client may send, in this order: [sy_stream] of the system. *)
Context (all : list BwMessage).
Hypothesis mono : nondecreasing 0 0 (request <$> all).
Hypothesis headed : Forall (λ m, header_bytes m ≠ []) all.
Hypothesis some : all ≠ [].
Local Abbreviation inp := (frames all).

Lemma length_frame h d : length (frame (h, d)) = (8 + length h + length d)%nat.
Proof. unfold frame. rewrite !length_app, !length_le32. simpl. lia. Qed.

Lemma answer_all : answer 0 0 inp = headers all.
Proof. by rewrite answer_frames, headers_requests. Qed.

Lemma first_header : 0 < of_le32 inp.
Proof.
  destruct all as [|m msgs]; [done|]. inversion_clear headed as [|? ? Hm _].
  destruct mono as (_ & _ & Hh & _ & _).
  change (frames (m :: msgs)) with
    ((le32 (Z.of_nat (length (header_bytes m))) ++ le32 (Z.of_nat (length (data m))) ++
      header_bytes m ++ data m) ++ frames msgs).
  rewrite <- !app_assoc, of_le32_le32, u32_small by lia. destruct (header_bytes m); [done|simpl; lia].
Qed.

(** Where the client is: the requests of [before] have been answered, and the answers
    read; of the request for [m] the bytes [cur] have been given to the network. *)
Definition at_request (before : list BwMessage) m (cur : list byte) : Prop :=
  (∃ after, all = before ++ m :: after) ∧ cur `prefix_of` frame (request m) ∧
  (cur = [] ∨ 8 ≤ length cur)%nat.

(** The server after the connection: what has come to it and what is on the way are what
    the client has sent; its socket has room for 64 bytes that the client has not read. *)
Definition connected (before : list BwMessage) cur y : Prop :=
  serving inp (sy_srv y) ∧ ∃ s q, sock (sy_srv y) = Some s ∧
  es_read s ++ es_arrived s = frames before ++ q ∧ q ++ sy_wire y = cur ∧
  (q = [] ∨ 8 ≤ length q)%nat ∧
  (es_room s + length (es_tx s) = 64 + sy_got y)%nat ∧ (sy_got y ≤ length (es_tx s))%nat.
(** Before the server has accepted it. *)
Definition connecting (before : list BwMessage) cur y : Prop :=
  (sy_srv y = srv_asked inp ∨ sy_srv y = srv_told inp) ∧ before = [] ∧ sy_wire y = cur ∧ sy_got y = 0%nat.

Definition coupled before m cur y : Prop :=
  at_request before m cur ∧ (length (headers before) ≤ sy_got y)%nat ∧
  (connected before cur y ∨ connecting before cur y).

Section request.
Context (before : list BwMessage) (m : BwMessage) (cur : list byte).
Hypothesis here : at_request before m cur.

Lemma mono_here : nondecreasing 0 0 (request <$> before ++ [m]).
Proof.
  destruct here as ((after & Hall) & _). pose proof mono as Hm. rewrite Hall in Hm.
  apply (nondecreasing_app_l 0 0 _ (request <$> after)). by rewrite <- fmap_app, <- app_assoc.
Qed.

Lemma header_here : header_bytes m ≠ [].
Proof.
  destruct here as ((after & Hall) & _). rewrite Hall in headed. apply Forall_app in headed as [_ Hm].
  by inversion_clear Hm.
Qed.

Lemma headers_here : headers (before ++ [m]) `prefix_of` headers all.
Proof.
  destruct here as ((after & ->) & _). exists (headers after).
  by rewrite headers_app, <- app_assoc, fmap_app, concat_app.
Qed.

Lemma serving_sent c s :
  serving inp c → sock c = Some s →
  es_tx s `prefix_of` headers all ∧ es_tx s `prefix_of` answer 0 0 (es_read s).
Proof.
  intros HS Hs. split.
  - destruct (serving_sock inp first_header c HS) as (s' & Hs' & _ & Htx). rewrite answer_all in Htx. congruence.
  - destruct HS as [(_ & _ & _ & (n & sv & _ & ep & _ & Hsk & base & HE) & _) _ _ _ _].
    pose proof (Inv_sock (IOMode0 := io_paced srv_fd 100) _ _ _ _ _ _ _ _ _ _ HE) as Hsv.
    rewrite Hsk in Hsv. cbn [e_m] in Hsv. change (m_world (sv_m c.2)) with (srv_world c) in Hsv.
    rewrite edge_sock, Hs in Hsv. injection Hsv as <-.
    destruct HE as (hb & db & ph & [_ _ _ Hst _] & _). destruct (Hst I) as (_ & Hout & _).
    specialize (Hout [] (prefix_nil _)). rewrite app_nil_r in Hout. by eexists.
Qed.

(** The server has read at least what it has answered. *)
Lemma serving_answered c s q :
  serving inp c → sock c = Some s → es_read s ++ es_arrived s = frames before ++ q →
  q `prefix_of` frame (request m) →
  (length (headers (before ++ [m])) ≤ length (es_tx s))%nat →
  es_read s = frames (before ++ [m]) ∧ es_arrived s = [] ∧ q = frame (request m) ∧
  es_tx s = headers (before ++ [m]).
Proof.
  intros HS Hs Harr Hq Hlen. destruct (serving_sent c s HS Hs) as [Htx Hans].
  assert (Hpre : es_read s `prefix_of` frames (before ++ [m])).
  { rewrite frames_app. etrans; [|by apply prefix_app]. rewrite <- Harr. by apply prefix_app_r. }
  assert (Hread : es_read s = frames (before ++ [m])).
  { destruct (decide (es_read s = frames (before ++ [m]))) as [|Hne]; [done|exfalso].
    pose proof mono_here as Hm. rewrite fmap_app in Hm, Hpre, Hne.
    pose proof (answer_before 0 0 _ _ (es_read s) Hm Hpre Hne) as Hb.
    rewrite headers_requests in Hb. apply prefix_length in Hb, Hans.
    rewrite headers_app, length_app in Hlen. pose proof header_here. destruct (header_bytes m); [done|].
    simpl in Hlen. lia. }
  assert (Hall : es_arrived s = [] ∧ q = frame (request m)).
  { rewrite Hread, frames_app, <- app_assoc in Harr. apply app_inv_head in Harr.
    destruct Hq as [k Hk]. rewrite Hk in Harr. rewrite <- app_assoc in Harr.
    rewrite <- (app_nil_r q) in Harr at 2. apply app_inv_head, app_eq_nil in Harr as [-> ->].
    by rewrite app_nil_r in Hk. }
  destruct Hall as [Hnil ->]. split_and!; [done|done|done|].
  apply (prefix_length_eq (es_tx s)); [|done]. rewrite Hread in Hans.
  by rewrite answer_frames, headers_requests in Hans by apply mono_here.
Qed.

(** What has arrived where a request begins contains its sizes. *)
Lemma connected_whole y : connected before cur y → whole (sy_srv y).
Proof.
  intros (HS & s & q & Hs & Harr & Hq & Hlen & _) s' Hs' Hne hc dc Hreq.
  assert (s' = s) as -> by congruence. clear Hs'. destruct here as (_ & Hcur & _).
  assert (Hqm : q `prefix_of` frame (request m)) by (etrans; [|exact Hcur]; rewrite <- Hq; by apply prefix_app_r).
  assert (Hpre : es_read s `prefix_of` frames (before ++ [m])).
  { rewrite frames_app. etrans; [|by apply prefix_app]. rewrite <- Harr. by apply prefix_app_r. }
  destruct (requests_frames 0 0 _ hc dc _ Hreq Hpre mono_here) as (r1 & r2 & Hr & Hread & _).
  apply (f_equal length) in Harr as Hl. rewrite Hread, !length_app in Hl.
  assert (Hal : (0 < length (es_arrived s))%nat) by (destruct (es_arrived s); simpl in *; [done|lia]).
  apply prefix_length in Hqm. rewrite fmap_app in Hr.
  destruct r2 as [|r r2 _] using rev_ind.
  { rewrite app_nil_r in Hr. rewrite <- Hr in Hl. rewrite fmap_app, concat_app, length_app in Hl.
    change (concat (frame <$> (request <$> [m]))) with (frame (request m) ++ []) in Hl.
    rewrite app_nil_r in Hl. lia. }
  rewrite app_assoc in Hr. apply app_inj_tail in Hr as [Hr _]. rewrite Hr in Hl.
  rewrite fmap_app, concat_app, length_app in Hl.
  destruct r2 as [|[h d] r2]; [simpl in Hl; destruct Hlen as [->|]; simpl in *; lia|].
  change (concat (frame <$> (h, d) :: r2)) with (frame (h, d) ++ concat (frame <$> r2)) in Hl.
  rewrite !length_app, length_frame in Hl. lia.
Qed.

(** ** What the others do keeps the client and the server together *)

(** The client has read what was answered before: it is a peer that waits. *)
Lemma closed_here c s (w : edge true) q :
  serving inp c → sock c = Some s → (length (headers before) ≤ length (es_tx s))%nat →
  ∀ s', eg_sock w !! srv_fd = Some s' → es_tx s' = es_tx s →
  es_read s' ++ es_arrived s' = frames before ++ q → q `prefix_of` cur → closed_loop srv_fd w.
Proof.
  intros HS Hs Hlen s' Hs' Htx Harr Hq. destruct here as (_ & [rest Hcur] & _).
  apply (paced_closed_loop (SockView (headers before ++ []) [] (frames before ++ cur))).
  { by apply (paced_push before m mono_here cur rest). }
  exists (es_view s'). rewrite edge_sock, Hs'. split_and!; [done| |].
  - simpl. unfold eg_arrived. rewrite Hs', Harr. by apply prefix_app.
  - simpl. rewrite Htx, app_nil_r. destruct (serving_sent c s HS Hs) as [Hall _].
    assert (Hb : headers before `prefix_of` headers all).
    { etrans; [|exact headers_here]. rewrite headers_app. by apply prefix_app_r. }
    destruct (prefix_weak_total _ _ _ Hb Hall) as [|Hle]; [done|].
    apply prefix_length_eq in Hle; [by rewrite Hle|done].
Qed.

(** More arrives, where there is a connection. *)
Lemma advance_connected n y :
  connected before cur y → (length (headers before) ≤ sy_got y)%nat →
  connected before cur (advance n y) ∧ sy_got (advance n y) = sy_got y ∧
  (length (sy_wire (advance n y)) < length (sy_wire y) ∨ sy_wire y = [] ∧ advance n y = y)%nat.
Proof.
  intros (HS & s & q & Hs & Harr & Hq & Hlen & Hroom & Hgot) Hread. unfold advance. rewrite Hs.
  destruct (sy_wire y) as [|b wire] eqn:Hwire.
  { split_and!; [|done|by right]. split; [done|]. exists s, q. rewrite Hwire. by split_and!. }
  set (bs := take (segment n) (b :: wire)). set (rest := drop (segment n) (b :: wire)).
  assert (Hbs : bs ++ rest = b :: wire) by apply take_drop.
  assert (Hne : (0 < length bs)%nat) by (unfold bs, segment; rewrite length_take; simpl; lia).
  set (s' := ESock (es_read s) (es_arrived s ++ bs) (drop (length bs) (es_coming s)) (es_tx s) (es_room s)).
  assert (Hcom : es_coming s = bs ++ drop (length bs) (es_coming s)).
  { destruct (serving_sock inp first_header _ HS) as (s0 & Hs0 & Hinp & _).
    assert (s0 = s) as -> by congruence. clear Hs0. simpl in Hinp. rewrite app_assoc, Harr in Hinp.
    destruct here as ((after & Hall) & [k Hk] & _). rewrite Hall in Hinp at 1.
    rewrite fmap_app, fmap_app, concat_app in Hinp. rewrite <- app_assoc in Hinp.
    apply app_inv_head in Hinp. rewrite !fmap_cons in Hinp. cbn [concat] in Hinp.
    rewrite Hk, <- Hq, <- Hbs, <- !app_assoc in Hinp. apply app_inv_head in Hinp. rewrite <- Hinp.
    by rewrite drop_app_length. }
  assert (Hview : es_view s' = es_view s).
  { unfold es_view, s'. cbn [es_read es_arrived es_coming es_tx]. by rewrite <- app_assoc, <- Hcom. }
  assert (Hf : arrive bs (srv_world (sy_srv y)) =
    eg_notify srv_fd (eg_set_sock srv_fd s' (srv_world (sy_srv y)))) by (unfold arrive; by rewrite Hs).
  assert (Hs' : eg_sock (arrive bs (srv_world (sy_srv y))) !! srv_fd = Some s').
  { rewrite Hf. apply lookup_insert_eq. }
  assert (Harr' : es_read s' ++ es_arrived s' = frames before ++ q ++ bs).
  { simpl. by rewrite !app_assoc, Harr. }
  split_and!; [|done|]; cbn [sy_wire sy_got]; cycle 1.
  { left. rewrite <- Hbs, length_app. lia. }
  split; cbn [sy_srv sy_wire sy_got].
  - refine (serving_outside inp first_header (sy_srv y) s s' (arrive bs) HS Hs Hf Hview _ _).
    { intros _ [_ Hnil]%app_eq_nil. rewrite Hnil in Hne. simpl in Hne. lia. }
    refine (closed_here (sy_srv y) s _ (q ++ bs) HS Hs _ s' Hs' eq_refl Harr' _); [lia|].
    exists rest. by rewrite <- app_assoc, Hbs.
  - exists s', (q ++ bs). split_and!; [exact Hs'|done|by rewrite <- app_assoc, Hbs| |done|done].
    destruct Hlen as [->|]; [|right; rewrite length_app; lia]. simpl.
    destruct here as (_ & _ & [Hnil|Hcur]); [by rewrite <- Hq in Hnil|right].
    unfold bs, segment. rewrite length_take. rewrite <- Hq in Hcur. simpl in Hcur |- *. lia.
Qed.

(** ** How long the client may have to wait *)

(** Steps of the server until it has accepted the connection. *)
Definition booting c : nat :=
  match sock c with Some _ => 0 | None => match c.1 with [] => 2 | _ => 1 end end.
(** What has to happen before the server finds its work. *)
Definition remote y : nat := length (sy_wire y) + booting (sy_srv y).
(** It has answered nothing that the client has not read. *)
Definition quiet y : Prop :=
  ∀ s, sock (sy_srv y) = Some s → (length (es_tx s) ≤ sy_got y)%nat.
(** The answer to the request has not been read. *)
Definition waits y : Prop := cur = frame (request m) ∧ (sy_got y < length (headers (before ++ [m])))%nat.

Lemma connected_remote y : connected before cur y → remote y = length (sy_wire y).
Proof. intros (_ & s & q & Hs & _). unfold remote, booting. rewrite Hs. lia. Qed.

(** When the server has nothing to do, there is an answer. *)
Lemma waits_can_go y :
  connected before cur y → waits y → sy_wire y = [] → quiet y → can_go (sy_srv y).
Proof.
  intros (HS & s & q & Hs & Harr & Hq & _ & Hroom & Hgot) [Hcur Hwait] Hwire Hquiet.
  specialize (Hquiet s Hs). rewrite Hwire, app_nil_r in Hq. subst q. rewrite Hcur, <- frames_app in Harr.
  exists s. split; [done|].
  destruct (decide (es_arrived s = [])) as [Hnil|]; [right|by left]. split; [|lia].
  rewrite Hnil, app_nil_r in Harr. rewrite Harr, answer_frames, headers_requests by apply mono_here.
  intros Heq. rewrite Heq in Hquiet. lia.
Qed.

(** A step of the server's loop. *)
Lemma step_coupled y :
  coupled before m cur y → let y' := on_server loop_once y in
  coupled before m cur y' ∧ (quiet y' → quiet y) ∧
  (remote y' < remote y ∨ remote y' = remote y ∧ connected before cur y ∧ connected before cur y' ∧
   (can_go (sy_srv y) → work inp (sy_srv y') < work inp (sy_srv y)))%nat.
Proof.
  intros (Hat & Hread & Hc). cbv zeta. unfold coupled. destruct Hc as [Hc|(Hsrv & Hb & Hwire & Hgot)].
  - pose proof (connected_whole y Hc) as Hwhole. pose proof (connected_remote y Hc) as Hrem.
    pose proof Hc as (HS & s & q & Hs & Harr & Hq & Hlen & Hroom & Hgot).
    destruct (serving_step inp first_header _ s HS Hwhole Hs)
      as (c' & s' & Hnext & HS' & Hs' & Hroom' & _ & Harr' & [_ Htx] & Hwork). apply prefix_length in Htx. simpl in Htx.
    assert (Hc' : connected before cur (on_server loop_once y)).
    { unfold connected, on_server, loop_once. cbn [sy_srv sy_wire sy_got]. rewrite Hnext. cbn [default].
      split; [done|]. exists s', q. split_and!; [done|by rewrite Harr'|done|done|lia|lia]. }
    split_and!; [done|done|by left| |].
    + intros Hquiet s0 Hs0. assert (s0 = s) as -> by congruence.
      specialize (Hquiet s'). unfold on_server, loop_once in Hquiet. cbn [sy_srv sy_got] in Hquiet.
      rewrite Hnext in Hquiet. specialize (Hquiet Hs'). lia.
    + right. rewrite Hrem, connected_remote by done. split_and!; [done|done|done|].
      unfold on_server, loop_once. cbn [sy_srv]. by rewrite Hnext.
  - assert (Hnone : sock (sy_srv y) = None) by (destruct Hsrv as [-> | ->]; [apply asked_new|apply told_new]).
    assert (Hq : quiet y) by (intros s Hs; congruence).
    unfold on_server, remote, booting. cbn [sy_srv sy_wire sy_got]. rewrite Hnone. destruct Hsrv as [Hsrv|Hsrv].
    + assert (Ho : loop_once (sy_srv y) = srv_told inp).
      { unfold loop_once. by rewrite Hsrv, asked_next. }
      rewrite Ho. destruct (told_new inp) as [Hev ->]. rewrite Hev, Hsrv. destruct (asked_new inp) as [-> _].
      split_and!; [done|done| |done|left; lia]. right. by split_and!; [right|..].
    + assert (Ho : loop_once (sy_srv y) = srv_accepted inp).
      { unfold loop_once. by rewrite Hsrv, told_next. }
      rewrite Ho, accepted_sock, Hsrv. destruct (told_new inp) as [-> _].
      split_and!; [done|done| |done|left; lia]. left. split; [apply accepted_serving, first_header|].
      exists (ESock [] [] inp [] 64), []. cbn [sy_srv sy_wire sy_got].
      split_and!; [apply accepted_sock|by rewrite Hb|by rewrite Hwire|by left|simpl; lia|simpl; lia].
Qed.

(** Many steps. *)
Lemma steps_coupled n y :
  coupled before m cur y → let y' := on_server (Nat.iter n loop_once) y in
  coupled before m cur y' ∧ (quiet y' → quiet y) ∧ (remote y' ≤ remote y)%nat.
Proof.
  intros Hc. induction n as [|n (IH & IHq & IHr)]; [destruct y; by split_and!|]. cbv zeta in *.
  set (y1 := on_server (Nat.iter n loop_once) y) in *.
  change (on_server (Nat.iter (S n) loop_once) y) with (on_server loop_once y1).
  destruct (step_coupled y1 IH) as (Hc' & Hq & Hrem). split_and!; [done|auto|lia].
Qed.

Lemma steps_work n y :
  coupled before m cur y → connected before cur y → waits y → sy_wire y = [] →
  let y' := on_server (Nat.iter n loop_once) y in
  quiet y' → connected before cur y' ∧ (work inp (sy_srv y') ≤ work inp (sy_srv y))%nat.
Proof.
  intros Hc Hcon Hwait Hwire. induction n as [|n IH]; [destruct y; by split|]. cbv zeta in *.
  destruct (steps_coupled n y Hc) as (Hc1 & _ & _).
  set (y1 := on_server (Nat.iter n loop_once) y) in *.
  change (on_server (Nat.iter (S n) loop_once) y) with (on_server loop_once y1).
  destruct (step_coupled y1 Hc1) as (_ & Hq & Hrem). intros Hquiet. destruct (IH (Hq Hquiet)) as [Hcon1 Hle].
  destruct Hrem as [Hlt|(_ & _ & Hcon2 & Hwork)].
  - exfalso. rewrite (connected_remote y1 Hcon1) in Hlt. change (sy_wire y1) with (sy_wire y) in Hlt.
    rewrite Hwire in Hlt. simpl in Hlt. lia.
  - split; [done|]. specialize (Hwork (waits_can_go y1 Hcon1 Hwait Hwire (Hq Hquiet))). lia.
Qed.

(** ** The calls of the client *)

(** The number of steps left is less than this. *)
Definition load : nat := 3 * (length inp + length (answer 0 0 inp)) + 3.
Definition patience y : nat := remote y * load + work inp (sy_srv y).

Lemma coupled_work y : coupled before m cur y → (work inp (sy_srv y) < load)%nat.
Proof.
  intros (_ & _ & [(HS & _)|(Hsrv & _)]); unfold load, work.
  - destruct (serving_sock inp first_header _ HS) as (s & -> & Hin & Htx).
    apply (f_equal length) in Hin. rewrite length_app in Hin. unfold todo, phase.
    repeat case_match; lia.
  - assert (sock (sy_srv y) = None) as ->; [|lia]. destruct Hsrv as [-> | ->]; [apply asked_new|apply told_new].
Qed.

Lemma sooner y y' :
  coupled before m cur y' → (remote y' < remote y)%nat → (patience y' < patience y)%nat.
Proof. intros Hw%coupled_work Hlt. unfold patience. nia. Qed.

(** Never longer than this. *)
Definition longest : nat := (length inp + 3) * load.
Lemma coupled_patience y : coupled before m cur y → (patience y < longest)%nat.
Proof.
  intros Hc. pose proof (coupled_work y Hc) as Hw. destruct Hc as (Hat & _ & Hc).
  assert (Hwire : (length (sy_wire y) ≤ length cur)%nat).
  { destruct Hc as [(_ & s & q & _ & _ & <- & _)|(_ & _ & -> & _)]; [rewrite length_app; lia|lia]. }
  destruct Hat as ((after & Hall) & Hcur & _). apply prefix_length in Hcur.
  assert (Hinp : (length (frame (request m)) ≤ length inp)%nat).
  { rewrite Hall, !fmap_app, concat_app, !fmap_cons. cbn [concat]. rewrite !length_app. lia. }
  assert (Hb : (booting (sy_srv y) ≤ 2)%nat) by (unfold booting; repeat case_match; lia).
  unfold patience, longest, remote. nia.
Qed.

Lemma advance_coupled n y :
  coupled before m cur y →
  coupled before m cur (advance n y) ∧ sy_got (advance n y) = sy_got y ∧
  (remote (advance n y) < remote y ∨
   advance n y = y ∧ (connected before cur y ∧ sy_wire y = [] ∨ connecting before cur y))%nat.
Proof.
  intros (Hat & Hread & [Hc|Hc]).
  - destruct (advance_connected n y Hc Hread) as (Hc' & Hgot & Hrem). split_and!; [|done|].
    + split_and!; [done|by rewrite Hgot|by left].
    + rewrite !connected_remote by done. destruct Hrem as [|[? ?]]; [by left|right]. split; [done|by left].
  - assert (advance n y = y) as ->.
    { unfold advance. destruct Hc as (Hsrv & _).
      assert (sock (sy_srv y) = None) as ->; [|done]. destruct Hsrv as [-> | ->]; [apply asked_new|apply told_new]. }
    split_and!; [split_and!; [done|done|by right]|done|right; split; [done|by right]].
Qed.

Lemma turn_coupled y pl y' :
  turn y = (pl, y') → coupled before m cur y → coupled before m cur y' ∧ sy_got y' = sy_got y.
Proof.
  unfold turn. intros [= <- <-] Hc.
  set (y0 := System (sy_srv y) (sy_wire y) (sy_got y) (sy_stream y) (λ n, sy_sched y (S n))).
  destruct (advance_coupled (pl_arrive (sy_sched y 0%nat)) y0 Hc) as (Hadv & Hgot & _).
  split; [by apply steps_coupled|exact Hgot].
Qed.

(** The client has to wait: it is nearer to its answer then. *)
Lemma turn_blocked y pl y' :
  turn y = (pl, y') → coupled before m cur y → waits y → quiet y' →
  let y'' := on_server loop_once y' in
  coupled before m cur y'' ∧ waits y'' ∧ (patience y'' < patience y)%nat.
Proof.
  intros Ht Hc Hwait Hquiet. destruct (turn_coupled y pl y' Ht Hc) as [Hc' Hgot].
  destruct (step_coupled y' Hc') as (Hc'' & _ & Hrem'). split_and!; [done| |].
  { destruct Hwait. split; [done|]. change (sy_got (on_server loop_once y')) with (sy_got y'). lia. }
  unfold turn in Ht. injection Ht as <- <-.
  set (y0 := System (sy_srv y) (sy_wire y) (sy_got y) (sy_stream y) (λ n, sy_sched y (S n))) in *.
  set (n := pl_arrive (sy_sched y 0%nat)) in *. set (k := pl_steps (sy_sched y 0%nat)) in *.
  change (patience y) with (patience y0). assert (Hc0 : coupled before m cur y0) by exact Hc.
  assert (Hwait0 : waits y0) by exact Hwait.
  destruct (advance_coupled n y0 Hc0) as (Hadv & _ & Hrem). clearbody y0. revert Hadv Hrem Hc' Hgot Hrem' Hquiet Hc''.
  generalize (advance n y0) as y1. intros y1 Hadv Hrem Hc' Hgot Hrem' Hquiet Hc''.
  destruct (steps_coupled k _ Hadv) as (_ & _ & Hle).
  destruct Hrem as [Hlt|[-> Hcase]]; [apply sooner; [done|lia]|].
  pose (y' := on_server (Nat.iter k loop_once) y0). fold y' in Hle, Hc', Hgot, Hrem', Hquiet, Hc'' |- *.
  destruct Hrem' as [Hlt|(Hsame & Hcon' & _ & Hwork)]; [apply sooner; [done|lia]|].
  destruct (decide (remote y' < remote y0)%nat); [apply sooner; [done|lia]|].
  destruct Hcase as [[Hcon Hwire]|(Hsrv & _)].
  - destruct (steps_work k y0 Hc0 Hcon Hwait0 Hwire Hquiet) as [_ Hw]. fold y' in Hw.
    pose proof (waits_can_go y' Hcon' Hwait0 Hwire Hquiet) as Hgo. specialize (Hwork Hgo).
    unfold patience. rewrite Hsame. replace (remote y') with (remote y0) by lia. lia.
  - exfalso. rewrite (connected_remote y' Hcon') in *. change (sy_wire y') with (sy_wire y0) in *.
    unfold remote, booting in *. assert (sock (sy_srv y0) = None) as Hnone.
    { destruct Hsrv as [-> | ->]; [apply asked_new|apply told_new]. }
    rewrite Hnone in *. case_match; lia.
Qed.
End request.

(** ** Sending a request *)

(** The descriptor of the client plays no role. *)
Lemma send_coupled before m cur bs fd flags y r y' :
  coupled before m cur y → cur ++ bs `prefix_of` frame (request m) → (8 ≤ length (cur ++ bs))%nat →
  bs ≠ [] → sy_send fd bs flags y = (r, y') →
  ∃ k, r = Some (Z.of_nat k) ∧ (0 < k ≤ length bs)%nat ∧ coupled before m (cur ++ take k bs) y' ∧
  sy_got y' = sy_got y.
Proof.
  intros Hc Hpre Hlong Hne. unfold sy_send. destruct (turn y) as [pl y1] eqn:Ht. intros [= <- <-].
  destruct (turn_coupled before m cur (proj1 Hc) y pl y1 Ht Hc) as [(Hat & Hread & Hc1) Hgot].
  set (out := take (segment (pl_transfer pl)) bs). exists (length out).
  assert (Hseg : (8 ≤ segment (pl_transfer pl))%nat) by (unfold segment; lia).
  assert (Hout : (length out = segment (pl_transfer pl) `min` length bs)%nat) by apply length_take.
  assert (Hpos : (0 < length bs)%nat) by (destruct bs; [done|simpl; lia]).
  assert (take (length out) bs = out) as ->.
  { rewrite Hout. unfold out. rewrite <- take_take. by rewrite (take_ge bs). }
  split_and!; [done|lia|lia| |done]. destruct Hat as (Hafter & _ & Hcur). split_and!.
  - split_and!; [done|etrans; [|exact Hpre]; apply prefix_app, prefix_take|].
    right. rewrite length_app in *. destruct Hcur as [->|]; simpl in *; lia.
  - done.
  - destruct Hc1 as [(HS & s & q & Hs & Harr & Hq & Hlen & Hroom)|(Hsrv & Hb & Hwire & Hgot0)]; [left|right].
    + split; [done|]. exists s, q. cbn [sy_srv sy_wire sy_got]. split_and!; [done|done| |done|apply Hroom..].
      by rewrite app_assoc, Hq.
    + split_and!; [done|done|by cbn [sy_wire]; rewrite Hwire|done].
Qed.

Lemma SendAll_coupled fuel before m cur bs fd y :
  coupled before m cur y → cur ++ bs `prefix_of` frame (request m) → (8 ≤ length (cur ++ bs))%nat →
  (length bs < fuel)%nat →
  wp total (SendAll fuel fd bs 0) y (λ n y',
  n = Z.of_nat (length bs) ∧ coupled before m (cur ++ bs) y' ∧ sy_got y' = sy_got y).
Proof.
  intros Hc Hpre Hlong Hfuel. unfold SendAll.
  enough (∀ k y1, (k ≤ length bs)%nat → (length bs - k < fuel)%nat → coupled before m (cur ++ take k bs) y1 →
    sy_got y1 = sy_got y → wp total (SendAll_loop fuel fd bs 0 (Z.of_nat k)) y1 (λ n y',
    n = Z.of_nat (length bs) ∧ coupled before m (cur ++ bs) y' ∧ sy_got y' = sy_got y)) as Hloop.
  { apply (Hloop 0%nat y); [lia|lia|by rewrite app_nil_r|done]. }
  clear Hc Hfuel. induction fuel as [|fuel IH]; intros k y1 Hk Hfuel Hc Hgot; [lia|].
  cbn [SendAll_loop]. destruct (Z.ltb_spec (Z.of_nat k) (Z.of_nat (length bs))) as [Hlt|]; cycle 1.
  { wp_steps. rewrite take_ge in Hc by lia. split_and!; [lia|done|done]. }
  wp_step. apply wp_lift. intros r y2 Hr. rewrite Nat2Z.id in Hr.
  destruct (send_coupled before m (cur ++ take k bs) (drop k bs) fd 0 y1 r y2 Hc) as (j & -> & Hj & Hc2 & Hgot2);
    [..|exact Hr|].
  { by rewrite <- app_assoc, take_drop. }
  { by rewrite <- app_assoc, take_drop. }
  { intros Hnil%(f_equal length). rewrite length_drop in Hnil. simpl in Hnil. lia. }
  rewrite length_drop in Hj. rewrite <- app_assoc, take_take_drop in Hc2. rewrite <- Nat2Z.inj_add.
  apply IH; [lia|lia|done|congruence].
Qed.

(** ** Receiving its answer *)

(** A part [acc] of the answer has been read. *)
Definition reading before m (acc : list byte) y : Prop :=
  coupled before m (frame (request m)) y ∧ sy_got y = length (headers before ++ acc) ∧
  acc `prefix_of` header_bytes m.

Lemma reading_waits before m acc y :
  reading before m acc y → (length acc < length (header_bytes m))%nat → waits before m (frame (request m)) y.
Proof. intros (_ & Hgot & _) Hlt. split; [done|]. rewrite Hgot, headers_app, !length_app. lia. Qed.

Lemma unread_nil y : unread y = [] → quiet y.
Proof.
  unfold unread. intros Hnil s Hs. rewrite Hs in Hnil. apply (f_equal length) in Hnil.
  rewrite length_drop in Hnil. simpl in Hnil. lia.
Qed.

(** What the client reads is the next part of the answer. *)
Lemma read_coupled before m acc y bs :
  reading before m acc y → bs `prefix_of` unread y → bs ≠ [] →
  (length acc + length bs ≤ length (header_bytes m))%nat →
  reading before m (acc ++ bs) (System (on_world (make_room (length bs)) (sy_srv y)) (sy_wire y)
    (sy_got y + length bs) (sy_stream y) (sy_sched y)).
Proof.
  intros (Hc & Hgot & Hacc) Hbs Hne Hlen. pose proof Hc as (Hat & Hread & Hc1). unfold unread in Hbs.
  destruct Hc1 as [(HS & s & q & Hs & Harr & Hq & Hlong & Hroom & Hle)|(Hsrv & _)]; cycle 1.
  { assert (sock (sy_srv y) = None) as Hnone by (destruct Hsrv as [-> | ->]; [apply asked_new|apply told_new]).
    rewrite Hnone in Hbs. by apply prefix_nil_inv in Hbs. }
  rewrite Hs in Hbs. destruct (serving_sent before m _ Hat (sy_srv y) s HS Hs) as [Htx _].
  assert (Hsent : headers before ++ acc ++ bs `prefix_of` es_tx s).
  { destruct Hbs as [k Hk]. exists k. rewrite <- (take_drop (sy_got y) (es_tx s)), Hk.
    rewrite !app_assoc. do 2 f_equal.
    assert (Hpre : headers before ++ acc `prefix_of` headers all).
    { etrans; [|exact (headers_here before m _ Hat)]. rewrite headers_app. by apply prefix_app. }
    destruct Htx as [k1 Hk1], Hpre as [k2 Hk2]. rewrite Hk1 in Hk2.
    apply (f_equal (take (sy_got y))) in Hk2. rewrite take_app_le in Hk2 by done.
    by rewrite Hk2, Hgot, take_app_length. }
  assert (Hhdr : acc ++ bs `prefix_of` header_bytes m).
  { apply (prefix_app_inv (headers before)). rewrite <- headers_app.
    destruct (prefix_weak_total (headers before ++ acc ++ bs) (headers (before ++ [m])) (headers all))
      as [|Hle2]; [by etrans|exact (headers_here before m _ Hat)|done|].
    apply prefix_length_eq in Hle2; [by rewrite Hle2|]. rewrite headers_app, !length_app. lia. }
  split_and!; [|cbn [sy_got]; rewrite Hgot, !length_app; lia|done].
  split_and!; [done|cbn [sy_got]; lia|left]. set (w := srv_world (sy_srv y)) in *.
  set (s' := ESock (es_read s) (es_arrived s) (es_coming s) (es_tx s) (es_room s + length bs)).
  assert (Hf : make_room (length bs) w = eg_notify srv_fd (eg_set_sock srv_fd s' w)).
  { unfold make_room, env_act. by rewrite Hs. }
  assert (Hs' : eg_sock (make_room (length bs) w) !! srv_fd = Some s') by (rewrite Hf; apply lookup_insert_eq).
  split; cbn [sy_srv sy_wire sy_got].
  - refine (serving_outside inp first_header (sy_srv y) s s' (make_room (length bs)) HS Hs Hf eq_refl _ _); [done|].
    refine (closed_here before m _ Hat (sy_srv y) s _ q HS Hs _ s' Hs' eq_refl Harr _); [lia|].
    rewrite <- Hq. by apply prefix_app_r.
  - exists s', q. split_and!; [exact Hs'|done|done|done|cbn [s' es_room es_tx]; lia|cbn [s' es_tx]].
    apply prefix_length in Hsent. rewrite Hgot. rewrite !length_app in *. lia.
Qed.

Lemma RecvAll_coupled fuel before m fd y :
  reading before m [] y → ((length (header_bytes m) + 1) * longest ≤ fuel)%nat →
  wp total (RecvAll fuel fd (Z.of_nat (length (header_bytes m))) 0) y (λ bs y',
  bs = header_bytes m ∧ reading before m (header_bytes m) y').
Proof.
  intros Hr Hfuel. unfold RecvAll.
  enough (∀ acc y1, reading before m acc y1 →
    ((length (header_bytes m) - length acc) * longest + patience y1 < fuel)%nat →
    wp total (RecvAll_loop fuel fd (Z.of_nat (length (header_bytes m))) 0 acc) y1 (λ bs y',
    bs = header_bytes m ∧ reading before m (header_bytes m) y')) as Hloop.
  { apply (Hloop [] y Hr). pose proof (coupled_patience before m _ (proj1 (proj1 Hr)) y (proj1 Hr)).
    simpl. rewrite Nat.sub_0_r. nia. }
  clear Hr Hfuel. induction fuel as [|fuel IH]; intros acc y1 Hr Hfuel; [by apply Nat.nlt_0_r in Hfuel|]. cbn [RecvAll_loop].
  pose proof Hr as (Hc & Hgot & Hacc). pose proof (proj1 Hc) as Hat. pose proof (prefix_length _ _ Hacc) as Hle.
  destruct (Z.ltb_spec (Z.of_nat (length acc)) (Z.of_nat (length (header_bytes m)))) as [Hlt|]; cycle 1.
  { assert (acc = header_bytes m) as -> by (apply prefix_length_eq; [done|lia]). by wp_steps. }
  wp_step. apply wp_lift. intros r y2 Hrecv. simpl in Hrecv. unfold sy_recv in Hrecv.
  destruct (turn y1) as [pl y'] eqn:Ht.
  destruct (turn_coupled before m _ Hat y1 pl y' Ht Hc) as [Hc' Hgot'].
  destruct (unread y') as [|b l] eqn:Hun; injection Hrecv as <- <-.
  - wp_step. apply wp_LastErrorWouldBlock. cbn [sys_errno system_kernel]. rewrite Z.eqb_refl.
    destruct (turn_blocked before m _ Hat y1 pl y' Ht Hc) as (Hc'' & _ & Hpat).
    { apply (reading_waits before m acc y1 Hr). lia. }
    { by apply unread_nil. }
    apply IH; [|lia]. split_and!; [done|by rewrite <- Hgot, <- Hgot'|done].
  - set (k := (Z.to_nat _ `min` _)%nat). set (bs := take k (b :: l)).
    assert (Hk : (0 < k ∧ k ≤ length (header_bytes m) - length acc)%nat) by (unfold k; lia).
    assert (Hbs : (0 < length bs ≤ k)%nat) by (unfold bs; rewrite length_take; simpl; lia).
    assert (Hr' : reading before m acc y') by (split_and!; [done|congruence|done]).
    pose proof (read_coupled before m acc y' bs Hr') as Hr''.
    destruct bs as [|b' bs'] eqn:Heq; [simpl in Hbs; lia|]. rewrite <- Heq in *.
    specialize (Hr'' ltac:(rewrite Hun; apply prefix_take) ltac:(by rewrite Heq) ltac:(lia)).
    apply IH; [done|]. pose proof (coupled_patience before m _ Hat _ (proj1 Hr'')) as Hp.
    rewrite length_app. nia.
Qed.

(** ** A push *)

(** The client and the server between two pushes: all that was sent has been answered
    and the answers have been read. *)
Definition settled (msgs : list BwMessage) y : Prop :=
  sy_wire y = [] ∧ sy_got y = length (headers msgs) ∧
  (connected msgs [] y ∨ connecting msgs [] y).

Lemma settled_coupled before m after y :
  all = before ++ m :: after → settled before y → coupled before m [] y.
Proof.
  intros Hall (Hwire & Hgot & Hc). split_and!; [|lia|done].
  split_and!; [by exists after|apply prefix_nil|by left].
Qed.

(** The streams of the server's socket: the requests of [msgs], and the answers. *)
Definition streams (msgs : list BwMessage) y : Prop :=
  ∃ s, sock (sy_srv y) = Some s ∧ es_read s = frames msgs ∧ es_tx s = headers msgs.

Lemma settled_streams before m after y :
  all = before ++ m :: after → settled (before ++ [m]) y → connected (before ++ [m]) [] y →
  streams (before ++ [m]) y.
Proof.
  intros Hall (Hwire & Hgot & _) (HS & s & q & Hs & Harr & Hq & _ & _ & Hle).
  apply app_eq_nil in Hq as [-> _]. rewrite app_nil_r, frames_app in Harr.
  assert (Hat : at_request before m (frame (request m))).
  { split_and!; [by exists after|done|right]. unfold request. rewrite length_frame. lia. }
  destruct (serving_answered before m _ Hat (sy_srv y) s (frame (request m)) HS Hs Harr) as (Hr & _ & _ & Htx);
    [done|lia|]. by exists s.
Qed.

Lemma answered_settled before m y :
  reading before m (header_bytes m) y → settled (before ++ [m]) y ∧ connected (before ++ [m]) [] y.
Proof.
  intros ((Hat & Hread & Hc) & Hgot & _). rewrite <- headers_app in Hgot.
  destruct Hc as [(HS & s & q & Hs & Harr & Hq & Hlen & Hroom & Hle)|(_ & Hb & _ & Hgot0)]; cycle 1.
  { exfalso. pose proof (header_here before m _ Hat) as Hne. rewrite Hgot0, headers_app, length_app in Hgot.
    destruct (header_bytes m); [done|simpl in Hgot; lia]. }
  destruct (serving_answered before m _ Hat (sy_srv y) s q HS Hs Harr) as (Hr & Hnil & -> & Htx).
  { rewrite <- Hq. by apply prefix_app_r. }
  { rewrite <- Hgot. exact Hle. }
  assert (Hwire : sy_wire y = []).
  { rewrite <- (app_nil_r (frame (request m))) in Hq at 2. by apply app_inv_head in Hq. }
  assert (Hcon : connected (before ++ [m]) [] y).
  { split; [done|]. exists s, []. split_and!; [done|by rewrite Hr, Hnil|done|by left|done|done]. }
  split; [|done]. split_and!; [done|done|by left].
Qed.

(** Enough fuel for the loops of a push of [m]. *)
Definition push_fuel m : nat := 9 + length (header_bytes m) + length (data m) + (length (header_bytes m) + 1) * longest.

Lemma PushData_settled fuel fd before m after s :
  all = before ++ m :: after → client_ok fd (cl_app s) → fits m → header_ok m →
  (push_fuel m ≤ fuel)%nat → settled before (cl_world s) →
  wp total (PushData fuel m) s (λ ack s',
  client_ok fd (cl_app s') ∧ ack = mkBwAck (Some (header m)) (Some true) ∧
  settled (before ++ [m]) (cl_world s') ∧ streams (before ++ [m]) (cl_world s')).
Proof.
  intros Hall Hok Hfit Hhdr Hfuel Hset. unfold push_fuel in Hfuel.
  pose proof (settled_coupled _ _ _ _ Hall Hset) as Hc. destruct Hset as (_ & Hgot & _).
  eapply wp_mono.
  { apply (wp_PushData_calls fuel fd m (header_bytes m)
      (λ w, ∃ out, out ++ data m = frame (request m) ∧ (8 ≤ length out)%nat ∧
        coupled before m out w ∧ sy_got w = length (headers before))
      (reading before m []) (reading before m (header_bytes m))); [done|done|done|..].
    - intros out Hout. assert (length out = 8 + length (header_bytes m))%nat as Hlen.
      { apply (f_equal length) in Hout. unfold request in Hout. rewrite length_frame, length_app in Hout. lia. }
      eapply wp_mono; [apply (SendAll_coupled fuel before m [] out fd); [done| |simpl; lia|lia]|].
      + rewrite <- Hout. by exists (data m).
      + simpl. intros n w (-> & Hw & Hg). split; [done|]. exists out. split_and!; [done|lia|done|congruence].
    - intros w (out & Hout & Hlen & Hw & Hg).
      eapply wp_mono; [apply (SendAll_coupled fuel before m out (data m) fd); [done|by rewrite Hout| |lia]|].
      + rewrite length_app. lia.
      + rewrite Hout. simpl. intros n w' (-> & Hw' & Hg'). split; [done|]. split_and!; [done| |apply prefix_nil].
        by rewrite app_nil_r, Hg'.
    - intros w Hw. apply RecvAll_coupled; [done|lia]. }
  intros ack s' (Hok' & -> & Hr). pose proof (answered_settled _ _ _ Hr) as [? ?].
  split_and!; [done| |done|by eapply settled_streams].
  rewrite <- (app_nil_r (header_bytes m)) at 2. by apply ack_of_echo.
Qed.

(** Many pushes. *)
Lemma PushAll_settled fuel fd before msgs s :
  all = before ++ msgs → client_ok fd (cl_app s) → Forall fits msgs → Forall header_ok msgs →
  Forall (λ m, push_fuel m ≤ fuel)%nat msgs → settled before (cl_world s) →
  (before ≠ [] → streams before (cl_world s)) →
  wp total (PushAll fuel msgs) s (λ acks s',
  acks = (λ m, mkBwAck (Some (header m)) (Some true)) <$> msgs ∧ streams all (cl_world s')).
Proof.
  revert before s. induction msgs as [|m msgs IH]; intros before s Hall Hok Hfit Hhdr Hfuel Hset Hstr.
  { wp_steps. rewrite app_nil_r in Hall. split; [done|]. rewrite Hall. apply Hstr. by rewrite <- Hall. }
  rewrite !Forall_cons_iff in *. destruct Hfit, Hhdr, Hfuel. cbn [PushAll]. wp_step.
  eapply wp_mono; [by apply (PushData_settled fuel fd before m msgs)|].
  intros ack s' (Hok' & -> & Hset' & Hstr'). wp_step.
  eapply wp_mono; [apply (IH (before ++ [m])); try done; by rewrite <- app_assoc|].
  intros acks s'' (-> & Hfin). by wp_steps.
Qed.

(** ** The beginning *)

Lemma connect_start fd addr len sched :
  ∃ sched', sy_connect fd addr len (system_start inp sched) = (0, System (srv_asked inp) [] 0 inp sched').
Proof.
  exists (λ n, sched (S n)). unfold sy_connect, turn, system_start, on_server, advance.
  cbn [sy_srv sy_wire sy_got sy_stream sy_sched]. case_match; by rewrite idle_iter.
Qed.

Lemma Init_settled fuel host port sched :
  (0 < fuel)%nat →
  wp total (client_Init fuel (Some host) port) (ClState client_make (system_start inp sched)) (λ _ s,
  client_ok cli_fd (cl_app s) ∧ settled [] (cl_world s)).
Proof.
  intros Hfuel. destruct fuel as [|fuel]; [lia|].
  unfold client_Init, cl_sys, set_app, AddrInfo_host, AddrInfo_AddrStr, Create_ai, SetNonBlock. cbn [value].
  wp_steps. apply wp_lift. intros r w Hr. injection Hr as <- <-. wp_steps.
  apply wp_lift. intros r w Hr. injection Hr as <- <-. wp_steps.
  apply wp_lift. intros r w Hr. injection Hr as <- <-. wp_steps.
  cbn [connect_loop]. unfold Connect, Connect_addr, SockAddr_make. wp_steps.
  apply wp_lift. intros r w Hr. simpl in Hr.
  destruct (connect_start cli_fd (replicate 16 Byte.x00) sizeof_sockaddr sched) as [sched' Hc]. simpl in Hc.
  rewrite Hc in Hr. injection Hr as <- <-. wp_steps.
  apply wp_lift. intros r w Hr. injection Hr as <- <-. wp_steps.
  apply wp_lift. intros r w Hr. injection Hr as <- <-. wp_steps.
  apply wp_lift. intros r w Hr. injection Hr as <- <-. wp_steps.
  split; [apply client_ok_fresh|]. split_and!; [done|done|right]. split_and!; [by left|done|done|done].
Qed.
End system.
