(* ===== verification/SystemRuns.v ===== *)
(** Whole runs of the bandwidth benchmark over a socket: the client and the server of
    System.v, from the start of both to the end of the client. *)
From S2P Require Import Prelude CInt Kernel SimKernel Socket EndpointSpec Meter BwApp SocketBwClient Pacing EdgeSim System SystemServer SystemProps.

Local Open Scope Z_scope.
#[local] Set Default Proof Using "Type*".

Section runs.
Context `{!BwProtobuf, !BwProtobufLaws}.
Implicit Types (m : BwMessage) (msgs : list BwMessage) (y : system).

Local Abbreviation headers msgs := (concat (header_bytes <$> msgs)).
Local Abbreviation frames msgs := (concat (frame <$> (request <$> msgs))).

(** What the server has read from its connection, and what it has written to it. *)
Definition transcript y : option (list byte * list byte) :=
  (λ s, (es_read s, es_tx s)) <$> eg_sock (srv_world (sy_srv y)) !! srv_fd.

Lemma streams_transcript msgs y : streams msgs y → transcript y = Some (frames msgs, headers msgs).
Proof. intros (s & Hs & Hr & Ht). unfold transcript. by rewrite Hs, <- Hr, <- Ht. Qed.

(** * A session of given messages *)

(** The client connects and pushes the messages. *)
Definition session (io_fuel : nat) (host : string) (port : Z) msgs (sched : nat → plan) :
    option (list BwAck * option (list byte * list byte)) :=
  match (_ ← client_Init io_fuel (Some host) port; PushAll io_fuel msgs)
          (ClState client_make (system_start (frames msgs) sched)) with
  | Ret (acks, s) => Some (acks, transcript (cl_world s))
  | Stop _ => None
  end.

(** The same without kernel, events and network: each request is answered at once by the
    reference server [answer], which has read [sent] before, when [got] bytes of its
    answers have been read. *)
Fixpoint sequential (got : nat) (sent : list byte) msgs : list BwAck :=
  match msgs with
  | [] => []
  | m :: msgs =>
      let sent := sent ++ frame (request m) in
      ack_of (length (header_bytes m)) (drop got (answer 0 0 sent)) ::
      sequential (length (answer 0 0 sent)) sent msgs
  end.

Lemma sequential_acks before msgs :
  nondecreasing 0 0 (request <$> before ++ msgs) → Forall header_ok msgs →
  sequential (length (headers before)) (frames before) msgs =
  (λ m, mkBwAck (Some (header m)) (Some true)) <$> msgs.
Proof.
  revert before. induction msgs as [|m msgs IH]; intros before Hmono Hhdr; [done|].
  inversion_clear Hhdr as [|? ? Hm Hhdr']. cbn [sequential]. rewrite <- frames_app.
  assert (Hmono1 : nondecreasing 0 0 (request <$> before ++ [m])).
  { apply (nondecreasing_app_l 0 0 _ (request <$> msgs)). by rewrite <- fmap_app, <- app_assoc. }
  rewrite answer_frames, headers_requests by done. rewrite fmap_cons. f_equal.
  - rewrite headers_app, drop_app_length. pose proof (ack_of_echo m [] Hm) as Hack. by rewrite app_nil_r in Hack.
  - apply IH; [by rewrite <- app_assoc|done].
Qed.

(** The fuel that the loops of the client need. *)
Definition session_fuel msgs : nat := foldr (λ m, Nat.max (push_fuel msgs m)) 1%nat msgs.
Lemma session_fuel_ok msgs n : (session_fuel msgs ≤ n)%nat → (0 < n)%nat ∧ Forall (λ m, push_fuel msgs m ≤ n)%nat msgs.
Proof.
  unfold session_fuel. generalize (push_fuel msgs) as f. intros f. induction msgs as [|m msgs IH]; simpl; intros Hn.
  - by split; [lia|].
  - destruct IH as [? ?]; [lia|]. split; [done|]. constructor; [lia|done].
Qed.

(** C2. The client and the server as one system do what the sequential program does,
    whatever the schedule.  The server's process runs its loop over an edge-triggered
    kernel; before each system call of the client it makes any number of steps, a part of
    the bytes under way arrives, eight or more or all of them, and the call transfers a
    part of its bytes.  The client connects and pushes messages whose headers and data do
    not get smaller, with a header that is not empty and fits the buffer.  Then it ends;
    each acknowledgement is the one of the sequential program, in which the
    reference server answers each request at once; and the server has read exactly the
    requests and written exactly their answers.  In particular any two schedules agree. *)
Theorem interleavings_agree io_fuel host port msgs sched :
  msgs ≠ [] → Forall fits msgs → Forall header_ok msgs → Forall (λ m, header_bytes m ≠ []) msgs →
  nondecreasing 0 0 (request <$> msgs) → (session_fuel msgs ≤ io_fuel)%nat →
  session io_fuel host port msgs sched =
  Some (sequential 0 [] msgs, Some (frames msgs, answer 0 0 (frames msgs))).
Proof.
  intros Hne Hfit Hhdr Hheaded Hmono [Hpos Hfuel]%session_fuel_ok.
  pose proof (sequential_acks [] msgs Hmono Hhdr) as Hseq. change (length (headers [])) with 0%nat in Hseq.
  change (frames []) with (@nil byte) in Hseq. rewrite Hseq, answer_frames, headers_requests by done.
  assert (wp total (_ ← client_Init io_fuel (Some host) port; PushAll io_fuel msgs)
    (ClState client_make (system_start (frames msgs) sched)) (λ acks s,
    acks = (λ m, mkBwAck (Some (header m)) (Some true)) <$> msgs ∧ streams msgs (cl_world s))) as Hwp.
  { wp_step. eapply wp_mono; [by apply (Init_settled msgs)|]. intros _ s [Hok Hset].
    by apply (PushAll_settled msgs Hmono Hheaded Hne io_fuel cli_fd [] msgs). }
  apply wp_run in Hwp as (acks & s & Hrun & -> & Hs). unfold session. rewrite Hrun.
  by rewrite (streams_transcript msgs).
Qed.

(** * The program *)

Lemma nondecreasing_replicate h d n :
  Z.of_nat (length h) < 2 ^ 32 → Z.of_nat (length d) < 2 ^ 32 → nondecreasing 0 0 (replicate n (h, d)).
Proof.
  intros Hh Hd. destruct n as [|n]; [done|]. cbn [replicate nondecreasing]. split_and!; [lia|lia|done|done|].
  induction n as [|n IH]; [done|]. cbn [replicate nondecreasing]. by split_and!.
Qed.

Context {C : Type} (now : C → Z * C).
(** Between two readings of the clock at least [tick] nanoseconds pass. *)
Context (tick : Z).
Hypothesis (tick_pos : 0 < tick).
Hypothesis (now_tick : ∀ c, (now c).1 + tick ≤ (now (now c).2).1).

(** C1. The bandwidth benchmark over a socket ends and is right about what was
    transferred, whatever the schedule of the client, the server and the network.  The
    client is started when the server waits for connections; it connects, pushes its
    message for the configured time, at least once, and ends.  Every push has succeeded;
    the line it prints counts [n] messages; and the server has read exactly [n] requests
    and written exactly [n] answers.  Nobody is left waiting for the other. *)
Theorem SocketBw_Run io_fuel env fuel data_size limit host port sched ms :
  let msg := bw_msg data_size in
  let msgs := replicate (S fuel) msg in
  header_bytes msg ≠ [] → fits msg → 0 ≤ data_size < 2 ^ 32 → 0 ≤ limit →
  limit * 1000 < (Z.of_nat fuel - 1) * tick →
  Z.of_nat fuel ≤ INT_MAX → Z.of_nat fuel * BwMessage_Size msg ≤ LONG_MAX →
  (session_fuel msgs ≤ io_fuel)%nat →
  wp total (Run now (client_Init io_fuel (Some host) port) (PushData io_fuel) env fuel data_size limit)
    (RunState (ClState client_make (system_start (frames msgs) sched)) ms) (λ res s,
  ∃ n, (0 < n ≤ fuel)%nat ∧ limit * 1000 < res.2 ∧ res.1 = u64 (Z.of_nat n * BwMessage_Size msg) ∧
  transcript (cl_world (rs_app s)) = Some (frames (replicate n msg), headers (replicate n msg))).
Proof.
  intros msg msgs Hne Hfit Hsize Hlim Hticks Hint Hlong Hfuel%session_fuel_ok.
  destruct Hfuel as [Hpos Hfuel].
  assert (Hpush : (push_fuel msgs msg ≤ io_fuel)%nat) by (by inversion_clear Hfuel).
  assert (Hheaded : Forall (λ m, header_bytes m ≠ []) msgs) by by apply Forall_replicate.
  assert (Hmono : nondecreasing 0 0 (request <$> msgs)).
  { unfold msgs. rewrite fmap_replicate. apply nondecreasing_replicate.
    - unfold fits, kDefaultBufferSize in Hfit. lia.
    - simpl. rewrite length_replicate. lia. }
  eapply wp_mono.
  { apply (wp_Run now (client_Init io_fuel (Some host) port) (PushData io_fuel) env data_size fuel
      (λ t, t = ClState client_make (system_start (frames msgs) sched))
      (λ p n t, n = p ∧ client_ok cli_fd (cl_app t) ∧ settled msgs (replicate p msg) (cl_world t) ∧
        (p ≠ 0%nat → streams (replicate p msg) (cl_world t)))) with (tick := tick); try done.
    - intros t ->. eapply wp_mono; [by apply (Init_settled msgs)|]. intros _ s [Hok Hset]. by split_and!.
    - intros p n t Hp (-> & Hok & Hset & _).
      assert (Hmsgs : msgs = replicate p msg ++ msg :: replicate (fuel - p) msg).
      { unfold msgs. change (msg :: replicate (fuel - p) msg) with (replicate (S (fuel - p)) msg).
        rewrite <- replicate_add. f_equal. lia. }
      eapply wp_mono; [apply (PushData_settled msgs Hmono Hheaded ltac:(done) io_fuel cli_fd _ msg _ t Hmsgs); try done|].
      { by apply (bool_decide_unpack _). }
      intros ack t' (Hok' & -> & Hset' & Hstr). exists true. rewrite replicate_S_end. by split_and!.
    - unfold LONG_MAX. lia. }
  intros res s (p & n & Hp & (-> & _ & _ & Hstr) & Hres & Hdur). exists p.
  split_and!; [lia|lia|done|done|]. apply streams_transcript, Hstr. lia.
Qed.
End runs.

(** * Examples *)

Import ToyProtobuf.

(** Now and then nothing happens, or one byte is transferred. *)
Definition demo_sched (n : nat) : plan := Plan (n mod 3) (n mod 5) (n mod 4).

Lemma interleavings_agree_witness :
  session (session_fuel demo_msgs) "10.0.0.1" 18000 demo_msgs demo_sched =
  Some (sequential 0 [] demo_msgs,
    Some (concat (frame <$> (request <$> demo_msgs)), answer 0 0 (concat (frame <$> (request <$> demo_msgs))))).
Proof.
  refine (interleavings_agree (session_fuel demo_msgs) "10.0.0.1" 18000 demo_msgs demo_sched _ _ _ _ _ _).
  - discriminate.
  - repeat constructor; apply Z.leb_le; reflexivity.
  - apply (bool_decide_unpack _). reflexivity.
  - repeat constructor; discriminate.
  - repeat split; apply Z.ltb_lt || apply Nat.leb_le; reflexivity.
  - apply le_n.
Defined.

Lemma SocketBw_Run_witness :
  let msg := bw_msg 10 in
  wp total (Run demo_now (client_Init (session_fuel (replicate 4 msg)) (Some "10.0.0.1") 18000)
      (PushData (session_fuel (replicate 4 msg))) 0 3 10 1000000)
    (RunState (ClState client_make
      (system_start (concat (frame <$> (request <$> replicate 4 msg))) demo_sched))
      (MState (fresh_meter 1 0 1000) [] 0)) (λ res s,
  ∃ n, (0 < n ≤ 3)%nat ∧ 1000000 * 1000 < res.2 ∧ res.1 = u64 (Z.of_nat n * BwMessage_Size msg) ∧
  transcript (cl_world (rs_app s)) =
    Some (concat (frame <$> (request <$> replicate n msg)), concat (header_bytes <$> replicate n msg))).
Proof.
  intros msg. refine (SocketBw_Run demo_now 600000000 _ _ (session_fuel (replicate 4 msg)) 0 3 10 1000000
    "10.0.0.1" 18000 demo_sched (MState (fresh_meter 1 0 1000) [] 0) _ _ _ _ _ _ _ _).
  - lia.
  - intros c. simpl. lia.
  - discriminate.
  - apply Z.leb_le. reflexivity.
  - lia.
  - lia.
  - simpl. lia.
  - unfold INT_MAX. simpl. lia.
  - apply Z.leb_le. reflexivity.
  - apply le_n.
Defined.
