(* ===== verification/ClosedLoop.v ===== *)
(** grpc/grpc_tput_app.{h,cc} and grpc/hotel_reservation_app.cc: the closed loop
    of a client that keeps a number of asynchronous calls outstanding on one
    completion queue, with the workload of the hotel client.  The completion
    queue is an interface; the counters, the meter and the generator of requests
    are the program's.  Time points are exact nanoseconds. *)
From S2P Require Import Prelude CInt Meter.

Local Open Scope Z_scope.

(** * The completion queue of gRPC *)

(** What a finished call holds: its status and the size of its response. *)
Record call_result := CallResult { status_ok : bool; response_size : Z }.

(** [StartCall] and [Finish] with a tag for a request, and [Next]. *)
Class ClientQueue (R L : Type) := {
  cq_start : R → Z → L → L;
  cq_next : L → option (Z * call_result) * L;
}.

(** A queue that has not been shut down delivers every started call once. *)
Class ClientQueueLaws (R L : Type) `{!ClientQueue R L} := {
  pending : L → gset Z;
  start_pending r tag q :
    tag ∉ pending q → pending (cq_start r tag q) = {[ tag ]} ∪ pending q;
  next_pending q :
    pending q ≠ ∅ →
    ∃ tag r q', cq_next q = (Some (tag, r), q') ∧ tag ∈ pending q ∧
      pending q' = pending q ∖ {[ tag ]};
}.

(** * The loop *)

(** The local variables of [GrpcTputClientApp::Job] and
    [HotelReservationClientApp::Run]. *)
Record vars := mkVars {
  req_cnt : Z;
  count : Z;
  overlimit : Z;
  rx_size : Z;
  timeout : bool;
  time_cnt : Z;
}.

(** The process: the call objects by address with the size of their request,
    the queue, the generator of requests, the meter with the clock. *)
Record job_state (L G C : Type) := JobState {
  j_calls : gmap Z Z;
  j_queue : L;
  j_gen : G;
  j_meter : mstate C;
}.
Arguments JobState {L G C} _ _ _ _.
Arguments j_calls {L G C} _.
Arguments j_queue {L G C} _.
Arguments j_gen {L G C} _.
Arguments j_meter {L G C} _.

Section loop.
Context {R L G C : Type} `{!ClientQueue R L}.
Context (now : C → Z * C) (meter_env : Z).
(** The next request and its size, and whether a failed call is given to the
    meter too (the hotel client does that). *)
Context (next_request : M G (R * Z)) (meter_failures : bool).

Abbreviation JM := (M (job_state L G C)).
Definition j_in_meter {A} (c : M (mstate C) A) : JM A :=
  zoom j_meter (λ m s, JobState (j_calls s) (j_queue s) (j_gen s) m) c.
Definition j_in_gen {A} (c : M G A) : JM A :=
  zoom j_gen (λ g s, JobState (j_calls s) (j_queue s) g (j_meter s)) c.

(** [new AsyncClientCall(stub, cq, data)]; the tag is the address of the
    object. *)
Definition new_call : JM unit :=
  rs ← j_in_gen next_request;
  modify (λ s,
  let tag := fresh (dom (j_calls s)) in
  JobState (<[tag := rs.2]> (j_calls s)) (cq_start rs.1 tag (j_queue s)) (j_gen s) (j_meter s)).

(** [cq->Next(&tag, &ok)] *)
Definition next_call : JM (option (Z * call_result)) := λ s,
  let (r, q) := cq_next (j_queue s) in
  Ret (r, JobState (j_calls s) q (j_gen s) (j_meter s)).

Definition delete_call (tag : Z) : JM unit :=
  modify (λ s, JobState (delete tag (j_calls s)) (j_queue s) (j_gen s) (j_meter s)).

(** The first loop: [concurrency] calls; the counter is an int. *)
Fixpoint issue (n : nat) (req_cnt : Z) : JM Z :=
  match n with
  | O => mret req_cnt
  | S n => _ ← new_call; c ← signed32 (req_cnt + 1); issue n c
  end.

(** The statistics of one finished call. *)
Definition account (size : Z) (r : call_result) (v : vars) : JM vars :=
  if status_ok r then
  count' ← signed64 (count v + 1);
  _ ← j_in_meter (AddQps now size 1);
  mret (mkVars (req_cnt v) count' (overlimit v) (u64 (rx_size v + response_size r))
          (timeout v) (time_cnt v))
  else
    overlimit' ← signed64 (overlimit v + 1);
    _ ← (if meter_failures then j_in_meter (AddQps now 0 0) else mret tt);
    mret (mkVars (req_cnt v) (count v) overlimit' (rx_size v) (timeout v) (time_cnt v)).

Definition time_period : Z := 1000.

(** The check of the time, once in a period. *)
Definition check_time (start time_dura : Z) (v : vars) : JM vars :=
  c ← signed32 (time_cnt v + 1);
  if time_period <=? c then
    t ← j_in_meter (read_clock now);
    mret (mkVars (req_cnt v) (count v) (overlimit v) (rx_size v) (time_dura <? t - start) 0)
  else mret (mkVars (req_cnt v) (count v) (overlimit v) (rx_size v) (timeout v) c).

Definition set_req_cnt (c : Z) (v : vars) : vars :=
  mkVars c (count v) (overlimit v) (rx_size v) (timeout v) (time_cnt v).

(** The iteration for one finished call. *)
Definition finish_call (start time_dura : Z) (tag : Z) (r : call_result) (v : vars) : JM vars :=
  calls ← gets j_calls;
  size ← deref (calls !! tag);
  v ← account size r v;
  _ ← delete_call tag;
  c ← signed32 (req_cnt v - 1);
  v ← check_time start time_dura (set_req_cnt c v);
  if timeout v then mret v
  else
    _ ← new_call;
    c ← signed32 (req_cnt v + 1);
    mret (set_req_cnt c v).

(** [while (req_cnt > 0 && cq->Next(&tag, &ok))] *)
Fixpoint loop (fuel : nat) (start time_dura : Z) (v : vars) : JM vars :=
  match fuel with
  | O => nofuel
  | S fuel =>
    if 0 <? req_cnt v then
      r ← next_call;
      match r with
      | None => mret v
      | Some (tag, r) => v ← finish_call start time_dura tag r v; loop fuel start time_dura v
      end
    else mret v
  end.

(** The body up to the loop: the first calls, the start of the time, the meter. *)
Definition begin_calls (concurrency : Z) : JM (Z * vars) :=
  req_cnt ← issue (Z.to_nat concurrency) 0;
  start ← j_in_meter (read_clock now);
  m ← j_in_meter (zoom ms_clock (λ c s, MState (ms_meter s) (ms_log s) c)
                  (Meter_make now 1000 1 meter_env));
  _ ← j_in_meter (set_meter m);
  mret (start, mkVars req_cnt 0 0 0 false 0).

(** After the loop: the time it has taken. *)
Definition end_calls (start : Z) : JM Z :=
  t ← j_in_meter (read_clock now);
  mret (t - start).

(** The whole body; [time_dura] is in nanoseconds. *)
Definition run_calls (fuel : nat) (concurrency time_dura : Z) : JM (vars * Z) :=
  sv ← begin_calls concurrency;
  v ← loop fuel sv.1 time_dura sv.2;
  d ← end_calls sv.1;
  mret (v, d).
End loop.

(** ** What is printed *)

(** A figure, as the exact quotient that the program computes with doubles. *)
Record ratio := Ratio { num : Z; den : Z }.

(** The line of a run: the calls over the limit, gigabits and calls per second. *)
Record figures := Figures {
  fg_overlimit : Z;
  tx_gbps : ratio;
  rx_gbps : ratio;
  tx_rps : ratio;
  rx_rps : ratio;
}.

(** [duration] is in nanoseconds, so bits over it are gigabits per second. *)
Definition figures_of (data_size : Z) (v : vars) (duration : Z) : figures :=
  let rps := Ratio (count v * 1000000000) duration in
  Figures (overlimit v) (Ratio (8 * count v * data_size) duration)
    (Ratio (8 * rx_size v) duration) rps rps.

(** * The client for throughput *)

(** [GrpcTputClientApp::Job] for one thread with its own queue: the request is
    one message of [data_size] bytes, sent again and again. *)
Definition Tput_Job {L C} `{!ClientQueue Z L} (now : C → Z * C) (meter_env data_size : Z)
    (fuel : nat) (concurrency time_dura_us : Z) : M (job_state L unit C) (vars * figures) :=
  vd ← run_calls now meter_env (mret (data_size, i64 data_size)) false fuel concurrency
    (time_dura_us * 1000);
  mret (vd.1, figures_of data_size vd.1 vd.2).

(** * The hotel client *)
Module Hotel.
(** [fast_rand] on [g_seed]. *)
Definition fast_srand (seed : Z) : M Z unit := put (u32 seed).
Definition fast_rand : M Z Z :=
  _ ← modify (λ g_seed, u32 (214013 * g_seed + 2531011));
  gets (λ g_seed, Z.land (Z.shiftr g_seed 16) 0x7FFF).

Record Request := mkRequest {
  customername : string;
  hotelid : list string;
  indate : string;
  outdate : string;
  roomnumber : Z;
}.
#[export] Instance Request_eq_dec : EqDecision Request.
Proof. solve_decision. Defined.
Definition Request_new : Request := mkRequest "" [] "" "" 0.
Definition kHotelId : string := "42".

(** The static variables of [GenerateWorkload] and [g_seed]. *)
Record workload := Workload {
  init : bool;
  request : list Request;
  req_size : list Z;
  g_seed : Z;
}.
Definition workload_start (seed : Z) : workload :=
  Workload false [Request_new; Request_new] [0; 0] seed.

Section hotel.
(** [ByteSizeLong] of the generated message class. *)
Context (ByteSizeLong : Request → Z).

(** The setters used on an element of [request]: [add_hotelid] appends the
    empty string, [set_hotelid(0, v)] needs an element 0. *)
Definition set_request (name : string) (id : string) (ind outd : string) (room : Z)
  (r : Request) : M workload Request :=
  let ids := hotelid r ++ [""%string] in
  _ ← deref (ids !! 0%nat);
  mret (mkRequest name (<[0%nat := id]> ids) ind outd room).

Definition init_workload : M workload unit :=
  w ← get;
  r0 ← deref (request w !! 0%nat);
  r0 ← set_request "danyang" kHotelId "2022-09-01" "2022-09-02" 128 r0;
  r1 ← deref (request w !! 1%nat);
  r1 ← set_request "matt" kHotelId "2022-09-02" "2022-09-03" 129 r1;
  put (Workload true [r0; r1] [ByteSizeLong r0; ByteSizeLong r1] (g_seed w)).

Definition GenerateWorkload : M workload (Request * Z) :=
  w ← get;
  _ ← (if init w then mret tt else init_workload);
  v ← zoom g_seed (λ g w, Workload (init w) (request w) (req_size w) g) fast_rand;
  let index := 1 - (if Z.rem v 100 <? 1 then 1 else 0) in
  w ← get;
  r ← deref (request w !! Z.to_nat index);
  n ← deref (req_size w !! Z.to_nat index);
  mret (r, n).

(** [HotelReservationClientApp::Run] after [Init]; the size of a request is a
    [size_t] given to the meter as a [ssize_t].  [data_size] is the option of that
    name, which only the printed line uses. *)
Definition Run {L C} `{!ClientQueue Request L} (now : C → Z * C) (meter_env data_size : Z)
  (fuel : nat) (concurrency time_dura_s : Z) : M (job_state L workload C) (vars * figures) :=
  vd ← run_calls now meter_env (rs ← GenerateWorkload; mret (rs.1, i64 rs.2)) true
  fuel concurrency (time_dura_s * 1000000000);
  mret (vd.1, figures_of data_size vd.1 vd.2).
End hotel.
End Hotel.
