(* ===== verification/ClosedLoopProps.v ===== *)
(** The closed loop of ClosedLoop.v terminates, drains its calls and accounts
    for every one of them. *)
From S2P Require Import Prelude CInt Meter ClosedLoop.

Local Open Scope Z_scope.

(** The clock advances by at least [tick] from one reading to the next. *)
Definition advances {C} (now : C → Z * C) (tick : Z) : Prop :=
  ∀ c, (now c).1 + tick ≤ (now (now c).2).1.

(** * The loop against the interface of the queue *)

Section loop.
Context {R L G C : Type} `{!ClientQueue R L} `{!ClientQueueLaws R L}.
Context (now : C → Z * C) (next_request : M G (R * Z)) (meter_failures : bool).

(** The generator returns, with sizes between [dmin] and [dmax]. *)
Context (GI : G → Prop) (dmin dmax : Z).
Hypothesis next_request_ok : ∀ g, GI g →
  wp total next_request g (λ rs g', dmin ≤ rs.2 ≤ dmax ∧ GI g').

Context (tick : Z).
Hypothesis clock_advances : advances now tick.

(** The parameters of a run: [K] periods are enough for the duration to
    pass. *)
Context (start time_dura concurrency K : Z).
Hypothesis dmin_pos : 0 ≤ dmin.
Hypothesis tick_pos : 0 < tick.
Hypothesis concurrency_pos : 1 ≤ concurrency.
Hypothesis K_pos : 1 ≤ K.
Hypothesis K_enough : time_dura < K * tick.
Hypothesis calls_max : 1000 * K + concurrency ≤ INT_MAX.
Hypothesis bytes_max : (1000 * K + concurrency) * dmax ≤ LONG_MAX.

Implicit Types (s : job_state L G C) (v : vars).

(** The clock after [r] further readings since the start. *)
Definition elapsed (r : Z) (c : C) : Prop := start + r * tick ≤ (now c).1.

(** The calls in flight are the ones the queue owes. *)
Record in_flight (n : Z) s : Prop := {
  if_tags : dom (j_calls s) = pending (j_queue s);
  if_number : Z.of_nat (size (j_calls s)) = n;
  if_sizes : map_Forall (λ _ sz, dmin ≤ sz ≤ dmax) (j_calls s);
  if_gen : GI (j_gen s);
}.

(** [c] calls have finished: the counters and the meter agree with that. *)
Record accounted (t0 c : Z) v s : Prop := {
  ac_count : count v + overlimit v = c ∧ 0 ≤ count v ∧ 0 ≤ overlimit v;
  ac_meter : ∃ B N, tallied 1 t0 1000 B (count v) N (j_meter s) ∧ 0 ≤ N ≤ c ∧
  dmin * count v ≤ B ≤ dmax * count v;
}.

(** Before the timeout all calls are in flight; after it, in period [k], the
    calls drain. *)
Definition phase (c : Z) v (clk : C) : Prop :=
  if timeout v
  then ∃ k, 1 ≤ k ≤ K ∧ 1000 * k ≤ c ∧ req_cnt v = concurrency - 1 - (c - 1000 * k) ∧
       start + time_dura < (now clk).1
  else req_cnt v = concurrency ∧ c < 1000 * K.

Record running (t0 c : Z) v s : Prop := {
  rn_flight : in_flight (req_cnt v) s;
  rn_account : accounted t0 c v s;
  rn_time : 0 ≤ c ∧ time_cnt v = c mod 1000;
  rn_clock : elapsed (1 + c / 1000) (ms_clock (j_meter s));
  rn_phase : phase c v (ms_clock (j_meter s));
}.

Lemma elapsed_mono r c c' : elapsed r c → (now c).1 ≤ (now c').1 → elapsed r c'.
Proof. unfold elapsed. lia. Qed.
Lemma clock_mono c : (now c).1 ≤ (now (now c).2).1.
Proof using clock_advances tick_pos. pose proof (clock_advances c). lia. Qed.

Lemma wp_new_call n s :
  in_flight n s →
  wp total (new_call next_request) s (λ _ s', in_flight (n + 1) s' ∧ j_meter s' = j_meter s).
Proof using next_request_ok ClientQueueLaws0.
  intros [Ht Hn Hs Hg]. unfold new_call, j_in_gen. wp_steps.
  eapply wp_mono; [by apply next_request_ok|]. simpl. intros [r sz] g [Hsz Hg']. simpl in *.
  wp_steps. split; [|done]. pose proof (is_fresh (dom (j_calls s))) as Hfr.
  split; simpl.
  - rewrite start_pending by by rewrite <- Ht. by rewrite dom_insert_L, Ht.
  - rewrite map_size_insert_None by by apply not_elem_of_dom. lia.
  - by apply map_Forall_insert_2.
  - done.
Qed.

Lemma wp_issue n r s :
  in_flight r s → 0 ≤ r → r + Z.of_nat n ≤ INT_MAX →
  wp total (issue next_request n r) s (λ r' s',
  r' = r + Z.of_nat n ∧ in_flight r' s' ∧ j_meter s' = j_meter s).
Proof using next_request_ok ClientQueueLaws0.
  revert r s. induction n as [|n IH]; intros r s Hf Hr Hm; simpl.
  - wp_steps. split_and!; [lia|done|done].
  - wp_step. eapply wp_mono; [by apply wp_new_call|]. simpl. intros _ s1 [Hf1 Hm1].
    wp_step. apply wp_signed32; [unfold INT_MIN; lia|].
    eapply wp_mono; [by apply IH; [|lia|lia]|]. simpl. intros r' s2 (-> & ? & ?).
    split_and!; [lia|done|congruence].
Qed.

(** One more call in the statistics. *)
Lemma wp_account t0 c sz r v s :
  accounted t0 c v s → dmin ≤ sz ≤ dmax → c < 1000 * K + concurrency →
  wp total (account now meter_failures sz r v) s (λ v' s',
  accounted t0 (c + 1) v' s' ∧ req_cnt v' = req_cnt v ∧ timeout v' = timeout v ∧
  time_cnt v' = time_cnt v ∧
  j_calls s' = j_calls s ∧ j_queue s' = j_queue s ∧ j_gen s' = j_gen s ∧
  (now (ms_clock (j_meter s))).1 ≤ (now (ms_clock (j_meter s'))).1).
Proof using clock_advances tick_pos dmin_pos concurrency_pos K_pos calls_max bytes_max.
  intros [Hc (B & N & Ht & HN & HB)] Hsz Hmax.
  assert (HINT : INT_MAX ≤ LONG_MAX) by (unfold INT_MAX, LONG_MAX; lia).
  assert (Hroom : B + sz ≤ LONG_MAX) by nia.
  unfold account. destruct (status_ok r).
  - wp_step. apply wp_signed64; [unfold LONG_MIN; lia|]. unfold j_in_meter. wp_steps.
    eapply wp_mono; [apply (AddQps_tallied now 1 t0 1000 B (count v) N); [done|lia..]|].
    simpl. intros _ m [Ht' Hclk]. wp_steps. split_and!; try done; simpl.
    + split; simpl; [lia|]. exists (B + sz), (N + 1). split; [done|]. nia.
    + rewrite Hclk. case_match; [apply clock_mono|lia].
  - wp_step. apply wp_signed64; [unfold LONG_MIN; lia|]. wp_step.
    destruct meter_failures; unfold j_in_meter; wp_steps.
    + eapply wp_mono; [apply (AddQps_tallied now 1 t0 1000 B (count v) N); [done|lia..]|].
      simpl. intros _ m [Ht' Hclk]. wp_steps. split_and!; try done; simpl.
      * rewrite !Z.add_0_r in Ht'. split; simpl; [lia|].
        exists B, (N + 1). split; [done|]. lia.
      * rewrite Hclk. case_match; [apply clock_mono|lia].
    + split_and!; try done. split; simpl; [lia|]. exists B, N. split; [done|]. lia.
Qed.

(** The statistics do not depend on where the call objects are. *)
Lemma accounted_ext t0 c v v' s s' :
  accounted t0 c v s → count v' = count v → overlimit v' = overlimit v →
  ms_meter (j_meter s') = ms_meter (j_meter s) → ms_log (j_meter s') = ms_log (j_meter s) →
  accounted t0 c v' s'.
Proof.
  intros [Hc (B & N & [] & HN & HB)] Hv Ho Hm Hl. split; rewrite ?Hv, ?Ho; [done|].
  exists B, N. split; [|done]. by split; rewrite ?Hm, ?Hl.
Qed.

(** The state between the end of a call and the decision about the next. *)
Record finished (t0 c : Z) v s : Prop := {
  fn_flight : in_flight (req_cnt v) s;
  fn_account : accounted t0 (c + 1) v s;
  fn_time : 0 ≤ c ∧ time_cnt v = c mod 1000;
  fn_clock : elapsed (1 + c / 1000) (ms_clock (j_meter s));
  fn_phase : phase c (set_req_cnt (req_cnt v + 1) v) (ms_clock (j_meter s));
}.

(** The number of the finished call is a multiple of the period exactly when
    the clock is read. *)
Lemma period_step c :
  0 ≤ c →
  if 1000 <=? c mod 1000 + 1 then (c + 1) mod 1000 = 0 ∧ (c + 1) / 1000 = c / 1000 + 1 ∧
  1000 * (c / 1000 + 1) = c + 1
  else (c + 1) mod 1000 = c mod 1000 + 1 ∧ (c + 1) / 1000 = c / 1000 ∧
  c + 1 ≠ 1000 * K.
Proof. intros Hc. destruct (Z.leb_spec 1000 (c mod 1000 + 1)); Z.div_mod_to_equations; lia. Qed.

Lemma wp_check_time t0 c v s :
  finished t0 c v s →
  wp total (check_time now start time_dura v) s (λ v' s',
  in_flight (req_cnt v') s' ∧ accounted t0 (c + 1) v' s' ∧
  time_cnt v' = (c + 1) mod 1000 ∧ elapsed (1 + (c + 1) / 1000) (ms_clock (j_meter s')) ∧
  phase (c + 1) (if timeout v' then v' else set_req_cnt (req_cnt v' + 1) v')
    (ms_clock (j_meter s'))).
Proof using clock_advances tick_pos K_enough K_pos.
  intros [Hf Ha [Hc Htc] Hel Hph]. unfold check_time, time_period, phase in *. simpl in *.
  wp_step. apply wp_signed32; [rewrite Htc; pose proof (Z.mod_pos_bound c 1000); unfold INT_MIN, INT_MAX; lia|].
  rewrite Htc. pose proof (period_step c Hc) as Hp. case_match eqn:Hper; destruct Hp as (Hmod & Hdiv & Hk).
  - unfold j_in_meter, read_clock. wp_steps. apply wp_lift. intros t c' Ht. wp_steps.
    destruct s as [calls q g [m log clk]]; simpl in *.
    pose proof (clock_advances clk) as Hadv. rewrite Ht in Hadv. simpl in Hadv.
    assert (Hel' : elapsed (1 + (c + 1) / 1000) c').
    { unfold elapsed in *. rewrite Hdiv, Ht in *. simpl in *. lia. }
    split_and!; [by destruct Hf|by eapply accounted_ext|done|done|].
    destruct (Z.ltb_spec time_dura (t - start)) as [Hto|Hto]; simpl.
    + destruct (timeout v).
      * destruct Hph as (k & ? & ? & ? & ?). exists k. split_and!; lia.
      * exists (c / 1000 + 1). split_and!; lia.
    + unfold elapsed in Hel. rewrite Ht in Hel. simpl in Hel.
      destruct (timeout v).
      * exfalso. destruct Hph as (k & ? & ? & ? & Hlt). rewrite Ht in Hlt. simpl in Hlt. lia.
      * split; [lia|]. assert (c / 1000 + 1 < K) by nia. lia.
  - wp_steps. rewrite Hdiv. split_and!; [done|by eapply accounted_ext|lia|done|].
    destruct (timeout v); simpl in *; [|lia].
    destruct Hph as (k & ? & ? & ? & ?). exists k. split_and!; lia.
Qed.

Lemma wp_finish_call t0 c v s tag r q' :
  running t0 c v (JobState (j_calls s) (j_queue s) (j_gen s) (j_meter s)) → 0 < req_cnt v →
  tag ∈ pending (j_queue s) → pending q' = pending (j_queue s) ∖ {[ tag ]} →
  wp total (finish_call now next_request meter_failures start time_dura tag r v)
  (JobState (j_calls s) q' (j_gen s) (j_meter s)) (λ v' s', running t0 (c + 1) v' s').
Proof using All.
  intros [[Ht Hn Hs Hg] Ha [Hc Htc] Hel Hph] Hpos Htag Hq'. simpl in *.
  rewrite <- Ht in Htag. apply elem_of_dom in Htag as [sz Hsz].
  assert (Hmax : c < 1000 * K + concurrency).
  { unfold phase in Hph. destruct (timeout v); [destruct Hph as (k & ? & ? & ? & ?)|]; lia. }
  unfold finish_call. wp_steps. apply (wp_deref _ _ sz); [done|]. wp_step.
  eapply wp_mono; [apply (wp_account t0 c)|].
  { by eapply accounted_ext. }
  { by apply (Hs tag). }
  { done. }
  simpl. intros v1 s1 (Ha1 & Hrc & Hto & Htc1 & Hcalls & Hq & Hgen & Hclk).
  unfold delete_call. wp_steps.
  assert (Hsize : Z.of_nat (size (delete tag (j_calls s))) = req_cnt v - 1).
  { rewrite map_size_delete_Some by done. lia. }
  assert (req_cnt v ≤ INT_MAX).
  { unfold phase in Hph. destruct (timeout v); [destruct Hph as (k & ? & ? & ? & ?)|]; lia. }
  apply wp_signed32; [unfold INT_MIN; lia|]. wp_step.
  eapply wp_mono; [apply (wp_check_time t0 c)|].
  { split; simpl.
    - rewrite Hrc. split; simpl; rewrite ?Hcalls, ?Hq, ?Hgen; [|done| |done].
      + by rewrite dom_delete_L, Hq', Ht.
      + by apply map_Forall_delete.
    - by eapply accounted_ext.
    - by rewrite Htc1.
    - by eapply elapsed_mono.
    - unfold phase in *. simpl. rewrite Hto, Hrc. destruct (timeout v).
      + destruct Hph as (k & ? & ? & ? & ?). exists k. split_and!; lia.
      + lia. }
  simpl. intros v2 s2 (Hf2 & Ha2 & Htc2 & Hel2 & Hph2). case_match eqn:Hto2.
  - wp_steps. by split; [| |split; [lia|]| |].
  - wp_step. eapply wp_mono; [by apply wp_new_call|]. simpl. intros _ s3 [Hf3 Hm3].
    unfold phase in Hph2. simpl in Hph2. rewrite Hto2 in Hph2.
    wp_step. apply wp_signed32; [unfold INT_MIN, INT_MAX in *; destruct Hf3; lia|]. wp_steps.
    split; simpl; [done| |split; [lia|done]|by rewrite Hm3|].
    + eapply accounted_ext; [exact Ha2|..]; by rewrite ?Hm3.
    + unfold phase. simpl. by rewrite Hto2.
Qed.

(** What a run leaves behind. *)
Definition drained (t0 : Z) v s : Prop :=
  timeout v = true ∧ req_cnt v = 0 ∧ j_calls s = ∅ ∧ pending (j_queue s) = ∅ ∧ GI (j_gen s) ∧
  ∃ k, 1 ≤ k ≤ K ∧ accounted t0 (1000 * k + concurrency - 1) v s.

Lemma wp_loop t0 fuel c v s :
  running t0 c v s → 1000 * K + concurrency - c < Z.of_nat fuel →
  wp total (loop now next_request meter_failures fuel start time_dura v) s (λ v' s',
  drained t0 v' s' ∧ start + time_dura < (now (ms_clock (j_meter s'))).1).
Proof using All.
  revert c v s. induction fuel as [|fuel IH]; intros c v s Hrun Hfuel.
  - exfalso. destruct Hrun as [[] _ [? _] _ Hph]. unfold phase in Hph.
    destruct (timeout v); [destruct Hph as (k & ? & ? & ? & ?)|]; lia.
  - simpl. destruct (Z.ltb_spec 0 (req_cnt v)) as [Hpos|Hneg].
    + assert (Hpend : pending (j_queue s) ≠ ∅).
      { destruct Hrun as [[Ht Hn _ _] _ _ _ _]. intros Hemp. rewrite Hemp in Ht.
        apply dom_empty_inv_L in Ht. rewrite Ht, map_size_empty in Hn. lia. }
      destruct (next_pending _ Hpend) as (tag & r & q' & Hnext & Htag & Hq').
      wp_step. unfold wp at 1, next_call. rewrite Hnext.
      wp_step. eapply wp_mono; [by apply (wp_finish_call t0 c); [by destruct s|..]|].
      simpl. intros v' s' Hrun'. apply (IH (c + 1)); [done|lia].
    + apply wp_ret. destruct Hrun as [[Ht Hn _ Hg] Ha _ _ Hph]. unfold phase in Hph.
      destruct (timeout v) eqn:Hto; [|lia]. destruct Hph as (k & Hk & ? & Hr & Hover).
      assert (Hemp : j_calls s = ∅) by (apply map_size_empty_iff; lia).
      rewrite Hemp, dom_empty_L in Ht. split; [|done]. unfold drained. split_and!; try done; [lia|].
      exists k. split; [done|]. replace (1000 * k + concurrency - 1) with c by lia. done.
Qed.
End loop.

Section run.
Context {R L G C : Type} `{!ClientQueue R L} `{!ClientQueueLaws R L}.
Context (now : C → Z * C) (next_request : M G (R * Z)) (meter_failures : bool).
Implicit Types (s : job_state L G C).

Context (GI : G → Prop) (dmin dmax tick time_dura concurrency K : Z).
Hypothesis next_ok : ∀ g, GI g → wp total next_request g (λ rs g', dmin ≤ rs.2 ≤ dmax ∧ GI g').
Hypothesis clock_ok : advances now tick.
Hypothesis ranges : 0 ≤ dmin ∧ 0 < tick ∧ 1 ≤ concurrency ∧ 1 ≤ K ∧ time_dura < K * tick.
Hypothesis calls_ok : 1000 * K + concurrency ≤ INT_MAX.
Hypothesis bytes_ok : (1000 * K + concurrency) * dmax ≤ LONG_MAX.

(** Nothing has been started. *)
Definition ready s : Prop :=
  j_calls s = ∅ ∧ pending (j_queue s) = ∅ ∧ GI (j_gen s) ∧ ms_log (j_meter s) = [].

Local Abbreviation running start := (running now GI dmin dmax tick start time_dura concurrency K).

Lemma wp_begin_calls s :
  ready s →
  wp total (begin_calls now 0 next_request concurrency) s (λ sv s', ∃ t0, running sv.1 t0 0 sv.2 s').
Proof using All.
  destruct ranges as (Hdmin & Htick & Hconc & HK & Hdura). intros (Hc & Hp & Hg & Hlog).
  unfold begin_calls. wp_step.
  eapply wp_mono; [apply (wp_issue next_request GI dmin dmax); try done; [|lia]|].
  { split; [by rewrite Hc, Hp, dom_empty_L|by rewrite Hc, map_size_empty| |done].
    rewrite Hc. apply map_Forall_empty. }
  simpl. intros r s1 (-> & Hf & Hm). destruct s1 as [calls q g m]; simpl in *; subst m.
  unfold j_in_meter, read_clock, set_meter. wp_steps. apply wp_lift. intros start c1 H1.
  wp_steps. apply wp_Meter_make; [unfold INT_MAX; lia|]. simpl. wp_steps.
  exists (now c1).1. rewrite Z2Nat.id in * by lia.
  pose proof (clock_ok (ms_clock (j_meter s))) as Ha. rewrite H1 in Ha. simpl in Ha.
  pose proof (clock_ok c1). split; simpl; [by destruct Hf| |done| |unfold phase; simpl; lia].
  - split; simpl; [lia|]. exists 0, 0. rewrite Hlog. split; [apply fresh_tallied|lia].
  - unfold elapsed. simpl. rewrite Z.div_0_l by done. lia.
Qed.

(** From the first iteration to the end. *)
Lemma wp_drain fuel start t0 v s :
  running start t0 0 v s → 1000 * K + concurrency < Z.of_nat fuel →
  wp total (loop now next_request meter_failures fuel start time_dura v) s (λ v' s',
    wp total (end_calls now start) s' (λ d s'',
    time_dura < d ∧ drained GI dmin dmax concurrency K t0 v' s'')).
Proof using All.
  destruct ranges as (Hdmin & Htick & Hconc & HK & Hdura). intros Hrun Hfuel.
  eapply wp_mono; [apply (wp_loop now next_request meter_failures GI dmin dmax next_ok tick clock_ok
    start time_dura concurrency K) with (t0 := t0) (c := 0); try done; lia|].
  intros v' s' [(Hto & Hr & Hcalls & Hp & Hg & k & Hk & Hacc) Hover].
  unfold end_calls, j_in_meter, read_clock. wp_steps. apply wp_lift. intros t c Ht. wp_steps.
  rewrite Ht in Hover. simpl in Hover. split; [lia|].
  unfold drained. split_and!; try done. exists k. split; [done|by eapply accounted_ext].
Qed.

Lemma wp_run_calls fuel s :
  ready s → 1000 * K + concurrency < Z.of_nat fuel →
  wp total (run_calls now 0 next_request meter_failures fuel concurrency time_dura) s
  (λ vd s', time_dura < vd.2 ∧ ∃ t0, drained GI dmin dmax concurrency K t0 vd.1 s').
Proof using All.
  intros Hready Hfuel. unfold run_calls. wp_step.
  eapply wp_mono; [by apply wp_begin_calls|]. intros [start v] s1 [t0 Hrun]. cbn [fst snd] in *.
  wp_step. eapply wp_mono; [by eapply wp_drain|]. intros v' s2 Hend. cbv beta in Hend.
  wp_step. eapply wp_mono; [exact Hend|]. intros d s3 [Hd Hdr]. wp_step. split; [done|by exists t0].
Qed.
End run.

(** * The throughput client *)

(** The line printed at the end of a run: the answered calls over a time that is longer
    than the configured one. *)
Definition printed (data_size time_dura : Z) (v : vars) (f : figures) : Prop :=
  ∃ d, time_dura < d ∧ f = figures_of data_size v d.

(** What a run of the throughput client leaves behind. *)
Definition tput_drained {L C} `{!ClientQueue Z L} `{!ClientQueueLaws Z L}
    (data_size concurrency time_dura K : Z) (v : vars) (f : figures) (s' : job_state L unit C) : Prop :=
  timeout v = true ∧ req_cnt v = 0 ∧ j_calls s' = ∅ ∧ pending (j_queue s') = ∅ ∧
  (∃ k, 1 ≤ k ≤ K ∧ count v + overlimit v = 1000 * k + concurrency - 1) ∧
  sum (rp_qps <$> ms_log (j_meter s')) + qps (ms_meter (j_meter s')) = count v ∧
  sum (rp_bytes <$> ms_log (j_meter s')) + bytes (ms_meter (j_meter s')) = data_size * count v ∧
  printed data_size time_dura v f.

Lemma drained_tput {L C} `{!ClientQueue Z L} `{!ClientQueueLaws Z L} data_size concurrency time_dura K
    t0 v d (s' : job_state L unit C) :
  time_dura < d → drained (λ _, True) data_size data_size concurrency K t0 v s' →
  tput_drained data_size concurrency time_dura K v (figures_of data_size v d) s'.
Proof.
  intros Hd (Hto & Hr & Hc & Hp & _ & k & Hk & [(? & ? & ?) (B & N & [] & ? & ?)]).
  split_and!; try done; [by exists k|lia|by exists d].
Qed.

(** The request of the client. *)
Lemma tput_request_ok data_size :
  0 ≤ data_size ≤ LONG_MAX →
  ∀ g : unit, True → wp total (mret (data_size, i64 data_size)) g (λ rs g', data_size ≤ rs.2 ≤ data_size ∧ True).
Proof.
  intros Hd g _. apply wp_ret. simpl. rewrite i64_small by (unfold LONG_MIN, LONG_MAX in *; lia). lia.
Qed.

(** The closed loop of the throughput client terminates and drains.  Against any
    completion queue that delivers every started call once (successfully or not,
    in any order), with a clock that advances and the meter enabled, a run with
    [concurrency] calls comes to its end: the timeout was seen, no call object is
    left and the queue owes nothing.  Between [1] and [K] periods of 1000 calls
    have finished, and after the last of them exactly the [concurrency - 1] calls
    still in flight; each is counted once, as answered or over the limit, and the
    meter has accounted for exactly the answered ones and their bytes. *)
Lemma Tput_Job_drains {L C} `{!ClientQueue Z L} `{!ClientQueueLaws Z L} (now : C → Z * C)
    tick data_size concurrency time_dura_us K fuel (s : job_state L unit C) :
  advances now tick →
  0 < tick → 1 ≤ K → time_dura_us * 1000 < K * tick → 1 ≤ concurrency →
  1000 * K + concurrency ≤ INT_MAX →
  0 ≤ data_size → (1000 * K + concurrency) * data_size ≤ LONG_MAX →
  1000 * K + concurrency < Z.of_nat fuel →
  j_calls s = ∅ → pending (j_queue s) = ∅ → ms_log (j_meter s) = [] →
  wp total (Tput_Job now 0 data_size fuel concurrency time_dura_us) s (λ vf s',
    tput_drained data_size concurrency (time_dura_us * 1000) K vf.1 vf.2 s').
Proof.
  intros Hclock Htick HK Hdura Hconc Hcalls Hd Hbytes Hfuel Hc Hp Hlog. unfold Tput_Job. wp_step.
  eapply wp_mono;
    [apply (wp_run_calls now (mret (data_size, i64 data_size)) false (λ _, True) data_size data_size
      tick _ concurrency K); try done; apply tput_request_ok; nia|].
  intros [v d] s' [Hd' [t0 Hdr]]. wp_step. by eapply drained_tput.
Qed.

(** * A queue *)

(** The queue that holds the set of its started calls; the calls with an even tag fail. *)
#[export] Instance demo_queue {R} : ClientQueue R (gset Z) := {
  cq_start _ tag q := {[ tag ]} ∪ q;
  cq_next q := match elements q with
               | [] => (None, q)
               | tag :: _ => (Some (tag, CallResult (Z.odd tag) 8), q ∖ {[ tag ]})
               end;
}.

#[export] Instance demo_queue_laws {R} : ClientQueueLaws R (gset Z).
Proof.
  refine {| pending := λ q : gset Z, q |}; [done|].
  intros q Hq. destruct (set_choose_L q Hq) as [x Hx]. unfold cq_next, demo_queue.
  destruct (elements q) as [|tag l] eqn:Hl.
  - apply elem_of_elements in Hx. rewrite Hl in Hx. by apply elem_of_nil in Hx.
  - eexists tag, _, _. split; [done|]. split; [|done].
    apply elem_of_elements. rewrite Hl. by left.
Defined.

Definition demo_job {G} (g : G) : job_state (gset Z) G Z :=
  JobState ∅ ∅ g (MState (mkMeter 0 0 0 0 0 0 0) [] 0).

Example Tput_Job_demo :
  (λ s, (s.1, length (ms_log (j_meter s.2)), bytes (ms_meter (j_meter s.2)))) <$>
    match Tput_Job demo_now 0 32 1100 4 1000 (demo_job tt) with Ret vs => Some vs | _ => None end
  = Some (mkVars 0 1001 2 8008 true 3, figures_of 32 (mkVars 0 1001 2 8008 true 3) 302400000000, 251%nat, 0).
Proof. vm_compute. reflexivity. Qed.

