(* ===== verification/HotelProps.v ===== *)
(** The workload of the hotel client (grpc/hotel_reservation_app.cc): the
    generator of pseudorandom numbers goes through all its states, and the
    requests and their share. *)
From S2P Require Import Prelude CInt Meter ClosedLoop ClosedLoopProps.
Import Hotel.

Local Open Scope Z_scope.

(** * The linear congruential generator *)

(** The sum of the powers of [a] below [n]. *)
Fixpoint geom (a : Z) (n : nat) : Z :=
  match n with O => 0 | S n => 1 + a * geom a n end.

Lemma geom_pow a n : (a - 1) * geom a n = a ^ Z.of_nat n - 1.
Proof.
  induction n as [|n IH]; [simpl; lia|]. rewrite Nat2Z.inj_succ, Z.pow_succ_r by lia.
  cbn [geom]. nia.
Qed.
Lemma geom_double a n : geom a (n + n) = geom a n * (1 + a ^ Z.of_nat n).
Proof.
  assert (H : ∀ m, geom a (n + m) = geom a n + a ^ Z.of_nat n * geom a m).
  { clear. induction n as [|n IH]; intros m; [simpl; lia|].
    rewrite Nat2Z.inj_succ, Z.pow_succ_r by lia. cbn [geom Nat.add]. rewrite IH. lia. }
  rewrite H. lia.
Qed.
Lemma geom_odd a n : Z.odd a = true → Z.odd (geom a n) = Nat.odd n.
Proof.
  intros Ha. induction n as [|n IH]; [done|]. cbn [geom].
  rewrite Z.odd_add, Z.odd_mul, Ha, IH, Nat.odd_succ, <- Nat.negb_odd. by destruct (Nat.odd n).
Qed.

(** The power of two in [geom a n] is the one in [n]. *)
Lemma geom_divide a k n : a mod 4 = 1 → 0 ≤ k → (2 ^ k | geom a n) ↔ (2 ^ k | Z.of_nat n).
Proof.
  intros Ha Hk. revert n. pattern k. apply natlike_ind; [| |done].
  { intros n. split; intros _; apply Z.divide_1_l. }
  clear k Hk. intros k Hk IH n.
  assert (Hodd : Z.odd a = true) by (apply Z.odd_spec; exists (2 * (a / 4)); Z.div_mod_to_equations; lia).
  assert (Hno : ∀ x, Z.odd x = true → ¬ (2 ^ Z.succ k | x)).
  { intros x Hx [y ->]. rewrite Z.odd_mul, Z.odd_pow in Hx by lia. by rewrite andb_false_r in Hx. }
  destruct (Nat.odd n) eqn:Hn.
  - split; intros Hd; exfalso; eapply Hno, Hd; [by rewrite geom_odd|].
    apply Z.odd_spec. apply Nat.odd_spec in Hn as [m ->]. exists (Z.of_nat m). lia.
  - assert (Hev : Nat.even n = true) by (by rewrite <- Nat.negb_odd, Hn).
    apply Nat.even_spec in Hev as [m ->]. replace (2 * m)%nat with (m + m)%nat by lia.
    rewrite geom_double.
    assert (∃ t, 1 + a ^ Z.of_nat m = 2 * (1 + t * 2)) as (t & ->).
    { assert (Hm : (a ^ Z.of_nat m) mod 4 = 1).
      { rewrite <- Z.mod_pow_l, Ha, Z.pow_1_l by lia. done. }
      exists (a ^ Z.of_nat m / 4). Z.div_mod_to_equations. lia. }
    rewrite Z.pow_succ_r by done. rewrite Nat2Z.inj_add.
    replace (geom a m * (2 * (1 + t * 2))) with (2 * (geom a m * (1 + t * 2))) by lia.
    replace (Z.of_nat m + Z.of_nat m) with (2 * Z.of_nat m) by lia.
    rewrite !Z.mul_divide_cancel_l by done. rewrite <- IH. split.
    + intros Hd. apply (Z.gauss _ (1 + t * 2)); [by rewrite Z.mul_comm|].
      apply Z.coprime_pow_l; [done|]. unfold Z.coprime. by rewrite Z.gcd_add_mult_diag_r.
    + intros Hd. by apply Z.divide_mul_l.
Qed.

(** The step on the seed. *)
Definition seed_step (x : Z) : Z := u32 (214013 * x + 2531011).
Definition seed_at (n : nat) (x : Z) : Z := Nat.iter n seed_step x.

Lemma seed_at_range n x : 0 ≤ x < 2 ^ 32 → 0 ≤ seed_at n x < 2 ^ 32.
Proof. destruct n; [done|]. intros _. apply u32_range. Qed.

Lemma seed_at_closed n x :
  0 ≤ x < 2 ^ 32 → seed_at n x = u32 (214013 ^ Z.of_nat n * x + 2531011 * geom 214013 n).
Proof.
  intros Hx. induction n as [|n IH].
  - simpl geom. change (214013 ^ Z.of_nat 0) with 1. rewrite u32_small; [|lia]. simpl. lia.
  - unfold seed_at in *. simpl Nat.iter. rewrite IH. unfold seed_step, u32.
    rewrite <- Z.add_mod_idemp_l, Z.mul_mod_idemp_r, Z.add_mod_idemp_l by done.
    rewrite Nat2Z.inj_succ, Z.pow_succ_r by lia. cbn [geom]. f_equal. lia.
Qed.

Lemma seed_at_add n m x : seed_at (n + m) x = seed_at n (seed_at m x).
Proof. apply Nat.iter_add. Qed.

(** The generator has the full period. *)
Lemma seed_period n x :
  0 ≤ x < 2 ^ 32 → seed_at n x = x ↔ (2 ^ 32 | Z.of_nat n).
Proof.
  intros Hx. rewrite <- (geom_divide 214013 32 n) by done. rewrite seed_at_closed by done.
  set (S := geom 214013 n).
  assert (Heq : 214013 ^ Z.of_nat n * x + 2531011 * S = x + S * (214012 * x + 2531011)).
  { pose proof (geom_pow 214013 n). subst S. nia. }
  rewrite Heq. clear Heq.
  transitivity (2 ^ 32 | S * (214012 * x + 2531011)).
  - unfold u32. split.
    + intros Hm. apply Z.mod_divide; [done|].
      replace (S * _) with (x + S * (214012 * x + 2531011) - x) by lia.
      by rewrite Zminus_mod, Hm, (Z.mod_small x), Z.sub_diag.
    + intros [q Hq]. rewrite Hq, Z.mod_add by done. by apply Z.mod_small.
  - split; [|by apply Z.divide_mul_l].
    intros Hd. apply (Z.gauss _ (214012 * x + 2531011)); [by rewrite Z.mul_comm|].
    apply Z.coprime_pow_l; [done|]. unfold Z.coprime.
    replace (214012 * x + 2531011) with (1 + (107006 * x + 1265505) * 2) by lia.
    by rewrite Z.gcd_add_mult_diag_r.
Qed.

(** The seeds of one period are all the seeds, each once. *)
Definition orbit (x : Z) (n : nat) : list Z := (λ i, seed_at (S i) x) <$> seq 0 n.

Lemma seed_at_inj i j x :
  0 ≤ x < 2 ^ 32 → (i ≤ j)%nat → Z.of_nat j < Z.of_nat i + 2 ^ 32 →
  seed_at i x = seed_at j x → i = j.
Proof.
  intros Hx Hij Hj Heq. replace j with ((j - i) + i)%nat in Heq by lia.
  rewrite seed_at_add in Heq. symmetry in Heq. apply seed_period in Heq; [|by apply seed_at_range].
  destruct (decide (i = j)) as [|Hne]; [done|]. apply Z.divide_pos_le in Heq; lia.
Qed.

Lemma orbit_NoDup x n : 0 ≤ x < 2 ^ 32 → Z.of_nat n ≤ 2 ^ 32 → NoDup (orbit x n).
Proof.
  intros Hx Hn. apply NoDup_fmap_2_strong; [|apply NoDup_seq].
  intros i j Hi Hj Heq. rewrite elem_of_seq in Hi, Hj.
  destruct (decide (i ≤ j)%nat).
  - enough (S i = S j) by lia. eapply seed_at_inj; [done|lia|lia|done].
  - enough (S j = S i) by lia. eapply seed_at_inj; [done|lia|lia|by symmetry].
Qed.

Lemma orbit_all x n : 0 ≤ x < 2 ^ 32 → Z.of_nat n = 2 ^ 32 → orbit x n ≡ₚ seqZ 0 (2 ^ 32).
Proof.
  intros Hx Hn. apply submseteq_length_Permutation.
  - apply NoDup_submseteq; [apply orbit_NoDup; [done|lia]|].
    intros s Hs. apply list_elem_of_fmap in Hs as (i & -> & _).
    apply elem_of_seqZ. rewrite Z.add_0_l. by apply seed_at_range.
  - unfold orbit. rewrite length_seqZ, length_fmap, length_seq. lia.
Qed.

(** Counting over the upper halves. *)
Lemma filter_const {A} (P : A → Prop) `{!∀ x, Decision (P x)} (Q : Prop) `{!Decision Q} (l : list A) :
  (∀ x, x ∈ l → P x ↔ Q) → length (filter P l) = (if decide Q then length l else 0)%nat.
Proof.
  rewrite <- list.Forall_forall. induction 1 as [|x l Hx _ IH]; [by case_decide|].
  rewrite filter_cons. destruct (decide (P x)), (decide Q); simpl; tauto || lia.
Qed.

Lemma length_filter_fmap {A B} (f : A → B) (P : B → Prop) `{!∀ x, Decision (P x)} (l : list A) :
  length (filter P (f <$> l)) = length (filter (λ x, P (f x)) l).
Proof.
  induction l as [|x l IH]; [done|]. rewrite fmap_cons, !filter_cons.
  destruct (decide (P (f x))); simpl; by rewrite IH.
Qed.

Lemma count_shift (P : Z → Prop) `{!∀ x, Decision (P x)} n :
  Z.of_nat (length (filter (λ s, P (Z.shiftr s 16)) (seqZ 0 (2 ^ 16 * Z.of_nat n)))) =
  2 ^ 16 * Z.of_nat (length (filter P (seqZ 0 (Z.of_nat n)))).
Proof.
  induction n as [|n IH]; [done|].
  rewrite Nat2Z.inj_succ, Z.mul_succ_r, <- Z.add_1_r, !seqZ_app, !list.filter_app, !length_app by lia.
  rewrite !Nat2Z.inj_add, Z.mul_add_distr_l, IH. f_equal.
  rewrite (filter_const _ (P (Z.of_nat n))).
  - rewrite !Z.add_0_l. change (seqZ (Z.of_nat n) 1) with [Z.of_nat n].
    rewrite filter_cons, filter_nil, length_seqZ.
    destruct (decide (P (Z.of_nat n))); cbn [length]; lia.
  - intros s Hs. apply elem_of_seqZ in Hs. rewrite Z.shiftr_div_pow2 by done.
    replace (s / 2 ^ 16) with (Z.of_nat n); [done|].
    apply (Z.div_unique_pos s _ _ (s - 2 ^ 16 * Z.of_nat n)); lia.
Qed.

(** Counting without building the list. *)
Fixpoint count_from (P : Z → bool) (n : nat) (m : Z) : Z :=
  match n with
  | O => 0
  | S n => (if P m then 1 else 0) + count_from P n (Z.succ m)
  end.

Lemma count_from_filter (P : Z → Prop) `{!∀ x, Decision (P x)} n m :
  Z.of_nat (length (filter P (seqZ m (Z.of_nat n)))) = count_from (λ x, bool_decide (P x)) n m.
Proof.
  revert m. induction n as [|n IH]; intros m; [done|].
  rewrite seqZ_cons, filter_cons by lia. replace (Z.pred (Z.of_nat (S n))) with (Z.of_nat n) by lia.
  cbn [count_from]. rewrite <- IH.
  pose proof (bool_decide_spec (P m)). case_bool_decide; destruct (decide (P m)); cbn [length]; tauto || lia.
Qed.

(** * The workload *)

Definition danyang : Request := mkRequest "danyang" ["42"%string] "2022-09-01" "2022-09-02" 128.
Definition matt : Request := mkRequest "matt" ["42"%string] "2022-09-02" "2022-09-03" 129.
Definition is_danyang (h : Z) : Prop := Z.land h 0x7FFF `mod` 100 = 0.
#[export] Instance is_danyang_dec h : Decision (is_danyang h).
Proof. unfold is_danyang. apply _. Defined.
(** The request for a seed. *)
Definition pick (seed : Z) : Request :=
  if decide (is_danyang (Z.shiftr seed 16)) then danyang else matt.

Section workload.
Context (ByteSizeLong : Request → Z).

(** Before the first call, or initialised. *)
Definition workload_ok (w : workload) : Prop :=
  0 ≤ g_seed w < 2 ^ 32 ∧
  (w = workload_start (g_seed w) ∨
  w = Workload true [danyang; matt] [ByteSizeLong danyang; ByteSizeLong matt] (g_seed w)).

Lemma wp_GenerateWorkload E w (Q : Request * Z → workload → Prop) :
  workload_ok w →
  (∀ w', workload_ok w' → g_seed w' = seed_step (g_seed w) →
  let r := pick (g_seed w') in Q (r, ByteSizeLong r) w') →
  wp E (GenerateWorkload ByteSizeLong) w Q.
Proof.
  intros [Hs Hw] HQ. unfold GenerateWorkload. wp_steps. eapply wp_mono with
    (P := λ _ w', w' = Workload true [danyang; matt] [ByteSizeLong danyang; ByteSizeLong matt] (g_seed w)).
  { destruct Hw as [-> | ->]; simpl; [|by apply wp_ret].
    unfold init_workload, set_request. wp_steps. done. }
  simpl. intros _ w1 ->. wp_step. apply wp_zoom. unfold fast_rand.
  wp_step. apply wp_modify. apply wp_gets. cbn [g_seed init request req_size].
  fold (seed_step (g_seed w)).
  assert (Hx : 0 ≤ Z.land (Z.shiftr (seed_step (g_seed w)) 16) 0x7FFF < 32768).
  { change 0x7FFF with (Z.ones 15). rewrite Z.land_ones by done.
    change 32768 with (2 ^ 15). by apply Z.mod_pos_bound. }
  specialize (HQ (Workload true [danyang; matt] [ByteSizeLong danyang; ByteSizeLong matt]
    (seed_step (g_seed w)))). simpl in HQ. unfold pick, is_danyang in HQ.
  rewrite Z.rem_mod_nonneg by lia.
  set (x := Z.land _ _) in *. pose proof (Z.mod_pos_bound x 100).
  specialize (HQ ltac:(split; [apply u32_range|by right]) eq_refl).
  destruct (Z.ltb_spec (x mod 100) 1); [rewrite decide_True in HQ by lia|rewrite decide_False in HQ by lia];
    simpl; wp_steps; done.
Qed.

(** A run of requests. *)
Fixpoint generate (n : nat) : M workload (list (Request * Z)) :=
  match n with
  | O => mret []
  | S n => r ← GenerateWorkload ByteSizeLong; l ← generate n; mret (r :: l)
  end.

Lemma orbit_S x n : orbit x (S n) = seed_step x :: orbit (seed_step x) n.
Proof.
  unfold orbit. simpl. f_equal. rewrite <- fmap_S_seq, <- list_fmap_compose.
  apply list_fmap_ext. intros _ i _. simpl. f_equal. symmetry. apply Nat.iter_swap.
Qed.

Lemma wp_generate E n w :
  workload_ok w →
  wp E (generate n) w (λ l w',
  l = (λ s, (pick s, ByteSizeLong (pick s))) <$> orbit (g_seed w) n ∧
  workload_ok w' ∧ g_seed w' = seed_at n (g_seed w)).
Proof.
  revert w. induction n as [|n IH]; intros w Hw; cbn [generate]; [by apply wp_ret|].
  rewrite orbit_S. wp_step. apply wp_GenerateWorkload; [done|]. simpl. intros w1 Hw1 Hs1. wp_step.
  eapply wp_mono; [by apply IH|]. simpl. intros l w2 (-> & Hw2 & Hs2). wp_steps.
  split_and!; [|done|].
  - by rewrite Hs1.
  - rewrite Hs2, Hs1. apply Nat.iter_swap.
Qed.

Lemma danyang_orbit x n :
  0 ≤ x < 2 ^ 32 → Z.of_nat n = 2 ^ 32 →
  Z.of_nat (length (filter (λ s, is_danyang (Z.shiftr s 16)) (orbit x n))) = 656 * 2 ^ 16.
Proof.
  intros Hx Hn. rewrite (orbit_all x n Hx Hn).
  change (2 ^ 32) with (2 ^ 16 * Z.of_nat (Z.to_nat 65536)). rewrite count_shift.
  rewrite count_from_filter.
  assert (H : count_from (λ x, bool_decide (is_danyang x)) (Z.to_nat 65536) 0 = 656)
    by (vm_compute; reflexivity).
  rewrite H. lia.
Qed.

(** C24. The hotel workload.  From any seed, every request is one of two fixed ones
    with its own size; the generator goes through all its 2^32 seeds before it
    repeats one, so over that many requests the rare one is sent exactly
    656 * 2^16 times (328 in 32768) and the generator is back at its seed. *)
Theorem workload_share n w :
  workload_ok w → Z.of_nat n = 2 ^ 32 →
  wp total (generate n) w (λ l w',
  Forall (λ rn, (rn.1 = danyang ∨ rn.1 = matt) ∧ rn.2 = ByteSizeLong rn.1) l ∧
  length l = n ∧ NoDup (orbit (g_seed w) n) ∧
  Z.of_nat (length (filter (λ rn, rn.1 = danyang) l)) = 656 * 2 ^ 16 ∧
  g_seed w' = g_seed w).
Proof.
  intros Hw Hn. assert (Hs : 0 ≤ g_seed w < 2 ^ 32) by apply Hw.
  eapply wp_mono; [by apply wp_generate|]. simpl. intros l w' (-> & _ & Hs').
  split_and!.
  - apply Forall_fmap, Forall_true. intros s. simpl. split; [|done]. unfold pick. case_decide; auto.
  - unfold orbit. by rewrite !length_fmap, length_seq.
  - apply orbit_NoDup; [done|lia].
  - rewrite length_filter_fmap, <- (danyang_orbit (g_seed w) n Hs Hn).
    f_equal. f_equal. apply list_filter_iff. intros s. simpl. unfold pick.
    clear Hs Hs'. case_decide; simpl; naive_solver.
  - rewrite Hs'. apply (proj2 (seed_period n _ Hs)). by rewrite Hn.
Qed.
End workload.

Lemma workload_share_witness :
  wp total (generate (λ _, 31) (Z.to_nat (2 ^ 32))) (workload_start 0) (λ l w',
    Forall (λ rn, (rn.1 = danyang ∨ rn.1 = matt) ∧ rn.2 = 31) l ∧
    length l = Z.to_nat (2 ^ 32) ∧ NoDup (orbit 0 (Z.to_nat (2 ^ 32))) ∧
    Z.of_nat (length (filter (λ rn, rn.1 = danyang) l)) = 656 * 2 ^ 16 ∧
    g_seed w' = 0).
Proof.
  refine (workload_share (λ _, 31) (Z.to_nat (2 ^ 32)) (workload_start 0) _ _).
  - split; [|by left]. cbn. lia.
  - apply Z2Nat.id. lia.
Defined.

(** * The client *)

(** C27. The closed loop of the hotel client terminates and drains, like the one of
    the throughput client: all its calls are counted once, as answered or over the
    limit, the meter has counted the answered ones, and their bytes are between
    those of the smaller and those of the larger of the two requests.  The printed
    rates are over a time longer than the configured one; the outgoing bytes in them
    are not the meter's, but [data_size] for each answered call. *)
Theorem Hotel_Run_drains {L C} `{!ClientQueue Request L} `{!ClientQueueLaws Request L}
    (now : C → Z * C) (ByteSizeLong : Request → Z) lo hi
    tick data_size concurrency time_dura_s K fuel (s : job_state L workload C) :
  (∀ r, 0 ≤ lo ≤ ByteSizeLong r ∧ ByteSizeLong r ≤ hi ≤ LONG_MAX) →
  advances now tick →
  0 < tick → 1 ≤ K → time_dura_s * 1000000000 < K * tick → 1 ≤ concurrency →
  1000 * K + concurrency ≤ INT_MAX → (1000 * K + concurrency) * hi ≤ LONG_MAX →
  1000 * K + concurrency < Z.of_nat fuel →
  j_calls s = ∅ → pending (j_queue s) = ∅ → workload_ok ByteSizeLong (j_gen s) →
  ms_log (j_meter s) = [] →
  wp total (Run ByteSizeLong now 0 data_size fuel concurrency time_dura_s) s (λ vf s',
    let v := vf.1 in
    timeout v = true ∧ req_cnt v = 0 ∧ j_calls s' = ∅ ∧ pending (j_queue s') = ∅ ∧
    (∃ k, 1 ≤ k ≤ K ∧ count v + overlimit v = 1000 * k + concurrency - 1) ∧
    sum (rp_qps <$> ms_log (j_meter s')) + qps (ms_meter (j_meter s')) = count v ∧
    lo * count v ≤ sum (rp_bytes <$> ms_log (j_meter s')) + bytes (ms_meter (j_meter s'))
      ≤ hi * count v ∧
    printed data_size (time_dura_s * 1000000000) v vf.2).
Proof.
  intros Hsize Hclock Htick HK Hdura Hconc Hcalls Hbytes Hfuel Hc Hp Hg Hlog.
  assert (Hlo : 0 ≤ lo) by apply (Hsize danyang). unfold Run. wp_step.
  eapply wp_mono;
    [apply (wp_run_calls now (rs ← GenerateWorkload ByteSizeLong; mret (rs.1, i64 rs.2)) true
      (workload_ok ByteSizeLong) lo hi tick _ concurrency K); try done|].
  { intros w Hw. wp_step. apply wp_GenerateWorkload; [done|]. simpl. intros w' Hw' _.
    apply wp_ret. split; [|done]. simpl. specialize (Hsize (pick (g_seed w'))).
    rewrite i64_small; [lia|]. unfold LONG_MIN. lia. }
  intros [v d] s' [Hd (t0 & Hto & Hr & Hc' & Hp' & _ & k & Hk & [(? & ? & ?) (B & N & [] & ? & ?)])].
  wp_step. cbn [fst snd] in *. split_and!; try done; [by exists k|lia|lia|by exists d].
Qed.

Lemma Hotel_Run_drains_witness :
  wp total (Run (λ _, 31) demo_now 0 64 1100 4 0 (L := gset Z)) (demo_job (workload_start 0)) (λ vf s',
    let v := vf.1 in
    timeout v = true ∧ req_cnt v = 0 ∧ j_calls s' = ∅ ∧ pending (R := Request) (j_queue s') = ∅ ∧
    (∃ k, 1 ≤ k ≤ 1 ∧ count v + overlimit v = 1000 * k + 4 - 1) ∧
    sum (rp_qps <$> ms_log (j_meter s')) + qps (ms_meter (j_meter s')) = count v ∧
    31 * count v ≤ sum (rp_bytes <$> ms_log (j_meter s')) + bytes (ms_meter (j_meter s'))
      ≤ 31 * count v ∧
    printed 64 0 v vf.2).
Proof.
  apply (Hotel_Run_drains demo_now (λ _, 31) 31 31 600000000 64 4 0 1 1100
    (demo_job (workload_start 0))); try done; unfold advances, INT_MAX, LONG_MAX; simpl; try lia.
  split; [|by left]. cbn. lia.
Defined.

Example Run_demo :
  (λ s, (s.1.1, g_seed (j_gen s.2))) <$>
    match Run (λ r, Z.of_nat (String.length (customername r))) demo_now 0 64 1100 4 0
      (demo_job (workload_start 0)) with Ret vs => Some vs | _ => None end
  = Some (mkVars 0 1001 2 8008 true 3, 2440323741).
Proof. vm_compute. reflexivity. Qed.
