(* ===== verification/GrpcServer.v ===== *)
(** The asynchronous servers of grpc/grpc_lat_app.{h,cc} (latency and throughput)
    and grpc/hotel_reservation_app.{h,cc}: a call object per request, driven by
    the completion queue through the states CREATE, PROCESS and FINISH.  The two
    classes [AsyncServerCall] differ in the reply only. *)
From S2P Require Import Prelude CInt.

Local Open Scope Z_scope.

(** * The completion queue of a gRPC server *)

(** What a call has asked for: the next request, or the end of its reply. *)
Inductive operation := Request_op | Finish_op.

(** [service_->Request...(..., this)], [responder_.Finish(reply, OK, this)] and
    [Next]; the tag is the address of the call. *)
Class ServerQueue (Rep Q : Type) := {
  sq_request : Z → Q → Q;
  sq_finish : Z → Rep → Q → Q;
  sq_next : Q → option Z * Q;
}.

(** The queue returns the tag of an operation that is outstanding, once. *)
Class ServerQueueLaws (Rep Q : Type) `{!ServerQueue Rep Q} := {
  outstanding : Q → gmap Z operation;
  sent : Q → list Rep;
  request_law tag q :
    outstanding q !! tag = None →
    outstanding (sq_request tag q) = <[tag := Request_op]> (outstanding q) ∧
    sent (sq_request tag q) = sent q;
  finish_law tag rep q :
    outstanding q !! tag = None →
    outstanding (sq_finish tag rep q) = <[tag := Finish_op]> (outstanding q) ∧
    sent (sq_finish tag rep q) = sent q ++ [rep];
  next_law q tag q' :
    sq_next q = (Some tag, q') →
    is_Some (outstanding q !! tag) ∧ outstanding q' = delete tag (outstanding q) ∧
    sent q' = sent q;
}.

(** * The calls *)

Inductive CallStatus := CREATE | PROCESS | FINISH.

#[export] Instance CallStatus_eq_dec : EqDecision CallStatus.
Proof. solve_decision. Defined.

Record AsyncServerCall (Rep : Type) := mkCall { status_ : CallStatus; ack_ : Rep }.
Arguments mkCall {Rep} _ _.
Arguments status_ {Rep} _.
Arguments ack_ {Rep} _.

(** A thread of the server: its call objects by address, and its queue. *)
Record thread (Rep Q : Type) := Thread { objects : gmap Z (AsyncServerCall Rep); cq_ : Q }.
Arguments Thread {Rep Q} _ _.
Arguments objects {Rep Q} _.
Arguments cq_ {Rep Q} _.

Section server.
Context {Rep Q : Type} `{!ServerQueue Rep Q}.
(** The reply that the constructor prepares. *)
Context (reply : Rep).

Definition set_status (this : Z) (st : CallStatus) : M (thread Rep Q) unit :=
  objs ← gets objects;
  o ← deref (objs !! this);
  modify (λ s, Thread (<[this := mkCall st (ack_ o)]> (objects s)) (cq_ s)).

Definition on_queue (f : Q → Q) : M (thread Rep Q) unit :=
  modify (λ s, Thread (objects s) (f (cq_ s))).

(** [new AsyncServerCall(...)]: the constructor calls [Proceed]. *)
Definition AsyncServerCall_new (proceed : Z → M (thread Rep Q) unit) : M (thread Rep Q) unit :=
  objs ← gets objects;
  let this := fresh (dom objs) in
  _ ← modify (λ s, Thread (<[this := mkCall CREATE reply]> (objects s)) (cq_ s));
  proceed this.

(** [Proceed] calls itself through the constructor, on a new call in the state
    CREATE. *)
Fixpoint Proceed (fuel : nat) (this : Z) : M (thread Rep Q) unit :=
  match fuel with
  | O => nofuel
  | S fuel =>
    objs ← gets objects;
    o ← deref (objs !! this);
    match status_ o with
    | CREATE =>
        _ ← set_status this PROCESS;
        on_queue (sq_request this)
    | PROCESS =>
        _ ← AsyncServerCall_new (Proceed fuel);
        _ ← set_status this FINISH;
        on_queue (sq_finish this (ack_ o))
    | FINISH => modify (λ s, Thread (delete this (objects s)) (cq_ s))
    end
  end.

Definition Next : M (thread Rep Q) (option Z) := λ s,
  let (tag, q) := sq_next (cq_ s) in Ret (tag, Thread (objects s) q).

(** [n] iterations of the event loop; [GPR_ASSERT] aborts when the queue has
    been shut down. *)
Fixpoint events (n : nat) : M (thread Rep Q) unit :=
  match n with
  | O => mret tt
  | S n =>
    tag ← Next;
    match tag with
    | None => fatal
    | Some tag => _ ← Proceed 2 tag; events n
    end
  end.

(** [GrpcLatServerApp::Job] and [HotelReservationServerApp::HandleRpcs], up to
    [n] events. *)
Definition Job (n : nat) : M (thread Rep Q) unit :=
  _ ← AsyncServerCall_new (Proceed 2);
  events n.
End server.

(** ** The two servers *)

(** The reply of the latency and throughput server: [data_size] bytes. *)
Definition lat_ack (data_size : Z) : list byte := replicate (Z.to_nat data_size) Byte.x62.
Definition Lat_Job {Q} `{!ServerQueue (list byte) Q} (data_size : Z) (n : nat) :
    M (thread (list byte) Q) unit := Job (lat_ack data_size) n.

(** The reply of the hotel server: the hotel's id, set after [add_hotelid]. *)
Definition hotel_result : list string := <[0%nat := "42"%string]> ([] ++ [""%string]).
Definition Hotel_Proceed {Q} `{!ServerQueue (list string) Q} :
    nat → Z → M (thread (list string) Q) unit := Proceed hotel_result.
Definition Hotel_AsyncServerCall_new {Q} `{!ServerQueue (list string) Q} :
    M (thread (list string) Q) unit := AsyncServerCall_new hotel_result (Hotel_Proceed 2).
Definition HandleRpcs {Q} `{!ServerQueue (list string) Q} (n : nat) :
    M (thread (list string) Q) unit := Job hotel_result n.

(** * The invariant of a thread *)

Section proofs.
Context {Rep Q : Type} `{!ServerQueue Rep Q} `{!ServerQueueLaws Rep Q} (reply : Rep).
Implicit Types (s : thread Rep Q).

(** What a call object waits for. *)
Definition waits_for (o : AsyncServerCall Rep) : operation :=
  match status_ o with FINISH => Finish_op | _ => Request_op end.

(** [served] requests have arrived and [done_] of their calls are deleted.
    Every object has one outstanding operation, the one of its state; exactly
    one, [w], waits for the next request. *)
Record thread_inv (w : Z) (served done_ : nat) s : Prop := {
  ti_ops : outstanding (cq_ s) = waits_for <$> objects s;
  ti_reply : map_Forall (λ _ o, ack_ o = reply) (objects s);
  ti_wait : is_Some (objects s !! w);
  ti_state : map_Forall (λ tag o, status_ o = if decide (tag = w) then PROCESS else FINISH) (objects s);
  ti_sent : sent (cq_ s) = replicate served reply;
  ti_size : (size (objects s) + done_ = 1 + served)%nat;
}.

Lemma wp_Proceed E fuel this s o (P : unit → thread Rep Q → Prop) :
  objects s !! this = Some o →
  wp E (match status_ o with
      | CREATE => _ ← set_status this PROCESS; on_queue (sq_request this)
      | PROCESS =>
          _ ← AsyncServerCall_new reply (Proceed reply fuel);
          _ ← set_status this FINISH;
          on_queue (sq_finish this (ack_ o))
      | FINISH => modify (λ s, Thread (delete this (objects s)) (cq_ s))
      end) s P →
  wp E (Proceed reply (S fuel) this) s P.
Proof. intros Ho H. cbn [Proceed]. wp_step. apply wp_gets. by apply wp_bind, (wp_deref _ _ o). Qed.

Lemma wp_set_status E this st s o (P : unit → thread Rep Q → Prop) :
  objects s !! this = Some o →
  P tt (Thread (<[this := mkCall st (ack_ o)]> (objects s)) (cq_ s)) →
  wp E (set_status this st) s P.
Proof. intros Ho HP. unfold set_status. wp_step. apply wp_gets. by apply wp_bind, (wp_deref _ _ o). Qed.

Lemma wp_new E fuel s (P : unit → thread Rep Q → Prop) :
  (∀ w, objects s !! w = None →
   P tt (Thread (<[w := mkCall PROCESS reply]> (objects s)) (sq_request w (cq_ s)))) →
  wp E (AsyncServerCall_new reply (Proceed reply (S fuel))) s P.
Proof.
  intros HP. unfold AsyncServerCall_new. do 4 wp_step. cbn [objects cq_].
  set (w := fresh (dom (objects s))).
  assert (Hw : w ∉ dom (objects s)) by apply is_fresh.
  apply (wp_Proceed _ _ _ _ (mkCall CREATE reply)); [apply lookup_insert_eq|]. cbn [status_]. wp_step.
  apply (wp_set_status _ _ _ _ (mkCall CREATE reply)); [apply lookup_insert_eq|].
  unfold on_queue. wp_steps. rewrite insert_insert_eq. by apply HP, not_elem_of_dom.
Qed.

(** The tag of a queue in the invariant is one of the objects. *)
Lemma inv_tag w served done_ s tag q :
  thread_inv w served done_ s → sq_next (cq_ s) = (Some tag, q) →
  ∃ o, objects s !! tag = Some o ∧ ack_ o = reply ∧
  status_ o = (if decide (tag = w) then PROCESS else FINISH) ∧
  outstanding q = waits_for <$> delete tag (objects s) ∧ sent q = replicate served reply.
Proof using ServerQueueLaws0.
  intros [Hops Hr _ Hst Hsent _] Hn. destruct (next_law _ _ _ Hn) as (Hin & Hq & Hs).
  rewrite Hops in Hin, Hq. rewrite lookup_fmap, fmap_is_Some in Hin. destruct Hin as [o Ho].
  exists o. rewrite fmap_delete, Hs. by split_and!; [|apply (Hr tag)|apply (Hst tag)| |].
Qed.

(** A request has arrived and its call [w] is answered; the new call [w'] waits. *)
Lemma inv_request w served done_ s q w' :
  thread_inv w served done_ s → sq_next (cq_ s) = (Some w, q) → objects s !! w' = None →
  ∃ o, objects s !! w = Some o ∧ status_ o = PROCESS ∧ w ≠ w' ∧
  thread_inv w' (S served) done_
    (Thread (<[w := mkCall FINISH (ack_ o)]> (<[w' := mkCall PROCESS reply]> (objects s)))
       (sq_finish w (ack_ o) (sq_request w' q))).
Proof using ServerQueueLaws0.
  intros Hinv Hn Hw'. destruct (inv_tag _ _ _ _ _ _ Hinv Hn) as (o & Ho & Hack & Hst & Hout & Hsent).
  destruct Hinv as [_ Hr _ Hstate _ Hsize]. rewrite decide_True in Hst by done.
  assert (Hne : w ≠ w') by (intros ->; simplify_eq). exists o. split_and!; try done.
  destruct (request_law w' q) as [Hout1 Hsent1].
  { by rewrite Hout, lookup_fmap, lookup_delete_ne, Hw' by done. }
  destruct (finish_law w (ack_ o) (sq_request w' q)) as [Hout2 Hsent2].
  { by rewrite Hout1, lookup_insert_ne, Hout, lookup_fmap, lookup_delete_eq by done. }
  split; simpl.
  - rewrite Hout2, Hout1, Hout, !fmap_insert, fmap_delete. unfold waits_for. simpl.
    rewrite insert_insert_ne, insert_delete_eq by done. by rewrite insert_insert_ne.
  - apply map_Forall_insert_2; [done|]. by apply map_Forall_insert_2.
  - rewrite lookup_insert_ne, lookup_insert_eq by done. done.
  - intros tag o'. rewrite !lookup_insert_Some.
    intros [[<- <-]|[Hn1 [[<- <-]|[Hn2 Ho']]]]; simpl.
    + by rewrite decide_False.
    + by rewrite decide_True.
    + rewrite decide_False by done. by rewrite (Hstate _ _ Ho'), decide_False.
  - by rewrite Hsent2, Hsent1, Hsent, Hack, <- replicate_S_end.
  - rewrite map_size_insert_Some by by rewrite lookup_insert_ne.
    rewrite map_size_insert_None by done. lia.
Qed.

(** A reply has gone out and its call is deleted. *)
Lemma inv_finish w served done_ s tag q :
  thread_inv w served done_ s → sq_next (cq_ s) = (Some tag, q) → tag ≠ w →
  ∃ o, objects s !! tag = Some o ∧ status_ o = FINISH ∧
  thread_inv w served (S done_) (Thread (delete tag (objects s)) q).
Proof using ServerQueueLaws0.
  intros Hinv Hn Hne. destruct (inv_tag _ _ _ _ _ _ Hinv Hn) as (o & Ho & Hack & Hst & Hout & Hsent).
  destruct Hinv as [_ Hr Hw Hstate _ Hsize]. rewrite decide_False in Hst by done.
  exists o. split_and!; try done. split; simpl; try done.
  - by apply map_Forall_delete.
  - by rewrite lookup_delete_ne.
  - by apply map_Forall_delete.
  - rewrite map_size_delete_Some by done.
    assert (size (objects s) ≠ 0%nat); [|lia].
    intros He%map_size_empty_iff. by rewrite He in Ho.
Qed.

(** The first call. *)
Lemma inv_start w q :
  outstanding q = ∅ → sent q = [] →
  thread_inv w 0 0 (Thread (<[w := mkCall PROCESS reply]> ∅) (sq_request w q)).
Proof using ServerQueueLaws0.
  intros Hout Hsent. destruct (request_law w q) as [Hout' Hsent']; [by rewrite Hout|].
  split; simpl; rewrite ?Hout', ?Hout, ?Hsent'; [|by apply map_Forall_insert_2; [|apply map_Forall_empty]| | |done|].
  - by rewrite fmap_insert, fmap_empty.
  - by rewrite lookup_insert_eq.
  - intros tag o [[<- <-]|[_ Ho]]%lookup_insert_Some; simpl; [by rewrite decide_True|done].
  - rewrite insert_empty, map_size_singleton. done.
Qed.

(** The same of [Proceed] and of the constructor. *)
Lemma wp_Proceed_request E w served done_ s q :
  thread_inv w served done_ s → sq_next (cq_ s) = (Some w, q) →
  wp E (Proceed reply 2 w) (Thread (objects s) q) (λ _ s', ∃ w', thread_inv w' (S served) done_ s').
Proof using ServerQueueLaws0.
  intros Hinv Hn. destruct (inv_tag _ _ _ _ _ _ Hinv Hn) as (o & Ho & _ & Hst & _).
  rewrite decide_True in Hst by done.
  apply (wp_Proceed _ _ _ _ o); [done|]. rewrite Hst. wp_step. apply wp_new. simpl. intros w' Hw'.
  destruct (inv_request _ _ _ _ _ w' Hinv Hn Hw') as (o' & Ho' & _ & Hne & Hinv'). simplify_eq.
  wp_step. apply (wp_set_status _ _ _ _ o); [simpl; by rewrite lookup_insert_ne|].
  unfold on_queue. apply wp_modify. by exists w'.
Qed.

Lemma wp_Proceed_finish E w served done_ s tag q :
  thread_inv w served done_ s → sq_next (cq_ s) = (Some tag, q) → tag ≠ w →
  wp E (Proceed reply 2 tag) (Thread (objects s) q) (λ _ s', thread_inv w served (S done_) s').
Proof using ServerQueueLaws0.
  intros Hinv Hn Hne. destruct (inv_finish _ _ _ _ _ _ Hinv Hn Hne) as (o & Ho & Hst & Hinv').
  apply (wp_Proceed _ _ _ _ o); [done|]. rewrite Hst. by apply wp_modify.
Qed.

Lemma wp_start E q :
  outstanding q = ∅ → sent q = [] →
  wp E (AsyncServerCall_new reply (Proceed reply 2)) (Thread ∅ q) (λ _ s, ∃ w, thread_inv w 0 0 s).
Proof using ServerQueueLaws0.
  intros Hout Hsent. apply wp_new; simpl. intros w _. exists w. by apply inv_start.
Qed.

Lemma wp_events n w served done_ s :
  thread_inv w served done_ s →
  wp (λ r, r = Fatal) (events reply n) s (λ _ s', ∃ w' served' done',
  (served' + done' = served + done_ + n)%nat ∧ thread_inv w' served' done' s').
Proof using ServerQueueLaws0.
  revert w served done_ s. induction n as [|n IH]; intros w served done_ s Hinv; cbn [events].
  - apply wp_ret. exists w, served, done_. split; [lia|done].
  - wp_step. unfold wp at 1, Next. destruct (sq_next (cq_ s)) as [[tag|] q] eqn:Hn; [|done].
    wp_step. destruct (decide (tag = w)) as [->|Hne].
    + eapply wp_mono; [by eapply wp_Proceed_request|]. simpl. intros _ s' [w' Hinv'].
      eapply wp_mono; [by eapply IH|]. simpl. intros _ s2 (w2 & a & b & ? & ?).
      exists w2, a, b. split; [lia|done].
    + eapply wp_mono; [by eapply wp_Proceed_finish|]. simpl. intros _ s' Hinv'.
      eapply wp_mono; [by eapply IH|]. simpl. intros _ s2 (w2 & a & b & ? & ?).
      exists w2, a, b. split; [lia|done].
Qed.

(** What a thread has done after [n] events. *)
Definition serves (n : nat) s : Prop := ∃ w served finished,
  n = (served + finished)%nat ∧
  sent (cq_ s) = replicate served reply ∧
  dom (outstanding (cq_ s)) = dom (objects s) ∧
  outstanding (cq_ s) !! w = Some Request_op ∧
  (∀ tag op, tag ≠ w → outstanding (cq_ s) !! tag = Some op → op = Finish_op) ∧
  (size (objects s) + finished = 1 + served)%nat.

Lemma thread_inv_serves w served finished s :
  thread_inv w served finished s → serves (served + finished) s.
Proof.
  intros [Hops _ [o Ho] Hst ? ?]. exists w, served, finished. split_and!; try done.
  - by rewrite Hops, dom_fmap_L.
  - rewrite Hops, lookup_fmap, Ho. simpl. unfold waits_for. by rewrite (Hst _ _ Ho), decide_True.
  - intros tag op Hne. rewrite Hops, lookup_fmap, fmap_Some. intros (o' & Ho' & ->).
    unfold waits_for. by rewrite (Hst _ _ Ho'), decide_False.
Qed.

(** C11. A server thread answers every request once and leaks nothing.  From an
    empty queue, whatever the order of its events, the thread goes on for any
    number [n] of events, or is aborted by its own assertion when the queue is
    shut down.  Then [served] requests have arrived and exactly as many replies,
    all the prepared one, have been handed out; every call object waits for
    exactly one operation; exactly one of them waits for the next request, and
    the others, [served] less the finished ones, for the end of their reply. *)
Theorem Job_serves n q :
  outstanding q = ∅ → sent q = [] →
  wp (λ r, r = Fatal) (Job reply n) (Thread ∅ q) (λ _ s, ∃ w served finished,
  n = (served + finished)%nat ∧
  sent (cq_ s) = replicate served reply ∧
  dom (outstanding (cq_ s)) = dom (objects s) ∧
  outstanding (cq_ s) !! w = Some Request_op ∧
  (∀ tag op, tag ≠ w → outstanding (cq_ s) !! tag = Some op → op = Finish_op) ∧
  (size (objects s) + finished = 1 + served)%nat).
Proof using ServerQueueLaws0.
  intros Hout Hsent. unfold Job. wp_step. eapply wp_mono; [by apply wp_start|].
  simpl. intros _ s [w Hinv]. eapply wp_mono; [by apply (wp_events n w 0 0)|].
  simpl. intros _ s' (w' & served & finished & Hn & Hinv').
  replace n with (served + finished)%nat by lia. by apply thread_inv_serves in Hinv'.
Qed.
End proofs.

(** * A queue *)

(** The queue that returns its operations by the order of their tags. *)
#[export] Instance demo_server_queue {Rep} : ServerQueue Rep (gmap Z operation * list Rep) := {
  sq_request tag q := (<[tag := Request_op]> q.1, q.2);
  sq_finish tag rep q := (<[tag := Finish_op]> q.1, q.2 ++ [rep]);
  sq_next q := match map_to_list q.1 with
               | [] => (None, q)
               | (tag, _) :: _ => (Some tag, (delete tag q.1, q.2))
               end;
}.

#[export] Instance demo_server_queue_laws {Rep} :
  ServerQueueLaws Rep (gmap Z operation * list Rep).
Proof.
  refine {| outstanding := fst; sent := snd |}; [done|done|].
  intros [m l] tag q'. simpl. destruct (map_to_list m) as [|[tag' op] ms] eqn:Hm; [done|].
  intros [= <- <-]. split; [|done]. exists op. apply elem_of_map_to_list. rewrite Hm. by left.
Defined.

Example Lat_Job_demo :
  (λ s : thread (list byte) (gmap Z operation * list (list byte)),
    (map_to_list (status_ <$> objects s), (cq_ s).2)) <$>
    match Lat_Job 2 5 (Thread ∅ (∅, [])) with Ret (_, s) => Some s | _ => None end
  = Some ([(4, PROCESS); (2, FINISH); (1, FINISH); (0, FINISH)], replicate 4 [Byte.x62; Byte.x62]).
Proof. vm_compute. reflexivity. Qed.

Lemma Job_serves_witness :
  wp (λ r, r = Fatal) (Job hotel_result 7) (Thread ∅ (∅, [])) (λ _ s, ∃ w served finished,
    7%nat = (served + finished)%nat ∧
    sent (cq_ s) = replicate served hotel_result ∧
    dom (outstanding (Rep := list string) (cq_ s)) = dom (objects s) ∧
    outstanding (Rep := list string) (cq_ s) !! w = Some Request_op ∧
    (∀ tag op, tag ≠ w → outstanding (Rep := list string) (cq_ s) !! tag = Some op → op = Finish_op) ∧
    (size (objects s) + finished = 1 + served)%nat).
Proof. refine (Job_serves hotel_result 7 (∅, []) _ _); reflexivity. Defined.
