(* ===== verification/Threads.v ===== *)
(** Threads that share nothing that changes: a list of states, one for each thread, and
    turns in any order.  Whatever the order, each thread does what it does alone. *)
From S2P Require Import Prelude.

(** Code over one element of a list of states. *)
Definition at_index {S A} (i : nat) (m : M S A) : M (list S) A := λ l,
  match l !! i with
  | None => Stop Undef
  | Some s =>
      match m s with
      | Ret (a, s') => Ret (a, <[i := s']> l)
      | Stop r => Stop r
      end
  end.

Lemma wp_at_index {S A} E i (m : M S A) l s (P : A → list S → Prop) :
  l !! i = Some s → wp E m s (λ a s', P a (<[i := s']> l)) → wp E (at_index i m) l P.
Proof. intros Hl. unfold wp, at_index. rewrite Hl. by destruct (m s) as [[]|]. Qed.

(** How often an index is in a list. *)
Definition occ (i : nat) (sched : list nat) : nat := length (filter (eq i) sched).

Lemma occ_cons i j sched :
  occ i (j :: sched) = (if decide (i = j) then S (occ i sched) else occ i sched).
Proof. unfold occ. rewrite filter_cons. by case_decide. Qed.

Section turns.
Context {T : Type} (turn : M T unit).

(** The turns in some order. *)
Fixpoint turns (sched : list nat) : M (list T) unit :=
  match sched with
  | [] => mret tt
  | i :: sched => _ ← at_index i turn; turns sched
  end.

(** Some turns of one thread. *)
Fixpoint alone (n : nat) : M T unit :=
  match n with
  | O => mret tt
  | S n => _ ← turn; alone n
  end.

(** What each thread does alone, all of them do in any order. *)
Lemma wp_turns E sched l (Q : nat → T → Prop) :
  Forall (λ i, i < length l)%nat sched →
  (∀ i s, l !! i = Some s → wp E (alone (occ i sched)) s (λ _ s', Q i s')) →
  wp E (turns sched) l (λ _ l', length l' = length l ∧ ∀ i s', l' !! i = Some s' → Q i s').
Proof.
  revert l. induction sched as [|i sched IH]; intros l Hs Hall; cbn [turns].
  - apply wp_ret. split; [done|]. intros i s Hl. by apply (Hall i s Hl).
  - apply Forall_cons_iff in Hs as [Hi Hs]. destruct (lookup_lt_is_Some_2 _ _ Hi) as [s Hl].
    wp_step. eapply wp_at_index; [done|]. pose proof (Hall i s Hl) as Hown.
    rewrite occ_cons, decide_True in Hown by done. cbn [alone] in Hown.
    apply wp_bind_inv in Hown. eapply wp_mono; [exact Hown|]. intros [] s1 Hs1. cbv beta in Hs1.
    eapply wp_mono; [apply (IH (<[i := s1]> l)); [by rewrite length_insert|]|].
    + intros i' s' Hl'. destruct (decide (i' = i)) as [->|Hne].
      * rewrite list_lookup_insert_eq in Hl' by done. by injection Hl' as <-.
      * rewrite list_lookup_insert_ne in Hl' by done. specialize (Hall i' s' Hl').
        by rewrite occ_cons, decide_False in Hall.
    + simpl. by rewrite length_insert.
Qed.
End turns.
