(* ===== verification/GrpcThreads.v ===== *)
(** grpc/grpc_lat_app.{h,cc}, class [GrpcLatServerApp]: the threads that [Run] starts, in
    any interleaving.  They share the application: the vector of completion queues,
    which each thread indexes by its number, and the call objects, which live in one
    heap and know the queue they belong to.  ([Run] as a whole is in GrpcSetup.v.) *)
From S2P Require Import Prelude CInt Threads GrpcServer.

Local Open Scope Z_scope.

(** * The shared state *)
Module Lat.

(** An [AsyncServerCall]: which queue of the vector its member [cq_] points to, and the
    rest of its state. *)
Record server_call (Rep : Type) := ServerCall { call_cq : nat; call_state : AsyncServerCall Rep }.
Arguments ServerCall {Rep} _ _.
Arguments call_cq {Rep} _.
Arguments call_state {Rep} _.

(** Where a thread is in [Job]: before its first call, before [Next], or after [Next] has
    given it a tag. *)
Inductive position := At_start | At_next | At_proceed (tag : Z).

(** The application and its threads. *)
Record lat_server (Rep Q : Type) := LatServer {
  cq_ : list Q;
  calls : gmap Z (server_call Rep);
  positions : list position;
}.
Arguments LatServer {Rep Q} _ _ _.
Arguments cq_ {Rep Q} _.
Arguments calls {Rep Q} _.
Arguments positions {Rep Q} _.

Section server.
Context {Rep Q : Type} `{!ServerQueue Rep Q}.
(** The reply that the constructor prepares. *)
Context (reply : Rep).

Definition set_cq (qs : list Q) : M (lat_server Rep Q) unit :=
  modify (λ s, LatServer qs (calls s) (positions s)).
Definition set_calls (cs : gmap Z (server_call Rep)) : M (lat_server Rep Q) unit :=
  modify (λ s, LatServer (cq_ s) cs (positions s)).
Definition set_position (thread_id : nat) (p : position) : M (lat_server Rep Q) unit :=
  modify (λ s, LatServer (cq_ s) (calls s) (<[thread_id := p]> (positions s))).

(** An operation on the queue of the vector that a pointer points to. *)
Definition on_queue (i : nat) (f : Q → Q) : M (lat_server Rep Q) unit :=
  qs ← gets cq_;
  q ← deref (qs !! i);
  set_cq (<[i := f q]> qs).

Definition set_status (this : Z) (st : CallStatus) : M (lat_server Rep Q) unit :=
  cs ← gets calls;
  o ← deref (cs !! this);
  set_calls (<[this := ServerCall (call_cq o) (mkCall st (ack_ (call_state o)))]> cs).

(** [new AsyncServerCall(service, cq, data_size)], by whatever thread: an address that no
    call has. *)
Definition AsyncServerCall_new (proceed : Z → M (lat_server Rep Q) unit) (cq : nat) :
    M (lat_server Rep Q) unit :=
  cs ← gets calls;
  let this := fresh (dom cs) in
  _ ← set_calls (<[this := ServerCall cq (mkCall CREATE reply)]> cs);
  proceed this.

Fixpoint Proceed (fuel : nat) (this : Z) : M (lat_server Rep Q) unit :=
  match fuel with
  | O => nofuel
  | S fuel =>
    cs ← gets calls;
    o ← deref (cs !! this);
    match status_ (call_state o) with
    | CREATE =>
        _ ← set_status this PROCESS;
        on_queue (call_cq o) (sq_request this)
    | PROCESS =>
        _ ← AsyncServerCall_new (Proceed fuel) (call_cq o);
        _ ← set_status this FINISH;
        on_queue (call_cq o) (sq_finish this (ack_ (call_state o)))
    | FINISH => set_calls (delete this cs)
    end
  end.

(** [cq_[thread_id]->Next(&tag, &ok)] *)
Definition Next (thread_id : nat) : M (lat_server Rep Q) (option Z) :=
  qs ← gets cq_;
  q ← deref (qs !! thread_id);
  let (tag, q) := sq_next q in
  _ ← set_cq (<[thread_id := q]> qs);
  mret tag.

(** A turn of [Job(thread_id)]: its first call, or its part of a round up to the end of
    [Next] or of [Proceed].  Between two turns other threads have theirs. *)
Definition turn (thread_id : nat) : M (lat_server Rep Q) unit :=
  ps ← gets positions;
  p ← deref (ps !! thread_id);
  match p with
  | At_start =>
      _ ← AsyncServerCall_new (Proceed 2) thread_id;
      set_position thread_id At_next
  | At_next =>
      tag ← Next thread_id;
      match tag with
      | None => fatal
      | Some tag => set_position thread_id (At_proceed tag)
      end
  | At_proceed tag =>
      _ ← Proceed 2 tag;
      set_position thread_id At_next
  end.

Fixpoint run_turns (sched : list nat) : M (lat_server Rep Q) unit :=
  match sched with
  | [] => mret tt
  | thread_id :: sched => _ ← turn thread_id; run_turns sched
  end.

(** The threads are made, and have their turns in the order of [sched]. *)
Definition run_threads (nthread : Z) (sched : list nat) : M (lat_server Rep Q) unit :=
  _ ← modify (λ s, LatServer (cq_ s) (calls s) (replicate (Z.to_nat nthread) At_start));
  run_turns sched.
End server.

(** * Each thread through its own eyes *)
Section proofs.
Context {Rep Q : Type} `{!ServerQueue Rep Q} `{!ServerQueueLaws Rep Q} (reply : Rep).
Implicit Types (s : lat_server Rep Q) (i j : nat).

(** The calls that belong to a queue. *)
Definition calls_of i (cs : gmap Z (server_call Rep)) : gmap Z (AsyncServerCall Rep) :=
  call_state <$> filter (λ x, call_cq x.2 = i) cs.

Lemma calls_of_lookup i cs a o :
  calls_of i cs !! a = Some o ↔ cs !! a = Some (ServerCall i o).
Proof.
  unfold calls_of. rewrite lookup_fmap, fmap_Some. split.
  - intros ([j o'] & [Hc Hj]%map_lookup_filter_Some & ->). simpl in *. by subst.
  - intros Hc. exists (ServerCall i o). split; [|done]. by apply map_lookup_filter_Some.
Qed.

Lemma calls_of_None i cs a : cs !! a = None → calls_of i cs !! a = None.
Proof.
  intros Hn. apply eq_None_not_Some. intros [o Ho%calls_of_lookup]. congruence.
Qed.

Lemma calls_of_insert i cs a o : calls_of i (<[a := ServerCall i o]> cs) = <[a := o]> (calls_of i cs).
Proof. unfold calls_of. by rewrite map_filter_insert_True, fmap_insert. Qed.

Lemma calls_of_delete i cs a : calls_of i (delete a cs) = delete a (calls_of i cs).
Proof. unfold calls_of. by rewrite map_filter_delete, fmap_delete. Qed.

(** What happens to the call of one queue does not show in another. *)
Lemma calls_of_insert_ne i j cs a o :
  i ≠ j → calls_of j cs !! a = None → calls_of j (<[a := ServerCall i o]> cs) = calls_of j cs.
Proof.
  intros Hne Hn. unfold calls_of in *.
  by rewrite map_filter_insert_False, map_filter_delete, fmap_delete, delete_id by done.
Qed.

Lemma calls_of_other i j cs a o : i ≠ j → cs !! a = Some (ServerCall i o) → calls_of j cs !! a = None.
Proof. intros Hne Ha. apply eq_None_not_Some. intros [o' Ho%calls_of_lookup]. congruence. Qed.

(** Queue [i] is [q], its calls are [os], and thread [i] is at [p]. *)
Record view i p os q s : Prop := {
  vw_position : positions s !! i = Some p;
  vw_calls : calls_of i (calls s) = os;
  vw_queue : cq_ s !! i = Some q;
}.

(** Between [s] and [s'] only thread [i] has done something. *)
Record only i s s' : Prop := {
  on_views : ∀ j p os q, j ≠ i → view j p os q s → view j p os q s';
  on_queues : length (cq_ s') = length (cq_ s);
  on_threads : length (positions s') = length (positions s);
  on_owners : ∀ a o, calls s' !! a = Some o →
    call_cq o = i ∨ calls s !! a = Some o;
}.

Lemma only_trans i s s1 s2 : only i s s1 → only i s1 s2 → only i s s2.
Proof.
  intros [Hv Hq Ht Ho] [Hv' Hq' Ht' Ho']. split; [by eauto|congruence|congruence|].
  intros a o Ha. destruct (Ho' a o Ha); [by left|]. by apply Ho.
Qed.

(** ** What the operations do *)

Lemma wp_set_position E i p p' os q s (P : unit → lat_server Rep Q → Prop) :
  view i p' os q s → (∀ s', only i s s' → view i p os q s' → P tt s') →
  wp E (set_position i p) s P.
Proof.
  intros [Hp Hc Hq] HP. unfold set_position. apply wp_modify, HP.
  - split; simpl; [|done|by rewrite length_insert|by right].
    intros j p1 os1 q1 Hne [Hp1 Hc1 Hq1]. split; simpl; [|done|done].
    by rewrite list_lookup_insert_ne.
  - split; simpl; [|done|done]. apply list_lookup_insert_eq. by eapply lookup_lt_Some.
Qed.

Lemma wp_on_queue E i f p os q s (P : unit → lat_server Rep Q → Prop) :
  view i p os q s → (∀ s', only i s s' → view i p os (f q) s' → P tt s') →
  wp E (on_queue i f) s P.
Proof.
  intros [Hp Hc Hq] HP. unfold on_queue. wp_step. apply wp_gets. wp_step.
  eapply wp_deref; [done|]. apply wp_modify, HP.
  - split; simpl; [|by rewrite length_insert|done|by right].
    intros j p1 os1 q1 Hne [Hp1 Hc1 Hq1]. split; simpl; [done|done|].
    by rewrite list_lookup_insert_ne.
  - split; simpl; [done|done|]. apply list_lookup_insert_eq. by eapply lookup_lt_Some.
Qed.

(** Writing to a call of queue [i], or to a new one, or deleting one. *)
Lemma view_insert i p os q s a o :
  view i p os q s → is_Some (os !! a) ∨ calls s !! a = None →
  let s' := LatServer (cq_ s) (<[a := ServerCall i o]> (calls s)) (positions s) in
  only i s s' ∧ view i p (<[a := o]> os) q s'.
Proof.
  intros [Hp Hc Hq] Ha s'. split.
  - split; simpl; [|done|done|].
    + intros j p1 os1 q1 Hne [Hp1 Hc1 Hq1]. split; simpl; [done| |done].
      rewrite calls_of_insert_ne; [done|done|].
      destruct Ha as [[o' Ho']|Hn]; [|by apply calls_of_None].
      rewrite <- Hc in Ho'. apply calls_of_lookup in Ho'. by eapply (calls_of_other i).
    + intros b o' [[<- <-]|[_ Hb]]%lookup_insert_Some; [by left|by right].
  - split; simpl; [done| |done]. by rewrite calls_of_insert, Hc.
Qed.

Lemma view_delete i p os q s a :
  view i p os q s → is_Some (os !! a) →
  let s' := LatServer (cq_ s) (delete a (calls s)) (positions s) in
  only i s s' ∧ view i p (delete a os) q s'.
Proof.
  intros [Hp Hc Hq] [o Ho] s'. rewrite <- Hc in Ho. apply calls_of_lookup in Ho. split.
  - split; simpl; [|done|done|].
    + intros j p1 os1 q1 Hne [Hp1 Hc1 Hq1]. split; simpl; [done| |done].
      rewrite calls_of_delete, delete_id; [done|]. by eapply (calls_of_other i).
    + intros b o' [_ Hb]%lookup_delete_Some. by right.
  - split; simpl; [done| |done]. by rewrite calls_of_delete, Hc.
Qed.

Lemma view_lookup i p os q s a o :
  view i p os q s → os !! a = Some o → calls s !! a = Some (ServerCall i o).
Proof. intros [_ Hc _] Ho. rewrite <- Hc in Ho. by apply calls_of_lookup. Qed.

Lemma wp_Lat_set_status E i p os q s this st o (P : unit → lat_server Rep Q → Prop) :
  view i p os q s → os !! this = Some o →
  (∀ s', only i s s' → view i p (<[this := mkCall st (ack_ o)]> os) q s' → P tt s') →
  wp E (set_status this st) s P.
Proof.
  intros Hv Ho HP. unfold set_status. wp_step. apply wp_gets. wp_step.
  eapply wp_deref; [by eapply view_lookup|]. apply wp_modify. simpl.
  destruct (view_insert i p os q s this (mkCall st (ack_ o)) Hv) as [Hon Hv']; [by left|].
  by apply HP.
Qed.

(** [Proceed] of a call of the queue. *)
Lemma wp_Lat_Proceed E fuel i p os q s this o (P : unit → lat_server Rep Q → Prop) :
  view i p os q s → os !! this = Some o →
  wp E (match status_ o with
      | CREATE => _ ← set_status this PROCESS; on_queue i (sq_request this)
      | PROCESS =>
          _ ← AsyncServerCall_new reply (Proceed reply fuel) i;
          _ ← set_status this FINISH;
          on_queue i (sq_finish this (ack_ o))
      | FINISH => set_calls (delete this (calls s))
      end) s P →
  wp E (Proceed reply (S fuel) this) s P.
Proof.
  intros Hv Ho H. cbn [Proceed]. wp_step. apply wp_gets. wp_step.
  eapply wp_deref; [by eapply view_lookup|]. exact H.
Qed.

(** A new call of the queue, at an address that is free in the whole heap. *)
Lemma wp_Lat_new E fuel i p os q s (P : unit → lat_server Rep Q → Prop) :
  view i p os q s →
  (∀ w s', os !! w = None → only i s s' →
    view i p (<[w := mkCall PROCESS reply]> os) (sq_request w q) s' → P tt s') →
  wp E (AsyncServerCall_new reply (Proceed reply (S fuel)) i) s P.
Proof.
  intros Hv HP. unfold AsyncServerCall_new. wp_step. apply wp_gets.
  set (w := fresh (dom (calls s))).
  assert (Hw : calls s !! w = None) by (apply not_elem_of_dom, is_fresh).
  wp_step. apply wp_modify.
  destruct (view_insert i p os q s w (mkCall CREATE reply) Hv) as [Hon Hv1]; [by right|].
  eapply wp_Lat_Proceed; [exact Hv1|apply lookup_insert_eq|]. cbn [status_]. wp_step.
  eapply wp_Lat_set_status; [exact Hv1|apply lookup_insert_eq|]. intros s2 Hon2 Hv2.
  rewrite insert_insert_eq in Hv2. eapply wp_on_queue; [exact Hv2|]. intros s3 Hon3 Hv3.
  apply (HP w); [|by eapply only_trans; [eapply only_trans|]|exact Hv3].
  destruct Hv as [_ <- _]. by apply calls_of_None.
Qed.

Lemma wp_Next E i p os q s (P : option Z → lat_server Rep Q → Prop) :
  view i p os q s →
  (∀ tag q' s', sq_next q = (tag, q') → only i s s' → view i p os q' s' → P tag s') →
  wp E (Next i) s P.
Proof.
  intros [Hp Hc Hq] HP. unfold Next. wp_step. apply wp_gets. wp_step.
  eapply wp_deref; [done|]. destruct (sq_next q) as [tag q'] eqn:Hn. wp_step. apply wp_modify, wp_ret.
  apply (HP _ q'); [done| |].
  - split; simpl; [|by rewrite length_insert|done|by right].
    intros j p1 os1 q1 Hne [Hp1 Hc1 Hq1]. split; simpl; [done|done|].
    by rewrite list_lookup_insert_ne.
  - split; simpl; [done|done|]. apply list_lookup_insert_eq. by eapply lookup_lt_Some.
Qed.

(** ** The threads *)
Context (new_queue : Q).

(** Thread [i] after [k] turns: it has not begun; or it has handled some events, and its
    next turn is to ask for one; or it has been given the tag of one. *)
Definition thread_at (k i : nat) s : Prop := ∃ p os q, view i p os q s ∧
  match p with
  | At_start => k = O ∧ os = ∅ ∧ q = new_queue
  | At_next => ∃ w served finished,
      k = S (2 * (served + finished)) ∧ thread_inv reply w served finished (Thread os q)
  | At_proceed tag => ∃ w served finished q0,
      k = S (S (2 * (served + finished))) ∧
      thread_inv reply w served finished (Thread os q0) ∧ sq_next q0 = (Some tag, q)
  end.

Lemma only_thread_at i j k s s' : only i s s' → j ≠ i → thread_at k j s → thread_at k j s'.
Proof. intros Hon Hne (p & os & q & Hv & H). exists p, os, q. split; [by eapply on_views|done]. Qed.

Hypothesis queue_empty : outstanding new_queue = ∅.
Hypothesis queue_fresh : sent new_queue = [].

Lemma wp_turn k i s :
  thread_at k i s →
  wp (λ r, r = Fatal) (turn reply i) s (λ _ s', only i s s' ∧ thread_at (S k) i s').
Proof using All.
  intros (p & os & q & Hv & Hp). unfold turn. wp_step. apply wp_gets. wp_step.
  eapply wp_deref; [apply Hv|]. destruct p as [| |tag].
  - destruct Hp as (-> & -> & ->). wp_step. eapply wp_Lat_new; [exact Hv|]. intros w s1 _ Hon1 Hv1.
    eapply wp_set_position; [exact Hv1|]. intros s2 Hon2 Hv2. split; [by eapply only_trans|].
    eexists _, _, _. split; [exact Hv2|]. exists w, O, O. split; [done|]. by apply inv_start.
  - destruct Hp as (w & served & finished & -> & Hinv). wp_step.
    eapply wp_Next; [exact Hv|]. intros [tag|] q1 s1 Hn Hon1 Hv1; [|done].
    eapply wp_set_position; [exact Hv1|]. intros s2 Hon2 Hv2. split; [by eapply only_trans|].
    eexists _, _, _. split; [exact Hv2|]. by exists w, served, finished, q.
  - destruct Hp as (w & served & finished & q0 & -> & Hinv & Hn). wp_step.
    destruct (decide (tag = w)) as [->|Hne].
    + destruct (inv_tag _ _ _ _ _ _ _ Hinv Hn) as (o & Ho & _ & Hst & _). simpl in Ho.
      rewrite decide_True in Hst by done.
      eapply wp_Lat_Proceed; [exact Hv|exact Ho|]. rewrite Hst. wp_step.
      eapply wp_Lat_new; [exact Hv|]. intros w' s1 Hw' Hon1 Hv1.
      destruct (inv_request _ _ _ _ _ _ w' Hinv Hn Hw') as (o' & Ho' & _ & Hne & Hinv').
      simpl in Ho', Hinv'. rewrite Ho in Ho'. injection Ho' as <-. wp_step.
      eapply wp_Lat_set_status; [exact Hv1|by rewrite lookup_insert_ne|]. intros s2 Hon2 Hv2.
      eapply wp_on_queue; [exact Hv2|]. intros s3 Hon3 Hv3.
      eapply wp_set_position; [exact Hv3|]. intros s4 Hon4 Hv4.
      split; [by eauto using only_trans|].
      eexists _, _, _. split; [exact Hv4|]. exists w', (S served), finished. split; [lia|done].
    + destruct (inv_finish _ _ _ _ _ _ _ Hinv Hn Hne) as (o & Ho & Hst & Hinv'). simpl in Ho, Hinv'.
      eapply wp_Lat_Proceed; [exact Hv|exact Ho|]. rewrite Hst. apply wp_modify.
      destruct (view_delete i _ os q s tag Hv) as [Hon1 Hv1]; [by eexists|].
      eapply wp_set_position; [exact Hv1|]. intros s2 Hon2 Hv2. split; [by eapply only_trans|].
      eexists _, _, _. split; [exact Hv2|]. exists w, served, (S finished). split; [lia|done].
Qed.

(** All of them, after the turns that [f] counts. *)
Record threads_at (f : nat → nat) n s : Prop := {
  ta_queues : length (cq_ s) = n;
  ta_owners : ∀ a o, calls s !! a = Some o → (call_cq o < n)%nat;
  ta_threads : ∀ i, (i < n)%nat → thread_at (f i) i s;
}.

Lemma wp_run_turns sched f n s :
  threads_at f n s → Forall (λ i, i < n)%nat sched →
  wp (λ r, r = Fatal) (run_turns reply sched) s (λ _ s', threads_at (λ i, f i + occ i sched)%nat n s').
Proof using All.
  revert f s. induction sched as [|i sched IH]; intros f s [Hq Ho Ht] Hs; cbn [run_turns].
  { apply wp_ret. split; [done|done|]. intros i Hi. rewrite Nat.add_0_r. by apply Ht. }
  apply Forall_cons_iff in Hs as [Hi Hs]. wp_step.
  eapply wp_mono; [apply (wp_turn (f i)); by apply Ht|]. intros [] s1 [Hon H1].
  eapply wp_mono; [apply (IH (λ j, if decide (j = i) then S (f j) else f j)); [|done]|].
  - split; [by rewrite (on_queues _ _ _ Hon)| |].
    + intros a o Ha. destruct (on_owners _ _ _ Hon a o Ha) as [->|]; [done|by eapply Ho].
    + intros j Hj. case_decide as Hji; [by subst|]. by eapply only_thread_at; [..|apply Ht].
  - intros [] s2 [Hq2 Ho2 Ht2]. split; [done|done|]. intros j Hj. specialize (Ht2 j Hj). revert Ht2.
    rewrite occ_cons. by case_decide; rewrite ?Nat.add_succ_r.
Qed.

(** What the threads have done.  There is a queue for each thread and every call belongs
    to one of them.  A thread that has had no turn has not begun; after an odd number,
    [1 + 2 * n], it has handled [n] events as alone; after an even one it has moreover
    taken the tag of the next event from its queue. *)
Definition all_serve (nthread : Z) (sched : list nat) s : Prop :=
  length (cq_ s) = Z.to_nat nthread ∧
  (∀ a o, calls s !! a = Some o → (call_cq o < Z.to_nat nthread)%nat) ∧
  ∀ i, (i < Z.to_nat nthread)%nat → ∃ p q, positions s !! i = Some p ∧ cq_ s !! i = Some q ∧
    match p with
    | At_start => occ i sched = O ∧ calls_of i (calls s) = ∅ ∧ q = new_queue
    | At_next => ∃ n, occ i sched = S (2 * n) ∧ serves reply n (Thread (calls_of i (calls s)) q)
    | At_proceed tag => ∃ n q0, occ i sched = S (S (2 * n)) ∧ sq_next q0 = (Some tag, q) ∧
        serves reply n (Thread (calls_of i (calls s)) q0)
    end.

Lemma wp_run_threads nthread sched s :
  cq_ s = replicate (Z.to_nat nthread) new_queue → calls s = ∅ →
  Forall (λ i, i < Z.to_nat nthread)%nat sched →
  wp (λ r, r = Fatal) (run_threads reply nthread sched) s (λ _ s', all_serve nthread sched s').
Proof using All.
  intros Hq Hc Hs. unfold run_threads. wp_step. apply wp_modify.
  eapply wp_mono; [apply (wp_run_turns sched (λ _, O) (Z.to_nat nthread)); [|done]|].
  - split; simpl; [by rewrite Hq, length_replicate|by rewrite Hc|].
    intros i Hi. exists At_start, ∅, new_queue. split; [|done].
    split; simpl; [by apply lookup_replicate_2|by rewrite Hc|].
    rewrite Hq. by apply lookup_replicate_2.
  - intros [] s' [Hl Ho Ht]. split_and!; [done|done|]. intros i Hi.
    destruct (Ht i Hi) as (p & os & q & [Hp <- Hq'] & H). exists p, q. split_and!; [done|done|].
    destruct p as [| |tag]; [done| |].
    + destruct H as (w & a & b & Hk & Hinv). exists (a + b)%nat. split; [done|].
      by eapply thread_inv_serves.
    + destruct H as (w & a & b & q0 & Hk & Hinv & Hn). exists (a + b)%nat, q0. split_and!; [done|done|].
      by eapply thread_inv_serves.
Qed.
End proofs.
End Lat.
