(* ===== verification/TputThreads.v ===== *)
(** grpc/grpc_tput_app.cc, [GrpcTputClientApp::Run]: the threads of the throughput client,
    in any interleaving, each with its own channel, queue, calls and meter. *)
From S2P Require Import Prelude CInt Meter Threads ClosedLoop ClosedLoopProps.

Local Open Scope Z_scope.

(** Where [Job] is: before its first call, in its loop, or at its end. *)
Inductive place :=
  | JobStart
  | JobLoop (start : Z) (v : vars)
  | JobDone (v : vars) (f : figures).

(** A thread: the place, and the state of ClosedLoop.v. *)
Record tput_job (L C : Type) := TputJob { tj_place : place; tj_state : job_state L unit C }.
Arguments TputJob {L C} _ _.
Arguments tj_place {L C} _.
Arguments tj_state {L C} _.

Section threads.
Context {L C : Type} `{!ClientQueue Z L} (now : C → Z * C).
Context (meter_env data_size concurrency time_dura_us : Z).
(** A queue as it is constructed, and the clock as each thread sees it. *)
Context (new_queue : L) (clock : nat → C).

Abbreviation JM := (M (job_state L unit C)).
Definition on_job {A} (m : JM A) : M (tput_job L C) A :=
  zoom tj_state (λ s j, TputJob (tj_place j) s) m.
Definition goto (pc : place) : M (tput_job L C) unit := modify (λ j, TputJob pc (tj_state j)).

Definition request : M unit (Z * Z) := mret (data_size, i64 data_size).

(** One iteration of the loop of [Job], or what comes after it. *)
Definition job_iteration (start : Z) (v : vars) : JM place :=
  let finish v := (d ← end_calls now start; mret (JobDone v (figures_of data_size v d))) in
  if 0 <? req_cnt v then
    r ← next_call;
    match r with
    | None => finish v
    | Some (tag, r) =>
        v ← finish_call now request false start (time_dura_us * 1000) tag r v;
        mret (JobLoop start v)
    end
  else finish v.

(** A turn of a thread; a thread that has ended has no more to do. *)
Definition turn : M (tput_job L C) unit :=
  pc ← gets tj_place;
  match pc with
  | JobStart =>
      sv ← on_job (begin_calls now meter_env request concurrency);
      goto (JobLoop sv.1 sv.2)
  | JobLoop start v => pc ← on_job (job_iteration start v); goto pc
  | JobDone _ _ => mret tt
  end.

Definition job_start (i : nat) : tput_job L C :=
  TputJob JobStart (JobState ∅ new_queue tt (MState (mkMeter 0 0 0 0 0 0 0) [] (clock i))).

Definition ended (j : tput_job L C) : bool :=
  match tj_place j with JobDone _ _ => true | _ => false end.

(** [threads[i].join()] for all of them. *)
Definition join : M (list (tput_job L C)) unit :=
  l ← get;
  if forallb ended l then mret tt else nofuel.

(** [Run]: the queues, the threads in the order of [sched], and their ends; [reserve]
    throws for a number that is negative. *)
Definition Tput_Run (nthread : Z) (sched : list nat) : M (list (tput_job L C)) Z :=
  if nthread <? 0 then throw length_error
  else
    _ ← put (job_start <$> seq 0 (Z.to_nat nthread));
    _ ← turns turn sched;
    _ ← join;
    mret 0.

(** ** A thread alone *)

Implicit Types (s : job_state L unit C) (j : tput_job L C).

(** The thread is at its end, with what it prints and its state in [Q]. *)
Definition ended_in (Q : vars → figures → job_state L unit C → Prop) j : Prop :=
  ∃ v f, tj_place j = JobDone v f ∧ Q v f (tj_state j).

Lemma wp_job_turn j (Q : tput_job L C → Prop) :
  match tj_place j with
  | JobStart =>
      wp total (begin_calls now meter_env request concurrency) (tj_state j)
        (λ sv s', Q (TputJob (JobLoop sv.1 sv.2) s'))
  | JobLoop start v => wp total (job_iteration start v) (tj_state j) (λ pc s', Q (TputJob pc s'))
  | JobDone _ _ => Q j
  end →
  wp total turn j (λ _ j', Q j').
Proof.
  unfold turn. intros HQ. wp_step. apply wp_gets. destruct (tj_place j); [..|by wp_step].
  all: unfold on_job, goto; wp_steps; eapply wp_mono; [exact HQ|]; intros; by wp_steps.
Qed.

Lemma wp_alone_done n v f s Q : Q v f s → wp total (alone turn n) (TputJob (JobDone v f) s) (λ _, ended_in Q).
Proof.
  intros HQ. induction n as [|n IH]; cbn [alone]; [wp_step; by exists v, f|].
  wp_step. by apply wp_job_turn.
Qed.

(** The loop of [Job], one iteration after the other. *)
Lemma wp_alone_loop fuel n start v s Q :
  wp total (loop now request false fuel start (time_dura_us * 1000) v) s (λ v' s',
    wp total (end_calls now start) s' (λ d s'', Q v' (figures_of data_size v' d) s'')) →
  (fuel ≤ n)%nat →
  wp total (alone turn n) (TputJob (JobLoop start v) s) (λ _, ended_in Q).
Proof.
  revert n v s. induction fuel as [|fuel IH]; intros n v s Hloop Hn; [done|].
  destruct n as [|n]; [lia|]. cbn [alone loop] in *. wp_step. apply wp_job_turn.
  cbn [tj_place tj_state]. unfold job_iteration.
  assert (Hend : ∀ v' s', wp total (end_calls now start) s' (λ d s'', Q v' (figures_of data_size v' d) s'') →
    wp total (d ← end_calls now start; mret (JobDone v' (figures_of data_size v' d))) s'
      (λ pc s'', wp total (alone turn n) (TputJob pc s'') (λ _, ended_in Q))).
  { intros v' s' HQ. wp_step. eapply wp_mono; [exact HQ|]. intros d s'' HQ'. wp_step.
    by apply wp_alone_done. }
  destruct (0 <? req_cnt v); [|by apply Hend].
  apply wp_bind_inv in Hloop. wp_step. eapply wp_mono; [exact Hloop|].
  intros [[tag r]|] s1 H1; cbv beta iota in H1; [|by apply Hend].
  apply wp_bind_inv in H1. wp_step. eapply wp_mono; [exact H1|]. intros v' s2 H2. wp_step.
  apply IH; [exact H2|lia].
Qed.
End threads.

(** * The property *)

Section theorem.
Context {L C : Type} `{!ClientQueue Z L} `{!ClientQueueLaws Z L} (now : C → Z * C).
Context (data_size concurrency time_dura_us : Z) (new_queue : L) (clock : nat → C) (tick K : Z).
Hypothesis queue_empty : pending new_queue = ∅.
Hypothesis clock_ok : advances now tick.

Local Abbreviation turn := (turn now 0 data_size concurrency time_dura_us).

Lemma wp_alone_job n i :
  0 < tick → 1 ≤ K → time_dura_us * 1000 < K * tick → 1 ≤ concurrency →
  1000 * K + concurrency ≤ INT_MAX →
  0 ≤ data_size → (1000 * K + concurrency) * data_size ≤ LONG_MAX →
  1000 * K + concurrency + 2 ≤ Z.of_nat n →
  wp total (alone turn n) (job_start new_queue clock i)
    (λ _, ended_in (tput_drained data_size concurrency (time_dura_us * 1000) K)).
Proof using queue_empty clock_ok.
  intros Htick HK Hdura Hconc Hcalls Hd Hbytes Hn. destruct n as [|n]; [lia|]. cbn [alone]. wp_step.
  apply wp_job_turn. cbn [tj_place tj_state job_start].
  eapply wp_mono.
  { apply (wp_begin_calls now (request data_size) false (λ _, True) data_size data_size tick
      (time_dura_us * 1000) concurrency K); try done; apply tput_request_ok; nia. }
  intros [start v] s [t0 Hrun]. cbn [fst snd] in *.
  apply (wp_alone_loop _ _ _ _ _ n); [|done].
  eapply wp_mono.
  { apply (wp_drain now (request data_size) false (λ _, True) data_size data_size tick
      (time_dura_us * 1000) concurrency K); try done; [apply tput_request_ok; nia|lia]. }
  intros v' s' Hend. cbv beta in Hend. eapply wp_mono; [exact Hend|].
  intros d s'' [Hdur Hdr]. by eapply drained_tput.
Qed.

(** C12. The throughput client ends.  Against completion queues that deliver every started
    call once, successfully or not and in any order, and with a clock that advances, [Run]
    with any number of threads, in whatever order they take their turns, joins all of
    them and returns 0.  Every thread has seen its timeout and drained its calls: none
    is left and its queue owes nothing; between [1] and [K] periods of 1000 calls have
    finished, and after the last of them the [concurrency - 1] calls in flight; each is
    counted once, and the thread's own meter has accounted for exactly the answered ones
    and their bytes.  The printed rates are over a time longer than the configured one. *)
Theorem Tput_Run_drains nthread sched l0 :
  0 < tick → 1 ≤ K → time_dura_us * 1000 < K * tick → 1 ≤ concurrency →
  1000 * K + concurrency ≤ INT_MAX →
  0 ≤ data_size → (1000 * K + concurrency) * data_size ≤ LONG_MAX →
  0 ≤ nthread → Forall (λ i, i < Z.to_nat nthread)%nat sched →
  (∀ i, (i < Z.to_nat nthread)%nat → 1000 * K + concurrency + 2 ≤ Z.of_nat (occ i sched)) →
  wp total (Tput_Run now 0 data_size concurrency time_dura_us new_queue clock nthread sched) l0
  (λ r l, r = 0 ∧ length l = Z.to_nat nthread ∧
    Forall (ended_in (tput_drained data_size concurrency (time_dura_us * 1000) K)) l).
Proof using queue_empty clock_ok.
  intros Htick HK Hdura Hconc Hcalls Hd Hbytes Hnt Hs Hocc. unfold Tput_Run.
  rewrite (proj2 (Z.ltb_ge _ _)) by done. wp_step. apply wp_put.
  set (l := job_start new_queue clock <$> seq 0 (Z.to_nat nthread)).
  assert (Hlen : length l = Z.to_nat nthread) by by unfold l; rewrite length_fmap, length_seq.
  wp_step. eapply wp_mono.
  - rewrite <- Hlen in Hs.
    apply (wp_turns turn total sched l
      (λ _, ended_in (tput_drained data_size concurrency (time_dura_us * 1000) K)) Hs).
    intros i j Hj. assert (i < Z.to_nat nthread)%nat by (rewrite <- Hlen; by eapply lookup_lt_Some).
    apply list_lookup_fmap_Some in Hj as (k & -> & _). by apply wp_alone_job; auto.
  - intros [] l' [Hlen' Hall]. cbv beta in Hall.
    assert (Hend : Forall (ended_in (tput_drained data_size concurrency (time_dura_us * 1000) K)) l').
    { apply Forall_lookup. exact Hall. }
    unfold join. wp_step. apply wp_bind, wp_get.
    replace (forallb ended l') with true; [wp_steps; by split_and!; [|rewrite Hlen'|]|].
    symmetry. apply forallb_forall. intros j Hj%list_elem_of_In.
    rewrite Forall_forall in Hend. destruct (Hend j) as (v & f & Hp & _); [by apply list_elem_of_In|].
    unfold ended. by rewrite Hp.
Qed.
End theorem.

(** * Example *)

(** Two threads, the second one later. *)
Definition tput_sched : list nat := replicate 500 0%nat ++ mjoin (replicate 1100 [1; 0])%nat.

Lemma Tput_Run_drains_witness :
  wp total (Tput_Run demo_now 0 32 4 1000 (∅ : gset Z) (λ _, 0) 2 tput_sched) [] (λ r l,
    r = 0 ∧ length l = 2%nat ∧ Forall (ended_in (tput_drained 32 4 (1000 * 1000) 1)) l).
Proof.
  apply (Tput_Run_drains demo_now 32 4 1000 (∅ : gset Z) (λ _, 0) 600000000 1);
    try done; try (unfold advances, INT_MAX, LONG_MAX; simpl; lia).
  - apply (bool_decide_unpack _). vm_compute. exact I.
  - intros [|[|i]] Hi; [vm_compute; discriminate|vm_compute; discriminate|lia].
Defined.
