(* ===== verification/CpuStat.v ===== *)
(** cpu_stat.{h,cc} and the function [CpuMonitor] of rpc_bench.cc: the counters
    of /proc, the interval between two snapshots in 64-bit arithmetic, and the
    loop of the monitor.  A quotient of doubles is kept as its two integers. *)
From Stdlib Require Import Ascii.
From stdpp Require Import pretty.
From S2P Require Import Prelude CInt Scan Utils.

Local Open Scope Z_scope.

(** * CpuSnapshot *)

Record CpuSnapshot := mkSnapshot {
  pid : Z; comm : string; state : ascii;
  ppid : Z; pgrp : Z; session : Z; tty_nr : Z; tpgid : Z; flag : Z;
  minflt : Z; cminflt : Z; majflt : Z; cmajflt : Z;
  utime : Z; stime : Z; cutime : Z; cstime : Z;
  user : Z; nice : Z; sys : Z; idle : Z; iowait : Z; hardirq : Z; softirq : Z; steal : Z;
  guest : Z; guest_nice : Z;
}.

(** The counters are [uint64_t]. *)
Definition Total (c : CpuSnapshot) : Z :=
  u64 (user c + nice c + sys c + idle c + iowait c + hardirq c + softirq c + steal c).

(** The two formats: every conversion after a blank. *)
Definition stat_format : list directive :=
  Blank :: Text "cpu" :: mjoin (replicate 10 [Blank; Conv_u64]).
Definition self_format : list directive :=
  [Conv_i32; Blank; Conv_str; Blank; Conv_chr] ++
  mjoin ((λ d, [Blank; d]) <$>
    [Conv_i32; Conv_i32; Conv_i32; Conv_i32; Conv_i32; Conv_u32;
     Conv_u64; Conv_u64; Conv_u64; Conv_u64; Conv_u64; Conv_u64; Conv_i64; Conv_i64]).

(** [char comm[16 + 1]]: what [%s] stores has to fit with its terminator. *)
Definition comm_fits (l : list item) : bool :=
  forallb (λ x, match x with Str s => (String.length s <=? 16)%nat | _ => true end) l.

Section cpu_stat.
Context {W : Type}.
(** Opening and reading /proc/stat and /proc/self/stat. *)
Context (read_stat read_self_stat : W → option string * W).

Definition read_items (f : W → option string * W) (fmt : list directive) : M W (list item) :=
  t ← lift f;
  t ← deref t;
  mret (fscanf fmt t).

Definition Snapshot : M W CpuSnapshot :=
  l ← read_items read_stat stat_format;
  match l with
  | [Num user; Num nice; Num sys; Num idle; Num iowait; Num hardirq; Num softirq; Num steal;
     Num guest; Num guest_nice] =>
      l ← read_items read_self_stat self_format;
      _ ← (if comm_fits l then mret tt else undef);
      match l with
      | [Num pid; Str comm; Chr state; Num ppid; Num pgrp; Num session; Num tty_nr; Num tpgid;
         Num flag; Num minflt; Num cminflt; Num majflt; Num cmajflt; Num utime; Num stime;
         Num cutime; Num cstime] =>
          mret (mkSnapshot pid comm state ppid pgrp session tty_nr tpgid flag
                  minflt cminflt majflt cmajflt utime stime cutime cstime
                  user nice sys idle iowait hardirq softirq steal guest guest_nice)
      | _ => fatal
      end
  | _ => fatal
  end.

(** * CpuStats *)

Record CpuStats := mkStats { prev_ : CpuSnapshot; curr_ : CpuSnapshot }.

Definition Stats_Snapshot (s : CpuStats) : M W CpuStats :=
  c ← Snapshot;
  mret (mkStats (curr_ s) c).

(** The constructor; the snapshot it shifts to [prev_] is not initialised. *)
Definition CpuStats_make (garbage : CpuSnapshot) : M W CpuStats :=
  Stats_Snapshot (mkStats garbage garbage).
End cpu_stat.

Definition GetCpuInterval (prev curr : CpuSnapshot) : Z :=
  let ishift := 0 in
  let ishift :=
    if u64 (user curr - guest curr) <? u64 (user prev - guest prev)
    then u64 (ishift + (u64 (user prev - guest prev) - u64 (user curr - guest curr)))
    else ishift in
  let ishift :=
    if u64 (nice curr - guest_nice curr) <? u64 (nice prev - guest_nice prev)
    then u64 (ishift + (u64 (nice prev - guest_nice prev) - u64 (nice curr - guest_nice curr)))
    else ishift in
  u64 (Total curr - Total prev + ishift).

(** The quotient is given as numerator and denominator. *)
Definition AverageIdle {S} (s : CpuStats) : M S (Z * Z) :=
  _ ← check (0 <? idle (curr_ s));
  mret (if idle (curr_ s) <? idle (prev_ s) then (0, 1)
        else (u64 (idle (curr_ s) - idle (prev_ s)), GetCpuInterval (prev_ s) (curr_ s))).

(** Numerator, denominator, and the number of cores it is multiplied with. *)
Definition CpuUtil (core_cnt : Z) (s : CpuStats) : Z * Z * Z :=
  let u := u64 (utime (curr_ s) - utime (prev_ s)) in
  let t := u64 (stime (curr_ s) - stime (prev_ s)) in
  (u64 (u + t), u64 (Total (curr_ s) - Total (prev_ s)), core_cnt).

(** * DebugString *)

(** What [sprintf] makes of the format and the members. *)
Definition debug_pieces (c : CpuSnapshot) : list string :=
  ["{ pid: "; pretty (pid c); ", comm: "; c_str (comm c); ", state: "; String (state c) "";
   ", ppid: "; pretty (ppid c); ", pgrp: "; pretty (pgrp c); ", session: "; pretty (session c);
   ", tty_nr: "; pretty (tty_nr c); ", tpgid: "; pretty (tpgid c); ", flag: "; pretty (flag c);
   ", minflt: "; pretty (minflt c); ", cminflt: "; pretty (cminflt c);
   ", majflt: "; pretty (majflt c); ", cmajflt: "; pretty (cmajflt c);
   ", utime: "; pretty (utime c); ", stime: "; pretty (stime c);
   ", cutime: "; pretty (cutime c); ", cstime: "; pretty (cstime c); " }" +:+ String "010" ""].
Definition debug_text (c : CpuSnapshot) : string := foldr String.append "" (debug_pieces c).

(** [char s[512]] *)
Definition DebugString {S} (c : CpuSnapshot) : M S string := sprintf 512 (debug_text c).

Definition Stats_DebugString {S} (s : CpuStats) : M S string :=
  p ← DebugString (prev_ s);
  c ← DebugString (curr_ s);
  mret ("{ prev_: " +:+ p +:+ ", curr_: " +:+ c +:+ " }").

(** * CpuMonitor *)

Section monitor.
Context {W : Type} (read_stat read_self_stat : W → option string * W).
Context (now : W → Z * W) (sleep_ms : Z → W → W) (core_cnt : Z).

Definition sleep (ms : Z) : M W unit := modify (sleep_ms ms).

(** The loop; the result is what has been printed, a figure a second. *)
Fixpoint monitor_loop (fuel : nat) (start monitor_ms : Z) (s : CpuStats) : M W (list (Z * Z * Z)) :=
  match fuel with
  | O => nofuel
  | S fuel =>
      _ ← sleep 1000;
      s ← Stats_Snapshot read_stat read_self_stat s;
      t ← lift now;
      if monitor_ms * 1000000 <? t - start then mret [CpuUtil core_cnt s]
      else l ← monitor_loop fuel start monitor_ms s; mret (CpuUtil core_cnt s :: l)
  end.

(** [warmup_ms] and [monitor_s] are the options after their conversions. *)
Definition CpuMonitor (fuel : nat) (garbage : CpuSnapshot) (warmup_ms monitor_s : Z) :
    M W (list (Z * Z * Z)) :=
  s ← CpuStats_make read_stat read_self_stat garbage;
  _ ← sleep warmup_ms;
  s ← Stats_Snapshot read_stat read_self_stat s;
  start ← lift now;
  monitor_loop fuel start (monitor_s * 1000) s.
End monitor.
