(* ===== verification/CpuStatProps.v ===== *)
(** The CPU statistics: the snapshot reads what the kernel prints, the interval
    survives the clamping of guest time, the idle share is a share, and the
    monitor ends. *)
From Stdlib Require Import Ascii.
From stdpp Require Import pretty.
From S2P Require Import Prelude CInt Scan Utils CpuStat.

Local Open Scope Z_scope.

(** * Reading what the kernel prints *)

Lemma skip_space_idemp s : skip_space (skip_space s) = skip_space s.
Proof. induction s as [|c s IH]; simpl; [done|]. destruct (is_space c) eqn:Hc; simpl; by rewrite ?Hc. Qed.

Lemma convert_skip f s : convert f (skip_space s) = convert f s.
Proof. unfold convert, scan_int. by rewrite skip_space_idemp. Qed.

(** The value a numeric conversion stores. *)
Definition num_conv (d : directive) : option (Z → Z) :=
  match d with
  | Conv_i32 => Some (λ z, i32 (to_signed z))
  | Conv_u32 => Some (λ z, u32 (to_unsigned z))
  | Conv_i64 => Some to_signed
  | Conv_u64 => Some to_unsigned
  | _ => None
  end.

Definition num_range (d : directive) (z : Z) : Prop :=
  match d with
  | Conv_i32 => INT_MIN ≤ z ≤ INT_MAX
  | Conv_u32 => 0 ≤ z < 2 ^ 32
  | Conv_i64 => LONG_MIN ≤ z ≤ LONG_MAX
  | Conv_u64 => 0 ≤ z < 2 ^ 64
  | _ => False
  end.

Lemma num_conv_id d z : num_range d z → ∃ f, num_conv d = Some f ∧ f z = z.
Proof.
  unfold num_range, INT_MIN, INT_MAX, LONG_MIN, LONG_MAX.
  destruct d; intros Hz; try done; eexists; (split; [done|]); simpl.
  - rewrite to_signed_small, i32_small; unfold INT_MIN, INT_MAX, LONG_MIN, LONG_MAX; lia.
  - rewrite to_unsigned_small, u32_small; lia.
  - apply to_signed_small. unfold LONG_MIN, LONG_MAX. lia.
  - apply to_unsigned_small. lia.
Qed.

(** Numbers printed with a space before each. *)
Fixpoint fields (l : list Z) (r : string) : string :=
  match l with
  | [] => r
  | z :: l => " " +:+ pretty z +:+ fields l r
  end.

Lemma fields_no_digit l r : no_digit r → no_digit (fields l r).
Proof. by destruct l. Qed.

Lemma fscanf_number d fmt z s :
  num_range d z → no_digit s → fscanf (d :: fmt) (pretty z +:+ s) = Num z :: fscanf fmt s.
Proof.
  intros Hz Hs. destruct (num_conv_id d z Hz) as (f & Hd & Hf).
  assert (Hi : scan_item d (pretty z +:+ s) = Some (Num z, s)).
  { rewrite <- Hf at 2. destruct d; try done; injection Hd as <-; cbn [scan_item];
      unfold convert; by rewrite scan_int_pretty. }
  destruct d; try done; cbn [fscanf]; by rewrite Hi.
Qed.

Lemma fscanf_blank_number d fmt z s :
  num_range d z → no_digit s →
  fscanf (Blank :: d :: fmt) (" " +:+ pretty z +:+ s) = Num z :: fscanf fmt s.
Proof.
  intros Hz Hs. rewrite <- (fscanf_number d fmt z s Hz Hs). cbn [fscanf].
  change (skip_space (" " +:+ ?t)) with (skip_space t).
  destruct d; try done; cbn [scan_item]; by rewrite convert_skip.
Qed.

(** A run of numbers. *)
Lemma fscanf_fields ds zs fmt r :
  Forall2 num_range ds zs → no_digit r →
  fscanf (mjoin ((λ d, [Blank; d]) <$> ds) ++ fmt) (fields zs r) = (Num <$> zs) ++ fscanf fmt r.
Proof.
  intros Hall Hr. induction Hall as [|d z ds zs Hz _ IH]; [done|].
  change (fscanf (Blank :: d :: (mjoin ((λ d, [Blank; d]) <$> ds) ++ fmt))
    (" " +:+ pretty z +:+ fields zs r) = Num z :: ((Num <$> zs) ++ fscanf fmt r)).
  rewrite fscanf_blank_number, IH; [done|done|by apply fields_no_digit].
Qed.

Fixpoint word (s : string) : Prop :=
  match s with String c s => is_space c = false ∧ word s | EmptyString => True end.

Lemma scan_word_app w c r : word w → is_space c = true → scan_word (w +:+ String c r) = (w, String c r).
Proof.
  intros Hw Hc. induction w as [|a w IH].
  - change (scan_word (String c r) = ("", String c r)). cbn [scan_word]. by rewrite Hc.
  - destruct Hw as [Ha Hw]. change (String a w +:+ ?t) with (String a (w +:+ t)).
    cbn [scan_word]. by rewrite Ha, IH.
Qed.

Definition stat_fields (c : CpuSnapshot) : list Z :=
  [user c; nice c; sys c; idle c; iowait c; hardirq c; softirq c; steal c; guest c; guest_nice c].
Definition self_fields (c : CpuSnapshot) : list Z :=
  [ppid c; pgrp c; session c; tty_nr c; tpgid c; flag c; minflt c; cminflt c; majflt c; cmajflt c;
   utime c; stime c; cutime c; cstime c].
Definition self_convs : list directive :=
  [Conv_i32; Conv_i32; Conv_i32; Conv_i32; Conv_i32; Conv_u32;
   Conv_u64; Conv_u64; Conv_u64; Conv_u64; Conv_u64; Conv_u64; Conv_i64; Conv_i64].

(** The counters are in the range of their types and the name is a word. *)
Definition proc_ok (c : CpuSnapshot) : Prop :=
  Forall2 num_range (replicate 10 Conv_u64) (stat_fields c) ∧
  num_range Conv_i32 (pid c) ∧ Forall2 num_range self_convs (self_fields c) ∧
  comm c ≠ "" ∧ word (comm c) ∧ is_space (state c) = false.

(** What the kernel prints for the counters of [c], before [rest]. *)
Definition stat_text (c : CpuSnapshot) (rest : string) : string :=
  "cpu " +:+ fields (stat_fields c) rest.
Definition self_text (c : CpuSnapshot) (rest : string) : string :=
  pretty (pid c) +:+ " " +:+ comm c +:+ " " +:+ String (state c) (fields (self_fields c) rest).

Lemma skip_word w r : w ≠ "" → word w → skip_space (w +:+ r) = w +:+ r.
Proof.
  destruct w as [|a w]; [done|]. intros _ [Ha _].
  change (String a w +:+ ?t) with (String a (w +:+ t)). cbn [skip_space]. by rewrite Ha.
Qed.

Lemma fscanf_word fmt w c r :
  w ≠ "" → word w → is_space c = true →
  fscanf (Blank :: Conv_str :: fmt) (" " +:+ w +:+ String c r) = Str w :: fscanf fmt (String c r).
Proof.
  intros Hne Hw Hc. cbn [fscanf]. change (skip_space (" " +:+ ?t)) with (skip_space t).
  cbn [scan_item]. rewrite skip_space_idemp, skip_word, scan_word_app by done. by destruct w.
Qed.

Lemma fscanf_chr fmt c r :
  is_space c = false →
  fscanf (Blank :: Conv_chr :: fmt) (" " +:+ String c r) = Chr c :: fscanf fmt r.
Proof.
  intros Hc. cbn [fscanf]. change (skip_space (" " +:+ ?t)) with (skip_space t).
  cbn [skip_space]. by rewrite Hc.
Qed.

Lemma fscanf_stat c rest :
  Forall2 num_range (replicate 10 Conv_u64) (stat_fields c) → no_digit rest →
  fscanf stat_format (stat_text c rest) = Num <$> stat_fields c.
Proof.
  intros Hr Hn. pose proof (fscanf_fields _ _ [] rest Hr Hn) as H.
  rewrite (app_nil_r (mjoin _)), (app_nil_r (Num <$> _)) in H. rewrite <- H.
  unfold stat_format, stat_text. cbn [fscanf].
  change (skip_space ("cpu " +:+ ?t)) with ("cpu " +:+ t).
  change (strip_prefix "cpu" ("cpu " +:+ ?t)) with (Some (" " +:+ t)).
  change (fscanf (Blank :: Conv_u64 :: ?f) (" " +:+ ?t)) with (fscanf (Blank :: Conv_u64 :: f) t).
  done.
Qed.

Lemma fscanf_self c rest :
  proc_ok c → no_digit rest →
  fscanf self_format (self_text c rest) =
  [Num (pid c); Str (comm c); Chr (state c)] ++ (Num <$> self_fields c).
Proof.
  intros (_ & Hp & Hr & Hne & Hw & Hst) Hn. unfold self_format, self_text.
  cbn [app]. rewrite fscanf_number by done. f_equal.
  change (" " +:+ String (state c) ?t) with (String " " (String (state c) t)).
  rewrite fscanf_word by done. f_equal.
  change (String " " ?t) with (" " +:+ t). rewrite fscanf_chr by done. f_equal.
  pose proof (fscanf_fields _ _ [] rest Hr Hn) as H.
  by rewrite (app_nil_r (mjoin _)), (app_nil_r (Num <$> _)) in H.
Qed.

Section snapshot.
Context {W : Type} (read_stat read_self_stat : W → option string * W).

Lemma Snapshot_text c w w1 w2 rest rest' :
  proc_ok c → no_digit rest → no_digit rest' →
  read_stat w = (Some (stat_text c rest), w1) →
  read_self_stat w1 = (Some (self_text c rest'), w2) →
  Snapshot read_stat read_self_stat w =
    if (String.length (comm c) <=? 16)%nat then Ret (c, w2) else Stop Undef.
Proof.
  intros Hc Hr Hr' H1 H2. unfold Snapshot, read_items, mbind, M_bind, lift.
  rewrite H1. cbn [deref]. unfold mret, M_ret.
  rewrite fscanf_stat by (apply Hc || done). cbn [stat_fields fmap list_fmap].
  rewrite H2. cbn [deref]. unfold mret, M_ret. rewrite fscanf_self by done.
  unfold comm_fits. cbn. by destruct c, (_ <=? _)%nat.
Qed.

(** C29. A snapshot holds what the kernel printed.  When the two files are the
    kernel's text for some counters within the ranges of their types, whatever
    follows on their lines, and the name of the program is one word of at most 16
    characters, the snapshot is exactly those counters. *)
Theorem Snapshot_reads c w w1 w2 rest rest' :
  proc_ok c → (String.length (comm c) ≤ 16)%nat → no_digit rest → no_digit rest' →
  read_stat w = (Some (stat_text c rest), w1) →
  read_self_stat w1 = (Some (self_text c rest'), w2) →
  Snapshot read_stat read_self_stat w = Ret (c, w2).
Proof.
  intros Hc Hl Hr Hr' H1 H2. rewrite (Snapshot_text c w w1 w2 rest rest') by done.
  by rewrite (proj2 (Nat.leb_le _ _) Hl).
Qed.

(** C38. The longest name overflows.  The kernel prints the name of a program
    (up to 15 characters) in parentheses; with 17 characters the conversion [%s]
    stores 18 bytes into the 17 of [comm]. *)
Theorem Snapshot_comm_overflow c w w1 w2 rest rest' :
  proc_ok c → String.length (comm c) = 17%nat → no_digit rest → no_digit rest' →
  read_stat w = (Some (stat_text c rest), w1) →
  read_self_stat w1 = (Some (self_text c rest'), w2) →
  Snapshot read_stat read_self_stat w = Stop Undef.
Proof.
  intros Hc Hl Hr Hr' H1 H2. rewrite (Snapshot_text c w w1 w2 rest rest') by done. by rewrite Hl.
Qed.
End snapshot.

(** * The interval *)

(** The sum of the counters. *)
Definition ticks (c : CpuSnapshot) : Z :=
  user c + nice c + sys c + idle c + iowait c + hardirq c + softirq c + steal c.

(** Guest time is part of user time, and nothing overflows. *)
Definition counters_ok (c : CpuSnapshot) : Prop :=
  0 ≤ guest c ≤ user c ∧ 0 ≤ guest_nice c ≤ nice c ∧ 0 ≤ sys c ∧ 0 ≤ idle c ∧ 0 ≤ iowait c ∧
  0 ≤ hardirq c ∧ 0 ≤ softirq c ∧ 0 ≤ steal c ∧ ticks c < 2 ^ 64.

(** All counters but the time outside the guests have not gone back. *)
Definition advanced (prev curr : CpuSnapshot) : Prop :=
  guest prev ≤ guest curr ∧ guest_nice prev ≤ guest_nice curr ∧ sys prev ≤ sys curr ∧
  idle prev ≤ idle curr ∧ iowait prev ≤ iowait curr ∧ hardirq prev ≤ hardirq curr ∧
  softirq prev ≤ softirq curr ∧ steal prev ≤ steal curr.

(** The interval with each part of it clamped at zero. *)
Definition interval_spec (prev curr : CpuSnapshot) : Z :=
  Z.max 0 ((user curr - guest curr) - (user prev - guest prev)) +
  Z.max 0 ((nice curr - guest_nice curr) - (nice prev - guest_nice prev)) +
  (guest curr - guest prev) + (guest_nice curr - guest_nice prev) + (sys curr - sys prev) +
  (idle curr - idle prev) + (iowait curr - iowait prev) + (hardirq curr - hardirq prev) +
  (softirq curr - softirq prev) + (steal curr - steal prev).


Lemma GetCpuInterval_exact prev curr :
  counters_ok prev → counters_ok curr → advanced prev curr →
  GetCpuInterval prev curr = interval_spec prev curr.
Proof.
  unfold counters_ok, advanced. intros Hp Hc Ha.
  unfold GetCpuInterval, Total. fold (ticks prev) (ticks curr).
  assert (Hx : ∀ c, counters_ok c → u64 (ticks c) = ticks c ∧
    u64 (user c - guest c) = user c - guest c ∧
    u64 (nice c - guest_nice c) = nice c - guest_nice c).
  { intros c. unfold counters_ok, ticks. intros. split_and!; apply u64_small; lia. }
  destruct (Hx prev Hp) as (-> & -> & ->), (Hx curr Hc) as (-> & -> & ->).
  unfold interval_spec, ticks in *.
  assert (Hs : ∀ z, 0 ≤ z < 2 ^ 64 → u64 z = z) by apply u64_small.
  destruct (Z.ltb_spec (user curr - guest curr) (user prev - guest prev)),
    (Z.ltb_spec (nice curr - guest_nice curr) (nice prev - guest_nice prev));
    rewrite ?(Hs (0 + _)) by lia; rewrite ?(Hs (_ + (_ - _))) by lia; rewrite Hs by lia; lia.
Qed.

(** C30. The interval is robust.  For snapshots in which guest time is part of user
    time, the 64-bit computation with its two corrections is exactly the sum of
    what each counter has advanced, where time outside the guests that seems to
    have gone back counts as zero; no wrap-around is left. *)
Theorem GetCpuInterval_clamped prev curr :
  counters_ok prev → counters_ok curr → advanced prev curr →
  GetCpuInterval prev curr = interval_spec prev curr ∧ 0 ≤ interval_spec prev curr < 2 ^ 64.
Proof.
  intros Hp Hc Ha. split; [by apply GetCpuInterval_exact|].
  unfold counters_ok, advanced, interval_spec, ticks in *. lia.
Qed.

(** The idle share is a share: its numerator is the idle time that has passed and
    lies between zero and its denominator, the interval. *)
Lemma AverageIdle_share {S} prev curr (s : S) :
  counters_ok prev → counters_ok curr → advanced prev curr → 0 < idle curr →
  ∃ n d, AverageIdle (mkStats prev curr) s = Ret ((n, d), s) ∧
    n = idle curr - idle prev ∧ d = interval_spec prev curr ∧ 0 ≤ n ≤ d.
Proof.
  intros Hp Hc Ha Hi. unfold AverageIdle. cbn [prev_ curr_].
  rewrite (proj2 (Z.ltb_lt 0 _)) by done.
  rewrite (proj2 (Z.ltb_ge _ _)) by apply Ha.
  do 2 eexists. split; [reflexivity|]. rewrite GetCpuInterval_exact by done.
  unfold counters_ok, advanced, interval_spec, ticks in *.
  rewrite u64_small by lia. split_and!; try done; lia.
Qed.

(** * The text of a snapshot *)

Lemma length_pieces l (bounds : list nat) :
  Forall2 (λ s n, (String.length s ≤ n)%nat) l bounds →
  (String.length (foldr String.append "" l) ≤ sum_list bounds)%nat.
Proof.
  induction 1 as [|s n l bounds Hs _ IH]; [done|].
  change (sum_list (n :: bounds)) with (n + sum_list bounds)%nat. cbn [foldr].
  rewrite length_append. lia.
Qed.

(** The longest that a number of its type is printed. *)
Lemma length_num d z :
  num_range d z →
  (String.length (pretty z) ≤
   match d with Conv_i32 => 11 | Conv_u32 => 10 | _ => 20 end)%nat.
Proof.
  unfold num_range, INT_MIN, INT_MAX, LONG_MIN, LONG_MAX. destruct d; intros Hz; try done.
  - destruct (length_pretty_Z z 10); change (Z.of_nat 10) with 10; lia.
  - destruct (length_pretty_Z z 10); change (Z.of_nat 10) with 10; lia.
  - destruct (length_pretty_Z z 19); change (Z.of_nat 19) with 19; lia.
  - destruct (length_pretty_Z z 20); change (Z.of_nat 20) with 20; lia.
Qed.

Lemma length_c_str s : (String.length (c_str s) ≤ String.length s)%nat.
Proof. induction s as [|c s IH]; simpl; [lia|]. case_bool_decide; simpl; lia. Qed.

(** C35. The buffer of [DebugString] is large enough.  Whatever values of their types
    the members have, and whatever name fits in [comm], [sprintf] stores at most 415
    of the 512 bytes; the text returned is the one printed. *)
Theorem DebugString_fits {T} c (s : T) :
  num_range Conv_i32 (pid c) → Forall2 num_range self_convs (self_fields c) →
  (String.length (comm c) ≤ 16)%nat →
  DebugString c s = Ret (c_str (debug_text c), s) ∧
  (S (String.length (debug_text c)) ≤ 415)%nat.
Proof.
  intros Hpid Hall Hcomm.
  assert (Hlen : (String.length (debug_text c) < 415)%nat).
  { pose proof (length_c_str (comm c)). unfold self_fields, self_convs in Hall.
    repeat (apply Forall2_cons_1 in Hall as [?%length_num Hall]).
    apply length_num in Hpid.
    eapply Nat.le_lt_trans; [eapply (length_pieces _
      [7; 11; 8; 16; 9; 1; 8; 11; 8; 11; 11; 11; 10; 11; 9; 11; 8; 10; 10; 20; 11; 20; 10; 20; 11; 20;
       9; 20; 9; 20; 10; 20; 10; 20; 3]%nat)|apply Nat.ltb_lt; reflexivity].
    unfold debug_pieces. repeat (apply List.Forall2_cons); try apply List.Forall2_nil;
      first [assumption|apply Nat.leb_le; reflexivity|lia]. }
  split; [|lia]. unfold DebugString, sprintf.
  by rewrite (proj2 (Z.ltb_lt _ _)) by lia.
Qed.

(** * The monitor *)

Section monitor.
Context {W : Type} (read_stat read_self_stat : W → option string * W).
Context (now : W → Z * W) (sleep_ms : Z → W → W) (core_cnt tick : Z).
Hypothesis snapshots : ∀ w, ∃ c w', Snapshot read_stat read_self_stat w = Ret (c, w').
(** A round of sleep and snapshot takes at least [tick] by the clock. *)
Hypothesis round_time : ∀ w c w',
  Snapshot read_stat read_self_stat (sleep_ms 1000 (now w).2) = Ret (c, w') →
  (now w).1 + tick ≤ (now w').1.

Lemma wp_Snapshot w (Q : CpuSnapshot → W → Prop) :
  (∀ c w', Snapshot read_stat read_self_stat w = Ret (c, w') → Q c w') →
  wp total (Snapshot read_stat read_self_stat) w Q.
Proof using snapshots. intros HQ. destruct (snapshots w) as (c & w' & Hs). eapply wp_intro; eauto. Qed.

Lemma wp_monitor_loop n fuel start monitor_ms s w :
  monitor_ms * 1000000 < (now w).1 - start + Z.of_nat n * tick → (n < fuel)%nat → (0 < n)%nat →
  wp total (monitor_loop read_stat read_self_stat now sleep_ms core_cnt fuel start monitor_ms s)
    (now w).2 (λ l _, (0 < length l ≤ n)%nat).
Proof using snapshots round_time.
  revert fuel s w. induction n as [|n IH]; intros fuel s w Ht Hf Hn; [lia|].
  destruct fuel as [|fuel]; [lia|]. cbn [monitor_loop]. unfold sleep, Stats_Snapshot.
  wp_step. apply wp_modify. do 2 wp_step. apply wp_Snapshot. intros c w' Hs.
  apply wp_ret. wp_step. apply wp_lift.
  intros t w2 Hw2. pose proof (round_time w c w' Hs) as Hr.
  assert (w2 = (now w').2 ∧ t = (now w').1) as [-> ->] by by rewrite Hw2.
  destruct (Z.ltb_spec (monitor_ms * 1000000) ((now w').1 - start)).
  { apply wp_ret. simpl. lia. }
  wp_step. destruct n as [|n]; [exfalso; lia|].
  eapply wp_mono; [apply IH; [lia|lia|lia]|]. simpl. intros l w3 Hl. apply wp_ret. simpl. lia.
Qed.

(** The monitor ends.  If every snapshot succeeds and a round takes at least
    [tick], the monitor prints at least one and at most [n] figures, where [n]
    rounds are longer than the configured time, and returns. *)
Lemma CpuMonitor_ends n fuel garbage warmup_ms monitor_s w :
  monitor_s * 1000 * 1000000 < Z.of_nat n * tick → (0 < n < fuel)%nat →
  wp total (CpuMonitor read_stat read_self_stat now sleep_ms core_cnt fuel garbage warmup_ms monitor_s)
    w (λ l _, (0 < length l ≤ n)%nat).
Proof using snapshots round_time.
  intros Ht Hn. unfold CpuMonitor, CpuStats_make, sleep, Stats_Snapshot.
  do 2 wp_step. apply wp_Snapshot. intros c1 w1 _. apply wp_ret. wp_step. apply wp_modify. do 2 wp_step.
  apply wp_Snapshot. intros c2 w2 _. apply wp_ret. wp_step. apply wp_lift. intros start w3 H3.
  assert (w3 = (now w2).2 ∧ start = (now w2).1) as [-> ->] by by rewrite H3.
  apply wp_monitor_loop; lia.
Qed.
End monitor.

(** * Examples *)

(** A machine after some time, then a second later with a guest's time credited
    back to the host. *)
Definition demo_prev : CpuSnapshot :=
  mkSnapshot 42 "(rpc-bench)" "R" 1 42 42 0 (-1) 4194304 9 0 0 0 30 7 0 0
    1000 20 300 5000 10 0 5 0 100 0.
Definition demo_curr : CpuSnapshot :=
  mkSnapshot 42 "(rpc-bench)" "S" 1 42 42 0 (-1) 4194304 9 0 0 0 90 17 0 0
    1040 20 320 5030 12 0 5 0 150 0.

Ltac proc_ok_tac :=
  unfold proc_ok; split_and!; try done;
  try (repeat first [apply List.Forall2_cons | apply List.Forall2_nil]);
  unfold num_range, INT_MIN, INT_MAX, LONG_MIN, LONG_MAX; simpl; lia.

Lemma demo_proc_ok : proc_ok demo_prev.
Proof. proc_ok_tac. Qed.

(** /proc/self/stat has more fields after the ones that are read. *)
Definition demo_read_stat (n : Z) : option string * Z :=
  (Some (stat_text demo_prev (String "010" "cpu0 1 2 3")), n).
Definition demo_read_self (n : Z) : option string * Z := (Some (self_text demo_prev " 20 0 1"), n).

Lemma Snapshot_reads_witness :
  Snapshot demo_read_stat demo_read_self 0 = Ret (demo_prev, 0).
Proof.
  apply (Snapshot_reads demo_read_stat demo_read_self demo_prev 0 0 0
    (String "010" "cpu0 1 2 3") " 20 0 1"); try reflexivity.
  - apply demo_proc_ok.
  - vm_compute. repeat constructor.
Defined.

(** A program whose name has 15 characters. *)
Definition demo_long : CpuSnapshot :=
  mkSnapshot 42 "(rpc_benchmarker)" "R" 1 42 42 0 (-1) 4194304 9 0 0 0 30 7 0 0
    1000 20 300 5000 10 0 5 0 100 0.

Lemma Snapshot_comm_overflow_witness :
  Snapshot demo_read_stat (λ n, (Some (self_text demo_long " 20"), n)) 0 = Stop Undef.
Proof.
  apply (Snapshot_comm_overflow demo_read_stat (λ n, (Some (self_text demo_long " 20"), n))
    demo_long 0 0 0 (String "010" "cpu0 1 2 3") " 20"); try reflexivity.
  proc_ok_tac.
Defined.

(** The host's own time has gone back by 10: it counts as zero. *)
Lemma GetCpuInterval_clamped_witness :
  GetCpuInterval demo_prev demo_curr = 102 ∧ 0 ≤ 102 < 2 ^ 64.
Proof.
  apply (GetCpuInterval_clamped demo_prev demo_curr);
    unfold counters_ok, advanced, ticks; simpl; lia.
Defined.

(** The widest values there are. *)
Definition demo_wide : CpuSnapshot :=
  mkSnapshot INT_MIN "(rpc-benchmarks)" "S" INT_MIN INT_MIN INT_MIN INT_MIN INT_MIN (2 ^ 32 - 1)
    (2 ^ 64 - 1) (2 ^ 64 - 1) (2 ^ 64 - 1) (2 ^ 64 - 1) (2 ^ 64 - 1) (2 ^ 64 - 1)
    LONG_MIN LONG_MIN 0 0 0 0 0 0 0 0 0 0.

Example demo_wide_length : String.length (debug_text demo_wide) = 414%nat.
Proof. vm_compute. reflexivity. Qed.

Lemma DebugString_fits_witness :
  DebugString demo_wide tt = Ret (c_str (debug_text demo_wide), tt) ∧
  (S (String.length (debug_text demo_wide)) ≤ 415)%nat.
Proof.
  apply (DebugString_fits demo_wide tt).
  - split; by vm_compute.
  - repeat first [apply List.Forall2_cons | apply List.Forall2_nil]; split; by vm_compute.
  - apply Nat.leb_le. reflexivity.
Defined.

(** The clock of the example is the world: nanoseconds. *)
Definition demo_sleep (ms n : Z) : Z := n + ms * 1000000.

Lemma CpuMonitor_ends_witness :
  wp total (CpuMonitor demo_read_stat demo_read_self (λ n, (n, n)) demo_sleep 8 10 demo_prev 1000 3)
    0 (λ l _, (0 < length l ≤ 4)%nat).
Proof.
  assert (Hs : ∀ n, Snapshot demo_read_stat demo_read_self n = Ret (demo_prev, n)).
  { intros n. vm_compute. reflexivity. }
  apply (CpuMonitor_ends demo_read_stat demo_read_self (λ n, (n, n)) demo_sleep 8 1000000000).
  - intros n. eexists _, _. apply Hs.
  - intros n c n'. rewrite Hs. intros [= _ <-]. unfold demo_sleep. simpl. lia.
  - lia.
  - lia.
Defined.
