(* ===== verification/CommandLine.v ===== *)
(** rpc_bench.cc, command_opts.h and app.{h,cc}: the command line, the options,
    the choice of an application, and [main].  [getopt_long] is written out for
    the tables the program gives it.  A [double] is an abstract value: the
    program only makes them, from integers and by [std::stof]. *)
From Stdlib Require Import Ascii.
From stdpp Require Import pretty.
From S2P Require Import Prelude CInt Scan.

Local Open Scope Z_scope.

(** * getopt_long *)
Module Getopt.
(** An option: its value, its argument. *)
Record opt := mkOpt { opt_val : Z; opt_arg : option string }.
Definition chr (c : ascii) : Z := Z.of_nat (nat_of_ascii c).
Definition bad : opt := mkOpt (chr "?") None.

(** The long options, with whether they take an argument, and the short ones. *)
Record spec := mkSpec {
  long_options : list (string * bool * Z);
  short_options : list (ascii * bool);
}.

Fixpoint split_eq (s : string) : string * option string :=
  match s with
  | EmptyString => (EmptyString, None)
  | String "="%char s => (EmptyString, Some s)
  | String c s => let (n, v) := split_eq s in (String c n, v)
  end.

(** An exact name, or the only name it abbreviates. *)
Definition find_long (l : list (string * bool * Z)) (name : string) : option (string * bool * Z) :=
  match filter (λ x, x.1.1 = name) l with
  | x :: _ => Some x
  | [] => match filter (λ x, String.prefix name x.1.1 = true) l with [x] => Some x | _ => None end
  end.

Definition find_short (l : list (ascii * bool)) (c : ascii) : option bool :=
  snd <$> head (filter (λ x, x.1 = c) l).

(** The arguments are permuted: what is not an option comes last.  The result
    is the options up to the first error and the other arguments. *)
Section scan.
Context (sp : spec).

(** What an option that needs an argument does with the rest of the line. *)
Definition with_arg (v : Z) (args : list string) (k : list string → list opt * list string) :
    list opt * list string :=
  match args with
  | [] => ([bad], [])
  | a :: args => let (os, ns) := k args in (mkOpt v (Some a) :: os, ns)
  end.

(** The letters after a dash. *)
Fixpoint cluster (letters : string) (args : list string)
    (k : list string → list opt * list string) : list opt * list string :=
  match letters with
  | EmptyString => k args
  | String c rest =>
      match find_short (short_options sp) c with
      | None => ([bad], [])
      | Some false => let (os, ns) := cluster rest args k in (mkOpt (chr c) None :: os, ns)
      | Some true =>
          match rest with
          | EmptyString => with_arg (chr c) args k
          | _ => let (os, ns) := k args in (mkOpt (chr c) (Some rest) :: os, ns)
          end
      end
  end.

Fixpoint getopt (fuel : nat) (args : list string) : list opt * list string :=
  match fuel with
  | O => ([], args)
  | S fuel =>
      match args with
      | [] => ([], [])
      | String "-"%char (String "-"%char EmptyString) :: rest => ([], rest)
      | String "-"%char (String "-"%char name) :: rest =>
          let (name, value) := split_eq name in
          match find_long (long_options sp) name, value with
          | None, _ => ([bad], [])
          | Some (_, false, v), None => let (os, ns) := getopt fuel rest in (mkOpt v None :: os, ns)
          | Some (_, false, _), Some _ => ([bad], [])
          | Some (_, true, v), Some a =>
              let (os, ns) := getopt fuel rest in (mkOpt v (Some a) :: os, ns)
          | Some (_, true, v), None => with_arg v rest (getopt fuel)
          end
      | String "-"%char (String c letters) :: rest => cluster (String c letters) rest (getopt fuel)
      | a :: rest => let (os, ns) := getopt fuel rest in (os, a :: ns)
      end
  end.

(** Every call consumes an argument. *)
Definition getopt_long (args : list string) : list opt * list string :=
  getopt (S (length args)) args.
End scan.
End Getopt.

(** * The options *)

Definition kDefaultPort : Z := 18000.
Definition kDefaultDataSize : Z := 0.
Definition kDefaultConcurrency : Z := 32.
Definition kDefaultThread : Z := 1.
Definition kDefaultPersistent : bool := false.
Definition kDefaultTimeSec : Z := 10.
Definition kDefaultWarmupTimeSec : Z := 1.

Record CommandOpts (D : Type) := mkOpts {
  is_server : option bool;
  host : option string;
  port : Z;
  app : option string;
  rpc : option string;
  proto : option string;
  data_size : Z;
  concurrency : Z;
  thread : Z;
  persistent : bool;
  time_duration_sec : D;
  monitor_time_sec : option D;
  monitor_warmup_sec : D;
}.
Arguments mkOpts {D} _ _ _ _ _ _ _ _ _ _ _ _ _.
Arguments is_server {D} _.
Arguments host {D} _.
Arguments port {D} _.
Arguments app {D} _.
Arguments rpc {D} _.
Arguments proto {D} _.
Arguments data_size {D} _.
Arguments concurrency {D} _.
Arguments thread {D} _.
Arguments persistent {D} _.
Arguments time_duration_sec {D} _.
Arguments monitor_time_sec {D} _.
Arguments monitor_warmup_sec {D} _.

(** * The tables of ParseArgument *)

Definition kPersistentTag : Z := 1000.
Definition kWarmupTag : Z := 1001.
Definition kMonitorTimeTag : Z := 1002.

Definition options : Getopt.spec :=
  let chr c := Getopt.chr c in
  Getopt.mkSpec
    [("help", false, chr "h"%char); ("port", true, chr "p"%char); ("app", true, chr "a"%char);
     ("rpc", true, chr "r"%char); ("proto", true, chr "P"%char); ("data", true, chr "d"%char);
     ("concurrency", true, chr "C"%char); ("thread", true, chr "T"%char);
     ("persistent", false, kPersistentTag); ("time", true, chr "t"%char);
     ("monitor-time", true, kMonitorTimeTag); ("warmup", true, kWarmupTag)]
    [("h", false); ("p", true); ("a", true); ("r", true); ("P", true); ("d", true);
      ("C", true); ("T", true); ("t", true)]%char.

(** * The applications *)

Inductive app_kind :=
  | GrpcBwServerApp | GrpcBwClientApp | SocketBwServerApp | SocketBwClientApp
  | BrpcBwServerApp | BrpcBwClientApp | ZeromqBwServerApp | ZeromqBwClientApp
  | GrpcLatServerApp | GrpcLatClientApp | GrpcTputServerApp | GrpcTputClientApp
  | HotelReservationServerApp | HotelReservationClientApp.

#[export] Instance app_kind_eq_dec : EqDecision app_kind.
Proof. solve_decision. Defined.

Section options.
Context {D : Type} (double_of_int : Z → D).
(** [std::stof] and the conversion to [double]. *)
Context (stof : string → exn + D).

Abbreviation Opts := (CommandOpts D).
Abbreviation OM := (M (CommandOpts D)).

(** The constructor *)
Definition CommandOpts_make : Opts :=
  mkOpts None None kDefaultPort None None None kDefaultDataSize kDefaultConcurrency kDefaultThread
    kDefaultPersistent (double_of_int kDefaultTimeSec) None (double_of_int kDefaultWarmupTimeSec).

Definition set_server (b : bool) (o : Opts) : Opts :=
  mkOpts (Some b) (host o) (port o) (app o) (rpc o) (proto o) (data_size o) (concurrency o)
    (thread o) (persistent o) (time_duration_sec o) (monitor_time_sec o) (monitor_warmup_sec o).
Definition set_host (h : string) (o : Opts) : Opts :=
  mkOpts (is_server o) (Some h) (port o) (app o) (rpc o) (proto o) (data_size o) (concurrency o)
    (thread o) (persistent o) (time_duration_sec o) (monitor_time_sec o) (monitor_warmup_sec o).
Definition set_port (p : Z) (o : Opts) : Opts :=
  mkOpts (is_server o) (host o) p (app o) (rpc o) (proto o) (data_size o) (concurrency o)
    (thread o) (persistent o) (time_duration_sec o) (monitor_time_sec o) (monitor_warmup_sec o).
Definition set_app (a : string) (o : Opts) : Opts :=
  mkOpts (is_server o) (host o) (port o) (Some a) (rpc o) (proto o) (data_size o) (concurrency o)
    (thread o) (persistent o) (time_duration_sec o) (monitor_time_sec o) (monitor_warmup_sec o).
Definition set_rpc (r : string) (o : Opts) : Opts :=
  mkOpts (is_server o) (host o) (port o) (app o) (Some r) (proto o) (data_size o) (concurrency o)
    (thread o) (persistent o) (time_duration_sec o) (monitor_time_sec o) (monitor_warmup_sec o).
Definition set_proto (p : string) (o : Opts) : Opts :=
  mkOpts (is_server o) (host o) (port o) (app o) (rpc o) (Some p) (data_size o) (concurrency o)
    (thread o) (persistent o) (time_duration_sec o) (monitor_time_sec o) (monitor_warmup_sec o).
Definition set_data_size (n : Z) (o : Opts) : Opts :=
  mkOpts (is_server o) (host o) (port o) (app o) (rpc o) (proto o) n (concurrency o)
    (thread o) (persistent o) (time_duration_sec o) (monitor_time_sec o) (monitor_warmup_sec o).
Definition set_concurrency (n : Z) (o : Opts) : Opts :=
  mkOpts (is_server o) (host o) (port o) (app o) (rpc o) (proto o) (data_size o) n
    (thread o) (persistent o) (time_duration_sec o) (monitor_time_sec o) (monitor_warmup_sec o).
Definition set_thread (n : Z) (o : Opts) : Opts :=
  mkOpts (is_server o) (host o) (port o) (app o) (rpc o) (proto o) (data_size o) (concurrency o)
    n (persistent o) (time_duration_sec o) (monitor_time_sec o) (monitor_warmup_sec o).
Definition set_persistent (o : Opts) : Opts :=
  mkOpts (is_server o) (host o) (port o) (app o) (rpc o) (proto o) (data_size o) (concurrency o)
    (thread o) true (time_duration_sec o) (monitor_time_sec o) (monitor_warmup_sec o).
Definition set_time (d : D) (o : Opts) : Opts :=
  mkOpts (is_server o) (host o) (port o) (app o) (rpc o) (proto o) (data_size o) (concurrency o)
    (thread o) (persistent o) d (monitor_time_sec o) (monitor_warmup_sec o).
Definition set_monitor (d : D) (o : Opts) : Opts :=
  mkOpts (is_server o) (host o) (port o) (app o) (rpc o) (proto o) (data_size o) (concurrency o)
    (thread o) (persistent o) (time_duration_sec o) (Some d) (monitor_warmup_sec o).
Definition set_warmup (d : D) (o : Opts) : Opts :=
  mkOpts (is_server o) (host o) (port o) (app o) (rpc o) (proto o) (data_size o) (concurrency o)
    (thread o) (persistent o) (time_duration_sec o) (monitor_time_sec o) d.

(** * ParseArgument *)

Definition stof_arg {S} (a : string) : M S D :=
  match stof a with inr d => mret d | inl e => throw e end.

(** One round of the switch: whether the option is an error. *)
Definition on_option (o : Getopt.opt) : OM bool :=
  let opt c := Getopt.opt_val o =? Getopt.chr c in
  let optarg := deref (Getopt.opt_arg o) in
  if opt "h"%char then exit 0
  else if opt "p"%char then a ← optarg; n ← stoi a; _ ← modify (set_port n); mret false
  else if opt "a"%char then a ← optarg; _ ← modify (set_app a); mret false
  else if opt "r"%char then a ← optarg; _ ← modify (set_rpc a); mret false
  else if opt "P"%char then a ← optarg; _ ← modify (set_proto a); mret false
  else if opt "d"%char then a ← optarg; n ← stoi a; _ ← modify (set_data_size (u64 n)); mret false
  else if opt "C"%char then a ← optarg; n ← stoi a; _ ← modify (set_concurrency n); mret false
  else if opt "T"%char then a ← optarg; n ← stoi a; _ ← modify (set_thread n); mret false
  else if Getopt.opt_val o =? kPersistentTag then _ ← modify set_persistent; mret false
  else if Getopt.opt_val o =? kMonitorTimeTag then
    a ← optarg; d ← stof_arg a; _ ← modify (set_monitor d); mret false
  else if Getopt.opt_val o =? kWarmupTag then
    a ← optarg; d ← stof_arg a; _ ← modify (set_warmup d); mret false
  else if opt "t"%char then
    a ← optarg; n ← stoi a; _ ← modify (set_time (double_of_int n)); mret false
  else mret true.

Fixpoint on_options (os : list Getopt.opt) : OM bool :=
  match os with
  | [] => mret false
  | o :: os => err ← on_option o; if err : bool then mret true else on_options os
  end.

(** The arguments after the name of the program; the result is 0 or 1. *)
Definition ParseArgument (args : list string) : OM Z :=
  let (os, rest) := Getopt.getopt_long options args in
  err ← on_options os;
  if err : bool then mret 1
  else
    match rest with
    | [] => _ ← modify (set_server true); mret 0
    | [h] => _ ← modify (set_server false); _ ← modify (set_host h); mret 0
    | _ => mret 1
    end.

(** * App::Create *)

(** [opts.is_server.value() ? new Server(opts) : new Client(opts)] *)
Definition new_app {S} (o : Opts) (server client : app_kind) : M S (option app_kind) :=
  b ← value (is_server o);
  mret (Some (if b : bool then server else client)).

(** [None] is the null pointer; [RPC_UNIMPLEMENTED] is a fatal log message. *)
Definition Create {S} (o : Opts) : M S (option app_kind) :=
  _ ← check (bool_decide (is_Some (app o)));
  _ ← check (bool_decide (is_Some (rpc o)));
  a ← value (app o);
  r ← value (rpc o);
  if decide (a = "bandwidth") then
    if decide (r = "grpc") then new_app o GrpcBwServerApp GrpcBwClientApp
    else if decide (r = "socket") then new_app o SocketBwServerApp SocketBwClientApp
    else if decide (r = "brpc") then new_app o BrpcBwServerApp BrpcBwClientApp
    else if decide (r = "zeromq") then new_app o ZeromqBwServerApp ZeromqBwClientApp
    else mret None
  else if decide (a = "latency") then
    if decide (r = "grpc") then new_app o GrpcLatServerApp GrpcLatClientApp
    else if decide (r = "socket") then fatal
    else fatal
  else if decide (a = "throughput") then
    if decide (r = "grpc") then new_app o GrpcTputServerApp GrpcTputClientApp
    else fatal
  else if decide (a = "hotel_reservation") then
    if decide (r = "grpc") then new_app o HotelReservationServerApp HotelReservationClientApp
    else fatal
  else fatal.

(** * main *)

Section main.
Context {W : Type}.
(** The methods [Run] of the applications, and the start of the thread that
    monitors the CPU. *)
Context (run_app : app_kind → Opts → M W Z) (start_monitor : Opts → M W unit).

(** What the destructor of the [unique_ptr<App>] does when [main] returns: it deletes
    the application through a pointer to the class [App], an abstract class, so the
    object is of a derived one, and without a virtual destructor, so this is
    undefined. *)
Definition delete_app : M W unit := undef.

(** The text on the terminal is left out. *)
Definition main (args : list string) : M W Z := λ w,
  match ParseArgument args CommandOpts_make with
  | Stop r => Stop r
  | Ret (err, o) =>
      (if negb (err =? 0) then mret 1
       else
         _ ← (if decide (is_Some (monitor_time_sec o)) then start_monitor o else mret tt);
         k ← Create o;
         k ← deref k;
         r ← run_app k o;
         _ ← delete_app;
         mret r) w
  end.
End main.

(** * DebugString *)

Section text.
(** [operator<<] and [std::to_string] of a [double]. *)
Context (show_double to_string_double : D → string).

Definition NULLOPT : string := "(nullopt)".
Definition show_bool (b : bool) : string := if b then "1" else "0".

(** [is_server.value_or(NULLOPT)] converts the pointer to [bool], that is to true. *)
Definition DebugString (o : Opts) : string :=
  "{ is_server: " +:+ show_bool (default true (is_server o)) +:+
  ", host: " +:+ default NULLOPT (host o) +:+ ", port: " +:+ pretty (port o) +:+
  ", app: " +:+ default NULLOPT (app o) +:+ ", rpc: " +:+ default NULLOPT (rpc o) +:+
  ", proto: " +:+ default NULLOPT (proto o) +:+ ", data_size: " +:+ pretty (data_size o) +:+
  ", concurrency: " +:+ pretty (concurrency o) +:+ ", thread: " +:+ pretty (thread o) +:+
  ", persistent: " +:+ show_bool (persistent o) +:+ ", time: " +:+ show_double (time_duration_sec o) +:+
  ", monitor-time: " +:+ default NULLOPT (to_string_double <$> monitor_time_sec o) +:+
  ", warmup: " +:+ show_double (monitor_warmup_sec o) +:+ " }".
End text.
End options.

(** A client that has not been told so is printed as a server. *)
Example DebugString_unset :
  DebugString pretty pretty (CommandOpts_make id) =
  "{ is_server: 1, host: (nullopt), port: 18000, app: (nullopt), rpc: (nullopt), proto: (nullopt), data_size: 0, concurrency: 32, thread: 1, persistent: 0, time: 10, monitor-time: (nullopt), warmup: 1 }".
Proof. vm_compute. reflexivity. Qed.
