(* ===== verification/CommandLineProps.v ===== *)
(** The command line: what [ParseArgument] may do, the options it reads back, the
    table of applications, and [main] on a well-formed command line. *)
From Stdlib Require Import Ascii.
From stdpp Require Import pretty.
From S2P Require Import Prelude CInt Scan CommandLine.

Local Open Scope Z_scope.

(** * getopt_long on the program's tables *)

(** An option without an argument is one that takes none. *)
Definition opt_wf (o : Getopt.opt) : Prop :=
  is_Some (Getopt.opt_arg o) ∨
  Getopt.opt_val o ∈ [Getopt.chr "h"%char; kPersistentTag; Getopt.chr "?"%char].

Lemma opt_wf_arg o :
  opt_wf o → Getopt.opt_val o ≠ Getopt.chr "h"%char → Getopt.opt_val o ≠ kPersistentTag →
  Getopt.opt_val o ≠ Getopt.chr "?"%char → ∃ a, Getopt.opt_arg o = Some a.
Proof. intros [[a Ha]|Hin] ? ? ?; [by exists a|]. rewrite !elem_of_cons, elem_of_nil in Hin. tauto. Qed.

Lemma bad_wf : opt_wf Getopt.bad.
Proof. right. do 2 right. left. Qed.

(** The two tables, entry by entry. *)
Lemma short_wf : Forall (λ x, x.2 = false → opt_wf (Getopt.mkOpt (Getopt.chr x.1) None))
  (Getopt.short_options options).
Proof. repeat first [apply List.Forall_cons | apply List.Forall_nil]; try done. intros _. right. left. Qed.
Lemma long_wf : Forall (λ x, x.1.2 = false → opt_wf (Getopt.mkOpt x.2 None))
  (Getopt.long_options options).
Proof.
  repeat first [apply List.Forall_cons | apply List.Forall_nil]; try done; intros _; right.
  - left.
  - right. left.
Qed.

Lemma find_short_wf c : Getopt.find_short (Getopt.short_options options) c = Some false →
  opt_wf (Getopt.mkOpt (Getopt.chr c) None).
Proof.
  unfold Getopt.find_short. intros Hf.
  destruct (filter (λ x : ascii * bool, x.1 = c) (Getopt.short_options options)) as [|[c' b] l] eqn:Hl;
    [done|].
  injection Hf as ->.
  assert (Hin : (c', false) ∈ filter (λ x : ascii * bool, x.1 = c) (Getopt.short_options options))
    by (rewrite Hl; left).
  apply list_elem_of_filter in Hin as [<- Hin].
  exact (proj1 (list.Forall_forall _ _) short_wf _ Hin eq_refl).
Qed.

Lemma find_long_in l name x : Getopt.find_long l name = Some x → x ∈ l.
Proof.
  unfold Getopt.find_long. intros Hf.
  destruct (filter (λ x : string * bool * Z, x.1.1 = name) l) as [|y l'] eqn:He.
  - destruct (filter (λ x : string * bool * Z, String.prefix name x.1.1 = true) l) as [|y [|]] eqn:Hp;
      simplify_eq.
    assert (Hin : x ∈ filter (λ x : string * bool * Z, String.prefix name x.1.1 = true) l)
      by (rewrite Hp; left). by apply list_elem_of_filter in Hin as [_ ?].
  - simplify_eq. assert (Hin : x ∈ filter (λ x : string * bool * Z, x.1.1 = name) l)
      by (rewrite He; left). by apply list_elem_of_filter in Hin as [_ ?].
Qed.

Lemma find_long_wf name n v :
  Getopt.find_long (Getopt.long_options options) name = Some (n, false, v) →
  opt_wf (Getopt.mkOpt v None).
Proof.
  intros Hin%find_long_in. exact (proj1 (list.Forall_forall _ _) long_wf _ Hin eq_refl).
Qed.

Definition opts_wf (r : list Getopt.opt * list string) : Prop := Forall opt_wf r.1.

Lemma with_arg_wf v args k : (∀ a, opts_wf (k a)) → opts_wf (Getopt.with_arg v args k).
Proof.
  intros Hk. destruct args as [|a args]; unfold opts_wf; simpl.
  - constructor; [apply bad_wf|done].
  - specialize (Hk args). destruct (k args). constructor; [left; by eexists|done].
Qed.

Lemma cluster_wf letters args k :
  (∀ a, opts_wf (k a)) → opts_wf (Getopt.cluster options letters args k).
Proof.
  intros Hk. induction letters as [|c rest IH]; [apply Hk|]. cbn [Getopt.cluster].
  destruct (Getopt.find_short _ c) as [[]|] eqn:Hf.
  - destruct rest as [|c' rest]; [by apply with_arg_wf|].
    unfold opts_wf. specialize (Hk args). destruct (k args). constructor; [left; by eexists|done].
  - destruct (Getopt.cluster _ _ _ _). constructor; [by apply find_short_wf|done].
  - constructor; [apply bad_wf|done].
Qed.

Lemma getopt_wf fuel args : opts_wf (Getopt.getopt options fuel args).
Proof.
  revert args. induction fuel as [|fuel IH]; intros args; [constructor|].
  destruct args as [|a args]; [constructor|].
  assert (Hplain : opts_wf (let (os, ns) := Getopt.getopt options fuel args in (os, a :: ns))).
  { specialize (IH args). by destruct (Getopt.getopt options fuel args). }
  assert (Hlong : ∀ name, opts_wf (
    let (name, value) := Getopt.split_eq name in
    match Getopt.find_long (Getopt.long_options options) name, value with
    | None, _ => ([Getopt.bad], [])
    | Some (_, false, v), None =>
        let (os, ns) := Getopt.getopt options fuel args in (Getopt.mkOpt v None :: os, ns)
    | Some (_, false, _), Some _ => ([Getopt.bad], [])
    | Some (_, true, v), Some a =>
        let (os, ns) := Getopt.getopt options fuel args in (Getopt.mkOpt v (Some a) :: os, ns)
    | Some (_, true, v), None => Getopt.with_arg v args (Getopt.getopt options fuel)
    end)).
  { intros name. destruct (Getopt.split_eq name) as [n value].
    destruct (Getopt.find_long _ n) as [[[m []] v]|] eqn:Hf; [|destruct value|].
    - destruct value; [|by apply with_arg_wf].
      specialize (IH args). destruct (Getopt.getopt options fuel args).
      constructor; [left; by eexists|done].
    - constructor; [apply bad_wf|done].
    - specialize (IH args). destruct (Getopt.getopt options fuel args).
      constructor; [by eapply find_long_wf|done].
    - constructor; [apply bad_wf|done]. }
  destruct a as [|c a]; [exact Hplain|].
  destruct (ascii_dec c "-"%char) as [->|Hc].
  - destruct a as [|c2 a]; [exact Hplain|].
    destruct (ascii_dec c2 "-"%char) as [->|Hc2].
    + destruct a as [|c3 a]; [constructor|]. exact (Hlong (String c3 a)).
    + pose proof (cluster_wf (String c2 a) args (Getopt.getopt options fuel) IH) as Hcl.
      destruct c2 as [[] [] [] [] [] [] [] []]; first [exact Hcl | by destruct Hc2].
  - destruct c as [[] [] [] [] [] [] [] []]; first [exact Hplain | by destruct Hc].
Qed.

(** * ParseArgument *)

Section parse.
Context {D : Type} (double_of_int : Z → D) (stof : string → exn + D).
Abbreviation Opts := (CommandOpts D).
Implicit Types (o : Opts).

(** How parsing can end without a result: the help text, or a number that the
    library does not accept. *)
Definition parse_stop : stop → Prop := λ r, r = Exit 0 ∨ ∃ e, r = Throw e.

Lemma wp_stoi {S} a (s : S) (Q : Z → S → Prop) : (∀ n, INT_MIN ≤ n ≤ INT_MAX → Q n s) → wp parse_stop (stoi a) s Q.
Proof.
  intros HQ. unfold stoi. destruct (scan_int a) as [[z r]|]; [|by right; eexists].
  unfold in_i32. destruct (Z.leb_spec INT_MIN z), (Z.leb_spec z INT_MAX); simpl; try by right; eexists.
  by apply HQ.
Qed.
Lemma wp_stof a o (Q : D → Opts → Prop) : (∀ d, Q d o) → wp parse_stop (stof_arg stof a) o Q.
Proof. intros HQ. unfold stof_arg. destruct (stof a); [by right; eexists|by apply HQ]. Qed.

(** An option leaves alone whether this is a server, and the host. *)
Definition same_role o o' : Prop := is_server o' = is_server o ∧ host o' = host o.

Lemma wp_on_option op o :
  opt_wf op → wp parse_stop (on_option double_of_int stof op) o (λ _ o', same_role o o').
Proof.
  intros Hwf. unfold on_option.
  destruct op as [v arg]. cbn [Getopt.opt_val Getopt.opt_arg] in *.
  repeat match goal with
  | |- wp _ (if ?v =? ?k then _ else _) _ _ => destruct (Z.eqb_spec v k) as [->|?]
  end; try (change (parse_stop (Exit 0)); by left); try (by apply wp_ret).
  all: try (apply opt_wf_arg in Hwf as [a Ha]; [cbn in Ha; subst arg|vm_compute; discriminate..]).
  all: repeat first
    [ wp_step | apply (wp_deref _ _ a); [done|] | apply wp_stoi; intros ? ? | apply wp_stof; intros ? ].
  all: by destruct o.
Qed.

Lemma wp_on_options os o :
  Forall opt_wf os →
  wp parse_stop (on_options double_of_int stof os) o (λ _ o', same_role o o').
Proof.
  intros Hwf. revert o. induction Hwf as [|op os Hop _ IH]; intros o; cbn [on_options].
  - apply wp_ret. done.
  - wp_step. eapply wp_mono; [by apply wp_on_option|]. intros err o' [Hs Hh].
    destruct err; [by apply wp_ret|]. eapply wp_mono; [apply IH|].
    intros err o2 [Hs2 Hh2]. split; congruence.
Qed.

(** C31. What parsing may do.  For every command line, parsing shows the help and
    exits, or throws the exception of a number that cannot be read, or returns 0
    or 1; it meets no undefined behaviour, so no option is used without its
    argument.  When it returns 0 there was at most one argument besides the
    options; with none the process is a server and the host is as it was, with
    one it is a client of that host. *)
Theorem ParseArgument_outcome args o :
  wp parse_stop (ParseArgument double_of_int stof args) o (λ err o',
    err = 1 ∨ err = 0 ∧
    match (Getopt.getopt_long options args).2 with
    | [] => is_server o' = Some true ∧ host o' = host o
    | [h] => is_server o' = Some false ∧ host o' = Some h
    | _ => False
    end).
Proof.
  unfold ParseArgument. pose proof (getopt_wf (S (length args)) args) as Hwf.
  fold (Getopt.getopt_long options args) in Hwf. unfold opts_wf in Hwf.
  destruct (Getopt.getopt_long options args) as [os rest]. cbn [fst snd] in *.
  wp_step. eapply wp_mono; [by apply wp_on_options|]. intros err o' [Hs Hh].
  destruct err; [by apply wp_ret; left|].
  destruct rest as [|h [|? ?]]; [| |by apply wp_ret; left].
  - wp_steps. by right.
  - wp_steps. by right.
Qed.
End parse.

(** * Reading options back *)

(** An option with its argument, as two arguments of the command line. *)
Definition short_arg (x : ascii * string) : list string := [String "-" (String x.1 ""); x.2].
Definition short_opt (x : ascii * string) : Getopt.opt :=
  Getopt.mkOpt (Getopt.chr x.1) (Some x.2).

Lemma getopt_short c a fuel rest :
  Getopt.find_short (Getopt.short_options options) c = Some true →
  Getopt.getopt options (S fuel) (String "-" (String c "") :: a :: rest) =
    let (os, ns) := Getopt.getopt options fuel rest in
    (Getopt.mkOpt (Getopt.chr c) (Some a) :: os, ns).
Proof.
  intros Hc. destruct (ascii_dec c "-"%char) as [->|Hne]; [done|].
  assert (Hcl : Getopt.getopt options (S fuel) (String "-" (String c "") :: a :: rest) =
    Getopt.cluster options (String c "") (a :: rest) (Getopt.getopt options fuel)).
  { clear Hc. destruct c as [[] [] [] [] [] [] [] []]; first [reflexivity | by destruct Hne]. }
  rewrite Hcl. cbn [Getopt.cluster]. by rewrite Hc.
Qed.

Lemma getopt_shorts l fuel rest :
  Forall (λ x, Getopt.find_short (Getopt.short_options options) x.1 = Some true) l →
  Getopt.getopt options (length l + fuel) (mjoin (short_arg <$> l) ++ rest) =
    let (os, ns) := Getopt.getopt options fuel rest in ((short_opt <$> l) ++ os, ns).
Proof.
  intros Hl. induction Hl as [|[c a] l Hc _ IH]; [by destruct (Getopt.getopt _ _ _)|].
  change (Getopt.getopt options (S (length l + fuel))
    (String "-" (String c "") :: a :: (mjoin (short_arg <$> l) ++ rest)) =
    let (os, ns) := Getopt.getopt options fuel rest in ((short_opt <$> (c, a) :: l) ++ os, ns)).
  rewrite getopt_short, IH by done. destruct (Getopt.getopt options fuel rest). reflexivity.
Qed.

Section render.
Context {D : Type} (double_of_int : Z → D) (stof : string → exn + D).
Abbreviation Opts := (CommandOpts D).
Implicit Types (o : Opts).

(** The options that carry values, in the order of [CommandOpts]; [t] is the
    duration in seconds. *)
Definition pairs o (t : Z) : list (ascii * string) :=
  [("p"%char, pretty (port o))] ++
  (from_option (λ a, [("a"%char, a)]) [] (app o)) ++
  (from_option (λ r, [("r"%char, r)]) [] (rpc o)) ++
  (from_option (λ p, [("P"%char, p)]) [] (proto o)) ++
  [("d"%char, pretty (data_size o)); ("C"%char, pretty (concurrency o));
   ("T"%char, pretty (thread o)); ("t"%char, pretty t)].

(** A command line for the options [o]. *)
Definition render o (t : Z) : list string :=
  mjoin (short_arg <$> pairs o t) ++
  (if persistent o then ["--persistent"] else []) ++
  (match host o with Some h => [h] | None => [] end).

(** An argument that is not taken for an option. *)
Definition plain (s : string) : Prop :=
  match s with String "-"%char (String _ _) => False | _ => True end.

(** Options that a command line can give: a client has a host, a server none;
    the numbers are ints; the parts that only [std::stof] sets have their
    defaults. *)
Definition expressible o (t : Z) : Prop :=
  is_server o = Some (match host o with Some _ => false | None => true end) ∧
  match host o with Some h => plain h | None => True end ∧
  INT_MIN ≤ port o ≤ INT_MAX ∧ 0 ≤ data_size o ≤ INT_MAX ∧ INT_MIN ≤ concurrency o ≤ INT_MAX ∧
  INT_MIN ≤ thread o ≤ INT_MAX ∧ INT_MIN ≤ t ≤ INT_MAX ∧
  time_duration_sec o = double_of_int t ∧ monitor_time_sec o = None ∧
  monitor_warmup_sec o = double_of_int kDefaultWarmupTimeSec.

Lemma pairs_short o t :
  Forall (λ x, Getopt.find_short (Getopt.short_options options) x.1 = Some true) (pairs o t).
Proof.
  unfold pairs. destruct (app o), (rpc o), (proto o); simpl;
    repeat (apply List.Forall_cons; [reflexivity|]); apply List.Forall_nil.
Qed.

Lemma getopt_plain fuel h : plain h → Getopt.getopt options (S fuel) [h] = ([], [h]).
Proof.
  intros Hp.
  assert (Hn : Getopt.getopt options fuel [] = ([], [])) by by destruct fuel.
  assert (Hplain : (let (os, ns) := Getopt.getopt options fuel [] in (os, h :: ns)) = ([], [h]))
    by by rewrite Hn.
  destruct h as [|c h]; [exact Hplain|].
  destruct (ascii_dec c "-"%char) as [->|Hc].
  - destruct h; [exact Hplain|done].
  - destruct c as [[] [] [] [] [] [] [] []]; first [exact Hplain | by destruct Hc].
Qed.

Lemma getopt_tail o fuel :
  (2 ≤ fuel)%nat → match host o with Some h => plain h | None => True end →
  Getopt.getopt options fuel ((if persistent o then ["--persistent"] else []) ++
    match host o with Some h => [h] | None => [] end) =
  ((if persistent o then [Getopt.mkOpt kPersistentTag None] else []),
   match host o with Some h => [h] | None => [] end).
Proof.
  intros Hf Hh. destruct fuel as [|[|fuel]]; [lia|lia|].
  assert (Hn : Getopt.getopt options (S fuel) (match host o with Some h => [h] | None => [] end) =
    ([], match host o with Some h => [h] | None => [] end)).
  { destruct (host o); [by apply getopt_plain|done]. }
  destruct (persistent o).
  - transitivity (let (os, ns) := Getopt.getopt options (S fuel)
        (match host o with Some h => [h] | None => [] end) in
      (Getopt.mkOpt kPersistentTag None :: os, ns)); [reflexivity|].
    by rewrite Hn.
  - destruct (host o); [by apply getopt_plain|done].
Qed.

(** [on_options] on the options that carry values. *)
Lemma on_options_pairs o t os s :
  expressible o t →
  on_options double_of_int stof ((short_opt <$> pairs o t) ++ os) s =
  on_options double_of_int stof os
    (set_time (double_of_int t) (set_thread (thread o) (set_concurrency (concurrency o)
      (set_data_size (data_size o) (from_option set_proto id (proto o) (from_option set_rpc id (rpc o)
        (from_option set_app id (app o) (set_port (port o) s)))))))).
Proof.
  intros (_ & _ & Hp & Hd & Hc & Ht & Hsec & _).
  assert (Hint : ∀ c z (f : Z → Opts → Opts) os s, INT_MIN ≤ z ≤ INT_MAX →
    (∀ a s, on_option double_of_int stof (short_opt (c, a)) s =
      (n ← stoi a; _ ← modify (f n); mret false) s) →
    on_options double_of_int stof (short_opt (c, pretty z) :: os) s =
    on_options double_of_int stof os (f z s)).
  { intros c z f os' s' Hz Hf. cbn [on_options]. unfold mbind at 1, M_bind at 1.
    rewrite Hf. unfold mbind, M_bind. by rewrite stoi_pretty. }
  unfold pairs. rewrite !fmap_app, <- !(assoc_L (++)). cbn [fmap list_fmap Datatypes.app].
  rewrite (Hint _ _ set_port) by done.
  assert (Hopt : ∀ c (f : string → Opts → Opts) (x : option string) os s,
    (∀ a s, on_option double_of_int stof (short_opt (c, a)) s = Ret (false, f a s)) →
    on_options double_of_int stof
      ((short_opt <$> from_option (λ a, [(c, a)]) [] x) ++ os) s =
    on_options double_of_int stof os (from_option f id x s)).
  { intros c f [a|] os' s' Hf; [|done]. cbn [from_option fmap list_fmap Datatypes.app on_options].
    unfold mbind, M_bind. by rewrite Hf. }
  rewrite (Hopt "a"%char set_app), (Hopt "r"%char set_rpc), (Hopt "P"%char set_proto) by done.
  rewrite (Hint _ _ (λ n, set_data_size (u64 n))) by (done || (unfold INT_MIN; lia)).
  rewrite (Hint _ _ set_concurrency), (Hint _ _ set_thread) by done.
  rewrite (Hint _ _ (λ n, set_time (double_of_int n))) by done.
  rewrite u64_small by (unfold INT_MAX in *; lia). done.
Qed.

(** C25. Options survive the command line: rendering the options of a client or a
    server as arguments and parsing them gives the same options back. *)
Theorem ParseArgument_render o t :
  expressible o t →
  ParseArgument double_of_int stof (render o t) (CommandOpts_make double_of_int) = Ret (0, o).
Proof.
  intros He. unfold ParseArgument, Getopt.getopt_long.
  set (args := render o t).
  assert (Hfuel : ∃ f, S (length args) = (length (pairs o t) + f)%nat ∧ (2 ≤ f)%nat).
  { exists (S (length args) - length (pairs o t))%nat.
    assert (2 * length (pairs o t) ≤ length args)%nat.
    { subst args. unfold render. rewrite length_app.
      enough (∀ l, length (mjoin (short_arg <$> l)) = 2 * length l)%nat by (rewrite H; lia).
      clear. induction l as [|x l IH]; [done|].
      change (S (S (length (mjoin (short_arg <$> l)))) = 2 * S (length l))%nat. lia. }
    assert (1 ≤ length (pairs o t))%nat by (unfold pairs; simpl; lia). lia. }
  destruct Hfuel as (f & -> & Hf). subst args. unfold render at 1.
  rewrite getopt_shorts by apply pairs_short. rewrite getopt_tail by (done || apply He).
  unfold mbind, M_bind. rewrite on_options_pairs by done.
  destruct He as (Hs & _ & _ & _ & _ & _ & _ & Ht & Hm & Hw).
  destruct o as [sv h p a r pr d c th pe tm mt wu]. cbn in *. subst.
  by destruct pe, h, a, r, pr.
Qed.
End render.

(** * App::Create and main *)

(** The benchmarks there are: application, library, server and client. *)
Definition catalogue : list (string * string * (app_kind * app_kind)) :=
  [("bandwidth", "grpc", (GrpcBwServerApp, GrpcBwClientApp));
   ("bandwidth", "socket", (SocketBwServerApp, SocketBwClientApp));
   ("bandwidth", "brpc", (BrpcBwServerApp, BrpcBwClientApp));
   ("bandwidth", "zeromq", (ZeromqBwServerApp, ZeromqBwClientApp));
   ("latency", "grpc", (GrpcLatServerApp, GrpcLatClientApp));
   ("throughput", "grpc", (GrpcTputServerApp, GrpcTputClientApp));
   ("hotel_reservation", "grpc", (HotelReservationServerApp, HotelReservationClientApp))]%string.

Definition find_app (a r : string) : option (app_kind * app_kind) :=
  snd <$> head (filter (λ x, x.1 = (a, r)) catalogue).

(** What a request for an application leads to. *)
Inductive selection := Selected (k : app_kind) | Null | Refused.
Definition select (a r : string) (server : bool) : selection :=
  match find_app a r with
  | Some (s, c) => Selected (if server then s else c)
  | None => if decide (a = "bandwidth"%string) then Null else Refused
  end.

Section create.
Context {D : Type} (double_of_int : Z → D) (stof : string → exn + D).
Abbreviation Opts := (CommandOpts D).
Implicit Types (o : Opts).

(** [App::Create] is the table [catalogue].  For a given application, library
    and role it makes the class of the table; for a pair that is not in the table
    it aborts, except that for the bandwidth benchmark it returns a null
    pointer. *)
Lemma Create_table {S} o a r b (s : S) :
  app o = Some a → rpc o = Some r → is_server o = Some b →
  Create o s = match select a r b with
               | Selected k => Ret (Some k, s)
               | Null => Ret (None, s)
               | Refused => Stop Fatal
               end.
Proof.
  intros Ha Hr Hs. unfold Create, new_app, select, find_app, catalogue. rewrite Ha, Hr, Hs.
  rewrite !bool_decide_eq_true_2 by by eexists.
  cbv [check value mbind M_bind mret M_ret fatal].
  destruct (decide (a = "bandwidth"%string)) as [->|]; [|
  destruct (decide (a = "latency"%string)) as [->|]; [|
  destruct (decide (a = "throughput"%string)) as [->|]; [|
  destruct (decide (a = "hotel_reservation"%string)) as [->|]]]].
  all: try (destruct (decide (r = "grpc"%string)) as [->|]; [by destruct b|]).
  all: try (destruct (decide (r = "socket"%string)) as [->|]; [by destruct b|]).
  all: try (destruct (decide (r = "brpc"%string)) as [->|]; [by destruct b|]).
  all: try (destruct (decide (r = "zeromq"%string)) as [->|]; [by destruct b|]).
  all: rewrite !filter_cons; cbn [fst]; rewrite !decide_False by congruence; done.
Qed.
End create.

Section main.
Context {D W : Type} (double_of_int : Z → D) (stof : string → exn + D).
Context (run_app : app_kind → CommandOpts D → M W Z) (start_monitor : CommandOpts D → M W unit).

(** C20. How [main] ends.  On a command line for the options [o] that names
    application [a] and library [r], the [Run] of the class in [catalogue] is called,
    server or client as a host is given or not.  If it stops (an abort, an exception,
    [exit], a loop that goes on), so does [main]; if it returns, [main] deletes the
    object through a pointer to [App], which has no virtual destructor: no benchmark
    that returns ends the program in a defined way.  For other pairs it aborts, or, for
    bandwidth with a library that is not in the table (such as the [thrift] that
    README.md and the usage text list), calls [Run] on a null pointer. *)
Theorem main_dispatch o t a r w :
  expressible double_of_int o t → CommandLine.app o = Some a → CommandLine.rpc o = Some r →
  main double_of_int stof run_app start_monitor (render o t) w =
    match select a r (match host o with Some _ => false | None => true end) with
    | Selected k => match run_app k o w with Ret _ => Stop Undef | Stop why => Stop why end
    | Null => Stop Undef
    | Refused => Stop Fatal
    end.
Proof.
  intros He Ha Hr. unfold main. rewrite ParseArgument_render by done. cbn [negb Z.eqb].
  assert (Hs : is_server o = Some (match host o with Some _ => false | None => true end)) by apply He.
  assert (Hm : monitor_time_sec o = None) by apply He.
  rewrite Hm. rewrite decide_False by by intros []. unfold mbind, M_bind, mret, M_ret.
  rewrite (Create_table o a r _ w Ha Hr Hs). destruct (select a r _) as [k| |]; [|done..].
  simpl. by destruct (run_app k o w) as [[]|].
Qed.
End main.

(** * Examples *)

(** The [double]s of the examples are integers, and no text is one. *)
Definition demo_opts : CommandOpts Z :=
  mkOpts (Some false) (Some "10.0.0.7"%string) 18001 (Some "bandwidth"%string) (Some "socket"%string) None
    65536 1 2 true 20 None 1.
Definition demo_thrift : CommandOpts Z :=
  mkOpts (Some true) None 18000 (Some "bandwidth"%string) (Some "thrift"%string) None 0 32 1 false 10 None 1.
Definition demo_stof (s : string) : exn + Z := inl invalid_argument.

Example render_demo :
  render demo_opts 20 =
  ["-p"; "18001"; "-a"; "bandwidth"; "-r"; "socket"; "-d"; "65536"; "-C"; "1"; "-T"; "2"; "-t"; "20";
   "--persistent"; "10.0.0.7"]%string.
Proof. vm_compute. reflexivity. Qed.

(** Options after the host, an abbreviation, a value in the same argument. *)
Example ParseArgument_demo :
  ParseArgument id demo_stof ["10.0.0.7"; "--port=18001"; "-abandwidth"; "--conc"; "1"]%string
    (CommandOpts_make id) =
  Ret (0, mkOpts (Some false) (Some "10.0.0.7"%string) 18001 (Some "bandwidth"%string) None None
            0 1 1 false 10 None 1).
Proof. vm_compute. reflexivity. Qed.

(** A negative size becomes a huge one; text that is no number is an exception. *)
Example ParseArgument_negative :
  (λ r, data_size r.2) <$> match ParseArgument id demo_stof ["-d"; "-1"]%string (CommandOpts_make id) with
    | Ret r => Some r | Stop _ => None end = Some (2 ^ 64 - 1).
Proof. vm_compute. reflexivity. Qed.
Example ParseArgument_text :
  ParseArgument id demo_stof ["--port"; "http"]%string (CommandOpts_make id) = Stop (Throw invalid_argument).
Proof. vm_compute. reflexivity. Qed.

Ltac expressible_tac :=
  unfold expressible; cbn; split_and!; try done; unfold INT_MIN, INT_MAX; lia.

Lemma ParseArgument_render_witness :
  ParseArgument id demo_stof (render demo_opts 20) (CommandOpts_make id) = Ret (0, demo_opts).
Proof. apply (ParseArgument_render id demo_stof demo_opts 20). expressible_tac. Defined.

Lemma Create_table_witness :
  Create demo_opts tt = Ret (Some SocketBwClientApp, tt).
Proof. apply (Create_table demo_opts "bandwidth" "socket" false tt); reflexivity. Defined.

(** The socket client of the example, with a [Run] that aborts for it only; and one
    that returns. *)
Definition demo_run (k : app_kind) (o : CommandOpts Z) : M unit Z :=
  if decide (k = SocketBwClientApp) then fatal else mret 0.

Example main_thrift :
  main id demo_stof demo_run (λ _, mret tt) (render demo_thrift 10) tt = Stop Undef.
Proof. vm_compute. reflexivity. Qed.
Example main_returns :
  main id demo_stof (λ _ _, mret 0) (λ _, mret tt) (render demo_opts 20) tt = Stop Undef.
Proof. vm_compute. reflexivity. Qed.

Lemma main_dispatch_witness :
  main id demo_stof demo_run (λ _, mret tt) (render demo_opts 20) tt = Stop Fatal.
Proof.
  apply (main_dispatch id demo_stof demo_run (λ _, mret tt) demo_opts 20 "bandwidth" "socket" tt);
    [expressible_tac|reflexivity..].
Defined.
