(* ===== verification/LatClient.v ===== *)
(** grpc/grpc_lat_app.{h,cc}, class [GrpcLatClientApp], and lat_app.{h,cc}: the
    client that measures one call at a time, and the percentiles it prints.  The
    completion queue is the interface of ClosedLoop.v.  A latency is kept as the
    nanoseconds its double is computed from ([micros]). *)
From Stdlib Require Import QArith.
From stdpp Require Import sorting.
From S2P Require Import Prelude CInt Double Meter ClosedLoop.

Local Open Scope Z_scope.

(** * The loop *)

(** [std::chrono::duration<double> diff = now - last], a number of seconds, and
    [1e6 * diff.count()]. *)
Definition micros (ns : Z) : Q :=
  double_mul (inject_Z 1000000) (double_div (double_of_Z ns) (inject_Z 1000000000)).

(** The process: the status of each [AsyncClientCall] by address, the queue,
    [latencies] and the clock. *)
Record lat_state (L C : Type) := LatState {
  l_calls : gmap Z bool;
  l_queue : L;
  latencies : list Z;
  l_clock : C;
}.
Arguments LatState {L C} _ _ _ _.
Arguments l_calls {L C} _.
Arguments l_queue {L C} _.
Arguments latencies {L C} _.
Arguments l_clock {L C} _.

Section lat.
Context {L C : Type} `{!ClientQueue Z L}.
Context (now : C → Z * C) (data_size : Z).

Abbreviation LM := (M (lat_state L C)).
Definition clock_now : LM Z :=
  zoom l_clock (λ c s, LatState (l_calls s) (l_queue s) (latencies s) c) (lift now).

(** [new AsyncClientCall(stub, &cq, data)]; a [Status] is OK until it is set. *)
Definition lat_new_call : LM Z :=
  calls ← gets l_calls;
  let tag := fresh (dom calls) in
  _ ← modify (λ s, LatState (<[tag := true]> (l_calls s)) (cq_start data_size tag (l_queue s))
                     (latencies s) (l_clock s));
  mret tag.

(** [GPR_ASSERT(cq.Next(&tag, &ok))]: the library has filled in the call that
    has finished. *)
Definition lat_next : LM unit := λ s,
  match cq_next (l_queue s) with
  | (None, _) => Stop Fatal
  | (Some (tag, r), q) =>
      Ret (tt, LatState (<[tag := status_ok r]> (l_calls s)) q (latencies s) (l_clock s))
  end.

(** One call, made and waited for: whether [call->status.ok()]. *)
Definition lat_call : LM bool :=
  call ← lat_new_call;
  _ ← lat_next;
  calls ← gets l_calls;
  deref (calls !! call).

Definition push_latency (d : Z) : LM unit :=
  modify (λ s, LatState (l_calls s) (l_queue s) (latencies s ++ [d]) (l_clock s)).

(** [while (!timeout)]; the result is [overlimit]. *)
Fixpoint lat_loop (fuel : nat) (start last time_dura overlimit : Z) (timeout : bool) : LM Z :=
  match fuel with
  | O => nofuel
  | S fuel =>
      if timeout then mret overlimit
      else
        ok ← lat_call;
        if ok : bool then
          t ← clock_now;
          _ ← push_latency (t - last);
          last ← clock_now;
          lat_loop fuel start last time_dura overlimit (time_dura <? t - start)
        else
          overlimit ← signed64 (overlimit + 1);
          lat_loop fuel start last time_dura overlimit timeout
  end.

(** * LatClientApp::print *)

(** A double between 0 and 1 is [m / 2^e] with a mantissa of 53 bits. *)
Record fraction := Fraction { mant : Z; expo : Z }.
Definition q_50 : fraction := Fraction (2 ^ 52) 53.
Definition q_05 : fraction := Fraction 7205759403792794 57.
Definition q_99 : fraction := Fraction 8917127262193582 53.
Definition q_999 : fraction := Fraction 8998192055486251 53.
Definition q_9999 : fraction := Fraction 9006298534815518 53.
Definition q_99999 : fraction := Fraction 9007109182748445 53.
Definition q_999999 : fraction := Fraction 9007190247541737 53.

(** Rounding a positive integer to 53 bits, ties to even. *)
Definition round53 (p : Z) : Z :=
  let k := Z.log2 p + 1 - 53 in
  if k <=? 0 then p
  else
    let q := p / 2 ^ k in
    let r := p mod 2 ^ k in
    let q := if (r <? 2 ^ (k - 1)) || ((r =? 2 ^ (k - 1)) && Z.even q) then q else q + 1 in
    q * 2 ^ k.

(** [(int)(q * len)]: the product of doubles, truncated; a value that is no int
    is undefined. *)
Definition percentile_index {S} (q : fraction) (len : Z) : M S Z :=
  let i := round53 (mant q * len) / 2 ^ expo q in
  if in_i32 i then mret i else undef.

Definition at_index (l : list Z) (i : Z) : LM Z :=
  if 0 <=? i then deref (l !! Z.to_nat i) else undef.

(** [std::sort] of the latencies; the line that is printed: the size of the data,
    the mean in microseconds, the latencies that are the percentiles, the largest
    latency and their number.  As [micros] keeps the order, sorting the nanoseconds
    sorts the doubles. *)
Record lat_report := LatReport {
  lr_data_size : Z;
  lr_mean : Q; lr_50 : Z; lr_05 : Z; lr_99 : Z; lr_999 : Z; lr_9999 : Z; lr_99999 : Z;
  lr_999999 : Z; lr_max : Z; lr_len : Z;
}.

(** [sum / len]. *)
Definition mean (l : list Z) : Q :=
  double_div (double_sum (micros <$> l)) (double_of_Z (Z.of_nat (length l))).

Definition print : LM lat_report :=
  _ ← modify (λ s, LatState (l_calls s) (l_queue s) (merge_sort Z.le (latencies s)) (l_clock s));
  l ← gets latencies;
  let len := Z.of_nat (length l) in
  let pick q := i ← percentile_index q len; at_index l i in
  p50 ← pick q_50;
  p05 ← pick q_05;
  p99 ← pick q_99;
  p999 ← pick q_999;
  p9999 ← pick q_9999;
  p99999 ← pick q_99999;
  p999999 ← pick q_999999;
  m ← at_index l (len - 1);
  mret (LatReport data_size (mean l) p50 p05 p99 p999 p9999 p99999 p999999 m len).

(** [GrpcLatClientApp::Run] after [Init]. *)
Definition lat_Run (fuel : nat) (time_dura_us : Z) : LM (Z * lat_report) :=
  start ← clock_now;
  overlimit ← lat_loop fuel start start (time_dura_us * 1000) 0 false;
  r ← print;
  mret (overlimit, r).
End lat.
