(* ===== verification/LatClientProps.v ===== *)
(** The latency client: it ends once enough time has passed at a success, never
    when every call fails; the percentiles it prints are in range and in order. *)
From Stdlib Require Import QArith Lqa.
From stdpp Require Import sorting.
From S2P Require Import Prelude CInt Double Meter ClosedLoop ClosedLoopProps LatClient.

Local Open Scope Z_scope.

(** * The indices of the percentiles *)

(** Rounding to 53 bits moves a number by at most a part in [2^53]. *)
Lemma round53_bounds p :
  0 < p → (2 ^ 53 - 1) * p ≤ 2 ^ 53 * round53 p ≤ (2 ^ 53 + 1) * p.
Proof.
  intros Hp. unfold round53. set (k := Z.log2 p + 1 - 53).
  destruct (Z.leb_spec k 0) as [Hk|Hk]; [lia|].
  pose proof (Z.log2_spec p Hp) as [Hlog _].
  assert (Hpow : 2 ^ Z.log2 p = 2 ^ 53 * 2 ^ (k - 1)).
  { rewrite <- Z.pow_add_r by lia. f_equal. subst k. lia. }
  assert (Hk2 : 2 ^ k = 2 * 2 ^ (k - 1)) by (rewrite <- Z.pow_succ_r by lia; f_equal; lia).
  assert (Hpos : 0 < 2 ^ (k - 1)) by (apply Z.pow_pos_nonneg; lia).
  pose proof (Z.div_mod p (2 ^ k) ltac:(lia)) as Hdm.
  pose proof (Z.mod_pos_bound p (2 ^ k) ltac:(lia)) as Hr.
  rewrite Hpow in Hlog. clear Hpow. rewrite Hk2 in Hr, Hdm |- *.
  revert Hdm Hr. generalize (p / (2 * 2 ^ (k - 1))) (p mod (2 * 2 ^ (k - 1))). intros q r Hdm Hr.
  remember (2 ^ (k - 1)) as h eqn:Hh. clear Hh Hk2 k Hk.
  destruct ((r <? h) || ((r =? h) && Z.even q)) eqn:Hb.
  - assert (r ≤ h) by (apply orb_prop in Hb as [?|[? _]%andb_prop]; lia). nia.
  - assert (h ≤ r) by (apply orb_false_iff in Hb as [? _]; lia). nia.
Qed.

(** [(int)(f * len)] as a number. *)
Definition index_of (f : fraction) (len : Z) : Z := round53 (mant f * len) / 2 ^ expo f.

(** The double [f] is the decimal [a / b] to half a unit, closer when below. *)
Definition approx (f : fraction) (a b : Z) : Prop :=
  0 < mant f < 2 ^ 53 ∧ 53 ≤ expo f ∧ 0 < a < b ∧ b ≤ 10 ^ 6 ∧
  2 * Z.abs (b * mant f - a * 2 ^ expo f) ≤ b ∧
  2 * 2 ^ 53 * (a * 2 ^ expo f - b * mant f) ≤ b * mant f.

(** Rounding does not go below a multiple of a large enough power of two that is
    at most the number, *)
Lemma round53_above p n e :
  0 < p → p < 2 ^ (53 + e) → 0 ≤ e → n * 2 ^ e ≤ p → n * 2 ^ e ≤ round53 p.
Proof.
  intros Hp Hlt He Hn. unfold round53. set (k := Z.log2 p + 1 - 53).
  destruct (Z.leb_spec k 0) as [Hk|Hk]; [done|].
  apply Z.log2_lt_pow2 in Hlt; [|done].
  assert (Hsplit : 2 ^ e = 2 ^ (e - k) * 2 ^ k) by (rewrite <- Z.pow_add_r by lia; f_equal; lia).
  assert (Hpos : 0 < 2 ^ k) by (apply Z.pow_pos_nonneg; lia).
  rewrite Hsplit, Z.mul_assoc in Hn |- *.
  assert (n * 2 ^ (e - k) ≤ p / 2 ^ k) by (apply Z.div_le_lower_bound; [done|lia]).
  destruct (_ || _); nia.
Qed.

(** and reaches one that is closer than half its unit. *)
Lemma round53_near p n e d :
  0 < p → p < 2 ^ (53 + e) → 0 ≤ e → p + d = n * 2 ^ e → 0 ≤ d → 2 * 2 ^ 53 * d ≤ p →
  n * 2 ^ e ≤ round53 p.
Proof.
  intros Hp Hlt He Hn Hd Hnear. unfold round53. set (k := Z.log2 p + 1 - 53).
  pose proof (Z.log2_spec p Hp) as [_ Hlog].
  destruct (Z.leb_spec k 0) as [Hk|Hk].
  { assert (2 ^ Z.succ (Z.log2 p) ≤ 2 ^ 53) by (apply Z.pow_le_mono_r; lia). lia. }
  apply Z.log2_lt_pow2 in Hlt; [|done].
  assert (Hsplit : 2 ^ e = 2 ^ (e - k) * 2 ^ k) by (rewrite <- Z.pow_add_r by lia; f_equal; lia).
  assert (Hpow : 2 ^ Z.succ (Z.log2 p) = 2 ^ 53 * (2 * 2 ^ (k - 1))).
  { rewrite <- Z.pow_succ_r, <- Z.pow_add_r by lia. f_equal. lia. }
  assert (Hk2 : 2 ^ k = 2 * 2 ^ (k - 1)) by (rewrite <- Z.pow_succ_r by lia; f_equal; lia).
  assert (Hpos : 0 < 2 ^ (k - 1)) by (apply Z.pow_pos_nonneg; lia).
  rewrite Hsplit, Z.mul_assoc in Hn |- *. rewrite Hpow in Hlog. clear Hpow Hsplit Hlt.
  pose proof (Z.div_mod p (2 ^ k) ltac:(lia)) as Hdm.
  pose proof (Z.mod_pos_bound p (2 ^ k) ltac:(lia)) as Hr.
  revert Hdm Hr Hn. rewrite Hk2.
  generalize (p / (2 * 2 ^ (k - 1))) (p mod (2 * 2 ^ (k - 1))) (n * 2 ^ (e - k)).
  intros q r N Hdm Hr Hn. revert Hpos Hlog Hdm Hr Hn. generalize (2 ^ (k - 1)). intros h.
  intros Hpos Hlog Hdm Hr Hn. clear Hk2 k Hk.
  assert (Hdh : d < h) by lia.
  destruct ((r <? h) || ((r =? h) && Z.even q)) eqn:Hb.
  - assert (r ≤ h) by (apply orb_prop in Hb as [?|[? _]%andb_prop]; lia).
    apply Z.mul_le_mono_nonneg_r; [lia|]. apply Z.lt_succ_r, (Z.mul_lt_mono_pos_r (2 * h)); lia.
  - apply Z.mul_le_mono_nonneg_r; [lia|].
    apply Z.lt_succ_r, (Z.mul_lt_mono_pos_r (2 * h)); lia.
Qed.

(** The index computed in floating point is the exact rank of the decimal. *)
Lemma index_exact f a b len :
  approx f a b → 0 < len < 2 ^ 31 → index_of f len = a * len / b.
Proof.
  intros (Hm & He & Ha & Hb & Habs & Hbelow) Hlen. unfold index_of.
  assert (Hp : 0 < mant f * len) by nia.
  assert (Hplt : mant f * len < 2 ^ (53 + expo f)).
  { rewrite Z.pow_add_r by lia. assert (2 ^ 53 ≤ 2 ^ expo f) by (apply Z.pow_le_mono_r; lia). nia. }
  pose proof (round53_bounds _ Hp) as [Hlo Hhi].
  pose proof (Z.div_mod (a * len) b ltac:(lia)) as Hdm.
  pose proof (Z.mod_pos_bound (a * len) b ltac:(lia)) as Hr.
  pose proof (Z.pow_le_mono_r 2 53 (expo f) ltac:(lia) He) as HE.
  assert (Hdev : 2 * Z.abs (b * (mant f * len) - a * len * 2 ^ expo f) ≤ b * len).
  { replace (b * (mant f * len) - a * len * 2 ^ expo f)
      with ((b * mant f - a * 2 ^ expo f) * len) by ring.
    rewrite Z.abs_mul, (Z.abs_eq len) by lia. nia. }
  assert (Hml : mant f * len ≤ 2 ^ 53 * len) by nia.
  symmetry. apply Z.div_unique_pos with (r := round53 (mant f * len) - 2 ^ expo f * (a * len / b)); [|lia].
  assert (Hlow : a * len / b * 2 ^ expo f ≤ round53 (mant f * len)).
  { destruct (decide (a * len mod b = 0)) as [H0|H0].
    - destruct (decide (a * len / b * 2 ^ expo f ≤ mant f * len)) as [Hle|Hgt].
      + apply round53_above; [done..|lia|done].
      + apply (round53_near _ _ _ (a * len / b * 2 ^ expo f - mant f * len)); [done..|lia|lia|lia|].
        apply (Z.mul_le_mono_pos_l _ _ b); [lia|].
        replace (b * (2 * 2 ^ 53 * (a * len / b * 2 ^ expo f - mant f * len)))
          with (2 * 2 ^ 53 * (a * 2 ^ expo f - b * mant f) * len).
        * replace (b * (mant f * len)) with (b * mant f * len) by ring.
          apply Z.mul_le_mono_nonneg_r; [lia|done].
        * replace (b * (2 * 2 ^ 53 * (a * len / b * 2 ^ expo f - mant f * len)))
            with (2 * 2 ^ 53 * (b * (a * len / b) * 2 ^ expo f - b * mant f * len)) by ring.
          replace (b * (a * len / b)) with (a * len) by lia. ring.
    - revert Hlo Hdm Hr H0 Hdev. generalize (round53 (mant f * len)) (a * len / b) (a * len mod b).
      intros x n r Hlo Hdm Hr H0 Hdev. rewrite Hdm in Hdev. nia. }
  split; [lia|].
  assert (Hbl : 3 * (b * len) < 2 * 2 ^ expo f) by nia.
  assert (Hx : round53 (mant f * len) ≤ mant f * len + len) by lia.
  clear Hlo Hhi Hlow Hml Hplt Hbelow. revert Hx Hdm Hr Hdev Hbl HE.
  generalize (round53 (mant f * len)) (a * len / b) (a * len mod b) (mant f * len) (2 ^ expo f).
  intros x n r P E Hx Hdm Hr Hdev Hbl HE. rewrite Hdm in Hdev.
  apply (Z.mul_le_mono_nonneg_l _ _ b) in Hx; [|lia].
  assert (HrE : r * E ≤ (b - 1) * E) by (apply Z.mul_le_mono_nonneg_r; lia).
  apply (Z.mul_lt_mono_pos_l b); lia.
Qed.

(** * The latencies as doubles *)

Section micros.
Local Open Scope Q_scope.

(** Sorting the nanoseconds sorts the doubles. *)
Lemma micros_mono a b : (a <= b)%Z → micros a <= micros b.
Proof.
  intros Hab. unfold micros, double_mul, double_div, double_of_Z, Qdiv.
  apply round_mono, (Qmult_le_l _ _ (inject_Z 1000000)); [done|].
  apply round_mono, Qmult_le_compat_r; [|done]. apply round_mono. by rewrite <- Zle_Qle.
Qed.

Lemma micros_sorted l : StronglySorted Z.le l → StronglySorted Qle (micros <$> l).
Proof.
  induction 1 as [|x l _ IH Hx]; [constructor|]. simpl. constructor; [done|].
  apply Forall_fmap. revert Hx. apply Forall_impl. intros y. apply micros_mono.
Qed.

(** Three roundings: of the nanoseconds, of the seconds, of the microseconds. *)
Lemma micros_near ns : (0 <= ns)%Z → 0 <= micros ns ∧ near 3 (micros ns) (inject_Z ns * (1 # 1000)).
Proof.
  intros Hns. unfold micros, double_mul, double_div, double_of_Z.
  assert (H0 : 0 <= inject_Z ns) by (change 0 with (inject_Z 0); by rewrite <- Zle_Qle).
  pose proof (round_near _ H0) as H1. pose proof (round_nonneg _ H0) as Hn1.
  set (a := double_round (inject_Z ns)) in *.
  apply (near_scale _ (1 # 1000000000)) in H1; [|done].
  assert (Hd : (1 # 1000000000) * a == a / inject_Z 1000000000) by (unfold Qdiv; apply Qmult_comm).
  rewrite Hd in H1. assert (Hn2 : 0 <= a / inject_Z 1000000000) by (rewrite <- Hd; lra).
  apply round_after in H1; [|done]. apply round_nonneg in Hn2.
  set (b := double_round (a / inject_Z 1000000000)) in *.
  apply (near_scale _ (inject_Z 1000000)) in H1; [|done].
  assert (Hn3 : 0 <= inject_Z 1000000 * b) by (change (inject_Z 1000000) with 1000000; lra).
  split; [by apply round_nonneg|]. apply round_after in H1; [|done].
  assert (He : inject_Z 1000000 * (1 # 1000000000) == (1 # 1000)) by done.
  rewrite Qmult_assoc, He in H1. by rewrite (Qmult_comm (inject_Z ns)).
Qed.

Lemma Qsum_micros l : Qsum ((λ ns, inject_Z ns * (1 # 1000)) <$> l) == inject_Z (sum l) * (1 # 1000).
Proof.
  induction l as [|x l IH]; [done|]. rewrite sum_cons, inject_Z_plus. simpl. rewrite IH. ring.
Qed.

(** The mean that is printed is off by a rounding for each sample and four more. *)
Lemma mean_near l :
  Forall (Z.le 0) l → (0 < Z.of_nat (length l) <= INT_MAX)%Z →
  near (length l + 4) (mean l) (inject_Z (sum l) / inject_Z (1000 * Z.of_nat (length l))).
Proof.
  intros Hl Hlen. unfold mean, double_div.
  destruct (double_sum_near 3 (micros <$> l) ((λ ns, inject_Z ns * (1 # 1000)) <$> l)) as [H0 Hsum].
  { apply Forall2_fmap_2, Forall_Forall2_diag. revert Hl. apply Forall_impl. intros x Hx.
    destruct (micros_near x Hx). split; [done|]. split; [|done].
    apply Qmult_le_0_compat; [|done]. change 0 with (inject_Z 0). by rewrite <- Zle_Qle. }
  rewrite length_fmap, Qsum_micros in Hsum.
  set (n := inject_Z (Z.of_nat (length l))).
  assert (Hn : 0 < n) by (change 0 with (inject_Z 0); unfold n; rewrite <- Zlt_Qlt; lia).
  assert (Hd : double_of_Z (Z.of_nat (length l)) == n)
    by (apply double_of_Z_exact; unfold INT_MAX in Hlen; lia).
  rewrite Hd, inject_Z_mult. fold n. clear Hd.
  apply (near_scale _ (/ n)) in Hsum; [|by apply Qinv_le_0_compat, Qlt_le_weak].
  rewrite (Qmult_comm (/ n)) in Hsum. apply round_after in Hsum.
  - replace (S (3 + length l)) with (length l + 4)%nat in Hsum by lia.
    assert (Hn0 : ~ n == 0) by by apply Qnot_eq_sym, Qlt_not_eq.
    assert (He : / n * (inject_Z (sum l) * (1 # 1000)) == inject_Z (sum l) / (inject_Z 1000 * n)).
    { change (inject_Z 1000) with 1000. by field. }
    by rewrite He in Hsum.
  - apply Qmult_le_0_compat; [done|]. by apply Qinv_le_0_compat, Qlt_le_weak.
Qed.
End micros.

(** * print *)

Lemma sum_Permutation l l' : l ≡ₚ l' → sum l = sum l'.
Proof. induction 1; rewrite ?sum_cons; lia. Qed.

(** In a sorted list a later element is at least as large. *)
Lemma sorted_lookup l i j x y :
  StronglySorted Z.le l → i ≤ j → l !! Z.to_nat i = Some x → l !! Z.to_nat j = Some y → x ≤ y.
Proof.
  intros Hs Hij Hx Hy. destruct (decide (Z.to_nat i = Z.to_nat j)) as [He|He].
  { rewrite He, Hy in Hx. by simplify_eq. }
  pose proof (lookup_lt_Some _ _ _ Hy). rewrite <- (take_drop (Z.to_nat j) l) in Hs.
  apply (StronglySorted_app_1_elem_of _ _ _ _ _ Hs).
  - apply list_elem_of_lookup. exists (Z.to_nat i). rewrite lookup_take_lt by lia. done.
  - apply list_elem_of_lookup. exists 0%nat. by rewrite lookup_drop, Nat.add_0_r.
Qed.

(** The element of rank [⌊len * a / b⌋]. *)
Definition ranked (l : list Z) (a b v : Z) : Prop :=
  l !! Z.to_nat (a * Z.of_nat (length l) / b) = Some v.

Lemma ranked_mono l a b x a' b' y :
  StronglySorted Z.le l → 0 ≤ a → 0 < b → 0 < b' → a * b' ≤ a' * b →
  ranked l a b x → ranked l a' b' y → x ≤ y.
Proof.
  intros Hs Ha Hb Hb' Hle. apply sorted_lookup; [done|].
  apply Z.div_le_lower_bound; [done|].
  pose proof (Z.mul_div_le (a * Z.of_nat (length l)) b Hb).
  apply (Z.mul_le_mono_pos_l _ _ b); [done|]. nia.
Qed.

Lemma ranked_last l x y :
  StronglySorted Z.le l → y ∈ l → l !! Z.to_nat (Z.of_nat (length l) - 1) = Some x → y ≤ x.
Proof.
  intros Hs [i Hi]%list_elem_of_lookup Hx. pose proof (lookup_lt_Some _ _ _ Hi).
  rewrite <- (Nat2Z.id i) in Hi. apply (sorted_lookup l (Z.of_nat i) (Z.of_nat (length l) - 1)); [done|lia|done..].
Qed.

Section print.
Context {L C : Type} (data_size : Z).
Implicit Types (s : lat_state L C).

Lemma wp_pick f a b len l s (Q : Z → lat_state L C → Prop) :
  approx f a b → len = Z.of_nat (length l) → 0 < len ≤ INT_MAX →
  (∀ v, ranked l a b v → Q v s) →
  wp total (percentile_index f len) s (λ i s', wp total (at_index l i) s' Q).
Proof.
  intros Hf -> Hlen HQ. unfold percentile_index.
  fold (index_of f (Z.of_nat (length l))). unfold INT_MAX in *.
  rewrite (index_exact f a b) by (try done; lia).
  assert (Hr : 0 ≤ a * Z.of_nat (length l) / b < Z.of_nat (length l)).
  { destruct Hf as (_ & _ & Hab & _). split; [apply Z.div_pos; lia|].
    apply Z.div_lt_upper_bound; nia. }
  assert (Hin : in_i32 (a * Z.of_nat (length l) / b) = true)
    by (unfold in_i32, INT_MIN, INT_MAX; lia).
  rewrite Hin. wp_step.
  unfold at_index. destruct (Z.leb_spec 0 (a * Z.of_nat (length l) / b)); [|lia].
  destruct (lookup_lt_is_Some_2 l (Z.to_nat (a * Z.of_nat (length l) / b))) as [v Hv]; [lia|].
  apply (wp_deref _ _ v); [done|]. by apply HQ.
Qed.
End print.

(** The doubles of the source. *)
Lemma approx_50 : approx q_50 1 2. Proof. by repeat split. Qed.
Lemma approx_05 : approx q_05 5 100. Proof. by repeat split. Qed.
Lemma approx_99 : approx q_99 99 100. Proof. by repeat split. Qed.
Lemma approx_999 : approx q_999 999 1000. Proof. by repeat split. Qed.
Lemma approx_9999 : approx q_9999 9999 10000. Proof. by repeat split. Qed.
Lemma approx_99999 : approx q_99999 99999 100000. Proof. by repeat split. Qed.
Lemma approx_999999 : approx q_999999 999999 1000000. Proof. by repeat split. Qed.

(** What the line says of the sorted latencies [l]. *)
Record reports (l : list Z) (r : lat_report) : Prop := {
  rep_50 : ranked l 1 2 (lr_50 r);
  rep_05 : ranked l 5 100 (lr_05 r);
  rep_99 : ranked l 99 100 (lr_99 r);
  rep_999 : ranked l 999 1000 (lr_999 r);
  rep_9999 : ranked l 9999 10000 (lr_9999 r);
  rep_99999 : ranked l 99999 100000 (lr_99999 r);
  rep_999999 : ranked l 999999 1000000 (lr_999999 r);
  rep_max : l !! Z.to_nat (Z.of_nat (length l) - 1) = Some (lr_max r);
  rep_len : lr_len r = Z.of_nat (length l);
  rep_mean : lr_mean r = mean l;
}.

Lemma wp_print {L C} data_size (s : lat_state L C) :
  0 < Z.of_nat (length (latencies s)) ≤ INT_MAX →
  wp total (print data_size) s (λ r s',
    latencies s' = merge_sort Z.le (latencies s) ∧ reports (latencies s') r ∧
    lr_data_size r = data_size ∧
    l_calls s' = l_calls s ∧ l_queue s' = l_queue s ∧ l_clock s' = l_clock s).
Proof.
  intros Hlen. unfold print. wp_steps.
  pose proof (merge_sort_Permutation Z.le (latencies s)) as Hperm.
  rewrite <- (Permutation_length Hperm) in Hlen. set (l := merge_sort Z.le (latencies s)) in *.
  eapply (wp_pick _ 1 2); [apply approx_50|done..|]. intros v50 H50.
  do 2 wp_step. eapply (wp_pick _ 5 100); [apply approx_05|done..|]. intros v05 H05.
  do 2 wp_step. eapply (wp_pick _ 99 100); [apply approx_99|done..|]. intros v99 H99.
  do 2 wp_step. eapply (wp_pick _ 999 1000); [apply approx_999|done..|]. intros v999 H999.
  do 2 wp_step. eapply (wp_pick _ 9999 10000); [apply approx_9999|done..|]. intros v9999 H9999.
  do 2 wp_step. eapply (wp_pick _ 99999 100000); [apply approx_99999|done..|]. intros v99999 H99999.
  do 2 wp_step. eapply (wp_pick _ 999999 1000000); [apply approx_999999|done..|].
  intros v999999 H999999.
  wp_step. unfold at_index.
  destruct (Z.leb_spec 0 (Z.of_nat (length l) - 1)); [|lia].
  destruct (lookup_lt_is_Some_2 l (Z.to_nat (Z.of_nat (length l) - 1))) as [m Hm]; [lia|].
  apply (wp_deref _ _ m); [done|]. wp_steps. by split_and!.
Qed.

Lemma reports_ordered l r :
  StronglySorted Z.le l → reports l r →
  lr_05 r ≤ lr_50 r ≤ lr_99 r ∧ lr_99 r ≤ lr_999 r ≤ lr_9999 r ∧
  lr_9999 r ≤ lr_99999 r ≤ lr_999999 r ∧ lr_999999 r ≤ lr_max r ∧
  (∀ x, x ∈ l → x ≤ lr_max r).
Proof.
  intros Hs []. assert (Hmax : ∀ x, x ∈ l → x ≤ lr_max r).
  { intros x Hx. apply (ranked_last l); done. }
  split_and!; try done; try (by eapply ranked_mono; [done| | | | |done..]; lia).
  apply Hmax. apply list_elem_of_lookup. by eexists.
Qed.

(** C18. The latencies that are printed.  With at least one sample and no more than
    an int can count, printing returns: the samples are sorted in place, as
    nanoseconds and so as the doubles of microseconds, and each of the seven
    percentiles is the sample whose rank is the decimal fraction of the number of
    samples, rounded down -- although the index is computed in floating point.  The
    line is in order, the last latency is the largest sample, the number is that of
    the samples, and the mean, summed up and divided in doubles, is the exact mean
    in microseconds up to as many roundings as there are samples, and four more,
    unless a sample is negative. *)
Theorem print_percentiles {L C} data_size (s : lat_state L C) :
  0 < Z.of_nat (length (latencies s)) ≤ INT_MAX →
  wp total (print data_size) s (λ r s',
    latencies s' ≡ₚ latencies s ∧ StronglySorted Z.le (latencies s') ∧
    StronglySorted Qle (micros <$> latencies s') ∧
    ranked (latencies s') 1 2 (lr_50 r) ∧ ranked (latencies s') 5 100 (lr_05 r) ∧
    ranked (latencies s') 99 100 (lr_99 r) ∧ ranked (latencies s') 999 1000 (lr_999 r) ∧
    ranked (latencies s') 9999 10000 (lr_9999 r) ∧
    ranked (latencies s') 99999 100000 (lr_99999 r) ∧
    ranked (latencies s') 999999 1000000 (lr_999999 r) ∧
    lr_05 r ≤ lr_50 r ≤ lr_99 r ∧ lr_99 r ≤ lr_999 r ≤ lr_9999 r ∧
    lr_9999 r ≤ lr_99999 r ≤ lr_999999 r ∧ lr_999999 r ≤ lr_max r ∧
    lr_max r ∈ latencies s ∧ (∀ x, x ∈ latencies s → x ≤ lr_max r) ∧
    lr_len r = Z.of_nat (length (latencies s)) ∧
    (Forall (Z.le 0) (latencies s) →
      near (length (latencies s) + 4) (lr_mean r)
        (inject_Z (sum (latencies s)) / inject_Z (1000 * lr_len r)))).
Proof.
  intros Hlen. eapply wp_mono; [by apply wp_print|]. simpl. intros r s' (Hs & Hr & _).
  assert (Hsort : StronglySorted Z.le (latencies s')) by (rewrite Hs; apply StronglySorted_merge_sort; apply _).
  assert (Hperm : latencies s' ≡ₚ latencies s) by (rewrite Hs; apply merge_sort_Permutation).
  destruct (reports_ordered _ _ Hsort Hr) as (? & ? & ? & ? & Hmax). destruct Hr.
  rewrite <- (sum_Permutation _ _ Hperm). rewrite <- (Permutation_length Hperm) in Hlen |- *.
  split_and!; try solve [assumption | lia].
  - by apply micros_sorted.
  - rewrite <- Hperm. apply list_elem_of_lookup. by eexists.
  - intros x. rewrite <- Hperm. apply Hmax.
  - rewrite <- Hperm. intros Hpos. rewrite rep_mean0, rep_len0. by apply mean_near.
Qed.

Definition demo_samples : lat_state (gset Z) Z :=
  LatState ∅ ∅ ((λ i, (37 * Z.of_nat i) mod 200) <$> seq 0 200) 0.

Lemma print_percentiles_witness :
  wp total (print 32) demo_samples (λ r s',
    latencies s' ≡ₚ latencies demo_samples ∧ StronglySorted Z.le (latencies s') ∧
    StronglySorted Qle (micros <$> latencies s') ∧
    ranked (latencies s') 1 2 (lr_50 r) ∧ ranked (latencies s') 5 100 (lr_05 r) ∧
    ranked (latencies s') 99 100 (lr_99 r) ∧ ranked (latencies s') 999 1000 (lr_999 r) ∧
    ranked (latencies s') 9999 10000 (lr_9999 r) ∧
    ranked (latencies s') 99999 100000 (lr_99999 r) ∧
    ranked (latencies s') 999999 1000000 (lr_999999 r) ∧
    lr_05 r ≤ lr_50 r ≤ lr_99 r ∧ lr_99 r ≤ lr_999 r ≤ lr_9999 r ∧
    lr_9999 r ≤ lr_99999 r ≤ lr_999999 r ∧ lr_999999 r ≤ lr_max r ∧
    lr_max r ∈ latencies demo_samples ∧ (∀ x, x ∈ latencies demo_samples → x ≤ lr_max r) ∧
    lr_len r = Z.of_nat (length (latencies demo_samples)) ∧
    (Forall (Z.le 0) (latencies demo_samples) →
      near (length (latencies demo_samples) + 4) (lr_mean r)
        (inject_Z (sum (latencies demo_samples)) / inject_Z (1000 * lr_len r)))).
Proof. apply (print_percentiles 32 demo_samples). vm_compute. by split. Defined.

(** * The loop *)

Section lat.
Context {L C : Type} `{!ClientQueue Z L} `{!ClientQueueLaws Z L} (data_size : Z).
Implicit Types (s : lat_state L C).

(** One call: the queue answers it, and its object stays. *)
Lemma wp_lat_call s (Q : bool → lat_state L C → Prop) :
  pending (l_queue s) = ∅ →
  (∀ call r q, cq_next (cq_start data_size call (l_queue s)) = (Some (call, r), q) →
    call ∉ dom (l_calls s) → pending q = ∅ →
    Q (status_ok r)
      (LatState (<[call := status_ok r]> (l_calls s)) q (latencies s) (l_clock s))) →
  wp total (lat_call data_size) s Q.
Proof.
  intros Hp HQ. unfold lat_call, lat_new_call. wp_steps.
  set (call := fresh (dom (l_calls s))).
  assert (Hs : pending (cq_start data_size call (l_queue s)) = {[ call ]}).
  { rewrite start_pending, Hp by (rewrite Hp; apply not_elem_of_empty). apply union_empty_r_L. }
  destruct (next_pending (cq_start data_size call (l_queue s))) as (tag & r & q & Hn & Ht & Hq).
  { rewrite Hs. apply non_empty_singleton_L. }
  rewrite Hs in Ht, Hq. apply elem_of_singleton in Ht as ->.
  unfold lat_next at 1, wp at 1. simpl. rewrite Hn. wp_steps.
  rewrite insert_insert_eq, lookup_insert_eq. apply (wp_deref _ _ (status_ok r)); [done|].
  apply HQ; [done|apply is_fresh|]. rewrite Hq. apply difference_diag_L.
Qed.

Context (now : C → Z * C) (tick : Z).

(** The calls that fail before the next one succeeds are at most [failing q], and
    that is at most [F]. *)
Definition failures_bounded (failing : L → Z) (F : Z) : Prop :=
  ∀ q call r q', pending q = ∅ → 0 ≤ failing q ≤ F →
    cq_next (cq_start data_size call q) = (Some (call, r), q') →
    0 ≤ failing q' ≤ if status_ok r then F else failing q - 1.

Context (failing : L → Z) (F start time_dura K : Z).
Hypothesis clock_advances : advances now tick.
Hypothesis tick_pos : 0 < tick.
Hypothesis failures : failures_bounded failing F.
Hypothesis K_enough : time_dura < K * tick.
Hypothesis K_pos : 1 ≤ K ≤ INT_MAX.
Hypothesis failures_max : K * F ≤ LONG_MAX.

(** After [n] samples and [o] failed calls: every call object is still there, and
    the samples lie end to end in the time since the start. *)
Record sampled (last n o : Z) s : Prop := {
  sm_pending : pending (l_queue s) = ∅;
  sm_failing : 0 ≤ failing (l_queue s) ≤ F;
  sm_calls : Z.of_nat (size (l_calls s)) = n + o;
  sm_len : Z.of_nat (length (latencies s)) = n;
  sm_over : 0 ≤ o ≤ n * F + (F - failing (l_queue s));
  sm_each : Forall (λ d, tick ≤ d) (latencies s);
  sm_sum : sum (latencies s) ≤ last - start;
  sm_last : last + tick ≤ (now (l_clock s)).1;
  sm_time : n * tick ≤ last - start;
}.

Definition lat_done (o : Z) s : Prop :=
  ∃ last n, sampled last n o s ∧ 1 ≤ n ≤ K ∧ o ≤ n * F ∧ time_dura < last - start.

Lemma wp_lat_loop fuel last n o s (timeout : bool) :
  sampled last n o s →
  (if timeout then 1 ≤ n ≤ K ∧ o ≤ n * F ∧ time_dura < last - start ∧ 0 < Z.of_nat fuel
   else n < K ∧ (K - n) * (F + 1) - (F - failing (l_queue s)) < Z.of_nat fuel) →
  wp total (lat_loop now data_size fuel start last time_dura o timeout) s lat_done.
Proof using All.
  revert last n o s timeout. induction fuel as [|fuel IH]; intros last n o s timeout Hs Ht.
  { exfalso. destruct timeout, Hs; nia. }
  simpl. destruct timeout. { apply wp_ret. exists last, n. tauto. }
  destruct Hs. wp_step. apply wp_lat_call; [done|]. intros call r q Hn Hfresh Hq.
  pose proof (failures _ _ _ _ sm_pending0 sm_failing0 Hn) as Hfail.
  apply not_elem_of_dom in Hfresh.
  assert (Hsize : ∀ b : bool, Z.of_nat (size (<[call := b]> (l_calls s))) = n + o + 1)
    by (intros b; rewrite map_size_insert_None by done; lia).
  destruct (status_ok r).
  - unfold clock_now, push_latency. wp_steps. apply wp_lift. intros t c Hc. wp_steps.
    apply wp_lift. intros t' c' Hc'. simpl.
    pose proof (clock_advances (l_clock s)) as H1. rewrite Hc in H1, sm_last0. simpl in *.
    pose proof (clock_advances c) as H2. rewrite Hc' in H1, H2. simpl in *.
    apply (IH _ (n + 1)); simpl.
    + split; simpl; try done; try lia; [rewrite Hsize; lia|rewrite length_app; simpl; lia| |].
      * apply Forall_app. split; [done|]. constructor; [lia|done].
      * rewrite sum_app, sum_single. lia.
    + destruct (Z.ltb_spec time_dura (t - start)); nia.
  - wp_step. apply wp_signed64; [unfold LONG_MIN; nia|].
    apply (IH _ n); simpl; [|nia].
    split; simpl; try done; try lia. rewrite Hsize. lia.
Qed.
End lat.

(** C23. The latency client ends and its samples account for the time.  Against any
    queue that delivers every started call, with at most [F] failed calls between
    two successful ones and a clock that advances, [Run] returns within the fuel:
    at least one and at most [K] calls succeeded; the time from the start to the
    last success exceeds the duration; every latency is at least a tick of the
    clock, and together they are at most the time of the run.  No call object has
    been deleted: there is one for each sample and for each failed call. *)
Theorem lat_Run_ends {L C} `{!ClientQueue Z L} `{!ClientQueueLaws Z L} (now : C → Z * C)
    data_size tick (failing : L → Z) F K time_dura_us fuel (s : lat_state L C) :
  advances now tick → 0 < tick →
  failures_bounded data_size failing F → 0 ≤ failing (l_queue s) ≤ F →
  time_dura_us * 1000 < K * tick → 1 ≤ K ≤ INT_MAX → K * F ≤ LONG_MAX →
  K * (F + 1) < Z.of_nat fuel →
  l_calls s = ∅ → latencies s = [] → pending (l_queue s) = ∅ →
  wp total (lat_Run now data_size fuel time_dura_us) s (λ '(overlimit, r) s',
    1 ≤ lr_len r ≤ K ∧ 0 ≤ overlimit ≤ K * F ∧ pending (l_queue s') = ∅ ∧
    Z.of_nat (size (l_calls s')) = lr_len r + overlimit ∧
    Forall (λ d, tick ≤ d) (latencies s') ∧ reports (latencies s') r ∧
    time_dura_us * 1000 < (now (l_clock s')).1 - (now (l_clock s)).1 ∧
    lr_len r * tick ≤ sum (latencies s') ≤ (now (l_clock s')).1 - (now (l_clock s)).1).
Proof.
  intros Hclock Htick Hfail Hf0 Hdura HK HF Hfuel Hc Hl Hp. unfold lat_Run, clock_now. wp_steps.
  apply wp_lift. intros start c Hnow. wp_steps.
  pose proof (Hclock (l_clock s)) as H1. rewrite Hnow in H1 |- *. simpl in *.
  eapply wp_mono; [apply (wp_lat_loop data_size now tick failing F start _ K) with (n := 0);
    try done|].
  { split; simpl; rewrite ?Hc, ?Hl, ?map_size_empty; unfold sum; simpl; try done; try lia. }
  { simpl. nia. }
  simpl. intros o s1 (last & n & [] & Hn & Ho & Htime). wp_step. unfold INT_MAX in *.
  eapply wp_mono; [apply wp_print; unfold INT_MAX; lia|].
  intros r s2 (Hs & Hr & _ & Hcalls & Hq & Hclk). apply wp_ret.
  pose proof (merge_sort_Permutation Z.le (latencies s1)) as Hperm. rewrite <- Hs in Hperm.
  pose proof (rep_len _ _ Hr) as Hlen.
  rewrite Hperm in Hlen. pose proof (sum_Permutation _ _ Hperm) as Hsum.
  assert (Hlow : lr_len r * tick ≤ sum (latencies s2)).
  { rewrite Hsum, Hlen. clear -sm_each0. induction sm_each0; simpl length.
    - unfold sum. simpl. lia.
    - rewrite sum_cons. lia. }
  rewrite Hcalls, Hq, Hclk. split_and!; try done; try lia; [nia|by rewrite Hperm].
Qed.

(** C39. The time is only looked at after a successful call: when the service fails
    every call the client is still in its loop after any number of them, whatever
    the duration and the clock. *)
Theorem lat_loop_hangs {L C} `{!ClientQueue Z L} `{!ClientQueueLaws Z L} (now : C → Z * C)
    data_size fuel start last time_dura overlimit (s : lat_state L C) :
  (∀ q call r q', cq_next (cq_start data_size call q) = (Some (call, r), q') →
    status_ok r = false) →
  pending (l_queue s) = ∅ →
  0 ≤ overlimit → overlimit + Z.of_nat fuel ≤ LONG_MAX →
  lat_loop now data_size fuel start last time_dura overlimit false s = Stop OutOfFuel.
Proof.
  intros Hfail. revert overlimit s. induction fuel as [|fuel IH]; intros o s Hp Ho Hmax; [done|].
  assert (Hw : wp (λ r, r = OutOfFuel)
    (lat_loop now data_size (S fuel) start last time_dura o false) s (λ _ _, False)); last first.
  { unfold wp in Hw. destruct (lat_loop _ _ _ _ _ _ _ _ _) as [[]|]; [done|by subst]. }
  simpl. wp_step. eapply wp_weaken; [apply wp_lat_call; [done|]|done].
  intros call r q Hn _ Hq. rewrite (Hfail _ _ _ _ Hn).
  wp_step. apply wp_signed64; [unfold LONG_MIN; lia|].
  unfold wp. by rewrite IH by (simpl; try done; lia).
Qed.

(** * Queues *)

(** A queue with a budget: that many calls fail before one succeeds, and then two
    again. *)
#[export] Instance budget_queue : ClientQueue Z (gset Z * Z) := {
  cq_start _ tag q := ({[ tag ]} ∪ q.1, q.2);
  cq_next q :=
    match elements q.1 with
    | [] => (None, q)
    | tag :: _ => (Some (tag, CallResult (q.2 =? 0) 8),
                    (q.1 ∖ {[ tag ]}, if q.2 =? 0 then 2 else q.2 - 1))
    end;
}.

#[export] Instance budget_queue_laws : ClientQueueLaws Z (gset Z * Z).
Proof.
  refine {| pending := λ q : gset Z * Z, q.1 |}; [done|].
  intros [q n] Hq. simpl in *. destruct (elements q) as [|tag l] eqn:Hl.
  { by apply elements_empty_inv, leibniz_equiv in Hl. }
  eexists tag, _, _. split; [done|]. split; [|done].
  apply elem_of_elements. rewrite Hl. by left.
Defined.

Lemma budget_failures data_size : failures_bounded data_size (λ q : gset Z * Z, q.2) 2.
Proof.
  intros [q n] call r q' _ Hn Hnext. simpl in *. case_match; simplify_eq/=.
  destruct (Z.eqb_spec n 0); simpl; lia.
Qed.

Definition demo_lat (failing : Z) : lat_state (gset Z * Z) Z := LatState ∅ (∅, failing) [] 0.

Example lat_Run_demo :
  (λ s, (s.1, size (l_calls s.2))) <$>
    match lat_Run demo_now 32 100 10000000 (demo_lat 2) with Ret vs => Some vs | _ => None end
  = Some ((18, LatReport 32 (inject_Z 600000) 600000000 600000000 600000000 600000000
                 600000000 600000000 600000000 600000000 9), 27%nat).
Proof. vm_compute. reflexivity. Qed.

(** In doubles 0.1 + 0.2 + 0.3 is not 0.6. *)
Example mean_rounds :
  Qeq_bool (mean [100; 200; 300])  (inject_Z 600 / inject_Z 3000) = false ∧
  Qeq_bool (micros 1000) 1 = true.
Proof. vm_compute. done. Qed.

Lemma lat_Run_ends_witness :
  wp total (lat_Run demo_now 32 100 10000) (demo_lat 2) (λ '(overlimit, r) s',
    1 ≤ lr_len r ≤ 1 ∧ 0 ≤ overlimit ≤ 1 * 2 ∧ pending (R := Z) (l_queue s') = ∅ ∧
    Z.of_nat (size (l_calls s')) = lr_len r + overlimit ∧
    Forall (λ d, 600000000 ≤ d) (latencies s') ∧ reports (latencies s') r ∧
    10000 * 1000 < (demo_now (l_clock s')).1 - (demo_now (l_clock (demo_lat 2))).1 ∧
    lr_len r * 600000000 ≤ sum (latencies s')
      ≤ (demo_now (l_clock s')).1 - (demo_now (l_clock (demo_lat 2))).1).
Proof.
  apply (lat_Run_ends demo_now 32 600000000 (λ q : gset Z * Z, q.2) 2 1 10000 100 (demo_lat 2));
    try done; [unfold advances; simpl; lia|apply budget_failures].
Defined.

(** A queue whose calls all fail. *)
#[export] Instance failing_queue : ClientQueue Z (gset Z * unit) := {
  cq_start _ tag q := ({[ tag ]} ∪ q.1, tt);
  cq_next q :=
    match elements q.1 with
    | [] => (None, q)
    | tag :: _ => (Some (tag, CallResult false 0), (q.1 ∖ {[ tag ]}, tt))
    end;
}.

#[export] Instance failing_queue_laws : ClientQueueLaws Z (gset Z * unit).
Proof.
  refine {| pending := λ q : gset Z * unit, q.1 |}; [done|].
  intros [q []] Hq. simpl in *. destruct (elements q) as [|tag l] eqn:Hl.
  { by apply elements_empty_inv, leibniz_equiv in Hl. }
  eexists tag, _, _. split; [done|]. split; [|done].
  apply elem_of_elements. rewrite Hl. by left.
Defined.

Lemma lat_loop_hangs_witness :
  lat_loop demo_now 32 1000 0 0 1 0 false (LatState ∅ (∅, tt) [] 0 : lat_state (gset Z * unit) Z)
  = Stop OutOfFuel.
Proof.
  apply (lat_loop_hangs demo_now); try done.
  intros [q []] call r q' Hn. simpl in Hn. by case_match; simplify_eq/=.
Defined.
