(* ===== verification/RpcBw.v ===== *)
(** grpc/grpc_bw_app.{h,cc} and brpc/brpc_bw_app.{h,cc}: the bandwidth benchmark
    over an RPC library.  The library is an interface: for each call it decides
    which requests the server handles meanwhile and whether the call is answered;
    the handlers, the stubs' callers and the meters are the program's. *)
From stdpp Require Import pretty.
From S2P Require Import Prelude CInt Meter BwApp.

Local Open Scope Z_scope.

(** protos/bw_app.proto *)
Record PbBwAck := mkPbBwAck { pb_ack_header : option PbBwHeader }.
Definition PbBwAck_default : PbBwAck := mkPbBwAck None.

(** The member functions [header()]: the default instance when there is none. *)
Definition message_header (m : PbBwMessage) : PbBwHeader := default PbBwHeader_default (pb_header m).
Definition PbBwAck_header (a : PbBwAck) : PbBwHeader := default PbBwHeader_default (pb_ack_header a).

(** [PbBwMessage::ByteSizeLong] of the protobuf library. *)
Class MessageSize := { Message_ByteSizeLong : PbBwMessage → Z }.
Class MessageSizeLaws `{!MessageSize} := {
  Message_size_range m : 0 ≤ Message_ByteSizeLong m ≤ LONG_MAX;
}.

(** * The RPC library *)

(** What happens during a call: the requests that the server handles, in order,
    and which of them the call returns the reply of, if it succeeds. *)
Record call_plan (Req : Type) := CallPlan { executed : list Req; answered : option nat }.
Arguments CallPlan {Req} _ _.
Arguments executed {Req} _.
Arguments answered {Req} _.

Class RpcChannel (Req N : Type) := { rpc_plan : Req → N → call_plan Req * N }.

(** A call transmits its request at most [attempts] times; a transmitted request is
    handled once, at once or during a later call, or lost; a call that succeeds
    returns the reply to its own request. *)
Class RpcChannelLaws (Req N : Type) (attempts : nat) `{!RpcChannel Req N} := {
  in_transit : N → list Req;
  plan_sent req n p n' :
    rpc_plan req n = (p, n') →
    executed p ++ in_transit n' ⊆+ in_transit n ++ replicate attempts req;
  plan_answer req n p n' i :
    rpc_plan req n = (p, n') → answered p = Some i → executed p !! i = Some req;
}.

(** The library between the two processes. *)
Record world (N V : Type) := World { w_net : N; w_server : V }.
Arguments World {N V} _ _.
Arguments w_net {N V} _.
Arguments w_server {N V} _.

Section call.
Context {Req Rep N V : Type} `{!RpcChannel Req N} (serve : Req → M V Rep).

Definition in_net {A} (c : M N A) : M (world N V) A := zoom w_net (λ n w, World n (w_server w)) c.
Definition in_server {A} (c : M V A) : M (world N V) A := zoom w_server (λ v w, World (w_net w) v) c.

Fixpoint serve_all (reqs : list Req) : M V (list Rep) :=
  match reqs with
  | [] => mret []
  | req :: reqs => rep ← serve req; reps ← serve_all reqs; mret (rep :: reps)
  end.

(** A synchronous call of the stub; [None] is a status that is not OK. *)
Definition rpc_call (req : Req) : M (world N V) (option Rep) :=
  p ← in_net (lift (rpc_plan req));
  replies ← in_server (serve_all (executed p));
  mret (answered p ≫= λ i, replies !! i).
End call.

(** [opts_.host.value() + ":" + std::to_string(opts_.port)] *)
Definition remote_uri {S} (host : option string) (port : Z) : M S string :=
  h ← value host;
  mret ((h +:+ ":" +:+ pretty port)%string).

(** A [BwHeader] before its members are assigned. *)
Definition BwHeader_any : BwHeader := mkBwHeader 0 false [].

(** The acknowledgement for a reply, or for a failed call. *)
Definition ack_of_reply (reply : option PbBwAck) : BwAck :=
  match reply with
  | Some reply => mkBwAck (Some (UnpackPbBwHeader BwHeader_any (PbBwAck_header reply))) (Some true)
  | None => mkBwAck None (Some false)
  end.

(** The reply both handlers make. *)
Definition reply_to (request : PbBwMessage) : PbBwAck :=
  let header := UnpackPbBwHeader BwHeader_any (message_header request) in
  mkPbBwAck (Some (PackPbBwHeader header PbBwHeader_default)).

(** * gRPC *)
Module Grpc.
(** [grpc::CreateChannel] and the stub. *)
Class Stub (N : Type) := { create_channel : string → N → N }.

Section grpc.
Context {N C : Type} `{!Stub N} `{!RpcChannel PbBwMessage N} `{!MessageSize}.
Context (now : C → Z * C).

(** BwServiceImpl *)
Definition BwServiceImpl_make (env : Z) : M C (mstate C) :=
  m ← Meter_make now 1000 15 env;
  clock ← get;
  mret (MState m [] clock).

Definition BwServiceImpl_PushData (request : PbBwMessage) : M (mstate C) PbBwAck :=
  let reply := reply_to request in
  _ ← AddBytes now (i64 (Message_ByteSizeLong request));
  mret reply.

Definition BwServiceImpl_StopServer : M (mstate C) unit := mret tt.

(** GrpcBwClientApp *)
Definition Init (host : option string) (port : Z) : M (world N (mstate C)) unit :=
  uri ← remote_uri host port;
  in_net (modify (create_channel uri)).

Definition PushData (bw_msg : BwMessage) : M (world N (mstate C)) BwAck :=
  let request := PackPbBwMessage bw_msg PbBwMessage_default in
  reply ← rpc_call BwServiceImpl_PushData request;
  mret (ack_of_reply reply).
End grpc.
End Grpc.

(** * brpc *)
Module Brpc.
(** The parts of a request: the message, the log id and the attachment that the
    controller carries. *)
Record request := Request { rq_message : PbBwMessage; rq_log_id : Z; rq_attachment : list byte }.

(** [Channel::Init], zero for success, and [brpc::IsAskedToQuit]. *)
Class Channel (N : Type) := {
  channel_Init : string → N → Z * N;
  IsAskedToQuit : N → bool * N;
}.

(** [Server::AddService] and [Server::Start], zero for success. *)
Class Server (N : Type) := {
  server_AddService : N → Z * N;
  server_Start : Z → N → Z * N;
}.

(** [log_id_] has no initializer: a number that was in its place. *)
Record BrpcBwClientApp (N V : Type) := mkClient { log_id_ : Z; b_world : world N V }.
Arguments mkClient {N V} _ _.
Arguments log_id_ {N V} _.
Arguments b_world {N V} _.

Section brpc.
Context {N C : Type} `{!Channel N} `{!RpcChannel request N} `{!MessageSize}.
Context (now : C → Z * C).

Definition BwServiceImpl_PushData (rq : request) : M (mstate C) PbBwAck :=
  let reply := reply_to (rq_message rq) in
  let request_size :=
    u64 (Message_ByteSizeLong (rq_message rq) + Z.of_nat (length (rq_attachment rq))) in
  _ ← AddBytes now (i64 request_size);
  mret reply.

(** [RPC_UNIMPLEMENTED] *)
Definition BwServiceImpl_StopServer : M (mstate C) unit := fatal.

Definition in_world {A} (c : M (world N (mstate C)) A) : M (BrpcBwClientApp N (mstate C)) A :=
  zoom b_world (λ w s, mkClient (log_id_ s) w) c.

Definition Init (host : option string) (port : Z) : M (BrpcBwClientApp N (mstate C)) unit :=
  uri ← remote_uri host port;
  r ← in_world (in_net (lift (channel_Init uri)));
  if negb (r =? 0) then fatal else mret tt.

Definition PushData (bw_msg : BwMessage) : M (BrpcBwClientApp N (mstate C)) BwAck :=
  quit ← in_world (in_net (lift IsAskedToQuit));
  if quit : bool then mret (mkBwAck None (Some false))
  else
    let pb_bw_msg := mkPbBwMessage (Some (PackPbBwHeader (header bw_msg) PbBwHeader_default)) [] in
    log_id ← gets log_id_;
    _ ← modify (λ s, mkClient (u64 (log_id_ s + 1)) (b_world s));
    reply ← in_world (rpc_call BwServiceImpl_PushData (Request pb_bw_msg log_id (data bw_msg)));
    mret (ack_of_reply reply).
End brpc.

Section server.
Context {N : Type} `{!Server N}.

(** BrpcBwServerApp::Init *)
Definition server_Init (port : Z) : M N unit :=
  r ← lift server_AddService;
  if negb (r =? 0) then fatal
  else
    r ← lift (server_Start port);
    if negb (r =? 0) then fatal else mret tt.
End server.
End Brpc.

(** Without a host the program throws; with one, the URI is made of both options. *)
Lemma wp_remote_uri {S} {E : stop → Prop} host h port (s : S) (Q : string → S → Prop) :
  host = Some h → Q ((h +:+ ":" +:+ pretty port)%string) s → wp E (remote_uri host port) s Q.
Proof. intros -> HQ. unfold remote_uri. by wp_steps. Qed.
