(* ===== verification/RpcBwProps.v ===== *)
(** The bandwidth benchmark over an RPC library: the acknowledgement is a copy of
    the header of the message, every push of which the client counts the bytes has
    been counted by the meter of the server, and the client's run ends. *)
From stdpp Require Import pretty.
From S2P Require Import Prelude CInt Meter BwApp RpcBw.

Local Open Scope Z_scope.

(** The reply is a copy of the header that was packed. *)
Lemma ack_of_reply_copy h pb data :
  0 ≤ field1 h < 2 ^ 32 →
  ack_of_reply (Some (reply_to (mkPbBwMessage (Some (PackPbBwHeader h pb)) data)))
    = mkBwAck (Some h) (Some true).
Proof.
  intros Hh. unfold ack_of_reply, reply_to, PbBwAck_header, message_header. cbn -[UnpackPbBwHeader PackPbBwHeader].
  by rewrite !(Unpack_Pack h).
Qed.

(** * Calls *)

Section call.
Context {Req Rep N V : Type} (attempts : nat).
Context `{!RpcChannel Req N} `{!RpcChannelLaws Req N attempts}.
Context (serve : Req → M V Rep).

(** [IV m] holds of the server after [m] requests that satisfy [good]; [mmax] are
    the most it can take. *)
Context (good : Req → Prop) (answer : Req → Rep) (IV : nat → V → Prop) (mmax : nat).
Hypothesis serve_ok : ∀ m req v, good req → (m < mmax)%nat → IV m v →
  wp total (serve req) v (λ rep v', rep = answer req ∧ IV (S m) v').

Lemma wp_serve_all reqs m v :
  Forall good reqs → (m + length reqs ≤ mmax)%nat → IV m v →
  wp total (serve_all serve reqs) v (λ reps v',
    reps = answer <$> reqs ∧ IV (m + length reqs) v').
Proof using serve_ok.
  revert m v. induction reqs as [|req reqs IH]; intros m v Hg Hm HI; simpl.
  { wp_steps. by rewrite Nat.add_0_r. }
  apply Forall_cons_iff in Hg as [Hg Hgs]. simpl in Hm.
  wp_step. eapply wp_mono; [by apply (serve_ok m); [|lia|]|]. simpl. intros rep v1 [-> HI1].
  wp_step. eapply wp_mono; [by apply (IH (S m)); [|lia|]|]. simpl. intros reps v2 [-> HI2].
  wp_steps. split; [done|]. by replace (m + S (length reqs))%nat with (S m + length reqs)%nat by lia.
Qed.

(** The server has handled [m] requests, and what is still to be handled is good
    and, with them, at most what [p] calls can have sent. *)
Definition served (p m : nat) (w : world N V) : Prop :=
  IV m (w_server w) ∧ Forall good (in_transit (w_net w)) ∧
  (m + length (in_transit (w_net w)) ≤ p * attempts)%nat.

Lemma wp_rpc_call p m req w :
  served p m w → good req → (S p * attempts ≤ mmax)%nat →
  wp total (rpc_call serve req) w (λ reply w', ∃ m', (m ≤ m')%nat ∧ served (S p) m' w' ∧
    (reply = None ∨ reply = Some (answer req) ∧ (m < m')%nat)).
Proof using serve_ok.
  destruct w as [n v]. intros (HI & Hgood & Hlen) Hreq Hmax. simpl in *.
  unfold rpc_call, in_net, in_server. wp_steps. apply wp_lift. intros plan n' Hplan. wp_steps.
  pose proof (plan_sent _ _ _ _ Hplan) as Hsent.
  assert (Hall : Forall good (executed plan ++ in_transit n')).
  { assert (Hall : Forall good (in_transit n ++ replicate attempts req))
      by (apply Forall_app; split; [done|by apply Forall_replicate]).
    rewrite list.Forall_forall in Hall |- *. intros r Hr. by eapply Hall, elem_of_submseteq. }
  apply Forall_app in Hall as [Hex Htr]. apply submseteq_length in Hsent.
  rewrite !length_app, length_replicate in Hsent.
  eapply wp_mono; [apply (wp_serve_all _ m); [done|lia|done]|]. simpl. intros reps v' [-> HI'].
  wp_steps. exists (m + length (executed plan))%nat. split; [lia|]. split.
  { unfold served. simpl. split_and!; [done|done|lia]. }
  destruct (answered plan) as [i|] eqn:Hans; [|by left]. right. simpl.
  pose proof (plan_answer _ _ _ _ _ Hplan Hans) as Hi.
  rewrite list_lookup_fmap, Hi. split; [done|]. apply lookup_lt_Some in Hi. lia.
Qed.
End call.

(** The meter of a server that has handled [m] requests of [sz] bytes. *)
Definition metered {C} (t0 sz : Z) (m : nat) (s : mstate C) : Prop :=
  tallied 4 t0 1000 (Z.of_nat m * sz) 0 (Z.of_nat m) s.

Lemma wp_metered {C A} (now : C → Z * C) t0 sz m mmax (reply : A) s :
  metered t0 sz m s → 0 ≤ sz ≤ LONG_MAX → (m < mmax)%nat →
  Z.of_nat mmax ≤ INT_MAX → Z.of_nat mmax * sz ≤ LONG_MAX →
  wp total (_ ← AddBytes now (i64 sz); mret reply) s (λ rep s', rep = reply ∧ metered t0 sz (S m) s').
Proof.
  intros Hm Hsz Hlt Hcnt Hbytes. rewrite i64_small by (unfold LONG_MIN; lia). wp_step.
  eapply wp_mono; [apply (AddBytes_counts now _ 4 t0 1000 (Z.of_nat m * sz) (Z.of_nat m)); try done|].
  { lia. } { lia. } { right. nia. }
  simpl. intros _ s' Ht. wp_step. split; [done|]. unfold metered.
  by replace (Z.of_nat (S m) * sz) with (Z.of_nat m * sz + sz) by lia;
    replace (Z.of_nat (S m)) with (Z.of_nat m + 1) by lia.
Qed.

(** * gRPC *)

(** A new channel has not sent anything. *)
Class StubLaws (N : Type) (attempts : nat) `{!Grpc.Stub N} `{!RpcChannel PbBwMessage N}
    `{!RpcChannelLaws PbBwMessage N attempts} := {
  create_channel_transit uri n : in_transit (Grpc.create_channel uri n) = [];
}.

Definition grpc_request (msg : BwMessage) : PbBwMessage := PackPbBwMessage msg PbBwMessage_default.

Section grpc.
Context {N C C' : Type} (attempts : nat) `{!Grpc.Stub N} `{!RpcChannel PbBwMessage N}.
Context `{!RpcChannelLaws PbBwMessage N attempts} `{!StubLaws N attempts}.
Context `{!MessageSize} `{SizeLaws : !MessageSizeLaws} (now : C → Z * C) (t0 : Z).
Implicit Types (w : world N (mstate C)).

Local Abbreviation size msg := (Message_ByteSizeLong (grpc_request msg)).
(** After [p] pushes of [msg] the service has handled [m] requests. *)
Definition grpc_served (msg : BwMessage) : nat → nat → world N (mstate C) → Prop :=
  served attempts (λ r, r = grpc_request msg) (metered t0 (size msg)).

Lemma wp_grpc_PushData msg p m w :
  grpc_served msg p m w → 0 ≤ field1 (header msg) < 2 ^ 32 →
  Z.of_nat (S p * attempts) ≤ INT_MAX → Z.of_nat (S p * attempts) * size msg ≤ LONG_MAX →
  wp total (Grpc.PushData now msg) w (λ ack w',
    ∃ m', (m ≤ m')%nat ∧ grpc_served msg (S p) m' w' ∧
      (ack = mkBwAck None (Some false) ∨
       ack = mkBwAck (Some (header msg)) (Some true) ∧ (m < m')%nat)).
Proof using SizeLaws.
  intros Hw Hf Hcnt Hbytes. unfold Grpc.PushData. wp_step.
  eapply wp_mono; [apply (wp_rpc_call attempts _ (λ r, r = grpc_request msg) reply_to
    (metered t0 (size msg)) (S p * attempts)); [|done|done|lia]|].
  - intros m1 r v -> Hlt Hm. unfold Grpc.BwServiceImpl_PushData.
    by eapply wp_metered; [|apply Message_size_range|..].
  - intros reply w' (m' & Hm' & Hw' & Hr). wp_step. exists m'. split_and!; [done|done|].
    destruct Hr as [->|[-> Hlt]]; [by left|right]. split; [|done].
    by apply ack_of_reply_copy.
Qed.

(** What a push over gRPC acknowledges.  With a library that may lose, delay,
    repeat and fail calls, [PushData] returns either success, with a copy of the
    header of the message as the acknowledgement -- the contract of bw_app.h -- or
    failure; and a success means that the handler has run on the request and the
    meter of the service has counted its bytes, once for each run. *)
Lemma grpc_PushData_ack msg p m w :
  grpc_served msg p m w → 0 ≤ field1 (header msg) < 2 ^ 32 →
  Z.of_nat (S p * attempts) ≤ INT_MAX → Z.of_nat (S p * attempts) * size msg ≤ LONG_MAX →
  wp total (Grpc.PushData now msg) w (λ ack w',
    ∃ m', (m ≤ m')%nat ∧ grpc_served msg (S p) m' w' ∧
      (ack = mkBwAck None (Some false) ∨
       ack = mkBwAck (Some (header msg)) (Some true) ∧ (m < m')%nat)).
Proof using SizeLaws. apply wp_grpc_PushData. Qed.

(** C17. The bandwidth client over gRPC, end to end.  The run ends after the
    configured time; the bytes it prints are those of [n] successful pushes, and
    by then the meter of the service has counted [m] requests and nothing else,
    at least one for each of the [n] and at most all the transmissions. *)
Theorem GrpcBw_Run (now' : C' → Z * C') tick env data_size host h port fuel limit clock
    (s : run_state (world N (mstate C)) C') :
  let msg := bw_msg data_size in
  w_server (rs_app s) = MState (fresh_meter 4 t0 1000) [] clock →
  host = Some h → 0 < tick → (∀ c, (now' c).1 + tick ≤ (now' (now' c).2).1) →
  0 ≤ data_size ≤ LONG_MAX → 0 ≤ limit → limit * 1000 < (Z.of_nat fuel - 1) * tick →
  Z.of_nat fuel ≤ INT_MAX → Z.of_nat fuel * BwMessage_Size msg ≤ LONG_MAX →
  Z.of_nat (fuel * attempts) ≤ INT_MAX → Z.of_nat (fuel * attempts) * size msg ≤ LONG_MAX →
  wp total (Run now' (Grpc.Init host port) (Grpc.PushData now) env fuel data_size limit) s
    (λ res s', ∃ n m, (n ≤ m ≤ fuel * attempts)%nat ∧
      res.1 = u64 (Z.of_nat n * BwMessage_Size msg) ∧ limit * 1000 < res.2 ∧
      metered t0 (size msg) m (w_server (rs_app s'))).
Proof using SizeLaws StubLaws0.
  intros msg Hsrv Hhost Htick Hclk Hds Hlim Hfuel Hf1 Hf2 Ha1 Ha2.
  pose proof (Message_size_range (grpc_request msg)).
  eapply wp_mono; [apply (wp_Run now' (Grpc.Init host port) (Grpc.PushData now) env data_size fuel
    (λ w, w_server w = MState (fresh_meter 4 t0 1000) [] clock)
    (λ p n w, ∃ m, (n ≤ m)%nat ∧ grpc_served msg p m w)) with (tick := tick); try done|].
  - intros w Hw. unfold Grpc.Init. wp_step. eapply wp_remote_uri; [done|].
    unfold in_net. wp_steps. exists 0%nat. split; [lia|]. split_and!; simpl.
    + rewrite Hw. apply fresh_tallied.
    + by rewrite create_channel_transit.
    + by rewrite create_channel_transit.
  - intros p n w Hp (m & Hnm & Hw). eapply wp_mono; [apply (wp_grpc_PushData msg p m w Hw)|].
    { by simpl. } { nia. } { nia. }
    simpl. intros ack w' (m' & Hm & Hw' & Hack).
    destruct Hack as [->|[-> Hlt]]; simpl; eexists; (split; [done|]); exists m'; (split; [lia|done]).
  - intros res s' (p & n & Hp & (m & Hnm & Hm & _ & Hlen) & Hres & Hdur).
    exists n, m. split_and!; try done. nia.
Qed.
End grpc.

(** * brpc *)

(** A new channel has not sent anything; the signal flag is not the channel's. *)
Class ChannelLaws (N : Type) (attempts : nat) `{!Brpc.Channel N} `{!RpcChannel Brpc.request N}
    `{!RpcChannelLaws Brpc.request N attempts} := {
  channel_Init_transit uri n : in_transit (Brpc.channel_Init uri n).2 = [];
  asked_transit n : in_transit (Brpc.IsAskedToQuit n).2 = in_transit n;
}.

(** The message carries the header only; the data is the attachment. *)
Definition brpc_message (msg : BwMessage) : PbBwMessage :=
  mkPbBwMessage (Some (PackPbBwHeader (header msg) PbBwHeader_default)) [].
Definition brpc_requests (msg : BwMessage) (rq : Brpc.request) : Prop :=
  Brpc.rq_message rq = brpc_message msg ∧ Brpc.rq_attachment rq = data msg.

Section brpc.
Context {N C C' : Type} (attempts : nat) `{!Brpc.Channel N} `{!RpcChannel Brpc.request N}.
Context `{!RpcChannelLaws Brpc.request N attempts} `{!ChannelLaws N attempts}.
Context `{!MessageSize} `{SizeLaws : !MessageSizeLaws} (now : C → Z * C) (t0 : Z).
Implicit Types (s : Brpc.BrpcBwClientApp N (mstate C)).

Definition brpc_size (msg : BwMessage) : Z :=
  Message_ByteSizeLong (brpc_message msg) + Z.of_nat (length (data msg)).
Definition brpc_served (msg : BwMessage) (p m : nat) s : Prop :=
  served attempts (brpc_requests msg) (metered t0 (brpc_size msg)) p m (Brpc.b_world s).

Lemma wp_brpc_handler msg mmax m rq v :
  brpc_size msg ≤ LONG_MAX → Z.of_nat mmax ≤ INT_MAX → Z.of_nat mmax * brpc_size msg ≤ LONG_MAX →
  brpc_requests msg rq → (m < mmax)%nat → metered t0 (brpc_size msg) m v →
  wp total (Brpc.BwServiceImpl_PushData now rq) v (λ rep v',
    rep = reply_to (brpc_message msg) ∧ metered t0 (brpc_size msg) (S m) v').
Proof using SizeLaws.
  intros Hsz Hcnt Hbytes [Hm Hd] Hlt Hv. pose proof (Message_size_range (brpc_message msg)) as Hr.
  unfold Brpc.BwServiceImpl_PushData. rewrite Hm, Hd. fold (brpc_size msg).
  rewrite u64_small by (unfold brpc_size, LONG_MAX in *; lia).
  eapply wp_metered; [done| |done..]. unfold brpc_size in *. lia.
Qed.

(** What a push over brpc acknowledges.  The data travels as an attachment, a
    request may be repeated by the library, and the program may have been asked to
    quit: [PushData] succeeds with a copy of the header, after the handler has run
    and the meter of the service has counted the message and its attachment once
    for each run, or it fails. *)
Lemma wp_brpc_PushData msg p m s :
  brpc_served msg p m s → 0 ≤ field1 (header msg) < 2 ^ 32 → brpc_size msg ≤ LONG_MAX →
  Z.of_nat (S p * attempts) ≤ INT_MAX → Z.of_nat (S p * attempts) * brpc_size msg ≤ LONG_MAX →
  wp total (Brpc.PushData now msg) s (λ ack s',
    ∃ m', (m ≤ m')%nat ∧ brpc_served msg (S p) m' s' ∧
      (ack = mkBwAck None (Some false) ∨
       ack = mkBwAck (Some (header msg)) (Some true) ∧ (m < m')%nat)).
Proof using SizeLaws ChannelLaws0.
  intros (HI & Hgood & Hlen) Hf Hsz Hcnt Hbytes. destruct s as [lid w]. simpl in *.
  pose proof (Message_size_range (brpc_message msg)) as Hrange.
  unfold Brpc.PushData, Brpc.in_world, in_net. wp_steps. apply wp_lift. intros quit n' Hq.
  pose proof (asked_transit (w_net w)) as Htr. rewrite Hq in Htr. simpl in Htr.
  destruct quit; wp_steps.
  { exists m. split; [done|]. split; [|by left]. unfold brpc_served, served. simpl.
    rewrite Htr. split_and!; [done|done|lia]. }
  eapply wp_mono; [apply (wp_rpc_call attempts _ (brpc_requests msg)
    (λ _, reply_to (brpc_message msg)) (metered t0 (brpc_size msg)) (S p * attempts)
    (λ m rq v, wp_brpc_handler msg (S p * attempts) m rq v Hsz Hcnt Hbytes) p m); [|done|lia]|].
  - unfold served. simpl. by rewrite Htr.
  - intros reply w' (m' & Hm' & Hw' & Hr). simpl. wp_steps. exists m'. split_and!; [done|done|].
    destruct Hr as [->|[-> Hlt]]; [by left|right]. split; [|done].
    by apply ack_of_reply_copy.
Qed.

(** The channel to the server can be initialised. *)
Definition brpc_reachable (h : string) (port : Z) s : bool :=
  ((Brpc.channel_Init (h +:+ ":" +:+ pretty port)%string (w_net (Brpc.b_world s))).1 =? 0)%Z.

Lemma wp_brpc_Init msg host h port clock s :
  host = Some h → w_server (Brpc.b_world s) = MState (fresh_meter 4 t0 1000) [] clock →
  wp (λ r, r = Fatal ∧ brpc_reachable h port s = false) (Brpc.Init host port) s (λ _ s',
    brpc_reachable h port s = true ∧ brpc_served msg 0 0 s').
Proof using ChannelLaws0.
  intros -> Hsrv. destruct s as [lid [n v]]. unfold brpc_reachable. simpl in *. subst v.
  unfold Brpc.Init, Brpc.in_world, in_net, remote_uri. wp_steps. apply wp_lift. intros r n' Hr.
  pose proof (channel_Init_transit (h +:+ ":" +:+ pretty port)%string n) as Htr.
  rewrite Hr in Htr |- *. simpl in *. destruct (Z.eqb_spec r 0); [|by apply wp_stop].
  apply wp_ret. split; [done|]. unfold brpc_served, served. simpl. rewrite Htr.
  split_and!; [apply fresh_tallied|constructor|done].
Qed.

(** C22. The bandwidth client over brpc: when the channel cannot be initialised the
    process aborts; otherwise the run ends, with the same accounts on both sides as
    over gRPC. *)
Theorem BrpcBw_Run (now' : C' → Z * C') tick env data_size host h port fuel limit clock
    (st : run_state (Brpc.BrpcBwClientApp N (mstate C)) C') :
  let msg := bw_msg data_size in
  w_server (Brpc.b_world (rs_app st)) = MState (fresh_meter 4 t0 1000) [] clock →
  host = Some h → 0 < tick → (∀ c, (now' c).1 + tick ≤ (now' (now' c).2).1) →
  0 ≤ data_size ≤ LONG_MAX → 0 ≤ limit → limit * 1000 < (Z.of_nat fuel - 1) * tick →
  Z.of_nat fuel ≤ INT_MAX → Z.of_nat fuel * BwMessage_Size msg ≤ LONG_MAX →
  Z.of_nat (fuel * attempts) ≤ INT_MAX → Z.of_nat (fuel * attempts) * brpc_size msg ≤ LONG_MAX →
  brpc_size msg ≤ LONG_MAX →
  wp (λ r, r = Fatal ∧ brpc_reachable h port (rs_app st) = false)
    (Run now' (Brpc.Init host port) (Brpc.PushData now) env fuel data_size limit) st
    (λ res st', ∃ n m, (n ≤ m ≤ fuel * attempts)%nat ∧
      res.1 = u64 (Z.of_nat n * BwMessage_Size msg) ∧ limit * 1000 < res.2 ∧
      metered t0 (brpc_size msg) m (w_server (Brpc.b_world (rs_app st')))).
Proof using SizeLaws ChannelLaws0.
  intros msg Hsrv Hhost Htick Hclk Hds Hlim Hfuel Hf1 Hf2 Ha1 Ha2 Hsz.
  pose proof (Message_size_range (brpc_message msg)) as Hrange.
  pose proof (wp_brpc_Init msg host h port clock (rs_app st) Hhost Hsrv) as Hinit.
  destruct (brpc_reachable h port (rs_app st)) eqn:Hreach; last first.
  { unfold Run, in_app. do 2 wp_step. eapply wp_mono; [exact Hinit|]. by intros _ s' [? _]. }
  eapply (wp_weaken _ total); [eapply wp_mono|done].
  - apply (wp_Run now' (Brpc.Init host port) (Brpc.PushData now) env data_size fuel
      (λ s, brpc_reachable h port s = true ∧
         w_server (Brpc.b_world s) = MState (fresh_meter 4 t0 1000) [] clock)
      (λ p n s, ∃ m, (n ≤ m)%nat ∧ brpc_served msg p m s)) with (tick := tick); try done.
    + intros s [Hre Hs]. eapply wp_weaken; [eapply wp_mono|]; [by eapply wp_brpc_Init| |].
      * intros _ s' [_ Hs']. by exists 0%nat.
      * intros r [_ Hr]. simpl in Hr. congruence.
    + intros p n s Hp (m & Hnm & Hs).
      eapply wp_mono; [apply (wp_brpc_PushData msg p m s Hs); [by simpl|done|nia|]|].
      { unfold brpc_size in *. nia. }
      simpl. intros ack s' (m' & Hm & Hs' & Hack).
      destruct Hack as [->|[-> Hlt]]; simpl; eexists; (split; [done|]); exists m'; (split; [lia|done]).
  - intros res st' (p & n & Hp & (m & Hnm & Hm & _ & Hlen) & Hres & Hdur).
    exists n, m. split_and!; try done. nia.
Qed.
End brpc.

(** * A library *)
Module ToyRpc.
(** Of three calls the first is handled and answered; the second fails while its
    request is delayed; during the third the delayed request is handled, then the
    new one twice. *)
#[export] Instance channel {Req} : RpcChannel Req (nat * list Req) := {
  rpc_plan req n :=
    match (n.1 `mod` 3)%nat with
    | 0%nat => (CallPlan [req] (Some 0%nat), (S n.1, n.2))
    | 1%nat => (CallPlan [] None, (S n.1, n.2 ++ [req]))
    | _ => (CallPlan (n.2 ++ [req; req]) (Some (S (length n.2))), (S n.1, []))
    end;
}.

#[export] Instance channel_laws {Req} : RpcChannelLaws Req (nat * list Req) 4.
Proof.
  refine {| in_transit := λ n : nat * list Req, n.2 |}.
  - intros req [k l] p n' Hp. simpl in *. repeat case_match; simplify_eq/=.
    + rewrite Permutation_cons_append. apply submseteq_app; [done|].
      apply submseteq_skip, submseteq_nil_l.
    + apply submseteq_app; [done|]. apply submseteq_skip, submseteq_nil_l.
    + rewrite app_nil_r. apply submseteq_app; [done|]. do 2 apply submseteq_skip. apply submseteq_nil_l.
  - intros req [k l] p n' i Hp Hi. simpl in *. repeat case_match; simplify_eq/=; [done|].
    rewrite lookup_app_r by lia. by replace (S (length l) - length l)%nat with 1%nat by lia.
Defined.

#[export] Instance stub : Grpc.Stub (nat * list PbBwMessage) := {
  create_channel _ n := (n.1, []);
}.
#[export] Instance stub_laws : StubLaws (nat * list PbBwMessage) 4.
Proof. by split. Qed.

(** The program is asked to quit at one of the calls. *)
#[export] Instance brpc_channel : Brpc.Channel (nat * list Brpc.request) := {
  channel_Init _ n := (0, (n.1, []));
  IsAskedToQuit n := (bool_decide (n.1 = 4%nat), n);
}.
#[export] Instance brpc_channel_laws : ChannelLaws (nat * list Brpc.request) 4.
Proof. by split. Qed.

#[export] Instance size : MessageSize := {
  Message_ByteSizeLong m := Z.min LONG_MAX (14 + Z.of_nat (length (pb_data m)));
}.
#[export] Instance size_laws : MessageSizeLaws.
Proof. split. intros m. simpl. unfold LONG_MAX. lia. Qed.
End ToyRpc.
Import ToyRpc.

Definition demo_service : mstate Z := MState (fresh_meter 4 0 1000) [] 0.
Definition demo_grpc : run_state (world (nat * list PbBwMessage) (mstate Z)) Z :=
  RunState (World (0%nat, []) demo_service) (MState (fresh_meter 1 0 1000) [] 0).
Definition demo_brpc : run_state (Brpc.BrpcBwClientApp (nat * list Brpc.request) (mstate Z)) Z :=
  RunState (Brpc.mkClient 17 (World (0%nat, []) demo_service)) (MState (fresh_meter 1 0 1000) [] 0).

(** The constructor of the services makes that meter. *)
Example service_demo : Grpc.BwServiceImpl_make demo_now 0 0
  = Ret (MState (fresh_meter 4 0 1000) [] 600000000, 600000000).
Proof. vm_compute. reflexivity. Qed.

Example GrpcBw_Run_demo :
  (λ s, (s.1, cnt (ms_meter (w_server (rs_app s.2))))) <$>
    match Run demo_now (Grpc.Init (Some "localhost"%string) 18000) (Grpc.PushData demo_now) 0 20 10
      3000000 demo_grpc with Ret s => Some s | _ => None end
  = Some ((60, 4200000000), 5).
Proof. vm_compute. reflexivity. Qed.

Lemma grpc_PushData_ack_witness :
  wp total (Grpc.PushData demo_now (bw_msg 10)) (rs_app demo_grpc) (λ ack w',
    ∃ m', (0 ≤ m')%nat ∧ grpc_served 4 0 (bw_msg 10) 1 m' w' ∧
      (ack = mkBwAck None (Some false) ∨
       ack = mkBwAck (Some (mkBwHeader 1 true stuff)) (Some true) ∧ (0 < m')%nat)).
Proof.
  apply (grpc_PushData_ack 4 demo_now 0 (bw_msg 10) 0 0 (rs_app demo_grpc)); [|done..].
  split_and!; [apply fresh_tallied|done..].
Defined.

Lemma GrpcBw_Run_witness :
  wp total (Run demo_now (Grpc.Init (Some "localhost"%string) 18000) (Grpc.PushData demo_now) 0 20
      10 3000000) demo_grpc (λ res s', ∃ n m, (n ≤ m ≤ 20 * 4)%nat ∧
      res.1 = u64 (Z.of_nat n * BwMessage_Size (bw_msg 10)) ∧ 3000000 * 1000 < res.2 ∧
      metered 0 (Message_ByteSizeLong (grpc_request (bw_msg 10))) m (w_server (rs_app s'))).
Proof.
  apply (GrpcBw_Run 4 demo_now 0 demo_now 600000000 0 10 (Some "localhost"%string) "localhost" 18000
    20 3000000 0 demo_grpc); done.
Defined.

Lemma BrpcBw_Run_witness :
  wp (λ r, r = Fatal ∧ brpc_reachable "localhost" 18000 (rs_app demo_brpc) = false)
    (Run demo_now (Brpc.Init (Some "localhost"%string) 18000) (Brpc.PushData demo_now) 0 20
      10 3000000) demo_brpc (λ res s', ∃ n m, (n ≤ m ≤ 20 * 4)%nat ∧
      res.1 = u64 (Z.of_nat n * BwMessage_Size (bw_msg 10)) ∧ 3000000 * 1000 < res.2 ∧
      metered 0 (brpc_size (bw_msg 10)) m (w_server (Brpc.b_world (rs_app s')))).
Proof.
  apply (BrpcBw_Run 4 demo_now 0 demo_now 600000000 0 10 (Some "localhost"%string) "localhost" 18000
    20 3000000 0 demo_brpc); done.
Defined.
