(* ===== verification/GrpcSetup.v ===== *)
(** How the gRPC applications are set up: the channels of the clients
    (grpc/grpc_lat_app.cc, grpc/grpc_tput_app.cc, grpc/hotel_reservation_app.cc, [Init]
    and the beginning of [Job]) and the builders of the servers (grpc/grpc_bw_app.cc,
    grpc/hotel_reservation_app.cc, grpc/grpc_lat_app.cc, [Init] and [Run]), with the
    [Run] methods that start from them. *)
From stdpp Require Import pretty.
From S2P Require Import Prelude CInt Utils RpcBw LatClient ClosedLoop GrpcServer GrpcThreads.

Local Open Scope Z_scope.
#[local] Set Default Proof Using "Type*".

(** What is asked of a [ServerBuilder]: the threads of the resource quota, the largest
    message, the ports (with insecure credentials), the number of services and of
    completion queues. *)
Record ServerBuilder := mkBuilder {
  b_max_threads : option Z;
  b_max_message_size : option Z;
  b_ports : list string;
  b_services : nat;
  b_queues : nat;
}.
Definition ServerBuilder_new : ServerBuilder := mkBuilder None None [] 0 0.

(** [ResourceQuota::SetMaxThreads] and [SetResourceQuota], and the other methods. *)
Definition SetResourceQuota (threads : Z) (b : ServerBuilder) : ServerBuilder :=
  mkBuilder (Some threads) (b_max_message_size b) (b_ports b) (b_services b) (b_queues b).
Definition SetMaxMessageSize (n : Z) (b : ServerBuilder) : ServerBuilder :=
  mkBuilder (b_max_threads b) (Some n) (b_ports b) (b_services b) (b_queues b).
Definition AddListeningPort (uri : string) (b : ServerBuilder) : ServerBuilder :=
  mkBuilder (b_max_threads b) (b_max_message_size b) (b_ports b ++ [uri]) (b_services b) (b_queues b).
Definition RegisterService (b : ServerBuilder) : ServerBuilder :=
  mkBuilder (b_max_threads b) (b_max_message_size b) (b_ports b) (S (b_services b)) (b_queues b).
Definition AddCompletionQueue (b : ServerBuilder) : ServerBuilder :=
  mkBuilder (b_max_threads b) (b_max_message_size b) (b_ports b) (b_services b) (S (b_queues b)).

(** The functions of the library.  [BuildAndStart] returns null when it cannot start a
    server: for instance, the port is in use. *)
Class GrpcLibrary (N : Type) := {
  CreateChannel : string → N → N;
  CreateCustomChannel : string → list (string * Z) → N → N;
  GRPC_ARG_USE_LOCAL_SUBCHANNEL_POOL : string;
  EnableDefaultHealthCheckService : bool → N → N;
  InitProtoReflectionServerBuilderPlugin : N → N;
  BuildAndStart : ServerBuilder → N → bool * N;
  Server_Wait : N → N;
}.

(** A process: the library, whether [server_] points to a server, and the rest. *)
Record process (N T : Type) := Process { p_lib : N; server_ : bool; p_rest : T }.
Arguments Process {N T} _ _ _.
Arguments p_lib {N T} _.
Arguments server_ {N T} _.
Arguments p_rest {N T} _.

Section setup.
Context {N T : Type} `{!GrpcLibrary N}.

Definition in_lib {A} (m : M N A) : M (process N T) A :=
  zoom p_lib (λ n p, Process n (server_ p) (p_rest p)) m.
Definition in_rest {A} (m : M T A) : M (process N T) A :=
  zoom p_rest (λ t p, Process (p_lib p) (server_ p) t) m.
Definition set_server (started : bool) : M (process N T) unit :=
  modify (λ p, Process (p_lib p) started (p_rest p)).

(** * The clients *)

(** [HotelReservationClientApp::Init] and [GrpcLatClientApp::Init] *)
Definition client_Init (host : option string) (port : Z) : M (process N T) unit :=
  uri ← remote_uri host port;
  in_lib (modify (CreateChannel uri)).

(** The beginning of [GrpcTputClientApp::Job]: a channel that shares nothing. *)
Definition Job_channel (host : option string) (port : Z) : M (process N T) unit :=
  uri ← remote_uri host port;
  in_lib (modify (CreateCustomChannel uri [(GRPC_ARG_USE_LOCAL_SUBCHANNEL_POOL, 1)])).

(** * The servers *)

(** [std::thread::hardware_concurrency()], an [unsigned]. *)
Context (hardware_concurrency : Z).

Definition bind_uri (port : Z) : string := ("0.0.0.0:" +:+ pretty port)%string.
Definition max_threads (e : environ) : M (process N T) Z :=
  GetEnvOrDefault_int e "RPC_BENCH_GRPC_MAX_THREAD" (i32 hardware_concurrency).

Definition start_server (b : ServerBuilder) : M (process N T) unit :=
  started ← in_lib (lift (BuildAndStart b));
  set_server started.

(** [GrpcBwServerApp::Init] *)
Definition Bw_Init (e : environ) (port : Z) : M (process N T) unit :=
  _ ← in_lib (modify (EnableDefaultHealthCheckService true));
  _ ← in_lib (modify InitProtoReflectionServerBuilderPlugin);
  new_max_threads ← max_threads e;
  let builder := SetResourceQuota new_max_threads ServerBuilder_new in
  let builder := SetMaxMessageSize INT_MAX builder in
  let builder := AddListeningPort (bind_uri port) builder in
  let builder := RegisterService builder in
  start_server builder.

(** [GrpcBwServerApp::Run]: [server_->Wait()] needs a server. *)
Definition Bw_Run (e : environ) (port : Z) : M (process N T) Z :=
  _ ← Bw_Init e port;
  started ← gets server_;
  if started : bool then _ ← in_lib (modify Server_Wait); mret 0 else undef.

(** [HotelReservationServerApp::Init] *)
Definition Hotel_Init (e : environ) (port : Z) : M (process N T) unit :=
  _ ← in_lib (modify (EnableDefaultHealthCheckService true));
  _ ← in_lib (modify InitProtoReflectionServerBuilderPlugin);
  new_max_threads ← max_threads e;
  let builder := SetResourceQuota new_max_threads ServerBuilder_new in
  let builder := SetMaxMessageSize INT_MAX builder in
  let builder := AddListeningPort (bind_uri port) builder in
  let builder := RegisterService builder in
  let builder := AddCompletionQueue builder in
  start_server builder.

(** The beginning of [GrpcLatServerApp::Run], up to [BuildAndStart]; [reserve] throws for
    a number that is negative. *)
Definition Lat_setup (e : environ) (port nthread : Z) : M (process N T) unit :=
  _ ← max_threads e;
  let builder := SetMaxMessageSize INT_MAX ServerBuilder_new in
  let builder := AddListeningPort (bind_uri port) builder in
  let builder := RegisterService builder in
  if nthread <? 0 then throw length_error
  else start_server (Nat.iter (Z.to_nat nthread) AddCompletionQueue builder).
End setup.

(** ** The methods [Run] *)
Section run.
Context {N : Type} `{!GrpcLibrary N}.

(** [HotelReservationClientApp::Run], [GrpcLatClientApp::Run], and [GrpcTputClientApp::Job]
    of one thread. *)
Definition Hotel_client_Run {L C} `{!ClientQueue Hotel.Request L} (ByteSizeLong : Hotel.Request → Z)
    (now : C → Z * C) (host : option string) (port meter_env data_size : Z) (fuel : nat)
    (concurrency time_dura_s : Z) : M (process N (job_state L Hotel.workload C)) (vars * figures) :=
  _ ← client_Init host port;
  in_rest (Hotel.Run ByteSizeLong now meter_env data_size fuel concurrency time_dura_s).
Definition Lat_client_Run {L C} `{!ClientQueue Z L} (now : C → Z * C) (host : option string)
    (port data_size : Z) (fuel : nat) (time_dura_us : Z) :
    M (process N (lat_state L C)) (Z * lat_report) :=
  _ ← client_Init host port;
  in_rest (lat_Run now data_size fuel time_dura_us).
Definition Tput_client_Job {L C} `{!ClientQueue Z L} (now : C → Z * C) (host : option string)
    (port meter_env data_size : Z) (fuel : nat) (concurrency time_dura_us : Z) :
    M (process N (job_state L unit C)) (vars * figures) :=
  _ ← Job_channel host port;
  in_rest (Tput_Job now meter_env data_size fuel concurrency time_dura_us).

Context (hardware_concurrency : Z).

(** [HotelReservationServerApp::Run], up to [n] events of the queue that [Init] adds. *)
Definition Hotel_server_Run {Q} `{!ServerQueue (list string) Q} (e : environ) (port : Z) (n : nat) :
    M (process N (thread (list string) Q)) unit :=
  _ ← Hotel_Init hardware_concurrency e port;
  in_rest (HandleRpcs n).

(** [GrpcLatServerApp::Run], with the turns of its threads in the order of [sched].  The
    queues that the loop puts into the vector are the library's: what they are like
    depends on whether [BuildAndStart] has started a server ([new_queue]).  The threads
    start in either case. *)
Definition Lat_Run {Q} `{!ServerQueue (list byte) Q} (new_queue : bool → Q) (e : environ)
    (port data_size nthread : Z) (sched : list nat) :
    M (process N (Lat.lat_server (list byte) Q)) unit :=
  _ ← Lat_setup hardware_concurrency e port nthread;
  started ← gets server_;
  qs ← in_rest (gets Lat.cq_);
  _ ← in_rest (Lat.set_cq (qs ++ replicate (Z.to_nat nthread) (new_queue started)));
  in_rest (Lat.run_threads (lat_ack data_size) nthread sched).
End run.

(** * What is set up *)

Section proofs.
Context {N T : Type} `{!GrpcLibrary N} (hardware_concurrency : Z) (e : environ) (port v : Z).
(** The environment gives the number of threads. *)
Hypothesis threads_set : setting e "RPC_BENCH_GRPC_MAX_THREAD" (i32 hardware_concurrency) v.
Implicit Types (p : process N T).

(** A client that has a host is connected to it. *)
Lemma client_Init_connects h (p : process N T) (Q : unit → process N T → Prop) :
  Q tt (Process (CreateChannel (h +:+ ":" +:+ pretty port)%string (p_lib p)) (server_ p) (p_rest p)) →
  wp total (client_Init (Some h) port) p Q.
Proof.
  intros HQ. unfold client_Init, in_lib. wp_step. apply (wp_remote_uri (Some h) h); [done|].
  by wp_steps.
Qed.

(** The builder of the servers that limit their threads, and the process after it. *)
Definition quota_builder (queues : nat) : ServerBuilder :=
  mkBuilder (Some v) (Some INT_MAX) [bind_uri port] 1 queues.
Definition with_plugins (n : N) : N :=
  InitProtoReflectionServerBuilderPlugin (EnableDefaultHealthCheckService true n).
Definition built (b : ServerBuilder) (n : N) (t : T) : process N T :=
  Process (BuildAndStart b n).2 (BuildAndStart b n).1 t.

Lemma wp_start_server E b p (Q : unit → process N T → Prop) :
  Q tt (built b (p_lib p) (p_rest p)) → wp E (start_server b) p Q.
Proof.
  intros HQ. unfold start_server, in_lib, set_server. wp_step. apply wp_zoom, wp_lift.
  intros started n Hb. wp_steps. unfold built in HQ. by rewrite Hb in HQ.
Qed.

Lemma wp_Bw_Init E p (Q : unit → process N T → Prop) :
  Q tt (built (quota_builder 0) (with_plugins (p_lib p)) (p_rest p)) →
  wp E (Bw_Init hardware_concurrency e port) p Q.
Proof.
  intros HQ. unfold Bw_Init, in_lib, max_threads. wp_steps.
  eapply wp_GetEnvOrDefault_int; [exact threads_set|]. by apply wp_start_server.
Qed.

Lemma wp_Hotel_Init E p (Q : unit → process N T → Prop) :
  Q tt (built (quota_builder 1) (with_plugins (p_lib p)) (p_rest p)) →
  wp E (Hotel_Init hardware_concurrency e port) p Q.
Proof.
  intros HQ. unfold Hotel_Init, in_lib, max_threads. wp_steps.
  eapply wp_GetEnvOrDefault_int; [exact threads_set|]. by apply wp_start_server.
Qed.

(** The latency server has a queue for each thread, and no limit. *)
Definition lat_builder (nthread : Z) : ServerBuilder :=
  mkBuilder None (Some INT_MAX) [bind_uri port] 1 (Z.to_nat nthread).

Lemma iter_AddCompletionQueue n b :
  Nat.iter n AddCompletionQueue b =
  mkBuilder (b_max_threads b) (b_max_message_size b) (b_ports b) (b_services b) (n + b_queues b).
Proof. induction n as [|n IH]; [by destruct b|]. simpl. by rewrite IH. Qed.

Lemma wp_Lat_setup E nthread p (Q : unit → process N T → Prop) :
  0 ≤ nthread → Q tt (built (lat_builder nthread) (p_lib p) (p_rest p)) →
  wp E (Lat_setup hardware_concurrency e port nthread) p Q.
Proof.
  intros Hn HQ. unfold Lat_setup, max_threads. wp_step.
  eapply wp_GetEnvOrDefault_int; [exact threads_set|].
  rewrite (proj2 (Z.ltb_ge _ _)), iter_AddCompletionQueue by done. apply wp_start_server.
  simpl. by rewrite Nat.add_0_r.
Qed.
End proofs.

(** * The properties *)

Section theorems.
Context {N : Type} `{!GrpcLibrary N} (hardware_concurrency : Z) (e : environ) (port v : Z).

(** C33. Starting the servers.  When RPC_BENCH_GRPC_MAX_THREAD or the number of processors
    gives [v] threads, the bandwidth and the hotel server ask for a quota of [v] threads,
    messages of any size, one port on all addresses and one service, the hotel server
    also for a completion queue.  If the library starts the server, the bandwidth server
    waits for its end and returns 0, and the hotel server answers its requests; if it
    does not, the bandwidth server calls a method of a null pointer. *)
Theorem servers_start {Q} `{!ServerQueue (list string) Q} `{!ServerQueueLaws (list string) Q} :
  setting e "RPC_BENCH_GRPC_MAX_THREAD" (i32 hardware_concurrency) v →
  (∀ (T : Type) (lib : N) (old : bool) (t : T),
   let r := BuildAndStart (quota_builder port v 0) (with_plugins lib) in
   Bw_Run hardware_concurrency e port (Process lib old t) =
   if r.1 then Ret (0, Process (Server_Wait r.2) true t) else Stop Undef) ∧
  (∀ (lib : N) (old : bool) (q : Q) n,
   let r := BuildAndStart (quota_builder port v 1) (with_plugins lib) in
   r.1 = true → outstanding q = ∅ → sent q = [] →
   wp (λ r, r = Fatal) (Hotel_server_Run hardware_concurrency e port n) (Process lib old (Thread ∅ q))
   (λ _ p, p_lib p = r.2 ∧ server_ p = true ∧ serves hotel_result n (p_rest p))).
Proof.
  intros Hset. split.
  - intros T lib old t r.
    assert (Hrun : wp (λ _, False) (Bw_Init hardware_concurrency e port) (Process lib old t)
      (λ _ p, p = built (quota_builder port v 0) (with_plugins lib) t)).
    { by apply (wp_Bw_Init _ _ _ _ Hset). }
    apply wp_run in Hrun as ([] & p & Hrun & ->). unfold Bw_Run, mbind, M_bind. rewrite Hrun.
    unfold built. fold r. by destruct r as [[] n].
  - intros lib old q n r Hr Hout Hsent. unfold Hotel_server_Run. wp_step.
    apply (wp_Hotel_Init _ _ _ _ Hset). unfold in_rest, HandleRpcs, Job. wp_step. cbn [p_rest built].
    wp_step. eapply wp_mono; [by apply wp_start|]. intros [] s [w Hinv]. cbv beta in Hinv.
    eapply wp_mono; [by apply (wp_events _ n w 0 0)|].
    intros [] s' (w' & served & finished & Hn & Hinv'). cbn [p_lib server_ p_rest built].
    split_and!; [done|exact Hr|]. replace n with (served + finished)%nat by lia.
    by eapply thread_inv_serves.
Qed.

(** C32. The threads of the latency server serve side by side.  [Run] asks for one
    completion queue for each thread, and for no quota of threads whatever the
    environment says.  If the library starts the server, then whatever the order in which
    the threads run -- any list of turns, a turn ending after [Next] or after [Proceed] --,
    [Run] goes on, or is aborted by the assertion of one of them.  Although the threads
    share the vector of queues and the heap of the calls, each finds in its queue only
    calls of its own: a thread that has had [1 + 2 * n] turns is as [Job_serves] says for
    [n] events, it has answered each of its requests once, and exactly one of its calls
    waits for the next one; with one turn more it has taken the tag of the next event;
    without a turn it has not begun and has no calls. *)
Theorem Lat_Run_serves {Q} `{!ServerQueue (list byte) Q} `{!ServerQueueLaws (list byte) Q}
    (new_queue : bool → Q) data_size nthread sched lib old ps :
  setting e "RPC_BENCH_GRPC_MAX_THREAD" (i32 hardware_concurrency) v →
  (BuildAndStart (lat_builder port nthread) lib).1 = true →
  outstanding (new_queue true) = ∅ → sent (new_queue true) = [] →
  0 ≤ nthread → Forall (λ i, i < Z.to_nat nthread)%nat sched →
  wp (λ r, r = Fatal)
    (Lat_Run hardware_concurrency new_queue e port data_size nthread sched)
    (Process lib old (Lat.LatServer [] ∅ ps))
  (λ _ p, p_lib p = (BuildAndStart (lat_builder port nthread) lib).2 ∧ server_ p = true ∧
    Lat.all_serve (lat_ack data_size) (new_queue true) nthread sched (p_rest p)).
Proof.
  intros Hset Hstart Hout Hsent Hn Hs. unfold Lat_Run. wp_step.
  apply (wp_Lat_setup _ _ _ _ Hset); [done|]. unfold built. cbn [p_lib p_rest].
  rewrite Hstart. unfold in_rest. wp_steps. apply wp_modify, wp_zoom. cbn [p_rest].
  eapply wp_mono; [by apply (Lat.wp_run_threads (lat_ack data_size) (new_queue true) Hout Hsent)|].
  intros [] s Hall. done.
Qed.
End theorems.

(** * Examples *)

(** A library that starts a server unless its port is taken, and remembers its channels. *)
Record demo_library := DemoLibrary { taken : list string; channels : list string }.
#[export] Instance demo_grpc : GrpcLibrary demo_library := {
  CreateChannel uri n := DemoLibrary (taken n) (uri :: channels n);
  CreateCustomChannel uri args n := DemoLibrary (taken n) (uri :: channels n);
  GRPC_ARG_USE_LOCAL_SUBCHANNEL_POOL := "grpc.use_local_subchannel_pool";
  EnableDefaultHealthCheckService b n := n;
  InitProtoReflectionServerBuilderPlugin n := n;
  BuildAndStart b n :=
    (bool_decide (Forall (λ uri, uri ∉ taken n) (b_ports b)),
     DemoLibrary (taken n ++ b_ports b) (channels n));
  Server_Wait n := n;
}.

Definition demo_env : environ := {[ "RPC_BENCH_GRPC_MAX_THREAD" := "16" ]}.
Lemma demo_setting : setting demo_env "RPC_BENCH_GRPC_MAX_THREAD" (i32 8) 16.
Proof. split; [reflexivity|split; discriminate]. Qed.

Lemma servers_start_witness :
  (∀ (T : Type) (lib : demo_library) (old : bool) (t : T),
   let r := BuildAndStart (quota_builder 18000 16 0) (with_plugins lib) in
   Bw_Run 8 demo_env 18000 (Process lib old t) =
   if r.1 then Ret (0, Process (Server_Wait r.2) true t) else Stop Undef) ∧
  (∀ (lib : demo_library) (old : bool) (q : gmap Z operation * list (list string)) n,
   let r := BuildAndStart (quota_builder 18000 16 1) (with_plugins lib) in
   r.1 = true → outstanding (Rep := list string) q = ∅ → sent q = [] →
   wp (λ r, r = Fatal) (Hotel_server_Run 8 demo_env 18000 n) (Process lib old (Thread ∅ q))
   (λ _ p, p_lib p = r.2 ∧ server_ p = true ∧ serves hotel_result n (p_rest p))).
Proof. apply (servers_start 8 demo_env 18000 16). exact demo_setting. Defined.

(** A server that cannot have its port. *)
Example Bw_Run_port_taken :
  Bw_Run 8 demo_env 18000 (Process (DemoLibrary ["0.0.0.0:18000"] []) false tt) = Stop Undef.
Proof. vm_compute. reflexivity. Qed.

(** Two threads with turns in some order. *)
Definition demo_sched : list nat := [0; 1; 0; 1; 1; 0; 1; 1; 1; 0; 0; 1; 1]%nat.

(** The queues of a server that has not been started hand out what nobody asked for. *)
Definition demo_new_queue (started : bool) : gmap Z operation * list (list byte) :=
  if started then (∅, []) else ({[ 5 := Finish_op ]}, []).

Lemma Lat_Run_serves_witness :
  wp (λ r, r = Fatal) (Lat_Run 8 demo_new_queue demo_env 18000 2 2 demo_sched)
    (Process (DemoLibrary [] []) false (Lat.LatServer [] ∅ []))
  (λ _ p, p_lib p = (BuildAndStart (lat_builder 18000 2) (DemoLibrary [] [])).2 ∧ server_ p = true ∧
    Lat.all_serve (lat_ack 2) (demo_new_queue true) 2 demo_sched (p_rest p)).
Proof.
  apply (Lat_Run_serves 8 demo_env 18000 16 demo_new_queue 2 2 demo_sched (DemoLibrary [] []) false []);
    [exact demo_setting|reflexivity|reflexivity|reflexivity|done|repeat constructor].
Defined.

(** The run itself: the replies of both queues and the calls of both threads.  When the
    port is taken the threads run all the same, over the queues that there are. *)
Definition demo_lat_server (ports : list string) : outcome _ :=
  Lat_Run 8 demo_new_queue demo_env 18000 2 2 demo_sched
    (Process (DemoLibrary ports []) false (Lat.LatServer [] ∅ [])).

Example Lat_Run_demo :
  (λ s, (length ∘ snd <$> Lat.cq_ s,
         (λ c, (Lat.call_cq c.2, status_ (Lat.call_state c.2))) <$> map_to_list (Lat.calls s))) <$>
    match demo_lat_server [] with Ret (_, p) => Some (p_rest p) | Stop _ => None end
  = Some ([2; 3]%nat,
          [(0, PROCESS); (0, FINISH); (1, PROCESS); (1, FINISH); (1, FINISH); (1, FINISH);
           (0, FINISH)]%nat).
Proof. vm_compute. reflexivity. Qed.
Example Lat_Run_port_taken : demo_lat_server ["0.0.0.0:18000"%string] = Stop Undef.
Proof. vm_compute. reflexivity. Qed.

(** A client of the throughput benchmark needs a host. *)
Example Job_channel_hosts :
  Job_channel (Some "node1"%string) 18000 (Process (DemoLibrary [] []) false tt) =
    Ret (tt, Process (DemoLibrary [] ["node1:18000"]) false tt) ∧
  Job_channel None 18000 (Process (DemoLibrary [] []) false tt) = Stop (Throw bad_optional_access).
Proof. split; vm_compute; reflexivity. Qed.
