(* ===== verification/Zeromq.v ===== *)
(** zeromq/zeromq_bw_app.{h,cc}: the bandwidth benchmark over ZeroMQ.  The socket
    of the library is an interface; parts of messages are lists of bytes.  The
    function [FreeData] given to the library for the bytes it does not copy frees
    nothing, since the hint is always null, and is left out. *)
From stdpp Require Import pretty.
From S2P Require Import Prelude CInt Meter BwApp RpcBw.

Local Open Scope Z_scope.

Definition ZMQ_DONTWAIT : Z := 1.
Definition ZMQ_SNDMORE : Z := 2.

(** The functions of a socket.  A received part comes with whether more follow. *)
Class Zmq (N : Type) := {
  zmq_connect : string → N → N;
  zmq_bind : string → N → Z * N;
  zmq_send : list byte → N → Z * N;
  zmq_recv : Z → N → (Z * list byte) * N;
  zmq_msg_send : list byte → Z → N → Z * N;
  zmq_msg_recv : N → option (list byte * bool) * N;
}.

(** [RPC_CHECK_EQ] of a size_t and an int. *)
Definition check_size {S} (size : Z) (r : Z) : M S unit := check (size =? u64 r).

Section zeromq.
Context {N : Type} `{!Zmq N} `{!BwProtobuf}.

(** [size_t header_size = pb_header.ByteSizeLong()] of a message just made. *)
Definition header_size : Z := ByteSizeLong PbBwHeader_default.

(** [while (true) if (zmq_msg_send(...) == (int)size) break;] *)
Fixpoint send_until (fuel : nat) (part : list byte) (flags : Z) : M N unit :=
  match fuel with
  | O => nofuel
  | S fuel =>
      r ← lift (zmq_msg_send part flags);
      if r =? i32 (Z.of_nat (length part)) then mret tt else send_until fuel part flags
  end.

(** The first [n] bytes at a place that holds [bytes]. *)
Definition read_bytes {S} (n : Z) (bytes : list byte) : M S (list byte) :=
  if n <=? Z.of_nat (length bytes) then mret (take (Z.to_nat n) bytes) else undef.

(** * ZeromqBwClientApp *)
Record ZeromqBwClientApp := mkClient { zmq_requester_ : N; recv_buffer_ : list byte }.

Definition in_requester {A} (c : M N A) : M ZeromqBwClientApp A :=
  zoom zmq_requester_ (λ n s, mkClient n (recv_buffer_ s)) c.

Definition Client_Init (host : option string) (port : Z) : M ZeromqBwClientApp unit :=
  uri ← remote_uri host port;
  in_requester (modify (zmq_connect ("tcp://" +:+ uri)%string)).

(** [zmq_recv] into [recv_buffer_] and the check of the size. *)
Definition receive_reply : M ZeromqBwClientApp unit :=
  r ← in_requester (lift (zmq_recv header_size));
  _ ← modify (λ s, mkClient (zmq_requester_ s) (r.2 ++ drop (length r.2) (recv_buffer_ s)));
  check_size header_size r.1.

Definition PushDataNaive (bw_msg : BwMessage) : M ZeromqBwClientApp BwAck :=
  r ← in_requester (lift (zmq_send (data bw_msg)));
  _ ← check_size (Z.of_nat (length (data bw_msg))) r;
  _ ← receive_reply;
  mret (mkBwAck None (Some true)).

(** [SerializeToArray(header_buf, 100)] over a buffer that holds [stack]. *)
Definition SerializeToArray (pb : PbBwHeader) (stack : list byte) : list byte :=
  let bytes := SerializeHeader pb in
  if Z.of_nat (length bytes) <=? 100 then bytes ++ drop (length bytes) stack else stack.

Definition PushDataZero (stack : list byte) (fuel : nat) (bw_msg : BwMessage)
  : M ZeromqBwClientApp BwAck :=
  let pb_header := PackPbBwHeader (header bw_msg) PbBwHeader_default in
  let header_buf := SerializeToArray pb_header stack in
  header_part ← read_bytes header_size header_buf;
  _ ← in_requester (send_until fuel header_part ZMQ_SNDMORE);
  _ ← in_requester (send_until fuel (data bw_msg) ZMQ_DONTWAIT);
  _ ← receive_reply;
  mret (mkBwAck None (Some true)).

Definition Client_PushData := PushDataZero.

(** * ZeromqBwServerApp *)
Section server.
Context {C : Type} (now : C → Z * C).

(** [meter_] has no initializer: it is what was in its place. *)
Record ZeromqBwServerApp := mkServer { zmq_responder_ : N; s_meter : mstate C }.

Definition in_responder {A} (c : M N A) : M ZeromqBwServerApp A :=
  zoom zmq_responder_ (λ n s, mkServer n (s_meter s)) c.
Definition in_s_meter {A} (c : M (mstate C) A) : M ZeromqBwServerApp A :=
  zoom s_meter (λ m s, mkServer (zmq_responder_ s) m) c.

Definition Server_Init (port : Z) : M ZeromqBwServerApp unit :=
  r ← in_responder (lift (zmq_bind ("tcp://0.0.0.0:" +:+ pretty port)%string));
  check (0 =? r).

Definition count_bytes (bytes_recv : Z) : M ZeromqBwServerApp unit :=
  if 0 <? bytes_recv then in_s_meter (AddBytes now bytes_recv) else mret tt.

(** The inner loop of [RunZero]; [zmsg] keeps its part when nothing is received. *)
Fixpoint receive_parts (fuel : nat) (zmsg : list byte * bool)
  : M ZeromqBwServerApp (list byte * bool) :=
  match fuel with
  | O => nofuel
  | S fuel =>
      r ← in_responder (lift zmq_msg_recv);
      let bytes_recv := match r with Some (part, _) => i32 (Z.of_nat (length part)) | None => -1 end in
      let zmsg := default zmsg r in
      _ ← count_bytes bytes_recv;
      if negb zmsg.2 then mret zmsg else receive_parts fuel zmsg
  end.

(** One request; [zmq_msg_init] always returns zero. *)
Definition RunZero_round (fuel : nat) : M ZeromqBwServerApp unit :=
  zmsg ← receive_parts fuel ([], false);
  reply ← read_bytes header_size zmsg.1;
  in_responder (send_until fuel reply ZMQ_DONTWAIT).

Fixpoint RunZero_rounds (rounds fuel : nat) : M ZeromqBwServerApp unit :=
  match rounds with
  | O => mret tt
  | S rounds => _ ← RunZero_round fuel; RunZero_rounds rounds fuel
  end.

(** The outer loop never ends. *)
Definition RunZero (rounds fuel : nat) : M ZeromqBwServerApp unit :=
  _ ← RunZero_rounds rounds fuel;
  nofuel.

(** [buffer] is the 1 MiB on the stack. *)
Fixpoint RunNaive (rounds : nat) (buffer : list byte) : M ZeromqBwServerApp unit :=
  match rounds with
  | O => nofuel
  | S rounds =>
      r ← in_responder (lift (zmq_recv 1048576));
      let buffer := r.2 ++ drop (length r.2) buffer in
      _ ← count_bytes r.1;
      reply ← read_bytes header_size buffer;
      n ← in_responder (lift (zmq_send reply));
      _ ← check_size header_size n;
      RunNaive rounds buffer
  end.

Definition Server_Run (port : Z) (rounds fuel : nat) : M ZeromqBwServerApp unit :=
  _ ← Server_Init port;
  RunZero rounds fuel.
End server.
End zeromq.

Arguments ZeromqBwClientApp : clear implicits.
Arguments ZeromqBwServerApp : clear implicits.
