(* ===== verification/ZeromqProps.v ===== *)
(** What the ZeroMQ benchmark puts on the wire, what its server counts, and that
    the run of the client ends. *)
From stdpp Require Import pretty.
From S2P Require Import Prelude CInt Meter BwApp RpcBw Zeromq.

Local Open Scope Z_scope.

(** * The socket *)

(** A connected socket: the parts it has sent and the parts that have arrived, each
    with whether more follow; the message the next [zmq_recv] waits for, and whether a
    signal interrupts it.  A send fails (interrupted, or no room) at most
    [max_failures] times in a row.  A receive of a part that has arrived is not
    interrupted. *)
Class ZmqLaws (N : Type) `{!Zmq N} := {
  sent : N → list (list byte * bool);
  inbox : N → list (list byte * bool);
  awaited : N → list byte;
  interrupted : N → Prop;
  failures : N → nat;
  max_failures : nat;
  failures_le n : (failures n ≤ max_failures)%nat;
  connect_sent uri n : sent (zmq_connect uri n) = [];
  msg_send_ok part flags n r n' :
    zmq_msg_send part flags n = (r, n') →
    inbox n' = inbox n ∧
    (r = i32 (Z.of_nat (length part)) ∧ sent n' = sent n ++ [(part, Z.testbit flags 1)] ∨
     r = -1 ∧ sent n' = sent n ∧ (failures n' < failures n)%nat);
  msg_recv_ok n part rest :
    inbox n = part :: rest →
    ∃ n', zmq_msg_recv n = (Some part, n') ∧ inbox n' = rest ∧ sent n' = sent n;
  recv_ok len n r n' :
    zmq_recv len n = (r, n') → sent n' = sent n ∧
    (r.1 = i32 (Z.of_nat (length (awaited n))) ∨ r.1 = -1 ∧ interrupted n);
}.

(** The parts of a message. *)
Definition message (ps : list (list byte)) (last : list byte) : list (list byte * bool) :=
  ((λ p, (p, true)) <$> ps) ++ [(last, false)].

(** What the server counts of them: the bytes, and the parts that are not empty. *)
Definition bytes_of (parts : list (list byte * bool)) : Z :=
  sum ((λ p, Z.of_nat (length p.1)) <$> parts).
Definition counted_parts (parts : list (list byte * bool)) : Z :=
  sum ((λ p : list byte * bool, if decide (p.1 = []) then 0 else 1) <$> parts).
Definition small_parts (parts : list (list byte * bool)) : Prop :=
  Forall (λ p, Z.of_nat (length p.1) ≤ INT_MAX) parts.

Lemma bytes_of_nonneg parts : 0 ≤ bytes_of parts.
Proof. apply sum_nonneg, list.Forall_forall. intros x (p & -> & _)%list_elem_of_fmap. lia. Qed.
Lemma counted_parts_nonneg parts : 0 ≤ counted_parts parts.
Proof.
  apply sum_nonneg, list.Forall_forall. intros x (p & -> & _)%list_elem_of_fmap. case_decide; lia.
Qed.
Lemma bytes_of_app l l' : bytes_of (l ++ l') = bytes_of l + bytes_of l'.
Proof. unfold bytes_of. by rewrite fmap_app, sum_app. Qed.
Lemma counted_parts_app l l' : counted_parts (l ++ l') = counted_parts l + counted_parts l'.
Proof. unfold counted_parts. by rewrite fmap_app, sum_app. Qed.
Lemma bytes_of_cons p l : bytes_of (p :: l) = Z.of_nat (length p.1) + bytes_of l.
Proof. done. Qed.
Lemma counted_parts_cons p l :
  counted_parts (p :: l) = (if decide (p.1 = []) then 0 else 1) + counted_parts l.
Proof. done. Qed.

(** * A meter with any contents *)

Section meter.
Context {C : Type}.
Implicit Types (m : mstate C).

(** The members of a meter that is not initialized: any values of their types. *)
Definition any_meter m : Prop :=
  INT_MIN ≤ cnt (ms_meter m) ≤ INT_MAX ∧ LONG_MIN ≤ bytes (ms_meter m) ≤ LONG_MAX.

(** From [m] to [m'] a meter has been given [B] bytes in [c] calls: if it is enabled,
    what it has printed and holds has grown by the bytes and the counter by the calls,
    and a disabled one is as before. *)
Record meter_gained (B c : Z) m m' : Prop := {
  mg_disable : disable (ms_meter m') = disable (ms_meter m);
  mg_off : disable (ms_meter m) ≠ 0 → m' = m;
  mg_bytes : disable (ms_meter m) = 0 →
    sum (rp_bytes <$> ms_log m') + bytes (ms_meter m') =
    sum (rp_bytes <$> ms_log m) + bytes (ms_meter m) + B;
  mg_cnt : disable (ms_meter m) = 0 → cnt (ms_meter m') = cnt (ms_meter m) + c;
  mg_held : Z.min 0 (bytes (ms_meter m)) ≤ bytes (ms_meter m') ≤ Z.max 0 (bytes (ms_meter m)) + B;
}.

(** The reason to stop: a counter of the enabled meter may not have the room. *)
Definition meter_overflow (B c : Z) m (r : stop) : Prop :=
  r = Undef ∧ disable (ms_meter m) = 0 ∧
  (INT_MAX < cnt (ms_meter m) + c ∨ LONG_MAX < Z.max 0 (bytes (ms_meter m)) + B).

Lemma meter_gained_refl m : meter_gained 0 0 m m.
Proof. split; lia || done. Qed.

(** One call on a meter that has already gained something. *)
Lemma AddBytes_gains (now : C → Z * C) E B c b m0 m :
  any_meter m0 → meter_gained B c m0 m → 0 ≤ B → 0 ≤ c → 0 ≤ b →
  E Undef ∨ disable (ms_meter m0) ≠ 0 ∨
    cnt (ms_meter m0) + (c + 1) ≤ INT_MAX ∧ Z.max 0 (bytes (ms_meter m0)) + (B + b) ≤ LONG_MAX →
  wp E (AddBytes now b) m (λ _ m', meter_gained (B + b) (c + 1) m0 m').
Proof.
  intros [Hcr Hbr] [Hdis Hoff Hb Hc Hheld] HB Hc0 Hb0 Hroom. unfold AddBytes. wp_steps.
  destruct (Z.eqb_spec (disable (ms_meter m)) 0) as [Hd|Hd]; simpl; cycle 1.
  { rewrite Hdis in Hd. apply wp_ret. split; [done|done|done|done|lia]. }
  rewrite Hdis in Hd. specialize (Hb Hd). specialize (Hc Hd).
  wp_step. apply wp_signed64_or; [unfold LONG_MIN in *; destruct Hroom as [|[]]; [by left|done|right; lia]|].
  wp_step. apply wp_signed32_or; [unfold INT_MIN in *; destruct Hroom as [|[]]; [by left|done|right; lia]|].
  unfold set_meter, read_clock, print_report. wp_steps.
  case_match; wp_steps; [|split; simpl; try done; lia].
  apply wp_lift. intros t ck Ht. case_match; wp_steps; [|split; simpl; try done; lia].
  split; simpl; try done; try lia. intros _. rewrite fmap_app, sum_app. simpl. rewrite sum_single. lia.
Qed.
End meter.

Section zeromq.
Context {N : Type} `{!Zmq N} `{Laws : !ZmqLaws N} `{!BwProtobuf}.
(** proto3 does not serialize default values. *)
Hypothesis default_empty : SerializeHeader PbBwHeader_default = [].

Lemma header_size_0 : header_size = 0.
Proof using default_empty. unfold header_size, ByteSizeLong. by rewrite default_empty. Qed.

Lemma wp_send_until E fuel part flags n :
  (failures n < fuel)%nat → Z.of_nat (length part) ≤ INT_MAX →
  wp E (send_until fuel part flags) n (λ _ n',
    sent n' = sent n ++ [(part, Z.testbit flags 1)] ∧ inbox n' = inbox n).
Proof.
  revert n. induction fuel as [|fuel IH]; intros n Hf Hp; [lia|]. simpl.
  wp_step. apply wp_lift. intros r n' Hr.
  destruct (msg_send_ok _ _ _ _ _ Hr) as [Hin [[-> Hsent]|(-> & Hsent & Hless)]].
  - rewrite Z.eqb_refl. by apply wp_ret.
  - rewrite i32_small by (unfold INT_MIN; lia).
    destruct (Z.eqb_spec (-1) (Z.of_nat (length part))); [lia|].
    eapply wp_mono; [apply IH; [lia|done]|]. simpl. intros _ n2 [-> ->]. by rewrite Hsent, Hin.
Qed.

(** * The client *)

Lemma wp_zmq_PushData stack zfuel msg (s : ZeromqBwClientApp N) :
  Z.of_nat (length (data msg)) ≤ INT_MAX → (max_failures < zfuel)%nat →
  wp (λ r, r = Fatal ∧ ∃ n, sent n = sent (zmq_requester_ s) ++ message [[]] (data msg) ∧
      (u64 (i32 (Z.of_nat (length (awaited n)))) ≠ 0 ∨ interrupted n))
    (Client_PushData stack zfuel msg) s (λ ack s', ack = mkBwAck None (Some true) ∧
      sent (zmq_requester_ s') = sent (zmq_requester_ s) ++ message [[]] (data msg)).
Proof using default_empty.
  intros Hd Hz. destruct s as [n buf]. unfold Client_PushData, PushDataZero, read_bytes.
  rewrite header_size_0. destruct (Z.leb_spec 0 (Z.of_nat (length
    (SerializeToArray (PackPbBwHeader (header msg) PbBwHeader_default) stack)))); [|lia].
  unfold receive_reply, in_requester. wp_steps.
  eapply wp_mono; [apply wp_send_until; [pose proof (failures_le n); lia|done]|].
  simpl. intros _ n1 [Hs1 _]. wp_steps.
  eapply wp_mono; [apply wp_send_until; [pose proof (failures_le n1); lia|done]|].
  simpl. intros _ n2 [Hs2 _]. wp_steps. apply wp_lift. intros r n3 Hr. wp_steps.
  assert (Hsent : sent n2 = sent n ++ message [[]] (data msg)) by (rewrite Hs2, Hs1, <- app_assoc; done).
  destruct (recv_ok _ _ _ _ Hr) as [Hs3 Hlen]. unfold check_size. apply wp_check.
  - rewrite header_size_0. intros Hne%Z.eqb_neq. split; [done|]. exists n2. split; [done|].
    destruct Hlen as [Hlen|[_ Hlen]]; [left|by right]. by rewrite <- Hlen, Z.eq_sym_iff.
  - intros _. wp_steps. split; [done|]. by rewrite Hs3.
Qed.

(** * The server *)

Section server.
Context {C : Type} (now : C → Z * C).
(** The meter as the loop finds it, and what may stop the server. *)
Context (m0 : mstate C) (E : stop → Prop).
Hypothesis m0_any : any_meter m0.
Implicit Types (s : ZeromqBwServerApp N C).

Definition srv_gained (B c : Z) s : Prop := 0 ≤ B ∧ 0 ≤ c ∧ meter_gained B c m0 (s_meter s).

(** The counters of [m0] may take [B] bytes in [c] calls, or may overflow. *)
Definition meter_takes (B c : Z) : Prop :=
  E Undef ∨ disable (ms_meter m0) ≠ 0 ∨
  cnt (ms_meter m0) + c ≤ INT_MAX ∧ Z.max 0 (bytes (ms_meter m0)) + B ≤ LONG_MAX.

Lemma meter_takes_le B c B' c' : meter_takes B' c' → B ≤ B' → c ≤ c' → meter_takes B c.
Proof. unfold meter_takes. intros [|[|[]]] ??; [by left|by right; left|right; right; lia]. Qed.

(** One part, counted unless it is empty. *)
Lemma wp_count_part B c part s :
  srv_gained B c s → Z.of_nat (length part) ≤ INT_MAX →
  meter_takes (B + Z.of_nat (length part)) (c + counted_parts [(part, false)]) →
  wp E (count_bytes now (i32 (Z.of_nat (length part)))) s (λ _ s',
    srv_gained (B + Z.of_nat (length part)) (c + counted_parts [(part, false)]) s' ∧
    zmq_responder_ s' = zmq_responder_ s).
Proof using m0_any.
  intros (HB & Hc & Ht) Hpart. rewrite counted_parts_cons. change (counted_parts []) with 0.
  unfold count_bytes. rewrite i32_small by (unfold INT_MIN; lia). simpl. intros Htakes.
  destruct (Z.ltb_spec 0 (Z.of_nat (length part))) as [Hpos|Hz].
  - rewrite decide_False in * by (intros ->; simpl in Hpos; lia). rewrite Z.add_0_r in *.
    unfold in_s_meter. wp_steps.
    eapply wp_mono; [by apply (AddBytes_gains now E B c); try done; lia|].
    simpl. intros _ m Hm. split; [|done]. split_and!; [lia|lia|done].
  - destruct part; [|simpl in Hz; lia]. rewrite decide_True by done. apply wp_ret.
    split; [|done]. by rewrite !Z.add_0_r.
Qed.

(** Room for the parts in the meter. *)
Definition srv_room (B c : Z) (parts : list (list byte * bool)) : Prop :=
  small_parts parts ∧ meter_takes (B + bytes_of parts) (c + counted_parts parts).

Lemma wp_receive_parts fuel ps lst rest zmsg B c s :
  inbox (zmq_responder_ s) = message ps lst ++ rest → (length ps < fuel)%nat →
  srv_gained B c s → srv_room B c (message ps lst) →
  wp E (receive_parts now fuel zmsg) s (λ zmsg' s', zmsg' = (lst, false) ∧
    inbox (zmq_responder_ s') = rest ∧ sent (zmq_responder_ s') = sent (zmq_responder_ s) ∧
    srv_gained (B + bytes_of (message ps lst)) (c + counted_parts (message ps lst)) s').
Proof using m0_any.
  revert ps zmsg B c s. induction fuel as [|fuel IH]; intros ps zmsg B c s Hin Hf Ht Hroom; [lia|].
  assert (∃ part more tl, message ps lst = (part, more) :: tl ∧
    (if more then ∃ ps', ps = part :: ps' ∧ tl = message ps' lst
     else part = lst ∧ tl = [])) as (part & more & tl & Hmsg & Hcase).
  { destruct ps as [|p ps]; simpl.
    - by exists lst, false, [].
    - exists p, true, (message ps lst). split; [done|]. by exists ps. }
  rewrite Hmsg in *. destruct Hroom as ([Hpart Hsmall]%Forall_cons_iff & Htakes).
  rewrite bytes_of_cons, counted_parts_cons in *. simpl in Hpart, Htakes, Hin.
  pose proof (bytes_of_nonneg tl). pose proof (counted_parts_nonneg tl).
  assert (Hone : counted_parts [(part, false)] = if decide (part = []) then 0 else 1)
    by (rewrite counted_parts_cons; apply Z.add_0_r).
  destruct (msg_recv_ok _ _ _ Hin) as (n' & Hrecv & Hin' & Hsent').
  simpl. unfold in_responder. wp_steps. apply wp_lift. intros r n1 Hr.
  rewrite Hrecv in Hr. simplify_eq/=. wp_step.
  eapply wp_mono; [apply (wp_count_part B c); [exact Ht|lia|by eapply meter_takes_le; [exact Htakes|lia..]]|].
  simpl. intros _ s1 [Ht1 Hn1]. simpl in Hn1. rewrite Hone in Ht1.
  destruct more; simpl.
  - destruct Hcase as (ps' & -> & ->). simpl in Hf.
    eapply wp_mono; [apply (IH ps' _ (B + Z.of_nat (length part))
      (c + if decide (part = []) then 0 else 1) s1); [by rewrite Hn1|lia|done|]|].
    { split; [done|]. by rewrite <- !Z.add_assoc. }
    simpl. intros z s2 (-> & Hin2 & Hs2 & Ht2). rewrite Hn1, Hsent' in Hs2.
    split_and!; try done. by rewrite !Z.add_assoc.
  - destruct Hcase as [-> ->]. apply wp_ret. rewrite Hn1. split_and!; try done.
    change (bytes_of []) with 0. change (counted_parts []) with 0. by rewrite !Z.add_0_r.
Qed.

Lemma wp_RunZero_round fuel ps lst rest B c s :
  inbox (zmq_responder_ s) = message ps lst ++ rest →
  (length ps < fuel)%nat → (max_failures < fuel)%nat →
  srv_gained B c s → srv_room B c (message ps lst) →
  wp E (RunZero_round now fuel) s (λ _ s',
    inbox (zmq_responder_ s') = rest ∧
    sent (zmq_responder_ s') = sent (zmq_responder_ s) ++ message [] [] ∧
    srv_gained (B + bytes_of (message ps lst)) (c + counted_parts (message ps lst)) s').
Proof using m0_any default_empty.
  intros Hin Hf Hmax Ht Hroom. unfold RunZero_round, read_bytes. wp_step.
  eapply wp_mono; [by eapply wp_receive_parts|]. simpl. intros z s1 (-> & Hin1 & Hs1 & Ht1).
  rewrite header_size_0. simpl. destruct (Z.leb_spec 0 (Z.of_nat (length lst))); [|lia].
  unfold in_responder. wp_steps.
  eapply wp_mono; [apply wp_send_until; [pose proof (failures_le (zmq_responder_ s1)); lia|done]|].
  simpl. intros _ n' [Hs2 Hin2]. split_and!; [by rewrite Hin2|by rewrite Hs2, Hs1|done].
Qed.

(** The parts of a sequence of requests. *)
Definition requests (reqs : list (list (list byte) * list byte)) : list (list byte * bool) :=
  mjoin ((λ r, message r.1 r.2) <$> reqs).

Lemma requests_cons r reqs : requests (r :: reqs) = message r.1 r.2 ++ requests reqs.
Proof. done. Qed.

Lemma wp_RunZero_rounds fuel reqs rest B c s :
  inbox (zmq_responder_ s) = requests reqs ++ rest →
  Forall (λ r, (length r.1 < fuel)%nat) reqs → (max_failures < fuel)%nat →
  srv_gained B c s → srv_room B c (requests reqs) →
  wp E (RunZero_rounds now (length reqs) fuel) s (λ _ s',
    inbox (zmq_responder_ s') = rest ∧
    sent (zmq_responder_ s') = sent (zmq_responder_ s) ++ replicate (length reqs) ([], false) ∧
    srv_gained (B + bytes_of (requests reqs)) (c + counted_parts (requests reqs)) s').
Proof using m0_any default_empty.
  revert B c s. induction reqs as [|[ps lst] reqs IH]; intros B c s Hin Hf Hmax Ht Hroom.
  - apply wp_ret. change (bytes_of (requests [])) with 0. change (counted_parts (requests [])) with 0.
    by rewrite !Z.add_0_r, app_nil_r.
  - rewrite requests_cons in *. cbn [fst snd] in *. apply Forall_cons_iff in Hf as [Hf Hfs].
    destruct Hroom as ([Hsm Hsm']%Forall_app & Htakes).
    rewrite bytes_of_app, counted_parts_app in *. rewrite <- app_assoc in Hin.
    pose proof (bytes_of_nonneg (requests reqs)). pose proof (counted_parts_nonneg (requests reqs)).
    pose proof (bytes_of_nonneg (message ps lst)). pose proof (counted_parts_nonneg (message ps lst)).
    simpl. wp_step. eapply wp_mono; [apply (wp_RunZero_round fuel ps lst (requests reqs ++ rest) B c); try done|].
    { split; [done|]. eapply meter_takes_le; [exact Htakes|lia..]. }
    simpl. intros _ s1 (Hin1 & Hs1 & Ht1).
    eapply wp_mono; [apply (IH (B + bytes_of (message ps lst)) (c + counted_parts (message ps lst)) s1);
      try done; split; [done|by rewrite <- !Z.add_assoc]|].
    simpl. intros _ s2 (Hin2 & Hs2 & Ht2). split_and!; [done| |by rewrite !Z.add_assoc].
    rewrite Hs2, Hs1, <- app_assoc. done.
Qed.

(** The rounds over any meter, from the beginning. *)
Lemma wp_RunZero_any fuel reqs rest s :
  m0 = s_meter s → E = meter_overflow (bytes_of (requests reqs)) (counted_parts (requests reqs)) m0 →
  inbox (zmq_responder_ s) = requests reqs ++ rest →
  Forall (λ r, (length r.1 < fuel)%nat) reqs → (max_failures < fuel)%nat →
  small_parts (requests reqs) →
  wp E (RunZero_rounds now (length reqs) fuel) s (λ _ s',
    inbox (zmq_responder_ s') = rest ∧
    sent (zmq_responder_ s') = sent (zmq_responder_ s) ++ replicate (length reqs) ([], false) ∧
    meter_gained (bytes_of (requests reqs)) (counted_parts (requests reqs)) m0 (s_meter s')).
Proof using m0_any default_empty.
  intros Hm HE Hin Hf Hmax Hsm.
  eapply wp_mono; [apply (wp_RunZero_rounds fuel reqs rest 0 0 s); try done|].
  - split_and!; [done|done|]. rewrite Hm. apply meter_gained_refl.
  - split; [done|]. unfold meter_takes. rewrite HE. unfold meter_overflow.
    destruct (decide (disable (ms_meter m0) = 0)); [|by right; left].
    destruct (decide (cnt (ms_meter m0) + counted_parts (requests reqs) ≤ INT_MAX ∧
      Z.max 0 (bytes (ms_meter m0)) + bytes_of (requests reqs) ≤ LONG_MAX)); [right; right; lia|].
    left. split_and!; [done|done|lia].
  - simpl. intros _ s' (? & ? & _ & _ & ?). done.
Qed.
End server.
End zeromq.

(** What a push over ZeroMQ sends.  Whatever the header of the message, the
    parts on the wire are an empty one and the data: the size of the header part is
    taken from a message that has no fields set yet.  When the push returns, it has
    succeeded and has not filled in the header of the acknowledgement; it aborts
    only when the reply is not empty or a signal interrupts the wait for it. *)
Lemma ZeromqPushData_wire {N} `{!Zmq N} `{!ZmqLaws N} `{!BwProtobuf} stack fuel msg
    (s : ZeromqBwClientApp N) :
  SerializeHeader PbBwHeader_default = [] →
  Z.of_nat (length (data msg)) ≤ INT_MAX → (max_failures < fuel)%nat →
  wp (λ r, r = Fatal ∧ ∃ n, sent n = sent (zmq_requester_ s) ++ [([], true); (data msg, false)] ∧
      (u64 (i32 (Z.of_nat (length (awaited n)))) ≠ 0 ∨ interrupted n))
    (Client_PushData stack fuel msg) s (λ ack s', ack = mkBwAck None (Some true) ∧
      sent (zmq_requester_ s') = sent (zmq_requester_ s) ++ [([], true); (data msg, false)]).
Proof. intros Hdef Hd Hf. by apply wp_zmq_PushData. Qed.


(** * Both sides *)

(** [n] pushes of [d] as requests. *)
Definition pushes (n : nat) (d : list byte) : list (list byte * bool) :=
  requests (replicate n ([[]], d)).

Lemma pushes_S n d : pushes (S n) d = pushes n d ++ message [[]] d.
Proof.
  unfold pushes. rewrite replicate_S_end. unfold requests. rewrite fmap_app, join_app. done.
Qed.

Lemma pushes_counts n d :
  bytes_of (pushes n d) = Z.of_nat n * Z.of_nat (length d) ∧
  0 ≤ counted_parts (pushes n d) ≤ Z.of_nat n ∧
  (d ≠ [] → counted_parts (pushes n d) = Z.of_nat n).
Proof.
  induction n as [|n (IHb & IHc & IHn)]; [done|]. rewrite pushes_S, bytes_of_app, counted_parts_app.
  change (bytes_of (message [[]] d)) with (0 + (Z.of_nat (length d) + 0)).
  change (counted_parts (message [[]] d)) with (0 + ((if decide (d = []) then 0 else 1) + 0)).
  destruct (decide (d = [])); split_and!; [lia|lia|lia|done|lia|lia|lia|]. intros. rewrite IHn by done. lia.
Qed.

Lemma pushes_small n d : Z.of_nat (length d) ≤ INT_MAX → small_parts (pushes n d).
Proof.
  intros Hd. induction n as [|n IH]; [constructor|]. rewrite pushes_S. apply Forall_app.
  split; [done|]. repeat constructor; [|done]. simpl. unfold INT_MAX. lia.
Qed.


(** * A socket *)
Module ToyZmq.
(** Before a part is sent, the call is interrupted once or twice.  A signal comes
    after [z_signal] receives. *)
Record socket := Socket {
  z_sent : list (list byte * bool);
  z_inbox : list (list byte * bool);
  z_failures : nat;
  z_signal : nat;
}.

#[export] Instance zmq : Zmq socket := {
  zmq_connect _ n := Socket [] (z_inbox n) (z_failures n) (z_signal n);
  zmq_bind _ n := (0, n);
  zmq_send part n := (i32 (Z.of_nat (length part)),
    Socket (z_sent n ++ [(part, false)]) (z_inbox n) (z_failures n) (z_signal n));
  zmq_recv len n :=
    match z_signal n with
    | O => ((-1, []), Socket (z_sent n) (z_inbox n) (z_failures n) 1000)
    | S k => ((0, []), Socket (z_sent n) (z_inbox n) (z_failures n) k)
    end;
  zmq_msg_send part flags n :=
    match z_failures n with
    | 1%nat | 2%nat => (-1, Socket (z_sent n) (z_inbox n) (pred (z_failures n)) (z_signal n))
    | _ => (i32 (Z.of_nat (length part)),
            Socket (z_sent n ++ [(part, Z.testbit flags 1)]) (z_inbox n) 2 (z_signal n))
    end;
  zmq_msg_recv n :=
    match z_inbox n with
    | [] => (None, n)
    | part :: rest => (Some part, Socket (z_sent n) rest (z_failures n) (z_signal n))
    end;
}.

#[export] Instance zmq_laws : ZmqLaws socket.
Proof.
  refine {| sent := z_sent; inbox := z_inbox; awaited _ := []; interrupted n := z_signal n = 0%nat;
            failures n := (z_failures n `min` 2)%nat; max_failures := 2%nat |}.
  - intros n. lia.
  - done.
  - intros part flags [snt inb f g] n' r Hr. simpl in *.
    destruct f as [|[|[|f]]]; simplify_eq/=; (split; [done|]); eauto with lia.
  - intros [snt inb f g] part rest Hin. simpl in *. rewrite Hin. by eexists.
  - intros len [snt inb f [|g]] r n' Hr; simpl in *; simplify_eq/=; auto.
Defined.

(** No bytes for a header without fields. *)
#[export] Instance proto : BwProtobuf := {
  SerializeHeader h :=
    if decide (h = PbBwHeader_default) then [] else @SerializeHeader ToyProtobuf.toy h;
  ParseHeader bs :=
    match bs with [] => (true, PbBwHeader_default) | _ => @ParseHeader ToyProtobuf.toy bs end;
}.
End ToyZmq.
Import ToyZmq.

Definition demo_zclient : ZeromqBwClientApp socket := mkClient (Socket [] [] 1 7) [].
Definition demo_bytes : list byte := [Byte.x61; Byte.x62; Byte.x63].

(** A server whose meter was never initialized: it is enabled, and begins with 41
    calls and a negative number of bytes. *)
Definition demo_zserver (parts : list (list byte * bool)) : ZeromqBwServerApp socket Z :=
  mkServer (Socket [] parts 0 9) (MState (mkMeter 5 41 (-100) 77 123456789 (-3) 0) [] 0).

Example push_wire_example :
  wp (λ r, r = Fatal ∧ ∃ n : socket,
      sent n = sent (zmq_requester_ demo_zclient) ++ [([], true); (demo_bytes, false)] ∧
      (u64 (i32 (Z.of_nat (length (awaited n)))) ≠ 0 ∨ interrupted n))
    (Client_PushData (replicate 100 Byte.xff) 5 (mkBwMessage (mkBwHeader 1 true stuff) demo_bytes))
    demo_zclient (λ ack s', ack = mkBwAck None (Some true) ∧
      sent (zmq_requester_ s') = sent (zmq_requester_ demo_zclient) ++ [([], true); (demo_bytes, false)]).
Proof.
  apply (ZeromqPushData_wire (replicate 100 Byte.xff) 5
    (mkBwMessage (mkBwHeader 1 true stuff) demo_bytes) demo_zclient); [done|done|].
  simpl. lia.
Qed.


(** The same server runs; one whose counter is at its end does not. *)
Example RunZero_demo :
  (λ s, (ms_meter (s_meter s.2), length (z_sent (zmq_responder_ s.2)))) <$>
    match RunZero_rounds demo_now 2 5
            (demo_zserver (requests [([[]], demo_bytes); ([demo_bytes; []], [])])) with
    | Ret r => Some r | Stop _ => None
    end = Some (mkMeter 5 43 (-94) 77 123456789 (-3) 0, 2%nat).
Proof. vm_compute. reflexivity. Qed.
Example RunZero_undefined :
  RunZero_rounds demo_now 1 5 (mkServer (Socket [] (message [[]] demo_bytes) 0 9)
    (MState (mkMeter 5 INT_MAX 0 0 0 0 0) [] 0)) = Stop Undef.
Proof. vm_compute. reflexivity. Qed.

(** The client's run of the witness returns with seven receives before the signal,
    and aborts with two. *)
Definition demo_zrun (signal : nat) : outcome (Z * Z * run_state (ZeromqBwClientApp socket) Z) :=
  Run demo_now (Client_Init (Some "localhost"%string) 18000)
    (Client_PushData (replicate 100 Byte.xff) 5) 0 10 3 3000000
    (RunState (mkClient (Socket [] [] 1 signal) []) (MState (fresh_meter 1 0 1000) [] 0)).
Example demo_zrun_returns :
  match demo_zrun 7 with Ret r => Some r.1 | Stop _ => None end = Some (39, 3600000000).
Proof. vm_compute. reflexivity. Qed.
Example demo_zrun_aborts : demo_zrun 2 = Stop Fatal.
Proof. vm_compute. reflexivity. Qed.

